(* ===== verification/_CoqProject ===== *)
-Q . S2P
Prelude.v
Wire.v
Interpreter.v
Pending.v
Queued.v
Scheduler.v
Locks.v
Pool.v
Connection.v
Pipeline.v
Contents.v
Rooms.v
Chat.v
Service.v
Lifetime.v
Server.v
Sessions.v
Order.v
Logins.v
Heartbeat.v
Replies.v
Handles.v
Addresses.v
Voices.v
Progress.v
Liveness.v
Schedule.v
Release.v
Fair.v
System.v
Answers.v
Notifications.v
Conversation.v
Logger.v
Tracer.v
Client.v
Prompt.v
Terminal.v
Broker.v
Dispatcher.v
Node.v
Delivery.v
Sequence.v
