(* ===== verification/Prelude.v ===== *)
(** * RSP: a verification library for the RealTime Server Platform

    The repository implements a small game-server platform in C++: a User
    server that accepts TCP clients, a Room server that hosts rooms and loads
    their contents from a shared library, a broker layer on ZeroMQ between
    them, and a command-line client.  This library models the logic of these
    programs as executable Rocq definitions and proves what makes it correct.

    ** How the parts interact

    A client frames protobuf messages ([serializer.hpp]) and writes them to a
    TCP connection.  The server's connection ([tcp_connection.hpp]) reads at most
    128 bytes at a time into a per-connection interpreter
    ([conn_interpreter.hpp]) that hands complete messages to the process-wide
    dispatcher ([message_dispatcher.hpp]), which calls the session of that
    connection ([session.cpp]).  The session turns a message into a job
    ([job_*.hpp]) and posts it to its strand, where a scheduler
    ([job_scheduler.hpp]) runs the jobs one at a time.  A room job sends a request
    to the Room server ([room_channel.hpp]) and waits in a table of pending
    requests ([pending_requests.hpp]) for a response or a timeout.  The Room
    server admits requests through a registry that suppresses duplicates and
    late cancellations ([queued_requests.hpp]), routes them to rooms
    ([room_message_handler.hpp], [room_manager.hpp]), runs them on the rooms'
    strands ([room.hpp], [room.cpp]), calls the room's contents ([contents.cpp])
    and sends responses and notifications back over the router channel
    ([routed_channel.cpp]).

    ** Files

    - [Prelude] (this file): machine integers, exceptions, sums, key-ordered
      iteration of a map, sequences of operations ([run]) and their invariants,
      tactics and the hint database [rsp].
    - [Wire]: [message/helper.hpp], [message/serializer.hpp].  The protobuf
      classes are parameters: [ProtoMessage] is what the code calls of them,
      [ProtoLaws] what it relies on (parsing inverts serialising, the size is
      the length of the serialisation).
    - [Interpreter]: [message/conn_interpreter.hpp], with the dispatcher it feeds
      as the class [message_dispatcher_interface].
    - [Pending]: [message/pending_requests.hpp].  [Queued]:
      [message/queued_requests.hpp].  [Scheduler]: [job/job_scheduler.hpp].
    - [Locks]: [thread/thread_safe.hpp], as a step relation of its threads.
    - [Pool]: [thread/thread_pool.hpp], [server/worker.hpp] and the pools of
      [tcp_server.hpp], over an execution context behind the class [io_context]
      with its laws [io_context_laws].
    - [Connection]: [server/tcp_connection.hpp]; the connection embeds the
      interpreter of [Interpreter] and any dispatcher.  [Pipeline]: the order of
      messages on their way through it.
    - [Contents]: the contents interface ([rci/]) as the class
      [room_message_interface], and its implementation [room_contents/].
    - [Rooms]: [room.hpp], [room.cpp], [room_manager.hpp],
      [room_message_handler.hpp], [user_channel.hpp], for any contents.
      [Service]: the work that is left before a request is completed.
      [Chat]: these rooms with the contents of the repository, and what a
      message does in them.
    - [Lifetime]: [so/so_factory.hpp], [so/so_manager.hpp], the function-local
      statics of the Room server and its [main]: who outlives whom.
    - [Server]: [server/tcp_server.hpp] (the accept loop) and
      [server/server_event.hpp], over [Connection]; observers are behind the
      class [server_event].
    - [Sessions]: [session.hpp], [session.cpp], [session_manager.hpp], the nine job
      classes, [room_channel.hpp] and [acceptor.hpp] of the User server, on top of
      [Scheduler] and [Pending].
    - [Order], [Logins], [Replies], [Handles], [Addresses], [Voices]: invariants
      of [Sessions]: the order in which a client hears of its jobs, the session a
      user's messages go to, what the jobs rely on of the Room server, the
      typing of the heaps, tables, queues and strands, the connection a job
      answers on, and what each job says.
    - [Progress], [Liveness], [Schedule]: what wakes a waiting job, that every
      operation of [Sessions] keeps it, and a schedule that brings the jobs of
      a session to their end.  [Fair]: that every fair schedule does.
      [Release]: what is left of a session whose connection closed.
    - [Heartbeat]: the coroutine [send_heartbeats] of [session.hpp].
    - [System]: [Sessions] and [Rooms] over the two directions of the intranet.
      [Answers]: the schedules of [Schedule] and [Fair] in it.
      [Notifications]: the messages of rooms on their way to a session.
      [Conversation]: the way of a message from one client to the others.
    - [Logger]: [logger/], the flags, levels and statements of the logger.
      [Tracer]: [debug/tracer.hpp], the handlers of the crash signals, over the
      logger and its mutex.
    - [Client]: [rsp-cli]: the states and [client_session.cpp], as a dispatcher of
      the interpreter.  [Prompt]: what it writes to the terminal ([prompt.hpp],
      [state.cpp]).  [Terminal]: [rsp-cli/src/main.cpp], the command loop and the
      end of the process.
    - [Broker]: [broker/routed_channel.cpp], [broker/event_channel.cpp].
    - [Dispatcher]: [message_dispatcher.hpp] and the dispatchers of the servers.
    - [Node]: the User server process: [Server], [Connection], [Dispatcher], the
      acceptor and [Sessions] together.  [Delivery]: from its sessions through
      TCP to the interpreter of a client.  [Sequence]: the order of what it hears.

    ** State, operations, concurrency

    The state of a component is a record with the members of the class; each
    method is a definition with the method's name; pointers are indices into
    a heap where identity matters (tickets, rooms, sessions, jobs).  An
    operation that runs under a mutex, a handler of a strand and an access to
    an atomic are single steps; anything that spans several of them is split
    at their boundaries with an explicit program counter ([Connection.sender]
    for [send], [Rooms.router_pc] and the continuation tasks of [Rooms.task],
    [Broker.channel.phase] for the threads of the channels).  A history is a
    list of events given to [run], so a theorem about every list of events
    is about every interleaving.  Results of the outside world (socket
    errors, clocks, random numbers, failing thread creation) are arguments
    of the events.  What a component does to the outside is a list of effects;
    [Crash] stands for undefined behaviour the C++ would have.

    ** What the theorems show

    - Framing: round trip, decision of the frame grammar, and independence of
      the interpreter from the fragmentation of the stream, including the
      rejection of oversized frames (refinement of the grammar [stream]).
    - Requests: each pending request is resolved at most once and by its
      deadline; the registry of queued requests keeps its capacity bounds, a
      ticket starts and finishes at most once, cancellation and start exclude
      each other, duplicates are suppressed.
    - Scheduling: the scheduler refines a serial first-in first-out executor;
      accounting, mutual exclusion, shutdown and progress follow.
    - Connection: the byte account is exact and bounded, writes are in order,
      closing happens once and is final, overflow closes, a graceful stop
      flushes.
    - Rooms: the registry is consistent, every request is answered once, and
      comes to its end when the threads get their turns ([Service]),
      [on_destroy_room] is the last callback, a join on an open room succeeds,
      the last leave closes the room; a message in a room reaches its members,
      each on its route, or kicks one out ([Chat]); the contents library
      outlives every object of its code ([Lifetime]).
    - Sessions: a room request is answered at most once, a client hears of its
      jobs in the order they were made, room messages go to the latest login of
      their user, the chains of completions terminate, request ids are
      consecutive, no handle dangles, and a closed session is let go by its
      strand, its queue and the pending requests ([Release]).
    - Processes: bytes of a connection reach only its own session and a session
      writes only to its own connection ([Node]); a client's interpreter hands
      out exactly a prefix of the messages sent to it ([Delivery]), the answers
      of its jobs in the order the jobs were made ([Sequence]); every
      connection is announced once and its closing once ([Server]).
    - System: a success a client is told of was granted by the Room server for
      that very request, whatever the channel loses ([System], which
      discharges the assumption of [Replies]); and whatever happened and goes on
      around it, a session whose strand and timer get their turns has each of
      its logins, logouts, room requests and room messages answered or passed
      on, unless its connection closed, and turns that do so exist at any time
      ([Answers]).  What a session hears of rooms is a part, in order, of what
      the Room servers sent, and a message of a room that arrives for a
      logged-in user is heard ([Notifications]); what a client says in a room
      is heard by its members ([Conversation]).
    - Client: the state machine, the end of the session, the parsing of room
      ids; the commands are the lines of the terminal, and the process ends when
      the session does.  Contents: which messages kick a user out.
    - Broker: first-in first-out accounting and progress of the channels, the
      filters of a subscriber, the relay of the event broker.  Dispatcher: the last registration wins; which
      component of the User server receives which message.
    - Logger: what a sequence of statements prints.  Prompt: what a prompt
      prints.  Tracer: a crash is logged and ends the process, and the crashes
      that hang it instead.  Locks: exclusive access.  Pool: what is posted is run once, and
      [stop] joins the threads for good.

    ** Fuel and bounds

    [Interpreter.handle_loop] takes one more than the buffer's length as fuel;
    every iteration consumes a frame of at least 12 bytes, and
    [handle_buffer_total] shows the fuel is never used up.  [Sessions.work] takes the
    number of calls at hand plus the number of queued jobs;
    [session_handlers_total] shows that is enough.  The loop of
    [reserve_send_bytes] is unfolded into one step per compare-and-swap
    attempt, so it needs no fuel.  Integers whose wrap-around matters are
    reduced explicitly ([uint], [to_int]).

    ** Not modelled

    The [asio] and ZeroMQ libraries, whose answers are arguments of the events
    or, for the execution context of a pool, a class with its laws; protobuf, a
    parameter with its laws; [backtrace], data of the event that raises a signal;
    the manipulators of the logger's stream, which pass bytes through, and the
    exceptions a handler may throw through a pool.  The sources the map does not
    name are declarations, includes, logging calls and accessors.

    ** Order of the development

    Framing and requests first, then the two servers, then their composition
    and what it promises to a client: safety ([System], [Delivery], [Sequence])
    before liveness ([Service], [Answers], [Conversation], [Release]).  All
    components of the repository are modelled. *)

From stdpp Require Export base list gmap strings fin_maps sorting relations.
From Stdlib Require Export ZArith Lia.

#[global] Open Scope Z_scope.

(** ** Machine integers

  Unsigned integers of [w] bits wrap modulo [2^w]; [to_int] is the
  conversion to the 32-bit two's-complement [int] of the source. *)

Definition uint (w z : Z) : Z := z mod 2 ^ w.

Definition to_int (z : Z) : Z := (z + 2 ^ 31) mod 2 ^ 32 - 2 ^ 31.

Lemma uint_range w z : 0 <= w -> 0 <= uint w z < 2 ^ w.
Proof. intros. unfold uint. apply Z.mod_pos_bound. lia. Qed.

Lemma uint_small w z : 0 <= z < 2 ^ w -> uint w z = z.
Proof. apply Z.mod_small. Qed.

Lemma uint_idemp w z : 0 <= w -> uint w (uint w z) = uint w z.
Proof. intros. apply uint_small, uint_range; done. Qed.

Lemma to_int_small z : -2 ^ 31 <= z < 2 ^ 31 -> to_int z = z.
Proof. intros. unfold to_int. rewrite Z.mod_small; lia. Qed.

Lemma to_int_uint32 z : to_int (uint 32 z) = to_int z.
Proof. unfold to_int, uint. by rewrite Zplus_mod_idemp_l. Qed.

Lemma uint32_to_int z : uint 32 (to_int z) = uint 32 z.
Proof.
  unfold to_int, uint. rewrite Zminus_mod_idemp_l.
  f_equal. lia.
Qed.

(** ** Exceptions

  A C++ operation that can throw returns an [outcome]. *)

Inductive exn :=
  | length_error
  | logic_error
  | system_error
  | bad_function_call
  | null_dereference.

#[export] Instance exn_eq_dec : EqDecision exn.
Proof. solve_decision. Defined.

Inductive outcome (A : Type) :=
  | Ret (a : A)
  | Throw (e : exn).
Arguments Ret {_} _.
Arguments Throw {_} _.

(** ** Sums of integers over a list *)

Definition sumz {A} (f : A -> Z) (l : list A) : Z :=
  foldr (fun x acc => f x + acc) 0 l.
Arguments sumz : simpl never.

Section sumz.
Context {A : Type} (f : A -> Z).

Lemma sumz_nil : sumz f [] = 0.
Proof. done. Qed.

Lemma sumz_cons x l : sumz f (x :: l) = f x + sumz f l.
Proof. done. Qed.

Lemma sumz_app l1 l2 : sumz f (l1 ++ l2) = sumz f l1 + sumz f l2.
Proof. induction l1 as [|x l1 IH]; [done|]. rewrite <- app_comm_cons, !sumz_cons, IH. lia. Qed.

Lemma sumz_snoc l x : sumz f (l ++ [x]) = sumz f l + f x.
Proof. rewrite sumz_app, sumz_cons, sumz_nil. lia. Qed.

Lemma sumz_nonneg l : (forall x, x ∈ l -> 0 <= f x) -> 0 <= sumz f l.
Proof.
  induction l as [|x l IH]; intros H; [done|]. rewrite sumz_cons.
  assert (0 <= f x) by (apply H; set_solver).
  assert (0 <= sumz f l) by (apply IH; set_solver). lia.
Qed.

Lemma sumz_insert l i x y :
  l !! i = Some x -> sumz f (<[i:=y]> l) = sumz f l - f x + f y.
Proof.
  revert i. induction l as [|z l IH]; intros [|i] H; simplify_eq/=;
    rewrite !sumz_cons; [lia|]. rewrite (IH i H). lia.
Qed.
End sumz.

(** Concatenation of strings. *)
Lemma string_app_cons c s s' : String c s +:+ s' = String c (s +:+ s').
Proof. done. Qed.

Lemma string_app_nil_l s : "" +:+ s = s.
Proof. done. Qed.

Lemma string_app_nil_r s : s +:+ "" = s.
Proof. induction s as [|c s IH]; [done|]. by rewrite string_app_cons, IH. Qed.

Lemma string_app_assoc s1 s2 s3 : (s1 +:+ s2) +:+ s3 = s1 +:+ s2 +:+ s3.
Proof. induction s1 as [|c s1 IH]; [done|]. by rewrite !string_app_cons, IH. Qed.

Lemma length_omap_le {A B} (f : A -> option B) (l : list A) :
  (length (omap f l) <= length l)%nat.
Proof. induction l as [|x l IH]; [done|]. cbn. destruct (f x); cbn; lia. Qed.

(** Replacing an element by one that yields no more. *)
Lemma omap_insert {A B} (f : A -> option B) (l : list A) i x y :
  l !! i = Some x -> (forall b, f y = Some b -> f x = Some b) ->
  omap f (<[i := y]> l) ⊆ omap f l.
Proof.
  intros Hi Hf b (z&Hz&Hb)%list_elem_of_omap.
  apply list_elem_of_lookup in Hz as [j Hj]. apply list_elem_of_omap.
  apply list_lookup_insert_Some in Hj as [(->&->&_)|[_ Hj]].
  - exists x. split; [by eapply list_elem_of_lookup_2|auto].
  - exists z. split; [by eapply list_elem_of_lookup_2|done].
Qed.

(** Distinct keys determine their values. *)
Lemma NoDup_fst_functional {A B} (l : list (A * B)) a b b' :
  NoDup l.*1 -> (a, b) ∈ l -> (a, b') ∈ l -> b = b'.
Proof.
  intros Hn Hb Hb'. apply list_elem_of_lookup in Hb as [i Hi], Hb' as [j Hj].
  assert (i = j) as ->; [|congruence].
  eapply NoDup_lookup; [exact Hn|by rewrite list_lookup_fmap, Hi|by rewrite list_lookup_fmap, Hj].
Qed.

(** How many elements of a list satisfy a test. *)
Definition count {A} (p : A -> bool) (l : list A) : Z := sumz (fun x => Z.b2z (p x)) l.

Lemma count_app {A} (p : A -> bool) l l' : count p (l ++ l') = count p l + count p l'.
Proof. apply sumz_app. Qed.

Lemma count_nonneg {A} (f : A -> bool) l : 0 <= count f l.
Proof. unfold count. apply sumz_nonneg. intros x _. destruct (f x); cbn; lia. Qed.

Lemma existsb_count {A} (f : A -> bool) l :
  if existsb f l then 0 < count f l else count f l = 0.
Proof.
  induction l as [|x l IH]; [done|]. unfold count in *. rewrite sumz_cons. cbn [existsb].
  pose proof (count_nonneg f l) as Hn. unfold count in Hn.
  destruct (f x); cbn; [lia|]. by destruct (existsb f l).
Qed.

Lemma mjoin_cons {A} (x : list A) (l : list (list A)) : mjoin (x :: l) = x ++ mjoin l.
Proof. done. Qed.

Lemma mjoin_app {A} (l l' : list (list A)) : mjoin (l ++ l') = mjoin l ++ mjoin l'.
Proof. induction l as [|x l IH]; [done|]. cbn [app]. by rewrite !mjoin_cons, IH, app_assoc. Qed.

Create HintDb rsp discriminated.

(** ** Sublists and orders *)

Lemma sublist_omap {A B} (f : A -> option B) l k :
  l `sublist_of` k -> omap f l `sublist_of` omap f k.
Proof.
  induction 1 as [|x l k _ IH|x l k _ IH]; [done|..]; cbn; destruct (f x); cbn; try done.
  - by apply sublist_skip.
  - by apply sublist_cons.
Qed.

Lemma submseteq_omap {A B} (f : A -> option B) l k : l ⊆+ k -> omap f l ⊆+ omap f k.
Proof.
  intros [k' E]%submseteq_Permutation. rewrite E, omap_app. by apply submseteq_inserts_r.
Qed.

(** Looking all positions up is going through the list. *)
Lemma omap_lookup_seq {A B} (f : A -> option B) l :
  omap (fun j => l !! j ≫= f) (seq 0 (length l)) = omap f l.
Proof.
  induction l as [|x l IH] using rev_ind; [done|].
  rewrite length_app, seq_app, !omap_app. f_equal.
  - rewrite <- IH. apply list_omap_ext. apply Forall2_same_length_lookup_2; [done|].
    intros i a b Ha Hb. simplify_eq. apply lookup_seq in Ha as [-> Hi].
    by rewrite lookup_app_l.
  - cbn. by rewrite lookup_app_r, Nat.sub_diag.
Qed.

Lemma sorted_sublist_seq (L : list nat) o n :
  StronglySorted lt L -> Forall (fun j => (o <= j < o + n)%nat) L -> L `sublist_of` seq o n.
Proof.
  revert o L. induction n as [|n IH]; intros o L Hs Hb.
  { destruct L as [|j L]; [done|]. apply Forall_cons in Hb as [? _]. lia. }
  cbn [seq]. destruct L as [|j L]; [apply sublist_nil_l|].
  apply StronglySorted_inv in Hs as [Hs Hj]. apply Forall_cons in Hb as [Ho Hb].
  assert (Hl : Forall (fun j' => (S o <= j' < S o + n)%nat) L).
  { rewrite Forall_forall in *. intros j' H'. specialize (Hj _ H'). specialize (Hb _ H'). lia. }
  destruct (decide (j = o)) as [->|Hne]; [by apply sublist_skip, IH|].
  apply sublist_cons, IH; [by constructor|]. constructor; [lia|done].
Qed.

Lemma filter_sublist {A} (P : A -> Prop) `{!forall x, Decision (P x)} (l k : list A) :
  l `sublist_of` k -> filter P l `sublist_of` filter P k.
Proof.
  induction 1 as [|x l k _ IH|x l k _ IH]; [done|..]; rewrite ?filter_cons; case_decide; try done.
  - by apply sublist_skip.
  - by apply sublist_cons.
Qed.

Lemma sorted_sublist {A} (R : relation A) l k :
  l `sublist_of` k -> StronglySorted R k -> StronglySorted R l.
Proof.
  induction 1 as [|x l k Hs IH|x l k Hs IH]; intros Hk; [done|..]; apply StronglySorted_inv in Hk as [Hk Hx].
  - constructor; [auto|]. rewrite Forall_forall in *. intros y Hy. apply Hx. by eapply elem_of_sublist.
  - auto.
Qed.

Lemma StronglySorted_NoDup (l : list nat) : StronglySorted lt l -> NoDup l.
Proof.
  induction 1 as [|x l _ IH Hx]; constructor; [|done]. intros Hin. rewrite Forall_forall in Hx.
  specialize (Hx x Hin). lia.
Qed.

(** A list is free of duplicates when its classes are. *)
Lemma NoDup_classes {A I} (P : I -> A -> Prop) `{!forall i x, Decision (P i x)} (L : list A) :
  (forall x, x ∈ L -> exists i, P i x) -> (forall i, NoDup (filter (P i) L)) -> NoDup L.
Proof.
  induction L as [|x L IH]; intros Hc Hn; [constructor|]. constructor.
  - intros Hx. destruct (Hc x) as [i Hi]; [set_solver|]. specialize (Hn i).
    rewrite filter_cons_True in Hn by done. apply NoDup_cons in Hn as [Hn _].
    apply Hn, list_elem_of_filter. done.
  - apply IH; [set_solver|]. intros i. specialize (Hn i). rewrite filter_cons in Hn.
    case_decide; [by apply NoDup_cons in Hn as [_ ?]|done].
Qed.

(** ** Iteration in key order

  [std::map] iterates in increasing key order.  Maps are [gmap]s and an
  iteration walks [map_entries], the key-sorted association list. *)

Section map_entries.
Context {K V : Type} `{Countable K} (R : relation K) `{!RelDecision R}.

Definition entry_le (a b : K * V) : Prop := R a.1 b.1.
#[local] Instance entry_le_dec a b : Decision (entry_le a b).
Proof. unfold entry_le. apply _. Defined.

Definition map_entries (m : gmap K V) : list (K * V) :=
  merge_sort entry_le (map_to_list m).

Lemma map_entries_perm m : map_entries m ≡ₚ map_to_list m.
Proof. apply merge_sort_Permutation. Qed.

Lemma elem_of_map_entries m k v : (k, v) ∈ map_entries m <-> m !! k = Some v.
Proof. rewrite map_entries_perm. apply elem_of_map_to_list. Qed.

Lemma map_entries_sorted `{!Total R} m : Sorted entry_le (map_entries m).
Proof. apply Sorted_merge_sort. intros a b. apply (total R). Qed.

Lemma map_entries_NoDup m : NoDup (map_entries m).*1.
Proof. rewrite map_entries_perm. apply NoDup_fst_map_to_list. Qed.

Lemma map_entries_nil m : map_entries m = [] <-> m = ∅.
Proof.
  rewrite <- map_to_list_empty_iff. split; intros E.
  - apply Permutation_nil. by rewrite <- map_entries_perm, E.
  - unfold map_entries. by rewrite E.
Qed.

Lemma length_map_entries m : length (map_entries m) = size m.
Proof. by rewrite map_entries_perm, length_map_to_list. Qed.
End map_entries.

#[export] Hint Rewrite @elem_of_map_entries : rsp.

(** ** Invariants of a step relation *)

Section invariants.
Context {S : Type} (step : S -> S -> Prop).

Definition preserved (I : S -> Prop) : Prop :=
  forall s s', I s -> step s s' -> I s'.

Lemma invariant_rtc (I : S -> Prop) s s' :
  preserved I -> I s -> rtc step s s' -> I s'.
Proof. intros HI Hs Hr. induction Hr; eauto. Qed.
End invariants.

(** ** Sequences of operations

    A component whose operations are atomic is a function
    [exec : O -> S -> R * S]; an interleaving of its callers is a list of
    operations. *)

Section machine.
Context {S O R : Type} (exec : O -> S -> R * S).

Fixpoint run (os : list O) (s : S) : list R * S :=
  match os with
  | [] => ([], s)
  | o :: os =>
      let '(r, s) := exec o s in
      let '(rs, s) := run os s in
      (r :: rs, s)
  end.

Lemma run_cons o os s :
  run (o :: os) s =
    ((exec o s).1 :: (run os (exec o s).2).1, (run os (exec o s).2).2).
Proof. cbn. destruct (exec o s) as [r s']. cbn. by destruct (run os s'). Qed.

Lemma run_app os os' s :
  run (os ++ os') s =
    ((run os s).1 ++ (run os' (run os s).2).1, (run os' (run os s).2).2).
Proof.
  revert s. induction os as [|o os IH]; intros s; cbn [app].
  - cbn. by destruct (run os' s).
  - by rewrite !run_cons, IH.
Qed.

Lemma run_snoc os o s :
  run (os ++ [o]) s =
    ((run os s).1 ++ [(exec o (run os s).2).1], (exec o (run os s).2).2).
Proof.
  rewrite run_app, run_cons. done.
Qed.

Lemma run_invariant (I : S -> Prop) os s :
  (forall o s, I s -> I (exec o s).2) -> I s -> I (run os s).2.
Proof.
  intros HI. revert s. induction os as [|o os IH]; intros s Hs; [done|].
  rewrite run_cons. cbn. auto.
Qed.

(** How often an operation of a run had a result that counts as firing. *)
Definition firings (fires : O -> R -> bool) (os : list O) (s : S) : nat :=
  length (filter (fun x => fires x.1 x.2 = true) (zip os (run os s).1)).

Lemma firings_cons fires o os s :
  firings fires (o :: os) s =
    ((if fires o (exec o s).1 then 1 else 0) + firings fires os (exec o s).2)%nat.
Proof.
  unfold firings. rewrite run_cons. cbn [fst zip zip_with].
  destruct (fires o (exec o s).1) eqn:E.
  - by rewrite filter_cons_True by done.
  - rewrite filter_cons_False by (cbn; congruence). done.
Qed.

(** An event that needs an armed state, disarms it, and cannot be re-armed,
    happens at most once. *)
Lemma firings_at_most_once fires (I armed : S -> Prop) os s :
  (forall o s, I s -> I (exec o s).2) ->
  (forall o s, I s -> fires o (exec o s).1 = true -> armed s /\ ~ armed (exec o s).2) ->
  (forall o s, I s -> ~ armed s -> ~ armed (exec o s).2) ->
  I s -> (firings fires os s <= 1)%nat /\ (~ armed s -> firings fires os s = 0%nat).
Proof.
  intros HI Hf Hd. revert s. induction os as [|o os IH]; intros s Hs.
  { unfold firings. cbn. split; [lia|done]. }
  rewrite firings_cons. destruct (IH _ (HI o s Hs)) as [IH1 IH2].
  destruct (fires o (exec o s).1) eqn:E.
  - destruct (Hf o s Hs E) as [Ha Hn]. rewrite (IH2 Hn). split; [lia|done].
  - split; [lia|]. intros Hn. rewrite IH2; [done|]. by apply Hd.
Qed.
End machine.

(** ** Tactics *)

(** Case analysis on the scrutinee of the first [match] or [if] found. *)
Ltac case_scrut :=
  match goal with
  | |- context [match ?x with _ => _ end] => destruct x eqn:?
  | H : context [match ?x with _ => _ end] |- _ => destruct x eqn:?
  end.

(** Reflect boolean integer tests in the hypotheses. *)
Ltac breflect :=
  repeat match goal with
  | H : (_ <=? _) = true |- _ => apply Z.leb_le in H
  | H : (_ <=? _) = false |- _ => apply Z.leb_gt in H
  | H : (_ <? _) = true |- _ => apply Z.ltb_lt in H
  | H : (_ <? _) = false |- _ => apply Z.ltb_ge in H
  | H : (_ =? _) = true |- _ => apply Z.eqb_eq in H
  | H : (_ =? _) = false |- _ => apply Z.eqb_neq in H
  | H : (_ && _)%bool = true |- _ => apply andb_true_iff in H; destruct H
  | H : (_ && _)%bool = false |- _ => apply andb_false_iff in H
  | H : (_ || _)%bool = true |- _ => apply orb_true_iff in H
  | H : (_ || _)%bool = false |- _ => apply orb_false_iff in H; destruct H
  | H : negb _ = true |- _ => apply negb_true_iff in H
  | H : negb _ = false |- _ => apply negb_false_iff in H
  end.

(** Decide a boolean integer test in the goal with linear arithmetic. *)
Ltac bdecide :=
  repeat match goal with
  | |- context [?a <=? ?b] =>
    first [rewrite (proj2 (Z.leb_le a b)) by lia
          |rewrite (proj2 (Z.leb_gt a b)) by lia]
  | |- context [?a <? ?b] =>
    first [rewrite (proj2 (Z.ltb_lt a b)) by lia
          |rewrite (proj2 (Z.ltb_ge a b)) by lia]
  end.
