(* ===== verification/Wire.v ===== *)
(** * Wire: frame encoding and decoding

    Models [rsp-libs/include/rsplib/message/helper.hpp] and
    [serializer.hpp]: the big-endian integer codec, the frame serializer and
    the frame destructor, over bytes as [Byte.byte].  Protobuf is third-party
    code: a message type is a [ProtoMessage], and what the code relies on is
    stated by [ProtoLaws]. *)

From S2P Require Import Prelude.
From coqutil Require Import Byte Word.LittleEndianList.

Notation raw_buffer := (list Init.Byte.byte) (only parsing).

(** ** helper.hpp *)

Module helper.
  (** [retrieve_parts] takes its bounds as [int].  Iterators outside the
      buffer are undefined behaviour: [None]. *)
Definition retrieve_parts (buf : raw_buffer) (begin end_ : Z)
    : option raw_buffer :=
    let begin := to_int begin in
    let end_ := to_int end_ in
    if end_ <=? begin then Some []
    else if (0 <=? begin) && (end_ <=? Z.of_nat (length buf)) then
      Some (take (Z.to_nat (end_ - begin)) (drop (Z.to_nat begin) buf))
    else None.

Definition retrieve_v := retrieve_parts.

  (** [mset_be]: one byte per iteration, most significant first. *)
Fixpoint mset_be_loop (remaining : nat) (value : Z) (dest : raw_buffer)
    : raw_buffer :=
    match remaining with
    | O => dest
    | S r =>
        let byte := byte.of_Z (Z.land (Z.shiftr value (Z.of_nat r * 8)) 255) in
        mset_be_loop r value (dest ++ [byte])
    end.

Definition mset_be (sizeof_T : nat) (dest : raw_buffer) (value : Z)
    : raw_buffer :=
    mset_be_loop sizeof_T (uint (Z.of_nat sizeof_T * 8) value) dest.

  (** [mget_be]: [None] is the [false] return, [Some v] is [*dest = v]. *)
Fixpoint mget_be_loop (w : Z) (src : raw_buffer) (position count : nat)
    (value : Z) : Z :=
    match count with
    | O => value
    | S n =>
        let byte := byte.unsigned (nth position src Init.Byte.x00) in
        mget_be_loop w src (S position) n
          (Z.lor (uint w (Z.shiftl value 8)) byte)
    end.

Definition mget_be (sizeof_T : nat) (src : raw_buffer) (offset : Z)
    : option Z :=
    let size := Z.of_nat (length src) in
    if (size <? offset) || (size - offset <? Z.of_nat sizeof_T) then None
    else Some (mget_be_loop (Z.of_nat sizeof_T * 8) src (Z.to_nat offset)
                 sizeof_T 0).
End helper.
Import helper.

(** ** MessageType and serializer.hpp

    Protobuf enums are open and have [int] as underlying type: a
    [MessageType] is an [int]. *)

Notation MessageType := Z (only parsing).

Module MessageTypes.
Definition kPing : MessageType := 0.
Definition kPong : MessageType := 1.
Definition kReqLogin : MessageType := 2.
Definition kResLogin : MessageType := 3.
Definition kReqLogout : MessageType := 4.
Definition kResLogout : MessageType := 5.
Definition kReqCreateRoom : MessageType := 6.
Definition kResCreateRoom : MessageType := 7.
Definition kReqJoinRoom : MessageType := 8.
Definition kResJoinRoom : MessageType := 9.
Definition kFwdRoom : MessageType := 10.
Definition kFwdClient : MessageType := 12.
Definition kUser2RoomReqCreateRoom : MessageType := 14.
Definition kUser2RoomResCreateRoom : MessageType := 15.
Definition kUser2RoomReqJoinRoom : MessageType := 16.
Definition kUser2RoomResJoinRoom : MessageType := 17.
Definition kUser2RoomFwdRoom : MessageType := 18.
Definition kUser2RoomFwdClient : MessageType := 20.
Definition kUser2RoomNtfLeaveRoom : MessageType := 22.
Definition kNtfLeaveRoom : MessageType := 23.
Definition kReqLeaveRoom : MessageType := 24.
Definition kResLeaveRoom : MessageType := 25.
Definition kUser2RoomReqLeaveRoom : MessageType := 26.
Definition kUser2RoomResLeaveRoom : MessageType := 27.
Definition kUser2RoomCancelRequest : MessageType := 28.
End MessageTypes.

Definition is_int (z : Z) : Prop := -2 ^ 31 <= z < 2 ^ 31.

#[export] Instance is_int_dec z : Decision (is_int z).
Proof. unfold is_int. apply _. Defined.

(** A protobuf message type: the three calls the serializer makes.
    [parse_from_istream] returns the [bool] and the message it filled. *)
Class ProtoMessage (M : Type) := {
  byte_size_long : M -> Z;
  serialize_as_string : M -> raw_buffer;
  parse_from_istream : raw_buffer -> bool * M;
}.

(** What protobuf documents of these calls. *)
Class ProtoLaws (M : Type) `{ProtoMessage M} := {
  byte_size_long_length m :
    byte_size_long m = Z.of_nat (length (serialize_as_string m));
  parse_serialize m :
    parse_from_istream (serialize_as_string m) = (true, m);
}.

Inductive parse_status := kIncomplete | kComplete | kInvalid.

#[export] Instance parse_status_eq_dec : EqDecision parse_status.
Proof. solve_decision. Defined.

Record meta := Meta {
  status : parse_status;
  size : Z;
  payload_size : Z;
  type : MessageType;
  payload : raw_buffer;
}.

Module serializer.
Definition kContentLen : Z := 8.
Definition kType : Z := 4.
Definition kHeaderSize : Z := kContentLen + kType.
Definition kMaxPayloadSize : Z := 64 * 1024.

(** The [return {}] of the source: every member at its default. *)
Definition meta_default : meta := Meta kIncomplete 0 0 0 [].

Definition serialize {M} `{ProtoMessage M} (type : MessageType) (message : M)
    : outcome raw_buffer :=
  let content_len := byte_size_long message in
  if kMaxPayloadSize <? content_len then Throw length_error
  else
    let buffer := mset_be 8 [] (uint 64 content_len) in
    let buffer := mset_be 4 buffer (uint 32 type) in
    Ret (buffer ++ serialize_as_string message).

Definition destruct_buffer (buffer : raw_buffer) : meta :=
  match mget_be 8 buffer 0 with
  | None => meta_default
  | Some content_length =>
      if kMaxPayloadSize <? content_length then
        Meta kInvalid 0 0 0 []
      else
        let payload_size := uint 64 content_length in
        let message_len := uint 64 (kHeaderSize + payload_size) in
        if Z.of_nat (length buffer) <? message_len then meta_default
        else
          match mget_be 4 buffer kContentLen with
          | None => meta_default
          | Some type_parts =>
              let type := to_int type_parts in
              let payload :=
                take (Z.to_nat (message_len - kHeaderSize))
                     (drop (Z.to_nat (kContentLen + kType)) buffer) in
              Meta kComplete message_len payload_size type payload
          end
  end.

Definition deserialize {M} `{ProtoMessage M} (buffer : raw_buffer) : bool * M :=
  parse_from_istream buffer.
End serializer.
Import serializer.

(** ** Facts about the integer codec *)

Section codec.

(** The reference encoding: [n] bytes, most significant first. *)
Definition be_bytes (n : nat) (v : Z) : raw_buffer := rev (le_split n v).
Definition be_value (l : raw_buffer) : Z := le_combine (rev l).

Lemma length_be_bytes n v : length (be_bytes n v) = n.
Proof. unfold be_bytes. by rewrite length_rev, length_le_split. Qed.

Lemma be_value_bytes n v : be_value (be_bytes n v) = uint (Z.of_nat n * 8) v.
Proof. unfold be_value, be_bytes. by rewrite rev_involutive, le_combine_split. Qed.

Lemma be_bytes_value l : be_bytes (length l) (be_value l) = l.
Proof.
  unfold be_value, be_bytes.
  rewrite <- (length_rev l), split_le_combine, rev_involutive. done.
Qed.

Lemma be_bytes_value' n l : length l = n -> be_bytes n (be_value l) = l.
Proof. intros <-. apply be_bytes_value. Qed.

Lemma be_value_range l : 0 <= be_value l < 2 ^ (Z.of_nat (length l) * 8).
Proof.
  unfold be_value. pose proof (le_combine_bound (rev l)) as H.
  rewrite length_rev, Z.mul_comm in H. done.
Qed.

Lemma be_bytes_uint n v : be_bytes n (uint (Z.of_nat n * 8) v) = be_bytes n v.
Proof. unfold be_bytes, uint. by rewrite <- le_split_mod. Qed.

Lemma byte_of_Z_land z : byte.of_Z (Z.land z 255) = byte.of_Z z.
Proof.
  apply byte.unsigned_inj. rewrite !byte.unsigned_of_Z. unfold byte.wrap.
  change 255 with (Z.ones 8). rewrite Z.land_ones by lia.
  apply Z.mod_mod. lia.
Qed.

Lemma le_split_snoc n v :
  le_split (S n) v = le_split n v ++ [byte.of_Z (Z.shiftr v (Z.of_nat n * 8))].
Proof.
  revert v. induction n as [|n IH]; intros v.
  - unfold le_split. by rewrite Z.shiftr_0_r.
  - change (le_split (S (S n)) v)
      with (byte.of_Z v :: le_split (S n) (Z.shiftr v 8)).
    rewrite IH, Z.shiftr_shiftr by lia.
    change (le_split (S n) v) with (byte.of_Z v :: le_split n (Z.shiftr v 8)).
    by replace (8 + Z.of_nat n * 8) with (Z.of_nat (S n) * 8) by lia.
Qed.

Lemma mset_be_loop_bytes n v dest :
  mset_be_loop n v dest = dest ++ be_bytes n v.
Proof.
  revert dest. induction n as [|n IH]; intros dest; cbn [mset_be_loop].
  - by rewrite app_nil_r.
  - rewrite IH, byte_of_Z_land. unfold be_bytes.
    by rewrite le_split_snoc, rev_app_distr, <- app_assoc.
Qed.

Lemma mset_be_bytes n v dest : mset_be n dest v = dest ++ be_bytes n v.
Proof.
  unfold mset_be. by rewrite mset_be_loop_bytes, be_bytes_uint.
Qed.

Lemma drop_nth (src : raw_buffer) p :
  (p < length src)%nat -> drop p src = nth p src Init.Byte.x00 :: drop (S p) src.
Proof.
  revert p. induction src as [|b src IH]; intros [|p] Hp; cbn in *; try lia.
  - by rewrite drop_0.
  - apply IH. lia.
Qed.

(** The loop of [mget_be] shifts an accumulator that never overflows [w]. *)
Lemma mget_be_loop_value w src p n v :
  (p + n <= length src)%nat -> Z.of_nat n * 8 <= w ->
  0 <= v < 2 ^ (w - Z.of_nat n * 8) ->
  mget_be_loop w src p n v =
    Z.lor (Z.shiftl v (Z.of_nat n * 8)) (be_value (take n (drop p src))).
Proof.
  revert p v. induction n as [|n IH]; intros p v Hp Hw Hv; cbn [mget_be_loop].
  - by rewrite take_0, Z.shiftl_0_r, Z.lor_0_r.
  - set (b := nth p src Init.Byte.x00).
    pose proof (byte.unsigned_range b) as Hb.
    assert (Hs : Z.shiftl v 8 = v * 256) by (by rewrite Z.shiftl_mul_pow2).
    assert (Hpow : 2 ^ (w - Z.of_nat n * 8) = 2 ^ (w - Z.of_nat (S n) * 8) * 256).
    { change 256 with (2 ^ 8). rewrite <- Z.pow_add_r by lia. f_equal. lia. }
    assert (Hle : 2 ^ (w - Z.of_nat n * 8) <= 2 ^ w)
      by (apply Z.pow_le_mono_r; lia).
    rewrite uint_small by lia.
    rewrite (drop_nth src p) by lia. cbn [take]. fold b.
    rewrite IH; [|lia|lia|].
    2: { split; [apply Z.lor_nonneg; lia|].
         destruct (Z.eq_dec v 0) as [->|].
         { rewrite Z.shiftl_0_l, Z.lor_0_l. lia. }
         apply (Z.le_lt_trans _ (Z.shiftl v 8 + byte.unsigned b)); [|lia].
         pose proof (Z.add_lor_land (Z.shiftl v 8) (byte.unsigned b)).
         assert (0 <= Z.land (Z.shiftl v 8) (byte.unsigned b))
           by (apply Z.land_nonneg; lia). lia. }
    unfold be_value. cbn [rev]. rewrite le_combine_app, length_rev, length_take,
      length_drop, le_combine_1, Z.shiftl_lor, Z.shiftl_shiftl by lia.
    replace (n `min` (length src - S p))%nat with n by lia.
    replace (8 + Z.of_nat n * 8) with (Z.of_nat (S n) * 8) by lia.
    rewrite <- Z.lor_assoc. f_equal. apply Z.lor_comm.
Qed.

Lemma mget_be_value n src offset :
  0 <= offset -> offset + Z.of_nat n <= Z.of_nat (length src) ->
  mget_be n src offset = Some (be_value (take n (drop (Z.to_nat offset) src))).
Proof.
  intros H0 Hn. unfold mget_be.
  replace (_ || _)%bool with false by (symmetry; apply orb_false_iff; split; bdecide; done).
  rewrite mget_be_loop_value; [|lia|lia|].
  - by rewrite Z.shiftl_0_l, Z.lor_0_l.
  - rewrite Z.sub_diag. lia.
Qed.

Lemma mget_be_None n src offset :
  Z.of_nat (length src) < offset + Z.of_nat n -> mget_be n src offset = None.
Proof.
  intros Hn. unfold mget_be.
  destruct (Z.ltb_spec (Z.of_nat (length src)) offset); [done|].
  by bdecide.
Qed.
End codec.

(** ** Frames *)

Section frames.

(** The abstract frame: 8 length bytes, 4 type bytes, the payload. *)
Definition frame (type : MessageType) (payload : raw_buffer) : raw_buffer :=
  be_bytes 8 (Z.of_nat (length payload)) ++ be_bytes 4 type ++ payload.

Lemma length_frame t p : length (frame t p) = (12 + length p)%nat.
Proof. unfold frame. rewrite !length_app, !length_be_bytes. lia. Qed.

Lemma serialize_frame {M} `{ProtoLaws M} t (m : M) :
  serialize t m =
    if 65536 <? Z.of_nat (length (serialize_as_string m)) then Throw length_error
    else Ret (frame t (serialize_as_string m)).
Proof.
  unfold serialize. rewrite byte_size_long_length. change kMaxPayloadSize with 65536.
  destruct (Z.ltb_spec 65536 (Z.of_nat (length (serialize_as_string m)))); [done|].
  unfold frame. rewrite !mset_be_bytes, app_nil_l, <- app_assoc.
  rewrite uint_small by lia. by rewrite (be_bytes_uint 4).
Qed.

(** What [destruct_buffer] computes, in terms of the reference codec. *)
Lemma destruct_buffer_unfold b :
  destruct_buffer b =
    if Z.of_nat (length b) <? 8 then meta_default
    else let n := be_value (take 8 b) in
    if 65536 <? n then Meta kInvalid 0 0 0 []
    else if Z.of_nat (length b) <? 12 + n then meta_default
    else Meta kComplete (12 + n) n (to_int (be_value (take 4 (drop 8 b))))
           (take (Z.to_nat n) (drop 12 b)).
Proof.
  unfold destruct_buffer.
  destruct (Z.ltb_spec (Z.of_nat (length b)) 8).
  { by rewrite mget_be_None by lia. }
  rewrite mget_be_value by lia. change (Z.to_nat 0) with 0%nat. rewrite drop_0.
  cbn zeta. change kMaxPayloadSize with 65536.
  destruct (Z.ltb_spec 65536 (be_value (take 8 b))); [done|].
  pose proof (be_value_range (take 8 b)).
  change kHeaderSize with 12. change kContentLen with 8. change kType with 4.
  rewrite (uint_small 64 (be_value _)), (uint_small 64 (12 + _)) by lia.
  destruct (Z.ltb_spec (Z.of_nat (length b)) (12 + be_value (take 8 b))); [done|].
  rewrite mget_be_value by lia.
  by replace (12 + be_value (take 8 b) - 12) with (be_value (take 8 b)) by lia.
Qed.

Lemma take_be_bytes n v rest : take n (be_bytes n v ++ rest) = be_bytes n v.
Proof. rewrite take_app_length'; [done|]. by rewrite length_be_bytes. Qed.

Lemma drop_be_bytes n v rest : drop n (be_bytes n v ++ rest) = rest.
Proof. rewrite drop_app_length'; [done|]. by rewrite length_be_bytes. Qed.

Lemma destruct_frame t p rest :
  is_int t -> Z.of_nat (length p) <= 65536 ->
  destruct_buffer (frame t p ++ rest) =
    Meta kComplete (12 + Z.of_nat (length p)) (Z.of_nat (length p)) t p.
Proof.
  intros Ht Hp. rewrite destruct_buffer_unfold, length_app, length_frame.
  unfold frame. rewrite <- !app_assoc, take_be_bytes, drop_be_bytes, be_value_bytes.
  rewrite uint_small by lia. cbn zeta. bdecide.
  rewrite take_be_bytes, be_value_bytes. f_equal.
  - rewrite to_int_uint32. by apply to_int_small.
  - change 12%nat with (8 + 4)%nat. rewrite <- drop_drop, drop_be_bytes, drop_be_bytes.
    by rewrite Nat2Z.id, take_app_length.
Qed.

Lemma destruct_complete b :
  status (destruct_buffer b) = kComplete ->
  let m := destruct_buffer b in
  is_int (type m) /\ payload_size m = Z.of_nat (length (payload m)) /\
  payload_size m <= 65536 /\ size m = 12 + payload_size m /\
  exists rest, b = frame (type m) (payload m) ++ rest.
Proof.
  rewrite destruct_buffer_unfold. cbn zeta. repeat case_scrut; try done. intros _.
  cbn [type payload payload_size size]. breflect.
  set (n := be_value (take 8 b)) in *.
  pose proof (be_value_range (take 8 b)) as Hn. fold n in Hn.
  assert (Hl : length (take (Z.to_nat n) (drop 12 b)) = Z.to_nat n)
    by (rewrite length_take, length_drop; lia).
  split_and!.
  - unfold is_int, to_int. pose proof (Z.mod_pos_bound
      (be_value (take 4 (drop 8 b)) + 2 ^ 31) (2 ^ 32)). lia.
  - rewrite Hl. lia.
  - done.
  - done.
  - exists (drop (Z.to_nat n) (drop 12 b)). unfold frame.
    rewrite Hl, Z2Nat.id by lia. unfold n at 1.
    rewrite (be_bytes_value' 8) by (rewrite length_take; lia).
    rewrite <- (be_bytes_uint 4), uint32_to_int, (be_bytes_uint 4).
    rewrite (be_bytes_value' 4) by (rewrite length_take, length_drop; lia).
    change 12%nat with (8 + 4)%nat. rewrite <- drop_drop.
    by rewrite <- !app_assoc, !take_drop.
Qed.

Lemma take_take_app (l k : raw_buffer) n :
  (n <= length l)%nat -> take n (l ++ k) = take n l.
Proof. intros. by rewrite take_app_le. Qed.

(** A verdict other than "incomplete" is stable under more input. *)
Lemma destruct_stable b more :
  status (destruct_buffer b) <> kIncomplete ->
  destruct_buffer (b ++ more) = destruct_buffer b.
Proof.
  rewrite !destruct_buffer_unfold, !length_app. cbn zeta.
  destruct (Z.ltb_spec (Z.of_nat (length b)) 8); [done|].
  rewrite take_take_app by lia. bdecide.
  destruct (Z.ltb_spec 65536 (be_value (take 8 b))); [done|].
  destruct (Z.ltb_spec (Z.of_nat (length b)) (12 + be_value (take 8 b))); [done|].
  bdecide. intros _. pose proof (be_value_range (take 8 b)).
  rewrite !drop_app_le by lia.
  rewrite !take_take_app by (rewrite length_drop; lia). done.
Qed.

Lemma frame_inj t p r t' p' r' :
  is_int t -> is_int t' ->
  Z.of_nat (length p) <= 65536 -> Z.of_nat (length p') <= 65536 ->
  frame t p ++ r = frame t' p' ++ r' -> t = t' /\ p = p' /\ r = r'.
Proof.
  intros Ht Ht' Hp Hp' E.
  pose proof (destruct_frame t p r Ht Hp) as D.
  pose proof (destruct_frame t' p' r' Ht' Hp') as D'.
  rewrite E, D' in D. by simplify_eq.
Qed.

Lemma destruct_size_bounds b :
  status (destruct_buffer b) = kComplete ->
  12 <= size (destruct_buffer b) <= Z.of_nat (length b).
Proof.
  intros Hc. destruct (destruct_complete b Hc) as (?&Hp&?&->&rest&E).
  apply (f_equal length) in E. rewrite length_app, length_frame in E. lia.
Qed.

Lemma destruct_incomplete_short b :
  status (destruct_buffer b) = kIncomplete -> Z.of_nat (length b) < 12 + 65536.
Proof.
  rewrite destruct_buffer_unfold. cbn zeta. repeat case_scrut; breflect; cbn; done || lia.
Qed.
End frames.

(** ** A concrete message type

    The payload is the message: the instance the witnesses evaluate on. *)

Module echo.
Record message := Message { body : raw_buffer }.

#[export] Instance echo_proto : ProtoMessage message := {|
  byte_size_long m := Z.of_nat (length (body m));
  serialize_as_string m := body m;
  parse_from_istream b := (true, Message b);
|}.

#[export] Instance echo_laws : ProtoLaws message.
Proof. split; [done|]. by intros []. Qed.
End echo.
Import echo.

(** ** Properties *)

Module WireProperties.

(** An integer of four or eight bytes stored with [mset_be] anywhere in a
    buffer is read back by [mget_be] at its offset, reduced to its width. *)
Theorem mget_mset_roundtrip (n : nat) (pre post : raw_buffer) (v : Z) :
  mget_be n (mset_be n pre v ++ post) (Z.of_nat (length pre))
    = Some (uint (Z.of_nat n * 8) v).
Proof.
  rewrite mset_be_bytes, <- app_assoc, mget_be_value.
  - by rewrite Nat2Z.id, drop_app_length, take_be_bytes, be_value_bytes.
  - lia.
  - rewrite !length_app, length_be_bytes. lia.
Qed.

(** C27. Serialization round trip.  Whatever [serialize] returns for a message
    is destructed, whatever bytes follow it, as one complete frame of exactly
    its own length, with the same type, and the payload deserializes to the
    message. *)
Theorem serialize_destruct_roundtrip {M} `{ProtoLaws M} (t : MessageType)
    (m : M) (b rest : raw_buffer) :
  is_int t -> serialize t m = Ret b ->
  let d := destruct_buffer (b ++ rest) in
  status d = kComplete /\ size d = Z.of_nat (length b) /\ type d = t /\
  deserialize (payload d) = (true, m).
Proof.
  intros Ht Hs. rewrite serialize_frame in Hs. case_scrut; simplify_eq. breflect.
  cbn zeta. rewrite destruct_frame by done. rewrite length_frame.
  split_and!; cbn; [done|lia|done|apply parse_serialize].
Qed.

Lemma serialize_destruct_roundtrip_witness :
  let m := echo.Message [Init.Byte.x41; Init.Byte.x42] in
  exists b, serialize (-7) m = Ret b /\
  type (destruct_buffer (b ++ [Init.Byte.xff])) = -7 /\
  deserialize (payload (destruct_buffer (b ++ [Init.Byte.xff]))) = (true, m).
Proof.
  eexists. split; [vm_compute; reflexivity|].
  match goal with |- type (destruct_buffer (?b ++ ?r)) = _ /\ _ =>
    destruct (serialize_destruct_roundtrip (-7)
      (echo.Message [Init.Byte.x41; Init.Byte.x42]) b r) as (_&_&E1&E2) end.
  - by vm_compute.
  - by vm_compute.
  - by split.
Defined.

(** [serialize] throws exactly on a payload above 64 KiB; every buffer it
    returns has the twelve header bytes and the payload. *)
Theorem serialize_length_error {M} `{ProtoLaws M} (t : MessageType) (m : M) :
  (serialize t m = Throw length_error <->
     kMaxPayloadSize < Z.of_nat (length (serialize_as_string m))) /\
  (forall b, serialize t m = Ret b ->
     Z.of_nat (length b) = kHeaderSize + Z.of_nat (length (serialize_as_string m))
     /\ Z.of_nat (length b) <= kHeaderSize + kMaxPayloadSize).
Proof.
  rewrite serialize_frame. change kMaxPayloadSize with 65536.
  change kHeaderSize with 12. split.
  - case_scrut; breflect; split; done || lia.
  - intros b Hb. case_scrut; simplify_eq. breflect. rewrite length_frame. lia.
Qed.

Lemma serialize_length_error_witness :
  let m := echo.Message (repeat Init.Byte.x00 (Z.to_nat 65537)) in
  serialize 10 m = Throw length_error.
Proof.
  intros m. apply (proj1 (serialize_length_error 10 m)). vm_compute. reflexivity.
Defined.

(** C28. [destruct_buffer] decides the frame grammar.  It reports a complete
    frame exactly when the buffer starts with a frame (and then returns that
    frame's type and payload), it reports "incomplete" on every strict prefix
    of a frame, and once it reports "invalid" no continuation of the buffer
    starts with a frame. *)
Theorem destruct_buffer_grammar (b : raw_buffer) :
  (status (destruct_buffer b) = kComplete <->
     exists t p rest, is_int t /\ Z.of_nat (length p) <= kMaxPayloadSize /\
       b = frame t p ++ rest /\
       type (destruct_buffer b) = t /\ payload (destruct_buffer b) = p) /\
  (forall t p more, is_int t -> Z.of_nat (length p) <= kMaxPayloadSize ->
     more <> [] -> b ++ more = frame t p ->
     status (destruct_buffer b) = kIncomplete) /\
  (status (destruct_buffer b) = kInvalid ->
     forall t p more rest, is_int t -> Z.of_nat (length p) <= kMaxPayloadSize ->
       b ++ more <> frame t p ++ rest).
Proof.
  change kMaxPayloadSize with 65536. split_and!.
  - split.
    + intros Hc. destruct (destruct_complete b Hc) as (?&?&?&?&rest&E).
      exists (type (destruct_buffer b)), (payload (destruct_buffer b)), rest.
      split_and!; [done|lia|done..].
    + intros (t&p&rest&Ht&Hp&->&_). by rewrite destruct_frame.
  - intros t p more Ht Hp Hm E.
    destruct (decide (status (destruct_buffer b) = kIncomplete)) as [|Hn]; [done|].
    pose proof (destruct_stable b more Hn) as S.
    rewrite E, <- (app_nil_r (frame t p)), destruct_frame in S by done.
    assert (Hc : status (destruct_buffer b) = kComplete) by by rewrite <- S.
    apply destruct_size_bounds in Hc. rewrite <- S in Hc. cbn in Hc.
    apply (f_equal length) in E. rewrite length_app, length_frame in E.
    destruct more; [done|]. cbn in E. lia.
  - intros Hi t p more rest Ht Hp E.
    pose proof (destruct_stable b more) as S. rewrite Hi, E, destruct_frame in S by done.
    rewrite <- S in Hi by done. done.
Qed.

(** The hand-written big-endian loops agree with the reference codec:
    [mset_be] appends the reversed little-endian split of the value and
    [mget_be] fails exactly when the buffer is too short, never reading
    outside it. *)
Theorem be_codec_reference (n : nat) (src dest : raw_buffer) (v offset : Z) :
  0 <= offset ->
  mset_be n dest v = dest ++ rev (le_split n v) /\
  mget_be n src offset =
    if decide (offset + Z.of_nat n <= Z.of_nat (length src))
    then Some (le_combine (rev (take n (drop (Z.to_nat offset) src)))) else None.
Proof.
  intros. split; [apply mset_be_bytes|]. case_decide.
  - by apply mget_be_value.
  - apply mget_be_None. lia.
Qed.

Lemma be_codec_reference_witness :
  mget_be 4 [Init.Byte.x00; Init.Byte.x01; Init.Byte.x02; Init.Byte.x03; Init.Byte.x04] 1
    = Some 16909060.
Proof.
  destruct (be_codec_reference 4 [Init.Byte.x00; Init.Byte.x01; Init.Byte.x02;
    Init.Byte.x03; Init.Byte.x04] [] 0 1) as [_ E]; [lia|].
  rewrite E. vm_compute. reflexivity.
Defined.
End WireProperties.
