(* ===== verification/Interpreter.v ===== *)
(** * Interpreter: reassembling frames from a byte stream

    Models [rsp-libs/include/rsplib/message/conn_interpreter.hpp] against the
    dispatcher interface of [message_dispatcher_interface.hpp].  The abstract
    specification is the grammar [stream] of a byte stream; the refinement
    theorem shows that feeding the stream in any fragmentation dispatches
    exactly the messages of the grammar, in order. *)

From S2P Require Import Prelude Wire.
Import helper serializer.

(** A [link*]: [None] is the null pointer. *)
Notation link_ptr := (option nat) (only parsing).

(** [message_dispatcher_interface]: what an interpreter needs of the component
    it hands messages to.  [D] is that component's state. *)
Class message_dispatcher_interface (D : Type) :=
  dispatch : MessageType -> raw_buffer -> link_ptr -> D -> D.

Record conn_interpreter := ConnInterpreter {
  link_ : link_ptr;
  buffer_ : raw_buffer;
}.

Module interpreter.
Definition create : conn_interpreter := ConnInterpreter None [].

Definition attach_link (l : link_ptr) (c : conn_interpreter)
    : conn_interpreter := ConnInterpreter l (buffer_ c).

Section handle.
Context {D : Type} `{message_dispatcher_interface D}.

(** The result of [handle_buffer]: the [bool] it returns with the new state,
    or one of the two failures the theorems exclude. *)
Inductive handled :=
  | Handled (ok : bool) (c : conn_interpreter) (d : D)
  | UndefinedBehaviour
  | OutOfFuel.

(** The [while (true)] of [handle_buffer]. *)
Fixpoint handle_loop (fuel : nat) (c : conn_interpreter) (d : D) : handled :=
  match fuel with
  | O => OutOfFuel
  | S fuel =>
      let meta := destruct_buffer (buffer_ c) in
      match status meta with
      | kInvalid => Handled false (ConnInterpreter (link_ c) []) d
      | kIncomplete => Handled true c d
      | kComplete =>
          match retrieve_v (buffer_ c) (size meta)
                  (Z.of_nat (length (buffer_ c))) with
          | None => UndefinedBehaviour
          | Some rest =>
              handle_loop fuel (ConnInterpreter (link_ c) rest)
                (dispatch (type meta) (payload meta) (link_ c) d)
          end
      end
  end.

(** Each iteration consumes a frame, so the buffer length bounds the loop. *)
Definition handle_buffer (c : conn_interpreter) (buffer : raw_buffer) (len : Z)
    (d : D) : handled :=
  if Z.of_nat (length buffer) <? len then Handled false c d
  else
    let b := buffer_ c ++ take (Z.to_nat len) buffer in
    handle_loop (S (length b)) (ConnInterpreter (link_ c) b) d.

(** Successive reads of a connection, until one is rejected. *)
Fixpoint feed (c : conn_interpreter) (reads : list (raw_buffer * Z)) (d : D)
    : handled :=
  match reads with
  | [] => Handled true c d
  | (arr, len) :: reads =>
      match handle_buffer c arr len d with
      | Handled true c d => feed c reads d
      | r => r
      end
  end.
End handle.
Arguments handled : clear implicits.
End interpreter.
Import interpreter.

(** ** The grammar of a byte stream *)

Definition message : Type := MessageType * raw_buffer.

Definition wf_message (m : message) : Prop :=
  is_int m.1 /\ Z.of_nat (length m.2) <= kMaxPayloadSize.

Definition frames (ms : list message) : raw_buffer :=
  mjoin ((fun m => frame m.1 m.2) <$> ms).

(** What is left after the last complete frame: an unfinished frame, or a
    header whose length field is out of range. *)
Inductive leftover := Rest (b : raw_buffer) | Bad.

Inductive stream : raw_buffer -> list message -> leftover -> Prop :=
  | stream_rest b :
      status (destruct_buffer b) = kIncomplete -> stream b [] (Rest b)
  | stream_bad b :
      status (destruct_buffer b) = kInvalid -> stream b [] Bad
  | stream_frame t p b b' ms r :
      wf_message (t, p) -> b' = frame t p ++ b -> stream b ms r ->
      stream b' ((t, p) :: ms) r.

Section stream_facts.

Lemma stream_cases b :
  stream b [] (Rest b) \/ stream b [] Bad \/
  exists t p rest, wf_message (t, p) /\ b = frame t p ++ rest /\
    destruct_buffer b
      = Meta kComplete (12 + Z.of_nat (length p)) (Z.of_nat (length p)) t p.
Proof.
  destruct (status (destruct_buffer b)) eqn:E.
  - left. by constructor.
  - right; right. destruct (destruct_complete b E) as (?&?&?&?&rest&Eb).
    exists (type (destruct_buffer b)), (payload (destruct_buffer b)), rest.
    split_and!; [split; cbn; [done|change kMaxPayloadSize with 65536; lia]|done|].
    rewrite Eb at 1. rewrite destruct_frame; [done..|lia].
  - right; left. by constructor.
Qed.

Lemma stream_total b : exists ms r, stream b ms r.
Proof.
  induction b as [b IH] using (induction_ltof1 _ (@length _)). unfold ltof in IH.
  destruct (stream_cases b) as [|[|(t&p&rest&Hw&->&_)]]; [by eauto..|].
  destruct (IH rest) as (ms&r&Hs).
  - rewrite length_app, length_frame. lia.
  - exists ((t, p) :: ms), r. by econstructor.
Qed.

Lemma stream_det b ms r ms' r' :
  stream b ms r -> stream b ms' r' -> ms = ms' /\ r = r'.
Proof.
  intros Hs. revert ms' r'.
  induction Hs as [b E|b E|t p b b' ms r [Ht Hp] -> Hs IH]; intros ms' r' Hs';
    inversion Hs' as [? E'|? E'|t' p' c c' ms'' r'' [Ht' Hp'] Eb Hs'']; subst;
    try congruence; try (by split);
    try (by rewrite destruct_frame in E); try (by rewrite destruct_frame in E').
  apply frame_inj in Eb as (->&->&->); [|done..].
  by destruct (IH _ _ Hs'') as [-> ->].
Qed.

(** Extending a stream whose tail is unfinished. *)
Lemma stream_extend b ms r c ms' r' :
  stream b ms (Rest r) -> stream (r ++ c) ms' r' -> stream (b ++ c) (ms ++ ms') r'.
Proof.
  intros Hs. remember (Rest r) as l eqn:El.
  induction Hs as [b E|b E|t p b b' ms l Hw -> Hs IH]; simplify_eq; intros Hs'; [done|].
  cbn. eapply stream_frame; [done|by rewrite <- app_assoc|auto].
Qed.

(** A rejected stream stays rejected with the same messages. *)
Lemma stream_bad_extend b ms c : stream b ms Bad -> stream (b ++ c) ms Bad.
Proof.
  intros Hs. remember Bad as l eqn:El.
  induction Hs as [b E|b E|t p b b' ms l Hw -> Hs IH]; simplify_eq.
  - apply stream_bad. by rewrite destruct_stable; rewrite E.
  - eapply stream_frame; [done|by rewrite <- app_assoc|auto].
Qed.

Lemma stream_frames ms : Forall wf_message ms -> stream (frames ms) ms (Rest []).
Proof.
  induction 1 as [|[t p] ms Hw _ IH]; [by constructor|].
  change (frames ((t, p) :: ms)) with (frame t p ++ frames ms). by econstructor.
Qed.

Lemma stream_rest_short b ms r :
  stream b ms (Rest r) -> status (destruct_buffer r) = kIncomplete.
Proof.
  intros Hs. remember (Rest r) as l eqn:El.
  induction Hs; simplify_eq; auto.
Qed.
End stream_facts.

(** ** The interpreter implements the grammar *)

Section refinement.
Context {D : Type} `{message_dispatcher_interface D}.

Definition leftover_ok (r : leftover) : bool :=
  match r with Rest _ => true | Bad => false end.
Definition leftover_bytes (r : leftover) : raw_buffer :=
  match r with Rest b => b | Bad => [] end.

(** Handing a list of messages to the dispatcher, in order. *)
Definition dispatch_all (l : link_ptr) (ms : list message) (d : D) : D :=
  foldl (fun d m => dispatch m.1 m.2 l d) d ms.

Definition result_of (l : link_ptr) (ms : list message) (r : leftover) (d : D)
    : handled D :=
  Handled (leftover_ok r) (ConnInterpreter l (leftover_bytes r))
    (dispatch_all l ms d).

Lemma retrieve_v_after (a b : raw_buffer) :
  Z.of_nat (length (a ++ b)) < 2 ^ 31 ->
  retrieve_v (a ++ b) (Z.of_nat (length a)) (Z.of_nat (length (a ++ b))) = Some b.
Proof.
  intros Hl. unfold retrieve_v, retrieve_parts. rewrite length_app in *.
  rewrite !to_int_small by lia.
  destruct (Z.leb_spec (Z.of_nat (length a + length b)) (Z.of_nat (length a))).
  - destruct b; [done|]. cbn in *. lia.
  - bdecide. cbn. rewrite Nat2Z.id, drop_app_length, take_ge; [done|]. lia.
Qed.

Lemma handle_loop_stream b ms r l fuel d :
  stream b ms r -> Z.of_nat (length b) < 2 ^ 31 -> (length b < fuel)%nat ->
  handle_loop fuel (ConnInterpreter l b) d = result_of l ms r d.
Proof.
  intros Hs. revert fuel d.
  induction Hs as [b E|b E|t p b b' ms r [Ht Hp] -> Hs IH]; intros fuel d Hl Hf;
    (destruct fuel as [|fuel]; [lia|]); cbn [handle_loop buffer_ link_].
  - by rewrite E.
  - by rewrite E.
  - rewrite destruct_frame by done. cbn [status size type payload].
    replace (12 + Z.of_nat (length p)) with (Z.of_nat (length (frame t p)))
      by (rewrite length_frame; lia).
    rewrite retrieve_v_after by done. rewrite length_app, length_frame in *.
    by rewrite IH by lia.
Qed.

(** Between reads the buffer holds an unfinished frame. *)
Definition wf_interpreter (c : conn_interpreter) : Prop :=
  status (destruct_buffer (buffer_ c)) = kIncomplete.

Lemma wf_interpreter_create l : wf_interpreter (attach_link l create).
Proof. done. Qed.

Lemma wf_interpreter_length c :
  wf_interpreter c -> Z.of_nat (length (buffer_ c)) < kHeaderSize + kMaxPayloadSize.
Proof. apply destruct_incomplete_short. Qed.

(** Reads as the connection makes them: at most [kBufBytes] = 128 bytes. *)
Definition read_ok (rd : raw_buffer * Z) : Prop :=
  length rd.1 = 128%nat /\ 0 <= rd.2 <= 128.
Definition read_bytes (rd : raw_buffer * Z) : raw_buffer :=
  take (Z.to_nat rd.2) rd.1.

Lemma handle_buffer_stream c rd d ms r :
  wf_interpreter c -> read_ok rd ->
  stream (buffer_ c ++ read_bytes rd) ms r ->
  handle_buffer c rd.1 rd.2 d = result_of (link_ c) ms r d.
Proof.
  intros Hw [Ha Hr] Hs. unfold handle_buffer. rewrite Ha. bdecide.
  apply handle_loop_stream; [done| |lia].
  apply wf_interpreter_length in Hw. change (_ + _) with 65548 in Hw.
  rewrite length_app, length_take. lia.
Qed.

Lemma feed_stream c reads d ms r :
  wf_interpreter c -> Forall read_ok reads ->
  stream (buffer_ c ++ mjoin (read_bytes <$> reads)) ms r ->
  feed c reads d = result_of (link_ c) ms r d.
Proof.
  intros Hw Hr. revert c d ms r Hw.
  induction Hr as [|[arr len] reads Hrd Hr IH]; intros c d ms r Hw Hs.
  - rewrite app_nil_r in Hs.
    destruct (stream_det _ _ _ _ _ (stream_rest _ Hw) Hs) as [<- <-].
    by destruct c.
  - rewrite fmap_cons in Hs. cbn [mjoin list_join] in Hs. rewrite app_assoc in Hs.
    destruct (stream_total (buffer_ c ++ read_bytes (arr, len))) as (ms1&r1&Hs1).
    pose proof (handle_buffer_stream c (arr, len) d ms1 r1 Hw Hrd Hs1) as E.
    cbn [fst snd] in E. cbn [feed]. rewrite E.
    destruct r1 as [b1|]; cbn [result_of leftover_ok].
    + destruct (stream_total (b1 ++ mjoin (read_bytes <$> reads))) as (ms2&r2&Hs2).
      destruct (stream_det _ _ _ _ _ (stream_extend _ _ _ _ _ _ Hs1 Hs2) Hs) as [<- <-].
      rewrite (IH _ _ ms2 r2); [|by eapply stream_rest_short|done].
      unfold result_of, dispatch_all. by rewrite foldl_app.
    + destruct (stream_det _ _ _ _ _
        (stream_bad_extend _ _ (mjoin (read_bytes <$> reads)) Hs1) Hs) as [<- <-]. done.
Qed.
End refinement.

(** A dispatcher that records what it receives. *)
Module recorder.
Definition log : Type := list (MessageType * raw_buffer * link_ptr).

#[export] Instance recorder_dispatch : message_dispatcher_interface log :=
  fun t p l d => d ++ [(t, p, l)].
End recorder.

(** ** Properties *)

Module InterpreterProperties.
Import recorder.

(** C29. Totality and memory safety of [handle_buffer]: from any state the
    interpreter can be in between reads, a read of at most 128 bytes
    terminates, never takes an iterator outside the buffer (the [int]
    arguments of [retrieve_v] do not overflow), dispatches the messages the
    grammar finds and keeps exactly the grammar's unfinished tail, whose
    length stays below one maximal frame. *)
Theorem handle_buffer_total {D} `{message_dispatcher_interface D}
    (c : conn_interpreter) (arr : raw_buffer) (len : Z) (d : D) :
  wf_interpreter c -> read_ok (arr, len) ->
  exists ms r,
    stream (buffer_ c ++ read_bytes (arr, len)) ms r /\
    handle_buffer c arr len d =
      Handled (leftover_ok r) (ConnInterpreter (link_ c) (leftover_bytes r))
        (dispatch_all (link_ c) ms d) /\
    wf_interpreter (ConnInterpreter (link_ c) (leftover_bytes r)) /\
    Z.of_nat (length (leftover_bytes r)) < kHeaderSize + kMaxPayloadSize.
Proof.
  intros Hw Hr.
  destruct (stream_total (buffer_ c ++ read_bytes (arr, len))) as (ms&r&Hs).
  assert (Hl : wf_interpreter (ConnInterpreter (link_ c) (leftover_bytes r))).
  { destruct r; [by eapply stream_rest_short|done]. }
  exists ms, r. split_and!; [done| |done|by apply wf_interpreter_length in Hl].
  by apply (handle_buffer_stream c (arr, len)).
Qed.

Lemma handle_buffer_total_witness :
  exists ms r, stream (read_bytes (repeat Init.Byte.x00 128, 12)) ms r /\
    handle_buffer create (repeat Init.Byte.x00 128) 12 ([] : log)
      = Handled (leftover_ok r) (ConnInterpreter None (leftover_bytes r))
          (dispatch_all None ms []).
Proof.
  destruct (handle_buffer_total create (repeat Init.Byte.x00 128) 12 ([] : log))
    as (ms&r&Hs&E&_).
  - vm_compute. reflexivity.
  - split; [vm_compute; reflexivity|cbn; lia].
  - exists ms, r. by split.
Defined.

(** C1. Fragmentation independence: however the bytes of a sequence of
    well-formed frames are cut into reads, the interpreter dispatches exactly
    these messages, once each and in order, and ends with an empty buffer. *)
Theorem feed_any_fragmentation {D} `{message_dispatcher_interface D}
    (l : link_ptr) (ms : list message) (reads : list (raw_buffer * Z)) (d : D) :
  Forall wf_message ms -> Forall read_ok reads ->
  mjoin (read_bytes <$> reads) = frames ms ->
  feed (attach_link l create) reads d =
    Handled true (ConnInterpreter l []) (dispatch_all l ms d).
Proof.
  intros Hm Hr E. apply (feed_stream (attach_link l create) reads d ms (Rest []));
    [done..|]. cbn. rewrite E. by apply stream_frames.
Qed.

Lemma feed_any_fragmentation_witness :
  let f := frame 10 [Init.Byte.x61] ++ frame 0 [] in
  let pad n b := (take 128 (b ++ repeat Init.Byte.xff 128), Z.of_nat n) in
  feed (attach_link (Some 7%nat) create)
    [pad 5%nat (take 5 f); pad 20%nat (drop 5 f)] ([] : log)
  = Handled true (ConnInterpreter (Some 7%nat) [])
      [(10, [Init.Byte.x61], Some 7%nat); (0, [], Some 7%nat)].
Proof.
  intros f pad.
  rewrite (feed_any_fragmentation (Some 7%nat) [(10, [Init.Byte.x61]); (0, [])]).
  - vm_compute. reflexivity.
  - repeat constructor; vm_compute; done.
  - repeat constructor; vm_compute; done.
  - vm_compute. reflexivity.
Defined.

(** C30. A frame announcing more than 64 KiB is rejected: everything before it
    is dispatched, nothing after it is, and the buffer is dropped, in every
    fragmentation. *)
Theorem feed_rejects_oversize {D} `{message_dispatcher_interface D}
    (l : link_ptr) (ms : list message) (bad : raw_buffer)
    (reads : list (raw_buffer * Z)) (d : D) :
  Forall wf_message ms -> Forall read_ok reads ->
  status (destruct_buffer bad) = kInvalid ->
  mjoin (read_bytes <$> reads) = frames ms ++ bad ->
  feed (attach_link l create) reads d =
    Handled false (ConnInterpreter l []) (dispatch_all l ms d).
Proof.
  intros Hm Hr Hb E. apply (feed_stream (attach_link l create) reads d ms Bad);
    [done..|]. cbn. rewrite E.
  pose proof (stream_extend _ _ _ bad [] Bad (stream_frames ms Hm)) as Hs.
  rewrite app_nil_r in Hs. apply Hs. by apply stream_bad.
Qed.

Lemma feed_rejects_oversize_witness :
  let bad := be_bytes 8 65537 in
  feed (attach_link None create) [(bad ++ repeat Init.Byte.x00 120, 8)] ([] : log)
    = Handled false (ConnInterpreter None []) [].
Proof.
  intros bad. rewrite (feed_rejects_oversize None [] (be_bytes 8 65537)).
  - vm_compute. reflexivity.
  - constructor.
  - repeat constructor; vm_compute; done.
  - vm_compute. reflexivity.
  - vm_compute. reflexivity.
Defined.
End InterpreterProperties.
