(* ===== verification/Pending.v ===== *)
(** * Pending: the registry of outstanding requests

    Models [rsp-libs/include/rsplib/message/pending_requests.hpp].  A registry
    maps request ids to a deadline and two callbacks; callbacks are opaque
    values ([RH], [TH]) and an operation returns the list of callbacks it
    invokes.  Each operation is one critical section of [requests_mutex_]
    followed by the invocations it makes outside the lock, so a concurrent
    execution is a sequence of operations.  Time points are integers. *)

From S2P Require Import Prelude.

Section pending_requests.
Context {Response RH TH : Type}.

Record request := Request {
  deadline : Z;
  on_response : RH;
  on_timeout : TH;
}.

Record pending_requests := PendingRequests {
  requests_ : gmap Z request;
  running_ : bool;
  timer_ : bool;  (** the timer thread exists and is joinable *)
}.

Inductive call :=
  | ResponseCall (h : RH) (response : Response)
  | TimeoutCall (h : TH).

Definition pending_empty : pending_requests := PendingRequests ∅ false false.

Definition set_requests (m : gmap Z request) (p : pending_requests)
    : pending_requests := PendingRequests m (running_ p) (timer_ p).

(** [take]: remove and return. *)
Definition take_request (id : Z) (p : pending_requests)
    : option request * pending_requests :=
  match requests_ p !! id with
  | None => (None, p)
  | Some r => (Some r, set_requests (delete id (requests_ p)) p)
  end.

(** [emplace] keeps an existing entry. *)
Definition add (id : Z) (response : RH) (timeout : TH) (dl : Z)
    (p : pending_requests) : pending_requests :=
  match requests_ p !! id with
  | Some _ => p
  | None => set_requests (<[id := Request dl response timeout]> (requests_ p)) p
  end.

Definition cancel (id : Z) (p : pending_requests) : bool * pending_requests :=
  let '(r, p) := take_request id p in (bool_decide (is_Some r), p).

Definition complete (id : Z) (response : Response) (now : Z)
    (p : pending_requests) : list call * pending_requests :=
  match take_request id p with
  | (None, p) => ([], p)
  | (Some pending, p) =>
      if deadline pending <=? now then ([TimeoutCall (on_timeout pending)], p)
      else ([ResponseCall (on_response pending) response], p)
  end.

(** The loop of [expire] over the map, in key order. *)
Fixpoint expire_loop (now : Z) (it : list (Z * request)) (m : gmap Z request)
    (expired : list request) : gmap Z request * list request :=
  match it with
  | [] => (m, expired)
  | (id, r) :: it =>
      if now <? deadline r then expire_loop now it m expired
      else expire_loop now it (delete id m) (expired ++ [r])
  end.

Definition expire (now : Z) (p : pending_requests) : list call * pending_requests :=
  let '(m, expired) :=
    expire_loop now (map_entries Z.le (requests_ p)) (requests_ p) [] in
  ((fun r => TimeoutCall (on_timeout r)) <$> expired, set_requests m p).

Definition clear (p : pending_requests) : pending_requests := set_requests ∅ p.

(** [spawn_ok] is whether the thread could be created. *)
Definition start (spawn_ok : bool) (p : pending_requests)
    : outcome unit * pending_requests :=
  if running_ p then (Ret tt, p)
  else if spawn_ok then (Ret tt, PendingRequests (requests_ p) true true)
  else (Throw system_error, PendingRequests (requests_ p) false (timer_ p)).

Definition stop (p : pending_requests) : pending_requests :=
  clear (PendingRequests (requests_ p) false false).

(** One wake-up of the timer thread: it leaves its loop once [running_] is
    false and otherwise expires. *)
Definition timer_tick (now : Z) (p : pending_requests)
    : list call * pending_requests :=
  if timer_ p && running_ p then expire now p else ([], p).

(** ** Operations as steps *)

Inductive op :=
  | Add (id : Z) (response : RH) (timeout : TH) (dl : Z)
  | Cancel (id : Z)
  | Complete (id : Z) (response : Response) (now : Z)
  | Expire (now : Z)
  | Clear.

Definition exec (o : op) (p : pending_requests) : list call * pending_requests :=
  match o with
  | Add id r t dl => ([], add id r t dl p)
  | Cancel id => ([], snd (cancel id p))
  | Complete id r now => complete id r now p
  | Expire now => expire now p
  | Clear => ([], clear p)
  end.

Fixpoint exec_all (ops : list op) (p : pending_requests)
    : list call * pending_requests :=
  match ops with
  | [] => ([], p)
  | o :: ops =>
      let '(cs, p) := exec o p in
      let '(cs', p) := exec_all ops p in
      (cs ++ cs', p)
  end.

(** ** Facts *)

Definition live (now : Z) (r : request) : bool := now <? deadline r.

Lemma expire_loop_spec now it m acc :
  NoDup it.*1 -> (forall id r, (id, r) ∈ it -> m !! id = Some r) ->
  (expire_loop now it m acc).2
    = acc ++ (filter (fun e => live now e.2 = false) it).*2 /\
  forall id, (expire_loop now it m acc).1 !! id =
    match m !! id with
    | Some r => if decide (id ∈ it.*1 /\ live now r = false) then None else Some r
    | None => None
    end.
Proof.
  revert m acc. induction it as [|[i r] it IH]; intros m acc Hnd Hit; cbn [expire_loop].
  - split; [by rewrite app_nil_r|]. intros id. case_match; [|done].
    rewrite decide_False; [done|]. by intros [?%elem_of_nil _].
  - apply NoDup_cons in Hnd as [Hni Hnd].
    assert (Hi : m !! i = Some r) by (apply Hit; left).
    fold (live now r). destruct (live now r) eqn:El.
    + rewrite filter_cons_False by (cbn; congruence). destruct (IH m acc Hnd) as [E1 E2]; [set_solver|]. split; [done|].
      intros id. rewrite E2. destruct (m !! id) as [r'|] eqn:Em; [|done].
      destruct (decide (id = i)) as [->|].
      * rewrite Hi in Em. simplify_eq.
        by rewrite !decide_False by (intros [_ ?]; congruence).
      * apply decide_ext. rewrite fmap_cons. set_solver.
    + rewrite filter_cons_True by done. destruct (IH (delete i m) (acc ++ [r]) Hnd) as [E1 E2].
      { intros id r' Hin. rewrite lookup_delete_ne; [set_solver|].
        intros <-. apply Hni, list_elem_of_fmap. by exists (i, r'). }
      split; [by rewrite E1, <- app_assoc|]. intros id. rewrite E2.
      destruct (decide (id = i)) as [->|].
      * rewrite lookup_delete_eq, Hi, decide_True; [done|].
        split; [by left|done].
      * rewrite lookup_delete_ne by done. destruct (m !! id); [|done].
        apply decide_ext. rewrite fmap_cons. set_solver.
Qed.

Lemma expire_calls now p :
  (expire now p).1 = (fun e => TimeoutCall (on_timeout e.2)) <$>
    filter (fun e => live now e.2 = false) (map_entries Z.le (requests_ p)).
Proof.
  unfold expire. destruct (expire_loop_spec now (map_entries Z.le (requests_ p))
    (requests_ p) []) as [E _].
  - apply map_entries_NoDup.
  - intros id r. apply elem_of_map_entries.
  - destruct (expire_loop _ _ _ _) as [m e]. cbn in *. rewrite E.
    by rewrite <- list_fmap_compose.
Qed.

Lemma expire_lookup now p id :
  requests_ (expire now p).2 !! id =
    match requests_ p !! id with
    | Some r => if live now r then Some r else None
    | None => None
    end.
Proof.
  unfold expire. destruct (expire_loop_spec now (map_entries Z.le (requests_ p))
    (requests_ p) []) as [_ E].
  - apply map_entries_NoDup.
  - intros i r. apply elem_of_map_entries.
  - destruct (expire_loop _ _ _ _) as [m e]. cbn in *. rewrite E.
    destruct (requests_ p !! id) as [r|] eqn:Er; [|done].
    destruct (live now r); [by rewrite decide_False by (by intros [_ ?])|].
    rewrite decide_True; [done|]. split; [|done].
    apply list_elem_of_fmap. exists (id, r). by rewrite elem_of_map_entries.
Qed.
End pending_requests.
Arguments request : clear implicits.
Arguments pending_requests : clear implicits.
Arguments call : clear implicits.
Arguments op : clear implicits.

(** ** Every request is resolved at most once

    Callbacks are opaque, so a request whose two callbacks are its own id
    stands for every request: [call_id] reads back which one was invoked. *)

Section once.
Context {Response : Type}.
Notation pending := (pending_requests Z Z) (only parsing).
Notation operation := (op Response Z Z) (only parsing).

Definition call_id (c : call Response Z Z) : Z :=
  match c with ResponseCall h _ => h | TimeoutCall h => h end.

Definition tagged (p : pending) : Prop :=
  forall id r, requests_ p !! id = Some r -> on_response r = id /\ on_timeout r = id.

Definition tagged_op (o : operation) : Prop :=
  match o with Add id r t _ => r = id /\ t = id | _ => True end.

Definition added (o : operation) : list Z :=
  match o with Add id _ _ _ => [id] | _ => [] end.

(** Operations that drop a request without invoking a callback. *)
Definition drops (o : operation) (id : Z) : Prop :=
  match o with Cancel i => i = id | Clear => True | _ => False end.

Definition ids (p : pending) : gset Z := dom (requests_ p).

(** What one operation does to the ids in play. *)
Record accounted (o : operation) (p p' : pending) (cs : list (call Response Z Z))
    : Prop := {
  acc_tagged : tagged p';
  acc_nodup : NoDup (call_id <$> cs);
  acc_called id : id ∈ call_id <$> cs -> id ∈ ids p /\ id ∉ ids p';
  acc_sub id : id ∈ ids p' -> id ∈ ids p \/ id ∈ added o;
  acc_kept id : id ∈ ids p \/ id ∈ added o ->
    id ∈ ids p' \/ id ∈ call_id <$> cs \/ drops o id;
}.

Lemma complete_accounted id r now p :
  tagged p -> accounted (Complete id r now) p (complete id r now p).2 (complete id r now p).1.
Proof.
  intros Ht. unfold complete, take_request, set_requests.
  destruct (requests_ p !! id) as [q|] eqn:Eq; cbn.
  2: { split; cbn; [done|constructor|set_solver..]. }
  destruct (Ht _ _ Eq) as [Er Et].
  assert (Hd : id ∈ dom (requests_ p)) by (apply elem_of_dom; eauto).
  assert (Htag : tagged (PendingRequests (delete id (requests_ p)) (running_ p) (timer_ p))).
  { intros i q' Hl. cbn in Hl. apply lookup_delete_Some in Hl as [_ Hl]. eauto. }
  destruct (deadline q <=? now); split; unfold ids; cbn; rewrite ?Er, ?Et; try done;
    try (apply NoDup_singleton); rewrite ?dom_delete_L; try set_solver;
    intros i; destruct (decide (i = id)); set_solver.
Qed.

Lemma expire_called now p id :
  tagged p -> id ∈ call_id <$> (expire (Response:=Response) now p).1 <->
    exists r, requests_ p !! id = Some r /\ live now r = false.
Proof.
  intros Ht. rewrite expire_calls, <- list_fmap_compose, list_elem_of_fmap. split.
  - intros ([i r]&->&Hin). apply list_elem_of_filter in Hin as [Hl Hin].
    rewrite elem_of_map_entries in Hin. cbn. destruct (Ht _ _ Hin) as [_ ->]. eauto.
  - intros (r&Hr&Hl). exists (id, r). cbn. destruct (Ht _ _ Hr) as [_ ->].
    split; [done|]. apply list_elem_of_filter. by rewrite elem_of_map_entries.
Qed.

Lemma expire_nodup now p :
  tagged p -> NoDup (call_id <$> (expire (Response:=Response) now p).1).
Proof.
  intros Ht. rewrite expire_calls, <- list_fmap_compose.
  eapply sublist_NoDup; [apply (map_entries_NoDup Z.le (requests_ p))|].
  erewrite (Forall_fmap_ext_1 _ fst); [apply fmap_sublist, sublist_filter|].
  apply Forall_forall. intros [i r] Hin. apply list_elem_of_filter in Hin as [_ Hin].
  rewrite elem_of_map_entries in Hin. by destruct (Ht _ _ Hin).
Qed.

Lemma expire_accounted now p :
  tagged p -> accounted (Expire now) p (expire (Response:=Response) now p).2
    (expire (Response:=Response) now p).1.
Proof.
  intros Ht. split.
  - intros i r Hl. rewrite expire_lookup in Hl. repeat case_match; simplify_eq; eauto.
  - by apply expire_nodup.
  - intros i (r&Hr&Hl)%expire_called; [|done]. unfold ids.
    rewrite not_elem_of_dom, elem_of_dom, expire_lookup, Hr, Hl. eauto.
  - intros i. unfold ids. rewrite !elem_of_dom, expire_lookup.
    intros [r Hr]. left. case_match; [eauto|done].
  - intros i [Hi|[]%elem_of_nil]. unfold ids in *. rewrite elem_of_dom in *.
    rewrite expire_lookup, expire_called by done. destruct Hi as [r Hr]. rewrite Hr.
    destruct (live now r) eqn:El; eauto.
Qed.

Lemma exec_accounted o p :
  tagged p -> tagged_op o -> accounted o p (exec o p).2 (exec o p).1.
Proof.
  intros Ht Ho. destruct o as [id r t dl|id|id r now|now|]; cbn in *.
  - destruct Ho as [-> ->]. unfold add, set_requests.
    destruct (requests_ p !! id) as [q|] eqn:Eq.
    + assert (id ∈ dom (requests_ p)) by (apply elem_of_dom; eauto).
      split; unfold ids; cbn; [done|constructor|set_solver..].
    + split; unfold ids; cbn; rewrite ?dom_insert_L; [|constructor|set_solver..].
      intros i q Hl. cbn in Hl. apply lookup_insert_Some in Hl as [[<- <-]|[_ Hl]]; eauto.
  - unfold cancel, take_request, set_requests.
    destruct (requests_ p !! id) as [q|] eqn:Eq; cbn.
    + split; unfold ids; cbn; rewrite ?dom_delete_L; [|constructor|set_solver..|].
      * intros i q' Hl. cbn in Hl. apply lookup_delete_Some in Hl as [_ Hl]. eauto.
      * intros i. destruct (decide (i = id)); set_solver.
    + split; cbn; [done|constructor|set_solver..].
  - by apply complete_accounted.
  - by apply expire_accounted.
  - split; unfold ids; cbn; [|constructor|set_solver..].
    intros i q Hl. cbn in Hl. by rewrite lookup_empty in Hl.
Qed.

Lemma exec_all_accounted ops p :
  tagged p -> Forall tagged_op ops -> NoDup (ops ≫= added) ->
  (forall id, id ∈ ids p -> id ∉ ops ≫= added) ->
  let '(cs, p') := exec_all ops p in
  NoDup (call_id <$> cs) /\
  (forall id, id ∈ call_id <$> cs ->
     (id ∈ ids p \/ id ∈ ops ≫= added) /\ id ∉ ids p') /\
  (forall id, id ∈ ids p' -> id ∈ ids p \/ id ∈ ops ≫= added) /\
  (forall id, id ∈ ids p \/ id ∈ ops ≫= added ->
     id ∈ ids p' \/ id ∈ call_id <$> cs \/ Exists (fun o => drops o id) ops).
Proof.
  intros Ht Ho. revert p Ht. induction Ho as [|o ops Ho _ IH]; intros p Ht Hnd Hdisj.
  { cbn. split_and!; [constructor|set_solver..]. }
  rewrite bind_cons in *. apply NoDup_app in Hnd as (_&Hsep&Hnd).
  cbn [exec_all]. pose proof (exec_accounted o p Ht Ho) as [A1 A2 A3 A4 A5].
  destruct (exec o p) as [cs1 p1]. cbn in *.
  assert (Hd1 : forall id, id ∈ ids p1 -> id ∉ ops ≫= added).
  { intros id Hi Hin. destruct (A4 id Hi) as [Hp|Ha]; [|by eapply Hsep].
    eapply Hdisj; [done|]. set_solver. }
  specialize (IH p1 A1 Hnd Hd1). destruct (exec_all ops p1) as [cs2 p2].
  destruct IH as (B1&B2&B3&B4). rewrite fmap_app. split_and!.
  - apply NoDup_app. split_and!; [done| |done].
    intros id H1 H2. apply A3 in H1 as [H1 H1']. apply B2 in H2 as [[H2|H2] _]; [done|].
    eapply Hdisj; [done|]. set_solver.
  - intros id [H1|H2]%elem_of_app.
    + apply A3 in H1 as [H1 H1']. split; [by left|]. intros H2.
      apply B3 in H2 as [H2|H2]; [done|]. eapply Hdisj; [done|]. set_solver.
    + apply B2 in H2 as [[H2|H2] H2']; (split; [|done]); [|set_solver].
      apply A4 in H2 as [H2|H2]; set_solver.
  - intros id Hi. apply B3 in Hi as [Hi|Hi]; [|set_solver].
    apply A4 in Hi as [Hi|Hi]; set_solver.
  - intros id Hi. rewrite Exists_cons, elem_of_app.
    assert (Hcase : (id ∈ ids p \/ id ∈ added o) \/ id ∈ ops ≫= added) by set_solver.
    destruct Hcase as [Hc|Hc].
    + destruct (A5 id Hc) as [H1|[H1|H1]]; [|by auto..].
      destruct (B4 id (or_introl H1)) as [?|[?|?]]; auto.
    + destruct (B4 id (or_intror Hc)) as [?|[?|?]]; auto.
Qed.
End once.

(** ** Properties *)

Module PendingProperties.

(** A response completes its request with exactly one callback: the
    response callback strictly before the deadline, the timeout callback from
    the deadline on (also between two timer ticks), and nothing for an id
    that is not pending; the request is gone afterwards. *)
Theorem complete_by_deadline {Response RH TH} (p : pending_requests RH TH)
    (id now : Z) (response : Response) :
  let '(calls, p') := complete id response now p in
  calls = match requests_ p !! id with
          | None => []
          | Some r => if decide (now < deadline r)
                      then [ResponseCall (on_response r) response]
                      else [TimeoutCall (on_timeout r)]
          end /\
  requests_ p' = delete id (requests_ p).
Proof.
  unfold complete, take_request. destruct (requests_ p !! id) as [r|] eqn:Er; cbn.
  - destruct (Z.leb_spec (deadline r) now); case_decide; (done || lia).
  - by rewrite delete_id.
Qed.

(** [expire now] invokes the timeout callback of exactly the requests
    whose deadline has passed, in increasing id order, removes exactly these,
    and expiring again at the same instant does nothing. *)
Theorem expire_exact {Response RH TH} (p : pending_requests RH TH) (now : Z) :
  let '(calls, p') := expire (Response:=Response) now p in
  calls = (fun e => TimeoutCall (on_timeout e.2)) <$>
            filter (fun e => deadline e.2 <= now) (map_entries Z.le (requests_ p)) /\
  requests_ p' = filter (fun e => now < deadline e.2) (requests_ p) /\
  (expire (Response:=Response) now p').1 = [] /\
  requests_ (expire (Response:=Response) now p').2 = requests_ p'.
Proof.
  pose proof (expire_calls (Response:=Response) now p) as Hc.
  pose proof (expire_lookup (Response:=Response) now p) as Hl.
  destruct (expire now p) as [calls p'] eqn:E. cbn in *. split_and!.
  - rewrite Hc. f_equal. apply list_filter_iff. intros [i r]. unfold live. cbn.
    by rewrite Z.ltb_ge.
  - apply map_eq. intros i. rewrite Hl, map_lookup_filter.
    destruct (requests_ p !! i) as [r|]; cbn; [|done]. unfold live.
    destruct (Z.ltb_spec now (deadline r)).
    + by rewrite option_guard_True.
    + rewrite option_guard_False by lia. done.
  - rewrite expire_calls.
    destruct (filter _ (map_entries Z.le (requests_ p'))) as [|[i r] l] eqn:Ef; [done|].
    exfalso. assert (Hin : (i, r) ∈ (i, r) :: l) by left. rewrite <- Ef in Hin.
    apply list_elem_of_filter in Hin as [Hd Hin]. cbn in Hd.
    rewrite elem_of_map_entries, Hl in Hin.
    destruct (requests_ p !! i) as [r'|]; [|done].
    destruct (live now r') eqn:El; simplify_eq; congruence.
  - apply map_eq. intros i. rewrite expire_lookup, !Hl.
    destruct (requests_ p !! i) as [r|]; [|done].
    destruct (live now r) eqn:El; [by rewrite El|done].
Qed.

(** C23. Exactly-once resolution.  Take any sequence of operations, from any
    thread, on an empty registry, in which no id is added twice (the channel
    draws ids from an atomic counter).  No request has two callbacks invoked;
    a request whose callback was invoked is no longer pending; and every added
    request is still pending, or had its callback invoked, or was dropped by
    an explicit [cancel] of its id or a [clear]. *)
Theorem requests_resolved_once {Response} (ops : list (op Response Z Z)) :
  Forall tagged_op ops -> NoDup (ops ≫= added) ->
  let '(calls, p) := exec_all ops pending_empty in
  NoDup (call_id <$> calls) /\
  (forall id, id ∈ call_id <$> calls -> id ∈ ops ≫= added /\ id ∉ dom (requests_ p)) /\
  (forall id, id ∈ ops ≫= added ->
     id ∈ dom (requests_ p) \/ id ∈ call_id <$> calls \/
     Exists (fun o => drops o id) ops).
Proof.
  intros Ho Hnd. pose proof (exec_all_accounted ops pending_empty) as H.
  destruct (exec_all ops pending_empty) as [cs p].
  destruct H as (H1&H2&H3&H4); [done|done|done|set_solver|].
  split_and!; [done| |by auto].
  intros id Hi. destruct (H2 id Hi) as [[He|Ha] Hn]; [set_solver|done].
Qed.

Lemma requests_resolved_once_witness :
  let ops := [Add 1 1 1 10; Add 2 2 2 20; Complete 2 "r"%string 5; Expire 12;
              Complete 1 "late"%string 13; Add 3 3 3 30; Cancel 3] in
  exec_all ops pending_empty
    = ([ResponseCall 2 "r"%string; TimeoutCall 1], pending_empty) /\
  NoDup (call_id <$> (exec_all ops pending_empty).1).
Proof.
  intros ops. split; [vm_compute; reflexivity|].
  pose proof (requests_resolved_once ops) as H.
  destruct (exec_all ops pending_empty) as [cs p].
  apply H.
  - repeat constructor.
  - vm_compute. apply (bool_decide_eq_true_1 (NoDup [1; 2; 3])). vm_compute. reflexivity.
Defined.

(** Life cycle of the timer: [stop] leaves no pending request, no timer
    and invokes no callback; a tick after [stop] (or before [start]) does
    nothing; [start] is idempotent and, when the thread cannot be created,
    reports the error and stays stopped. *)
Theorem timer_lifecycle {Response RH TH} (p : pending_requests RH TH) (now : Z) :
  stop p = pending_empty /\
  timer_tick (Response:=Response) now (stop p) = ([], stop p) /\
  (forall ok, start ok (start true p).2 = (Ret tt, (start true p).2)) /\
  (running_ p = false ->
     fst (start false p) = Throw system_error /\ running_ (start false p).2 = false) /\
  (forall ok, requests_ (start ok p).2 = requests_ p).
Proof.
  destruct p as [m [] t]; unfold stop, clear, timer_tick, start, set_requests; cbn;
    split_and!; try done; intros []; done.
Qed.
End PendingProperties.
