(* ===== verification/Queued.v ===== *)
(** * Queued: admission, cancellation and duplicate suppression

    Models [rsp-libs/include/rsplib/message/queued_requests.hpp].  Tickets are
    shared pointers: the heap [tickets_] holds their atomic state and a
    [ticket_ptr] is an index into it.  Every operation is one critical section
    of [mutex_] or one compare-and-exchange, so the interleavings of the router
    thread and the room strand are the lists of operations. *)

From S2P Require Import Prelude.

(** [using key = std::pair<std::string, uint64_t>], ordered lexicographically. *)
Notation key := (string * Z)%type (only parsing).

Definition key_le (a b : key) : Prop :=
  (a.1 = b.1 /\ a.2 <= b.2) \/ (a.1 <> b.1 /\ String.le a.1 b.1).

#[export] Instance key_le_dec : RelDecision key_le.
Proof. intros a b. unfold key_le. apply _. Defined.

Inductive ticket_state := kQueued | kStarted | kCancelled.

#[export] Instance ticket_state_eq_dec : EqDecision ticket_state.
Proof. solve_decision. Defined.

Notation ticket_ptr := nat (only parsing).

Record queued_requests := QueuedRequests {
  capacity_ : nat;
  retention_ : Z;
  active_ : gmap key ticket_ptr;
  terminal_ : gmap key Z;
  tickets_ : list ticket_state;
}.

Module queued.
(** The constructor, with the default arguments of the source. *)
Definition create (capacity : nat) (retention : Z) : queued_requests :=
  QueuedRequests capacity retention ∅ ∅ [].
Definition create_default : queued_requests := create 4096 30000000000.

Definition set_active a q :=
  QueuedRequests (capacity_ q) (retention_ q) a (terminal_ q) (tickets_ q).
Definition set_terminal t q :=
  QueuedRequests (capacity_ q) (retention_ q) (active_ q) t (tickets_ q).
Definition set_tickets h q :=
  QueuedRequests (capacity_ q) (retention_ q) (active_ q) (terminal_ q) h.

(** ** ticket *)

(** [compare_exchange_strong] from [kQueued]. *)
Definition ticket_cas (t : ticket_ptr) (to : ticket_state) (q : queued_requests)
    : bool * queued_requests :=
  match tickets_ q !! t with
  | Some kQueued => (true, set_tickets (<[t := to]> (tickets_ q)) q)
  | _ => (false, q)
  end.

Definition try_start (t : ticket_ptr) (q : queued_requests)
    : bool * queued_requests := ticket_cas t kStarted q.

Definition started (t : ticket_ptr) (q : queued_requests) : bool :=
  bool_decide (tickets_ q !! t = Some kStarted).

Definition ticket_cancel (t : ticket_ptr) (q : queued_requests)
    : queued_requests := snd (ticket_cas t kCancelled q).

(** ** The registry *)

(** Erases the records whose time has come. *)
Definition prune (now : Z) (q : queued_requests) : queued_requests :=
  set_terminal (filter (fun e => now < e.2) (terminal_ q)) q.

(** [std::min_element]: the first of the smallest, in iteration order. *)
Fixpoint min_element (smallest : key * Z) (it : list (key * Z)) : key * Z :=
  match it with
  | [] => smallest
  | e :: it => min_element (if e.2 <? smallest.2 then e else smallest) it
  end.

Definition oldest (m : gmap key Z) : option key :=
  match map_entries key_le m with
  | [] => None
  | e :: it => Some (min_element e it).1
  end.

Definition evict (m : gmap key Z) : gmap key Z :=
  match oldest m with Some k => delete k m | None => m end.

Definition remember (id : key) (now : Z) (q : queued_requests) : queued_requests :=
  if decide (capacity_ q = 0%nat) then q
  else
    let terminal :=
      if decide (capacity_ q <= size (terminal_ q))%nat
      then evict (terminal_ q) else terminal_ q in
    set_terminal (<[id := now + retention_ q]> terminal) q.

Definition admit_ (id : key) (now : Z) (q : queued_requests)
    : option ticket_ptr * queued_requests :=
  let q := prune now q in
  if decide (is_Some (active_ q !! id) \/ is_Some (terminal_ q !! id) \/
             (capacity_ q <= size (active_ q))%nat) then (None, q)
  else
    let request := length (tickets_ q) in
    let q := set_tickets (tickets_ q ++ [kQueued]) q in
    (Some request, set_active (<[id := request]> (active_ q)) q).

Definition cancel (id : key) (now : Z) (q : queued_requests) : queued_requests :=
  let q := prune now q in
  match active_ q !! id with
  | Some found => ticket_cancel found q
  | None => if decide (is_Some (terminal_ q !! id)) then q else remember id now q
  end.

Definition finish (id : key) (request : ticket_ptr) (now : Z) (q : queued_requests)
    : bool * queued_requests :=
  match active_ q !! id with
  | Some found =>
      if decide (found = request) then
        let q := set_active (delete id (active_ q)) q in
        let q := prune now q in
        (true, remember id now q)
      else (false, q)
  | None => (false, q)
  end.

(** ** Operations as steps *)

Inductive op :=
  | Admit (id : key) (now : Z)
  | Cancel (id : key) (now : Z)
  | Finish (id : key) (request : ticket_ptr) (now : Z)
  | TryStart (request : ticket_ptr).

Inductive result :=
  | RTicket (t : option ticket_ptr)
  | RBool (b : bool)
  | RUnit.

Definition exec (o : op) (q : queued_requests) : result * queued_requests :=
  match o with
  | Admit id now => let '(t, q) := admit_ id now q in (RTicket t, q)
  | Cancel id now => (RUnit, cancel id now q)
  | Finish id t now => let '(b, q) := finish id t now q in (RBool b, q)
  | TryStart t => let '(b, q) := try_start t q in (RBool b, q)
  end.
End queued.
Import queued.

(** ** Invariant *)

Record wf (q : queued_requests) : Prop := {
  wf_active_size : (size (active_ q) <= capacity_ q)%nat;
  wf_terminal_size : (size (terminal_ q) <= capacity_ q)%nat;
  wf_disjoint k : is_Some (active_ q !! k) -> terminal_ q !! k = None;
  wf_alloc k t : active_ q !! k = Some t -> (t < length (tickets_ q))%nat;
  wf_inj k k' t : active_ q !! k = Some t -> active_ q !! k' = Some t -> k = k';
}.

Section facts.

Lemma prune_sub now q k dl :
  terminal_ (prune now q) !! k = Some dl <-> terminal_ q !! k = Some dl /\ now < dl.
Proof. cbn. by rewrite map_lookup_filter_Some. Qed.

Lemma wf_create c r : wf (create c r).
Proof. split; cbn; try rewrite map_size_empty; try lia; intros *; by rewrite lookup_empty. Qed.

Lemma wf_prune now q : wf q -> wf (prune now q).
Proof.
  intros [H1 H2 H3 H4 H5]. split; cbn; try done.
  - etransitivity; [apply map_size_filter|done].
  - intros k Hk. rewrite map_lookup_filter_None. left. auto.
Qed.

Lemma min_element_elem e it : min_element e it ∈ e :: it.
Proof.
  revert e. induction it as [|x it IH]; intros e; cbn; [left|].
  specialize (IH (if x.2 <? e.2 then x else e)). destruct (x.2 <? e.2); set_solver.
Qed.

Lemma min_element_le e it x : x ∈ e :: it -> (min_element e it).2 <= x.2.
Proof.
  revert e x. induction it as [|y it IH]; intros e x Hx; cbn.
  - apply list_elem_of_singleton in Hx as ->. done.
  - destruct (Z.ltb_spec y.2 e.2).
    + apply elem_of_cons in Hx as [->|Hx]; [|by apply IH].
      etransitivity; [apply (IH y y); left|lia].
    + apply elem_of_cons in Hx as [->|Hx]; [apply IH; left|].
      apply elem_of_cons in Hx as [->|Hx]; [|apply IH; by right].
      etransitivity; [apply (IH e e); left|lia].
Qed.

(** [evict] removes one record, of the smallest deadline. *)
Lemma evict_spec m :
  m <> ∅ ->
  exists k dl, m !! k = Some dl /\ evict m = delete k m /\
    forall k' dl', m !! k' = Some dl' -> dl <= dl'.
Proof.
  intros Hm. unfold evict, oldest.
  destruct (map_entries key_le m) as [|e it] eqn:E.
  { by apply map_entries_nil in E. }
  pose proof (min_element_elem e it) as Hin. rewrite <- E in Hin.
  destruct (min_element e it) as [k dl] eqn:Em. rewrite elem_of_map_entries in Hin.
  exists k, dl. split_and!; [done..|]. intros k' dl' Hk'.
  rewrite <- (elem_of_map_entries key_le), E in Hk'.
  apply min_element_le in Hk'. by rewrite Em in Hk'.
Qed.

Lemma evict_sub m k dl : evict m !! k = Some dl -> m !! k = Some dl.
Proof.
  unfold evict. destruct (oldest m); [|done]. by intros [_ ?]%lookup_delete_Some.
Qed.

Lemma evict_size m : m <> ∅ -> S (size (evict m)) = size m.
Proof.
  intros Hm. destruct (evict_spec m Hm) as (k&dl&Hk&->&_).
  rewrite map_size_delete_Some by eauto.
  assert (size m <> 0%nat) by by rewrite map_size_empty_iff. lia.
Qed.

Lemma remember_terminal id now q k dl :
  terminal_ (remember id now q) !! k = Some dl ->
  terminal_ q !! k = Some dl \/ (k = id /\ dl = now + retention_ q).
Proof.
  unfold remember. case_decide; [by left|]. cbn.
  intros [[-> <-]|[_ Hl]]%lookup_insert_Some; [by right|left].
  case_decide; [by apply evict_sub|done].
Qed.

Lemma remember_size id now q :
  (size (terminal_ q) <= capacity_ q)%nat ->
  (size (terminal_ (remember id now q)) <= capacity_ q)%nat.
Proof.
  intros Hs. unfold remember. case_decide as Hc; [done|]. cbn.
  rewrite map_size_insert. case_decide as Hf.
  - pose proof (evict_size (terminal_ q)) as He.
    assert (terminal_ q <> ∅) as Hne.
    { intros E. rewrite E, map_size_empty in Hf. lia. }
    specialize (He Hne). case_match; cbn; lia.
  - case_match; cbn; lia.
Qed.

Lemma remember_frame id now q :
  active_ (remember id now q) = active_ q /\ tickets_ (remember id now q) = tickets_ q /\
  capacity_ (remember id now q) = capacity_ q /\
  retention_ (remember id now q) = retention_ q.
Proof. unfold remember. by case_decide. Qed.

Lemma wf_remember id now q :
  wf q -> active_ q !! id = None -> wf (remember id now q).
Proof.
  intros [H1 H2 H3 H4 H5] Hid.
  destruct (remember_frame id now q) as (Ea&Et&Ec&_).
  split; rewrite ?Ea, ?Et, ?Ec; try done.
  - by apply remember_size.
  - intros k Hk. destruct (terminal_ (remember id now q) !! k) as [dl|] eqn:E; [|done].
    apply remember_terminal in E as [E|[-> _]]; [|by rewrite Hid in Hk; destruct Hk].
    by rewrite H3 in E.
Qed.

Lemma wf_ticket_cas t to q : wf q -> wf (ticket_cas t to q).2.
Proof.
  intros [H1 H2 H3 H4 H5]. unfold ticket_cas.
  destruct (tickets_ q !! t) as [[]|]; cbn; try (split; done).
  split; cbn; try done. intros k t' Hk. rewrite length_insert. eauto.
Qed.

Lemma wf_admit id now q : wf q -> wf (admit_ id now q).2.
Proof.
  intros Hw. unfold admit_. apply (wf_prune now) in Hw. case_decide as Hd; [done|].
  assert (Ha : active_ (prune now q) !! id = None) by (apply eq_None_not_Some; tauto).
  assert (Ht : terminal_ (prune now q) !! id = None) by (apply eq_None_not_Some; tauto).
  assert (Hc : ~ (capacity_ (prune now q) <= size (active_ (prune now q)))%nat) by tauto.
  destruct Hw as [H1 H2 H3 H4 H5]. split; cbn in *; try done.
  - rewrite map_size_insert_None by done. lia.
  - intros k [t Hk]. apply lookup_insert_Some in Hk as [[<- _]|[_ Hk]]; eauto.
  - intros k t. rewrite length_app. cbn.
    intros [[_ <-]|[_ Hk]]%lookup_insert_Some; [lia|]. apply H4 in Hk. lia.
  - intros k k' t [[<- <-]|[? Hk]]%lookup_insert_Some
      [[<- ?]|[? Hk']]%lookup_insert_Some; subst; try done; eauto.
    + apply H4 in Hk'. lia.
    + apply H4 in Hk. lia.
Qed.

Lemma wf_cancel id now q : wf q -> wf (cancel id now q).
Proof.
  intros Hw. apply (wf_prune now) in Hw. unfold cancel.
  destruct (active_ (prune now q) !! id) as [t|] eqn:E; [by apply wf_ticket_cas|].
  case_decide; [done|]. by apply wf_remember.
Qed.

Lemma wf_erase_active id q : wf q -> wf (set_active (delete id (active_ q)) q).
Proof.
  intros [H1 H2 H3 H4 H5]. split; cbn; try done.
  - rewrite map_size_delete. case_match; cbn; lia.
  - intros k [t [_ Hk]%lookup_delete_Some]. eauto.
  - intros k t [_ Hk]%lookup_delete_Some. eauto.
  - intros k k' t [_ Hk]%lookup_delete_Some [_ Hk']%lookup_delete_Some. eauto.
Qed.

Lemma wf_finish id t now q : wf q -> wf (finish id t now q).2.
Proof.
  intros Hw. unfold finish. destruct (active_ q !! id) as [f|]; [|done].
  case_decide; [|done]. cbn [snd]. apply wf_remember.
  - by apply wf_prune, wf_erase_active.
  - cbn. apply lookup_delete_eq.
Qed.

Lemma wf_exec o q : wf q -> wf (exec o q).2.
Proof.
  intros Hw. destruct o as [id now|id now|id t now|t]; cbn.
  - pose proof (wf_admit id now q Hw). by destruct (admit_ id now q).
  - by apply wf_cancel.
  - pose proof (wf_finish id t now q Hw). by destruct (finish id t now q).
  - pose proof (wf_ticket_cas t kStarted q Hw). unfold try_start.
    by destruct (ticket_cas t kStarted q).
Qed.
End facts.

(** ** Evolution of tickets, active entries and records *)

Section evolution.

Lemma ticket_cas_tickets t to q t' s :
  tickets_ q !! t' = Some s -> s <> kQueued ->
  tickets_ (ticket_cas t to q).2 !! t' = Some s.
Proof.
  intros Hs Hne. unfold ticket_cas. destruct (tickets_ q !! t) as [[]|] eqn:E; cbn; try done.
  rewrite list_lookup_insert_ne; [done|]. intros ->. congruence.
Qed.

Lemma finish_frame id t now q :
  tickets_ (finish id t now q).2 = tickets_ q /\
  capacity_ (finish id t now q).2 = capacity_ q.
Proof.
  unfold finish. destruct (active_ q !! id); [|done]. case_decide; [|done].
  cbn [snd]. by destruct (remember_frame id now
    (prune now (set_active (delete id (active_ q)) q))) as (_&->&->&_).
Qed.

(** Started and cancelled tickets never change again. *)
Lemma exec_ticket_stable o q t s :
  tickets_ q !! t = Some s -> s <> kQueued -> tickets_ (exec o q).2 !! t = Some s.
Proof.
  intros Hs Hne. destruct o as [id now|id now|id t' now|t']; cbn.
  - unfold admit_. case_decide; cbn; [done|]. rewrite lookup_app_l; [done|].
    by eapply lookup_lt_Some.
  - unfold cancel. destruct (active_ (prune now q) !! id).
    + by apply ticket_cas_tickets.
    + case_decide; [done|]. destruct (remember_frame id now (prune now q)) as (_&->&_). done.
  - destruct (finish_frame id t' now q) as [E _]. destruct (finish id t' now q).
    cbn in *. by rewrite E.
  - pose proof (ticket_cas_tickets t' kStarted q t s Hs Hne). unfold try_start.
    by destruct (ticket_cas t' kStarted q).
Qed.

Lemma ticket_cas_frame t to q :
  length (tickets_ (ticket_cas t to q).2) = length (tickets_ q) /\
  active_ (ticket_cas t to q).2 = active_ q /\
  terminal_ (ticket_cas t to q).2 = terminal_ q /\
  capacity_ (ticket_cas t to q).2 = capacity_ q.
Proof.
  unfold ticket_cas. destruct (tickets_ q !! t) as [[]|]; cbn; try done.
  by rewrite length_insert.
Qed.

Lemma exec_length o q : (length (tickets_ q) <= length (tickets_ (exec o q).2))%nat.
Proof.
  destruct o as [id now|id now|id t' now|t']; cbn.
  - unfold admit_. case_decide; cbn; [done|]. rewrite length_app. lia.
  - unfold cancel. destruct (active_ (prune now q) !! id) as [t|].
    + unfold ticket_cancel. by rewrite (proj1 (ticket_cas_frame _ _ _)).
    + case_decide; [done|]. by destruct (remember_frame id now (prune now q)) as (_&->&_).
  - destruct (finish_frame id t' now q) as [E _]. destruct (finish id t' now q).
    cbn in *. by rewrite E.
  - destruct (ticket_cas_frame t' kStarted q) as [E _]. unfold try_start.
    destruct (ticket_cas t' kStarted q). cbn in *. by rewrite E.
Qed.

Lemma exec_active o q k t :
  active_ (exec o q).2 !! k = Some t ->
  active_ q !! k = Some t \/ t = length (tickets_ q).
Proof.
  destruct o as [id now|id now|id t' now|t']; cbn.
  - unfold admit_. case_decide; cbn; [by left|].
    intros [[_ <-]|[_ Hk]]%lookup_insert_Some; auto.
  - unfold cancel. destruct (active_ (prune now q) !! id).
    + unfold ticket_cancel. destruct (ticket_cas_frame n kCancelled (prune now q)) as (_&->&_).
      by left.
    + case_decide; [by left|]. destruct (remember_frame id now (prune now q)) as (->&_).
      by left.
  - unfold finish. destruct (active_ q !! id); [|by left]. case_decide; [|by left]. cbn [snd].
    destruct (remember_frame id now (prune now (set_active (delete id (active_ q)) q)))
      as (->&_). cbn. intros [_ Hk]%lookup_delete_Some. by left.
  - destruct (ticket_cas_frame t' kStarted q) as (_&E&_). unfold try_start.
    destruct (ticket_cas t' kStarted q). cbn in *. rewrite E. by left.
Qed.

(** *** One-shot events *)

Definition starts (t : nat) (o : op) (r : result) : bool :=
  match o, r with TryStart t', RBool true => bool_decide (t' = t) | _, _ => false end.

Definition finishes (t : nat) (o : op) (r : result) : bool :=
  match o, r with Finish _ t' _, RBool true => bool_decide (t' = t) | _, _ => false end.

Definition startable (t : nat) (q : queued_requests) : Prop :=
  tickets_ q !! t = Some kQueued \/ (length (tickets_ q) <= t)%nat.

Lemma not_startable t q :
  ~ startable t q -> exists s, tickets_ q !! t = Some s /\ s <> kQueued.
Proof.
  unfold startable. intros Hn.
  destruct (tickets_ q !! t) as [s|] eqn:E; [|apply lookup_ge_None in E; tauto].
  exists s. split; [done|]. intros ->. tauto.
Qed.

Lemma starts_disarms t o q :
  starts t o (exec o q).1 = true -> startable t q /\ ~ startable t (exec o q).2.
Proof.
  destruct o as [id now|id now|id t' now|t']; cbn; try (by destruct (admit_ _ _ _));
    try (by destruct (finish _ _ _ _)); [done|].
  unfold try_start, ticket_cas. destruct (tickets_ q !! t') as [[]|] eqn:E; cbn; try done.
  intros ->%bool_decide_eq_true_1. split; [by left|]. intros [H|H]; cbn in H.
  - rewrite list_lookup_insert_eq in H; [done|]. by eapply lookup_lt_Some.
  - rewrite length_insert in H. apply lookup_lt_Some in E. lia.
Qed.

Lemma startable_antitone t o q : ~ startable t q -> ~ startable t (exec o q).2.
Proof.
  intros (s&Hs&Hne)%not_startable. apply (exec_ticket_stable o) in Hs as Hs'; [|done].
  intros [H|H]; [congruence|]. apply lookup_lt_Some in Hs'. lia.
Qed.

Definition finishable (t : nat) (q : queued_requests) : Prop :=
  (exists k, active_ q !! k = Some t) \/ (length (tickets_ q) <= t)%nat.

Lemma finishes_disarms t o q :
  wf q -> finishes t o (exec o q).1 = true ->
  finishable t q /\ ~ finishable t (exec o q).2.
Proof.
  intros Hw. destruct o as [id now|id now|id t' now|t']; cbn;
    try (by destruct (admit_ _ _ _)); try (by destruct (try_start _ _)); [done|].
  destruct (finish_frame id t' now q) as [El _]. unfold finish in *.
  destruct (active_ q !! id) as [f|] eqn:Ef; [|done]. case_decide as Hd; [|done].
  cbn [fst snd] in *. intros ->%bool_decide_eq_true_1. subst f. split; [left; eauto|].
  intros [[k Hk]|Hl].
  - rewrite (proj1 (remember_frame _ _ _)) in Hk. cbn in Hk.
    apply lookup_delete_Some in Hk as [Hne Hk]. by eapply Hne, wf_inj.
  - rewrite El in Hl. apply (wf_alloc q Hw) in Ef. lia.
Qed.

Lemma finishable_antitone t o q : ~ finishable t q -> ~ finishable t (exec o q).2.
Proof.
  unfold finishable. intros Hn [[k Hk]|Hl].
  - apply exec_active in Hk as [Hk|Hk]; [|apply Hn; right; lia]. apply Hn. eauto.
  - pose proof (exec_length o q). apply Hn. right. lia.
Qed.

(** *** Records *)

Definition op_before (dl : Z) (o : op) : Prop :=
  match o with
  | Admit _ now | Cancel _ now | Finish _ _ now => now < dl
  | TryStart _ => True
  end.

Lemma remember_keeps id now q k dl :
  (size (terminal_ q) < capacity_ q)%nat -> k <> id -> terminal_ q !! k = Some dl ->
  terminal_ (remember id now q) !! k = Some dl.
Proof.
  intros Hs Hne Hk. unfold remember. case_decide; [done|]. cbn.
  rewrite lookup_insert_ne by done. rewrite decide_False by lia. done.
Qed.

Lemma remember_grows id now q :
  (size (terminal_ (remember id now q)) <= S (size (terminal_ q)))%nat.
Proof.
  unfold remember. case_decide; [lia|]. cbn. rewrite map_size_insert.
  set (m := if decide _ then _ else _).
  assert (size m <= size (terminal_ q))%nat.
  { subst m. case_decide; [|done]. unfold evict. destruct (oldest _); [|done].
    rewrite map_size_delete. case_match; cbn; lia. }
  destruct (m !! id); cbn; lia.
Qed.

Lemma exec_record_kept o q k dl :
  wf q -> terminal_ q !! k = Some dl -> op_before dl o ->
  (size (terminal_ q) < capacity_ q)%nat ->
  terminal_ (exec o q).2 !! k = Some dl /\
  (size (terminal_ (exec o q).2) <= S (size (terminal_ q)))%nat /\
  capacity_ (exec o q).2 = capacity_ q.
Proof.
  intros Hw Hk Hb Hs. destruct o as [id now|id now|id t' now|t']; cbn in *.
  - assert (Hp : terminal_ (prune now q) !! k = Some dl) by by apply prune_sub.
    pose proof (map_size_filter (fun e => now < e.2) (terminal_ q)).
    unfold admit_. case_decide; cbn; split_and!; try done; lia.
  - assert (Hp : terminal_ (prune now q) !! k = Some dl) by by apply prune_sub.
    pose proof (map_size_filter (fun e => now < e.2) (terminal_ q)) as Hf.
    unfold cancel. destruct (active_ (prune now q) !! id) as [t|].
    + unfold ticket_cancel. destruct (ticket_cas_frame t kCancelled (prune now q))
        as (_&_&->&->). split_and!; try done. cbn. lia.
    + case_decide as Hd; [split_and!; [done|cbn in *; lia|done]|].
      rewrite (proj1 (proj2 (proj2 (remember_frame id now (prune now q))))).
      pose proof (remember_grows id now (prune now q)). cbn in *. split_and!; [|lia|done].
      apply remember_keeps; [cbn; lia| |done]. intros ->. by apply Hd; eauto.
  - unfold finish. destruct (active_ q !! id) as [f|] eqn:Ef; [|split_and!; [done|cbn; lia|done]].
    case_decide; [|split_and!; [done|cbn; lia|done]]. cbn [snd].
    set (q' := prune now (set_active (delete id (active_ q)) q)).
    rewrite (proj1 (proj2 (proj2 (remember_frame id now q')))).
    pose proof (map_size_filter (fun e => now < e.2) (terminal_ q)) as Hf.
    pose proof (remember_grows id now q'). cbn in *. split_and!; [|lia|done].
    apply remember_keeps; [cbn; lia| |by apply prune_sub]. intros ->.
    rewrite (wf_disjoint q Hw id) in Hk; [done|eauto].
  - destruct (ticket_cas_frame t' kStarted q) as (_&_&E1&E2). unfold try_start.
    destruct (ticket_cas t' kStarted q). cbn in *. rewrite E1, E2. split_and!; [done|lia|done].
Qed.

Lemma admit_rejects id now q dl :
  terminal_ q !! id = Some dl -> now < dl -> (admit_ id now q).1 = None.
Proof.
  intros Hk Hlt. unfold admit_. rewrite decide_True; [done|]. right; left. exists dl.
  by apply prune_sub.
Qed.
End evolution.

(** ** Properties *)

Module QueuedProperties.

(** Invariant of the registry, for every interleaving of admissions,
    cancellations, completions and starts: at most [capacity] active requests
    and at most [capacity] terminal records, no id both active and terminal,
    every active ticket allocated, and no two ids sharing a ticket. *)
Theorem registry_invariant (capacity : nat) (retention : Z) (ops : list op) :
  wf (run exec ops (create capacity retention)).2.
Proof. apply run_invariant; [intros; by apply wf_exec|apply wf_create]. Qed.

(** C22. A ticket is started at most once and finished at most once in any
    interleaving, so a queued operation runs at most once and answers at most
    once. *)
Theorem ticket_one_shot (capacity : nat) (retention : Z) (ops : list op) (t : nat) :
  (firings exec (starts t) ops (create capacity retention) <= 1)%nat /\
  (firings exec (finishes t) ops (create capacity retention) <= 1)%nat.
Proof.
  split.
  - apply (firings_at_most_once exec (starts t) (fun _ => True) (startable t)); try done.
    + intros o s _. apply starts_disarms.
    + intros o s _. apply startable_antitone.
  - apply (firings_at_most_once exec (finishes t) wf (finishable t)).
    + intros. by apply wf_exec.
    + intros o s Hw. by apply finishes_disarms.
    + intros o s _. apply finishable_antitone.
    + apply wf_create.
Qed.

(** Cancellation wins exactly before the start: cancelling an active
    request leaves a started ticket started and cancels a queued one, and
    whatever happens afterwards that ticket keeps its state and can never be
    started (again). *)
Theorem cancel_start_race (q : queued_requests) (id : string * Z) (t : nat)
    (now : Z) (ops : list op) :
  wf q -> active_ q !! id = Some t ->
  let decided := if started t q then kStarted else kCancelled in
  let q' := (run exec ops (cancel id now q)).2 in
  tickets_ q' !! t = Some decided /\
  (try_start t q').1 = false /\
  firings exec (starts t) ops (cancel id now q) = 0%nat.
Proof.
  intros Hw Ha. cbn zeta.
  set (s := if started t q then kStarted else kCancelled).
  assert (Hs : tickets_ (cancel id now q) !! t = Some s /\ s <> kQueued).
  { unfold cancel. cbn [prune active_ set_terminal]. rewrite Ha. subst s.
    unfold ticket_cancel, ticket_cas, started. cbn.
    pose proof (wf_alloc q Hw id t Ha) as Hl. apply lookup_lt_is_Some in Hl as [x Hx].
    rewrite Hx. destruct x; cbn.
    - rewrite list_lookup_insert_eq by (by eapply lookup_lt_Some).
      by rewrite bool_decide_false by congruence.
    - by rewrite bool_decide_true.
    - by rewrite bool_decide_false by congruence. }
  destruct Hs as [Hs Hne].
  assert (Hs' : tickets_ (run exec ops (cancel id now q)).2 !! t = Some s).
  { apply (run_invariant exec (fun q => tickets_ q !! t = Some s)); [|done].
    intros o q0 H0. by apply exec_ticket_stable. }
  split_and!; [done| |].
  - unfold try_start, ticket_cas. rewrite Hs'. by destruct s.
  - apply (firings_at_most_once exec (starts t) (fun _ => True) (startable t)); try done.
    + intros o s' _. apply starts_disarms.
    + intros o s' _. apply startable_antitone.
    + intros [H|H]; [congruence|]. apply lookup_lt_Some in Hs. lia.
Qed.

Lemma cancel_start_race_witness :
  let q := (admit_ ("r"%string, 1) 0 (create 2 10)).2 in
  (try_start 0 (cancel ("r"%string, 1) 1 q)).1 = false /\
  tickets_ (cancel ("r"%string, 1) 1 q) !! 0%nat = Some kCancelled.
Proof.
  intros q. destruct (cancel_start_race q ("r"%string, 1) 0 1 []) as (H1&H2&_).
  - apply wf_admit, wf_create.
  - vm_compute. reflexivity.
  - split; [exact H2|exact H1].
Defined.

(** Duplicate suppression: while a terminal record is unexpired and the
    table has room for the operations in between, the record survives them
    and the id is not admitted again. *)
Theorem duplicate_suppressed (q : queued_requests) (id : string * Z) (dl now : Z)
    (ops : list op) :
  wf q -> terminal_ q !! id = Some dl -> Forall (op_before dl) ops -> now < dl ->
  (size (terminal_ q) + length ops <= capacity_ q)%nat ->
  terminal_ (run exec ops q).2 !! id = Some dl /\
  (admit_ id now (run exec ops q).2).1 = None.
Proof.
  intros Hw Hk Ho Hn. revert q Hw Hk.
  induction Ho as [|o ops Ho _ IH]; intros q Hw Hk Hc.
  - split; [done|]. by eapply admit_rejects.
  - rewrite run_cons. cbn [snd length] in *.
    destruct (exec_record_kept o q id dl Hw Hk Ho) as (H1&H2&H3); [lia|].
    apply IH; [by apply wf_exec|done|]. rewrite H3. lia.
Qed.

Lemma duplicate_suppressed_witness :
  let q := (finish ("r"%string, 1) 0 5 (admit_ ("r"%string, 1) 0 (create 4 10)).2).2 in
  (admit_ ("r"%string, 1) 14
    (run exec [Admit ("r"%string, 2) 6; TryStart 1; Cancel ("s"%string, 9) 7] q).2).1 = None.
Proof.
  intros q. apply (duplicate_suppressed q ("r"%string, 1) 15 14).
  - apply wf_finish, wf_admit, wf_create.
  - vm_compute. reflexivity.
  - repeat constructor.
  - lia.
  - vm_compute. lia.
Defined.

(** Admission: a request is admitted exactly when its id is neither
    active nor covered by an unexpired record and fewer than [capacity]
    requests are active; the ticket is fresh and queued, and a rejected
    request changes nothing but the expired records. *)
Theorem admit_exact (q : queued_requests) (id : string * Z) (now : Z) :
  let '(t, q') := admit_ id now q in
  match t with
  | Some t =>
      active_ q !! id = None /\ (forall dl, terminal_ q !! id = Some dl -> dl <= now) /\
      (size (active_ q) < capacity_ q)%nat /\ t = length (tickets_ q) /\
      tickets_ q' = tickets_ q ++ [kQueued] /\ active_ q' = <[id := t]> (active_ q)
  | None =>
      (is_Some (active_ q !! id) \/ (exists dl, terminal_ q !! id = Some dl /\ now < dl) \/
       (capacity_ q <= size (active_ q))%nat) /\ q' = prune now q
  end.
Proof.
  unfold admit_. case_decide as Hd; cbn in *.
  - split; [|done]. destruct Hd as [?|[[dl Hdl]|?]]; [by left| |by right; right].
    right; left. exists dl. by apply prune_sub.
  - split_and!; [by apply eq_None_not_Some; tauto| |lia|done..].
    intros dl Hdl. apply Z.nlt_ge. intros Hlt. apply Hd. right; left. exists dl.
    by apply (prune_sub now q).
Qed.

(** A cancellation that arrives before its request suppresses it: the id
    is not admitted at any time before the retention elapses. *)
Theorem cancel_before_request (q : queued_requests) (id : string * Z) (t0 t1 : Z) :
  capacity_ q <> 0%nat -> active_ q !! id = None -> terminal_ q !! id = None ->
  t1 < t0 + retention_ q -> (admit_ id t1 (cancel id t0 q)).1 = None.
Proof.
  intros Hc Ha Ht Hlt. apply (admit_rejects _ _ _ (t0 + retention_ q)); [|done].
  unfold cancel. cbn [prune active_ set_terminal]. rewrite Ha.
  assert (Hn : terminal_ (prune t0 q) !! id = None)
    by (cbn; rewrite map_lookup_filter_None; by left).
  rewrite decide_False by (rewrite Hn; by intros [? ?]).
  unfold remember. rewrite decide_False by done. cbn. apply lookup_insert_eq.
Qed.

Lemma cancel_before_request_witness :
  (admit_ ("r"%string, 1) 29 (cancel ("r"%string, 1) 0 (create 4096 30))).1 = None.
Proof. apply cancel_before_request; done. Defined.
End QueuedProperties.
