(* ===== verification/Scheduler.v ===== *)
(** * Scheduler: running the jobs of a session one at a time

    Models [rsp-libs/include/rsplib/job/job_scheduler.hpp] and the interface
    of [job.hpp].  A job is an opaque value; running it hands it a completion
    closure, whose shared [completed] flag is a cell of [completed_].  Calling
    [current->run] is the last thing [push_and_run] and [complete_current] do,
    so a job that completes synchronously is the list of operations in which
    its [Done] comes next, and every behaviour of the jobs is a list of
    operations. *)

From S2P Require Import Prelude.

(** [job::cancel_reason]. *)
Inductive cancel_reason := kTimeout | kShutdown.

#[export] Instance cancel_reason_eq_dec : EqDecision cancel_reason.
Proof. solve_decision. Defined.

Section scheduler.
Context {J : Type}.

Record job_scheduler := JobScheduler {
  q_ : list J;
  running_ : bool;
  stopped_ : bool;
  completed_ : list bool;
}.

(** The calls made on jobs: [run] with the index of its completion flag, and
    [cancel]. *)
Inductive effect :=
  | Run (j : J) (completion : nat)
  | CancelJob (j : J) (reason : cancel_reason).

Definition scheduler_empty : job_scheduler := JobScheduler [] false false [].

(** [run]: a fresh [completed] flag and the call. *)
Definition run_job (current : J) (s : job_scheduler) : list effect * job_scheduler :=
  ([Run current (length (completed_ s))],
   JobScheduler (q_ s) (running_ s) (stopped_ s) (completed_ s ++ [false])).

Definition push_and_run (j : J) (s : job_scheduler) : list effect * job_scheduler :=
  if stopped_ s then ([CancelJob j kShutdown], s)
  else
    let q := q_ s ++ [j] in
    if running_ s then ([], JobScheduler q true (stopped_ s) (completed_ s))
    else
      let s := JobScheduler q true (stopped_ s) (completed_ s) in
      match q with
      | next :: _ => run_job next s
      | [] => ([], s)
      end.

Definition shutdown (s : job_scheduler) : list effect * job_scheduler :=
  if stopped_ s then ([], s)
  else ((fun j => CancelJob j kShutdown) <$> q_ s,
        JobScheduler [] false true (completed_ s)).

Definition complete_current (s : job_scheduler) : list effect * job_scheduler :=
  match q_ s with
  | [] => ([], s)
  | _ :: [] => ([], JobScheduler [] false (stopped_ s) (completed_ s))
  | _ :: (next :: _) as q =>
      run_job next (JobScheduler q (running_ s) (stopped_ s) (completed_ s))
  end.

(** The completion closure of [run]; a closure that was never handed out
    cannot be called. *)
Definition completion (k : nat) (s : job_scheduler) : list effect * job_scheduler :=
  match completed_ s !! k with
  | Some false =>
      complete_current
        (JobScheduler (q_ s) (running_ s) (stopped_ s) (<[k := true]> (completed_ s)))
  | _ => ([], s)
  end.

(** [clear], called by the destructor. *)
Definition clear (s : job_scheduler) : job_scheduler :=
  JobScheduler [] (running_ s) (stopped_ s) (completed_ s).

Inductive op := Push (j : J) | Done (k : nat) | Shutdown.

Definition exec (o : op) (s : job_scheduler) : list effect * job_scheduler :=
  match o with
  | Push j => push_and_run j s
  | Done k => completion k s
  | Shutdown => shutdown s
  end.

(** ** Specification: a serial FIFO executor

    Jobs are numbered in the order they were accepted; job [finished] is the
    only one that can be running, and its completion starts the next. *)

Record spec := Spec {
  accepted : list J;
  finished : nat;
  halted : bool;
}.

Definition spec_empty : spec := Spec [] 0 false.

Definition spec_start (k : nat) (js : list J) : list effect :=
  match js !! k with Some j => [Run j k] | None => [] end.

Definition spec_exec (o : op) (a : spec) : list effect * spec :=
  match o with
  | Push j =>
      if halted a then ([CancelJob j kShutdown], a)
      else
        let js := accepted a ++ [j] in
        (if decide (finished a = length (accepted a))
         then spec_start (finished a) js else [],
         Spec js (finished a) false)
  | Done k =>
      if decide (halted a = false /\ k = finished a /\ (k < length (accepted a))%nat)
      then (spec_start (S k) (accepted a), Spec (accepted a) (S k) false)
      else ([], a)
  | Shutdown =>
      if halted a then ([], a)
      else ((fun j => CancelJob j kShutdown) <$> drop (finished a) (accepted a),
            Spec (accepted a) (finished a) true)
  end.

(** The concrete state that represents an open specification state. *)
Definition flags (a : spec) : list bool :=
  replicate (finished a) true ++
    (if decide (finished a < length (accepted a))%nat then [false] else []).

Definition concrete (a : spec) : job_scheduler :=
  JobScheduler (drop (finished a) (accepted a))
    (bool_decide (finished a < length (accepted a))%nat) false (flags a).

Inductive simulates : job_scheduler -> spec -> Prop :=
  | sim_open a :
      (finished a <= length (accepted a))%nat -> halted a = false ->
      simulates (concrete a) a
  | sim_halted a c :
      (finished a <= length (accepted a))%nat -> halted a = true ->
      simulates (JobScheduler [] false true c) a.

Section open_steps.
Context (js : list J) (n : nat) (Hn : (n <= length js)%nat).

Lemma flags_idle : n = length js -> flags (Spec js n false) = replicate n true.
Proof. intros ->. unfold flags. cbn. by rewrite decide_False, app_nil_r by lia. Qed.

Lemma flags_busy :
  (n < length js)%nat -> flags (Spec js n false) = replicate n true ++ [false].
Proof. intros. unfold flags. cbn. by rewrite decide_True. Qed.

Lemma concrete_idle :
  n = length js ->
  concrete (Spec js n false) = JobScheduler [] false false (replicate n true).
Proof.
  intros E. unfold concrete. rewrite flags_idle by done. cbn.
  by rewrite drop_ge, bool_decide_false by lia.
Qed.

Lemma concrete_busy j :
  js !! n = Some j ->
  concrete (Spec js n false)
    = JobScheduler (j :: drop (S n) js) true false (replicate n true ++ [false]).
Proof.
  intros Hj. pose proof (lookup_lt_Some _ _ _ Hj). unfold concrete.
  rewrite flags_busy by done. cbn. by rewrite (drop_S js j), bool_decide_true.
Qed.
End open_steps.

Lemma concrete_push js n j :
  (n <= length js)%nat ->
  push_and_run j (concrete (Spec js n false)) =
    (if decide (n = length js) then spec_start n (js ++ [j]) else [],
     concrete (Spec (js ++ [j]) n false)).
Proof.
  intros Hn. case_decide as E.
  - assert (Hj : (js ++ [j]) !! n = Some j)
      by (rewrite E, lookup_app_r, Nat.sub_diag by lia; done).
    rewrite concrete_idle, (concrete_busy _ _ j) by done.
    unfold push_and_run, run_job, spec_start. cbn. rewrite Hj, length_replicate.
    rewrite drop_ge by (rewrite length_app; cbn; lia). done.
  - destruct (lookup_lt_is_Some_2 js n ltac:(lia)) as [x Hx].
    rewrite (concrete_busy _ _ x) by done.
    rewrite (concrete_busy (js ++ [j]) n x) by (by rewrite lookup_app_l by lia).
    unfold push_and_run. cbn. by rewrite drop_app_le by lia.
Qed.

Lemma concrete_done js n k :
  (n <= length js)%nat ->
  completion k (concrete (Spec js n false)) =
    if decide (k = n /\ (k < length js)%nat)
    then (spec_start (S k) js, concrete (Spec js (S k) false))
    else ([], concrete (Spec js n false)).
Proof.
  intros Hn. unfold completion. case_decide as E.
  - destruct E as [-> Hlt]. destruct (lookup_lt_is_Some_2 js n Hlt) as [x Hx].
    rewrite (concrete_busy _ _ x) by done. cbn.
    rewrite lookup_app_r, length_replicate, Nat.sub_diag by (rewrite length_replicate; lia).
    cbn. rewrite insert_app_r_alt, length_replicate, Nat.sub_diag
      by (rewrite length_replicate; lia). cbn.
    rewrite <- replicate_cons_app. unfold complete_current, spec_start. cbn [q_].
    destruct (js !! S n) as [y|] eqn:Hy.
    + rewrite (drop_S js y) by done. rewrite (concrete_busy _ _ y) by done.
      unfold run_job. cbn. by rewrite length_replicate.
    + apply lookup_ge_None in Hy. rewrite drop_ge by done.
      rewrite concrete_idle by lia. done.
  - destruct (concrete (Spec js n false)) as [q r st c] eqn:Ec. cbn.
    replace (c !! k) with (flags (Spec js n false) !! k) by (by inversion Ec).
    destruct (decide (k < n)%nat).
    + unfold flags. cbn. rewrite lookup_app_l by (rewrite length_replicate; lia).
      by rewrite lookup_replicate_2.
    + rewrite lookup_ge_None_2; [done|]. unfold flags. cbn.
      rewrite length_app, length_replicate. case_decide; cbn; lia.
Qed.

Lemma sim_exec o s a :
  simulates s a ->
  (exec o s).1 = (spec_exec o a).1 /\ simulates (exec o s).2 (spec_exec o a).2.
Proof.
  intros [[js n h] Hf Hh|[js n h] c Hf Hh]; cbn in Hf, Hh; subst h;
    destruct o as [j|k|]; cbn [exec spec_exec halted accepted finished].
  - rewrite concrete_push by done. cbn. split; [done|]. constructor; cbn; [|done].
    rewrite length_app. lia.
  - rewrite concrete_done by done. repeat case_decide; try tauto; cbn.
    + split; [done|]. constructor; cbn; [lia|done].
    + split; [done|]. by constructor.
  - split; [done|]. by constructor.
  - split; [done|]. by constructor.
  - rewrite decide_False by (intros [? _]; done). unfold completion.
    cbn [completed_]. destruct (c !! k) as [[]|]; split; (done || by constructor).
  - split; [done|]. by constructor.
Qed.

Lemma sim_run ops s a :
  simulates s a ->
  (run exec ops s).1 = (run spec_exec ops a).1 /\
  simulates (run exec ops s).2 (run spec_exec ops a).2.
Proof.
  revert s a. induction ops as [|o ops IH]; intros s a Hs; [done|].
  rewrite !run_cons. destruct (sim_exec o s a Hs) as [E Hs'].
  destruct (IH _ _ Hs') as [E' Hs'']. cbn. by rewrite E, E'.
Qed.

(** ** What the specification guarantees about a whole history *)

Definition runs_of (es : list effect) : list (J * nat) :=
  omap (fun e => match e with Run j k => Some (j, k) | _ => None end) es.

Definition cancels_of (es : list effect) : list J :=
  omap (fun e => match e with CancelJob j _ => Some j | _ => None end) es.

Definition submitted (ops : list op) : list J :=
  omap (fun o => match o with Push j => Some j | _ => None end) ops.

Definition numbered (js : list J) : list (J * nat) := imap (fun i j => (j, i)) js.

#[local] Arguments numbered : simpl never.

(** Job numbers up to the one in progress have been started. *)
Definition n_started (a : spec) : nat := min (length (accepted a)) (S (finished a)).

Lemma cancels_of_cancelled js r : cancels_of ((fun j => CancelJob j r) <$> js) = js.
Proof. induction js as [|j js IH]; [done|]. cbn. by f_equal. Qed.

Lemma runs_of_cancelled js r : runs_of ((fun j => CancelJob j r) <$> js) = [].
Proof. by induction js as [|j js IH]. Qed.

Lemma runs_of_app es es' : runs_of (es ++ es') = runs_of es ++ runs_of es'.
Proof. apply omap_app. Qed.

Lemma cancels_of_app es es' : cancels_of (es ++ es') = cancels_of es ++ cancels_of es'.
Proof. apply omap_app. Qed.

Lemma take_numbered_app n js js' :
  (n <= length js)%nat -> take n (numbered (js ++ js')) = take n (numbered js).
Proof.
  intros. unfold numbered. rewrite imap_app, take_app_le; [done|].
  by rewrite length_imap.
Qed.

Lemma take_numbered_S n js j :
  js !! n = Some j -> take (S n) (numbered js) = take n (numbered js) ++ [(j, n)].
Proof.
  intros Hj. rewrite (take_S_r _ _ (j, n)); [done|].
  unfold numbered. by rewrite list_lookup_imap, Hj.
Qed.

Lemma cancels_of_start k js : cancels_of (spec_start k js) = [].
Proof. unfold spec_start. by destruct (js !! k). Qed.

Lemma runs_of_start k js :
  runs_of (spec_start k js) = match js !! k with Some j => [(j, k)] | None => [] end.
Proof. unfold spec_start. by destruct (js !! k). Qed.

Record history (ops : list op) (es : list effect) (a : spec) : Prop := {
  hist_le : (finished a <= length (accepted a))%nat;
  hist_runs : runs_of es = take (n_started a) (numbered (accepted a));
  hist_cancels : exists rejected,
    submitted ops = accepted a ++ rejected /\
    cancels_of es =
      (if halted a then drop (finished a) (accepted a) ++ rejected else []) /\
    (halted a = false -> rejected = []);
}.

Lemma history_push ops es a j :
  history ops es a ->
  history (ops ++ [Push j]) (es ++ (spec_exec (Push j) a).1) (spec_exec (Push j) a).2.
Proof.
  intros [Hle Hr (rej&Hs&Hc&Hh)]. destruct a as [js n h]. cbn in *.
  assert (Hsub : submitted (ops ++ [Push j]) = (js ++ rej) ++ [j])
    by (unfold submitted; rewrite omap_app; cbn; by rewrite <- Hs).
  destruct h; cbn.
  - split; cbn; [done| |].
    + by rewrite runs_of_app, app_nil_r.
    + exists (rej ++ [j]). rewrite Hsub, app_assoc. unfold cancels_of in *.
      by rewrite omap_app, Hc, <- !app_assoc.
  - rewrite (Hh eq_refl), app_nil_r in *. split; cbn.
    + rewrite length_app. lia.
    + unfold n_started in *. cbn in *. unfold runs_of in *. rewrite omap_app, Hr.
      rewrite length_app. cbn. case_decide as E.
      * fold (runs_of (spec_start n (js ++ [j]))). rewrite runs_of_start.
        assert (Hj : (js ++ [j]) !! n = Some j)
          by (rewrite E, lookup_app_r, Nat.sub_diag by lia; done).
        rewrite Hj. replace (length js `min` S n)%nat with n by lia.
        replace ((length js + 1) `min` S n)%nat with (S n) by lia.
        by rewrite (take_numbered_S _ _ j Hj), take_numbered_app by lia.
      * rewrite app_nil_r. replace ((length js + 1) `min` S n)%nat
          with (length js `min` S n)%nat by lia. by rewrite take_numbered_app by lia.
    + exists []. rewrite app_nil_r. split_and!; [done| |done]. unfold cancels_of in *.
      rewrite omap_app, Hc. case_decide; [by apply cancels_of_start|done].
Qed.

Lemma history_done ops es a k :
  history ops es a ->
  history (ops ++ [Done k]) (es ++ (spec_exec (Done k) a).1) (spec_exec (Done k) a).2.
Proof.
  intros [Hle Hr (rej&Hs&Hc&Hh)]. destruct a as [js n h]. cbn in *.
  assert (Hsub : submitted (ops ++ [Done k]) = js ++ rej)
    by (unfold submitted; rewrite omap_app; cbn; by rewrite app_nil_r, <- Hs).
  case_decide as E; cbn.
  2: { rewrite app_nil_r. split; cbn; [done..|]. exists rej. by rewrite Hsub. }
  destruct E as (->&->&Hlt). split; cbn; [lia| |].
  - unfold n_started in *. cbn in *. unfold runs_of in *. rewrite omap_app, Hr.
    fold (runs_of (spec_start (S n) js)). rewrite runs_of_start.
    destruct (js !! S n) as [j|] eqn:Hj.
    + pose proof (lookup_lt_Some _ _ _ Hj).
      replace (length js `min` S n)%nat with (S n) by lia.
      replace (length js `min` S (S n))%nat with (S (S n)) by lia.
      by rewrite (take_numbered_S (S n) _ j Hj).
    + apply lookup_ge_None in Hj. rewrite app_nil_r.
      by replace (length js `min` S (S n))%nat with (length js `min` S n)%nat by lia.
  - exists rej. rewrite Hsub. split_and!; [done| |done]. unfold cancels_of in *.
    rewrite omap_app, Hc. by apply cancels_of_start.
Qed.

Lemma history_shutdown ops es a :
  history ops es a ->
  history (ops ++ [Shutdown]) (es ++ (spec_exec Shutdown a).1) (spec_exec Shutdown a).2.
Proof.
  intros [Hle Hr (rej&Hs&Hc&Hh)]. destruct a as [js n h]. cbn in *.
  assert (Hsub : submitted (ops ++ [Shutdown]) = js ++ rej)
    by (unfold submitted; rewrite omap_app; cbn; by rewrite app_nil_r, <- Hs).
  destruct h; cbn.
  - rewrite app_nil_r. split; cbn; [done..|]. exists rej. by rewrite Hsub.
  - rewrite (Hh eq_refl) in *. split; cbn; [done| |].
    + unfold runs_of in *. rewrite omap_app, Hr.
      fold (runs_of ((fun j => CancelJob j kShutdown) <$> drop n js)).
      by rewrite runs_of_cancelled, app_nil_r.
    + exists []. split_and!; [done| |done]. unfold cancels_of in *.
      rewrite omap_app, Hc, app_nil_r. apply cancels_of_cancelled.
Qed.

Lemma spec_history ops :
  history ops (mjoin (run spec_exec ops spec_empty).1) (run spec_exec ops spec_empty).2.
Proof.
  induction ops as [|o ops IH] using rev_ind.
  { split; cbn; [lia|done|]. by exists []. }
  rewrite run_snoc. cbn [fst snd]. rewrite join_app, mjoin_cons, app_nil_r.
  destruct o; [by apply history_push|by apply history_done|by apply history_shutdown].
Qed.

Lemma spec_drain js n :
  (n <= length js)%nat ->
  (run spec_exec (Done <$> seq n (length js - n)) (Spec js n false)).2
    = Spec js (length js) false.
Proof.
  remember (length js - n)%nat as d eqn:Ed. revert n Ed.
  induction d as [|d IH]; intros n Ed Hn; cbn [seq fmap list_fmap].
  - by replace (length js) with n by lia.
  - rewrite run_cons. cbn [snd spec_exec halted finished accepted].
    rewrite decide_True by (split_and!; [done..|lia]). apply IH; lia.
Qed.

Lemma spec_not_halted ops :
  Shutdown ∉ ops -> halted (run spec_exec ops spec_empty).2 = false.
Proof.
  induction ops as [|o ops IH] using rev_ind; intros Hn; [done|].
  rewrite run_snoc. cbn [snd]. rewrite elem_of_app in Hn.
  assert (Hh : halted (run spec_exec ops spec_empty).2 = false) by tauto.
  destruct (run spec_exec ops spec_empty).2 as [js n h]. cbn in Hh. subst h.
  destruct o; cbn; [done|by case_decide|]. exfalso. apply Hn. right. by left.
Qed.

Lemma submitted_dones ks : submitted (Done <$> ks) = [].
Proof. by induction ks. Qed.
End scheduler.
Arguments job_scheduler : clear implicits.
Arguments effect : clear implicits.
Arguments op : clear implicits.
Arguments spec : clear implicits.

(** ** Properties *)

Module SchedulerProperties.

(** C2. Refinement: on every list of pushes, completions (repeated or stale
    ones included) and shutdowns, the scheduler makes exactly the calls of the
    serial FIFO executor. *)
Theorem scheduler_refines_spec {J} (ops : list (op J)) :
  (run exec ops scheduler_empty).1 = (run spec_exec ops spec_empty).1.
Proof. apply sim_run. apply (sim_open spec_empty); done. Qed.

(** Accounting of a whole history: the jobs started are an initial
    segment of the accepted jobs, each started once and in submission order;
    a job is started only when all jobs before it have completed; after a
    shutdown exactly the accepted jobs that had not completed, and then every
    job submitted later, are cancelled, once each and in order. *)
Theorem scheduler_accounting {J} (ops : list (op J)) :
  let es := mjoin (run exec ops scheduler_empty).1 in
  exists accepted rejected finished,
    submitted ops = accepted ++ rejected /\ (finished <= length accepted)%nat /\
    runs_of es = take (min (length accepted) (S finished)) (numbered accepted) /\
    cancels_of es = (if stopped_ (run exec ops scheduler_empty).2
                     then drop finished accepted ++ rejected else []) /\
    (stopped_ (run exec ops scheduler_empty).2 = false -> rejected = []).
Proof.
  destruct (sim_run ops scheduler_empty spec_empty (sim_open spec_empty ltac:(done) ltac:(done)))
    as [E Hs].
  cbn zeta. rewrite E. destruct (spec_history ops) as [H1 H2 (rej&H3&H4&H5)].
  assert (Est : stopped_ (run exec ops scheduler_empty).2
                = halted (run spec_exec ops spec_empty).2) by (by destruct Hs).
  rewrite Est. eexists _, rej, _. split_and!; done.
Qed.

(** Mutual exclusion: as long as the scheduler is not shut down, exactly
    one completion is outstanding while it is marked running and none while it
    is idle, and it is running exactly when its queue is not empty. *)
Theorem scheduler_exclusive {J} (ops : list (op J)) :
  let s := (run exec ops scheduler_empty).2 in
  if stopped_ s then q_ s = [] /\ running_ s = false
  else length (filter (fun b => b = false) (completed_ s))
         = (if running_ s then 1 else 0)%nat /\
       (running_ s = false <-> q_ s = []).
Proof.
  destruct (sim_run ops scheduler_empty spec_empty (sim_open spec_empty ltac:(done) ltac:(done)))
    as [_ Hs].
  cbn zeta. destruct Hs as [[js n h] Hf Hh|a c Hf Hh]; cbn in *; [|done].
  assert (Ht : filter (fun b => b = false) (replicate n true) = []).
  { clear. induction n as [|n IH]; [done|]. cbn [replicate].
    by rewrite filter_cons_False. }
  unfold flags. cbn. rewrite filter_app, Ht. cbn.
  destruct (decide (n < length js)%nat); rewrite ?bool_decide_true, ?bool_decide_false by done.
  - split; [done|]. split; [done|]. intros E%(f_equal length).
    rewrite length_drop in E. cbn in E. lia.
  - split; [done|]. rewrite drop_ge by lia. done.
Qed.

(** After a shutdown no job is ever started again, whatever completions
    arrive late, and every job submitted later is cancelled. *)
Theorem no_run_after_shutdown {J} (before after : list (op J)) :
  let s := (run exec (before ++ [Shutdown]) scheduler_empty).2 in
  let es := mjoin (run exec after s).1 in
  runs_of es = [] /\ cancels_of es = submitted after.
Proof.
  cbn zeta.
  destruct (sim_run (before ++ [Shutdown]) scheduler_empty spec_empty
    (sim_open spec_empty ltac:(done) ltac:(done))) as [_ Hs].
  assert (Hst : stopped_ (run exec (before ++ [Shutdown]) scheduler_empty).2 = true).
  { rewrite run_snoc. cbn. unfold shutdown. by destruct (stopped_ (run exec _ _).2) eqn:E. }
  set (s := (run exec (before ++ [Shutdown]) scheduler_empty).2) in *.
  assert (Hsh : exists c, s = JobScheduler [] false true c) by (destruct Hs; naive_solver).
  clearbody s. clear Hs Hst. revert s Hsh.
  induction after as [|o after IH]; intros s [c ->]; [done|].
  rewrite run_cons. cbn [fst]. rewrite mjoin_cons, runs_of_app, cancels_of_app.
  assert (Hsh : exists c', (exec o (JobScheduler [] false true c)).2
                           = JobScheduler [] false true c').
  { destruct o as [j|k|]; cbn; [eauto| |eauto]. unfold completion. cbn.
    destruct (c !! k) as [[]|]; cbn; eauto. }
  destruct (IH _ Hsh) as [-> ->]. rewrite app_nil_r.
  destruct o as [j|k|]; [done| |done]. cbn [exec]. unfold completion. cbn [completed_].
  by destruct (c !! k) as [[]|].
Qed.

(** Progress: from any history without shutdown, completing the jobs in
    progress one after the other (one completion per queued job) starts and
    finishes every submitted job and leaves the scheduler idle. *)
Theorem scheduler_drains {J} (ops : list (op J)) :
  Shutdown ∉ ops ->
  exists n, let ops' := ops ++ (Done <$> seq n (length (submitted ops) - n)) in
    (n <= length (submitted ops))%nat /\
    runs_of (mjoin (run exec ops' scheduler_empty).1) = numbered (submitted ops) /\
    q_ (run exec ops' scheduler_empty).2 = [] /\
    running_ (run exec ops' scheduler_empty).2 = false.
Proof.
  intros Hn. pose proof (spec_not_halted ops Hn) as Hh.
  destruct (spec_history ops) as [Hle _ (rej&Hs&_&Hrej)]. rewrite (Hrej Hh), app_nil_r in Hs.
  exists (finished (run spec_exec ops spec_empty).2). cbn zeta. split; [by rewrite Hs|].
  set (ds := Done <$> seq _ _).
  destruct (sim_run (ops ++ ds) scheduler_empty spec_empty
    (sim_open spec_empty ltac:(done) ltac:(done))) as [-> Hsim].
  assert (Ha : (run spec_exec (ops ++ ds) spec_empty).2
               = Spec (submitted ops) (length (submitted ops)) false).
  { rewrite run_app. cbn [snd]. subst ds. rewrite Hs.
    destruct (run spec_exec ops spec_empty).2 as [js n h]. cbn in *. subst h.
    by apply spec_drain. }
  destruct (spec_history (ops ++ ds)) as [_ Hr _]. rewrite Ha in Hr, Hsim. split_and!.
  - rewrite Hr. unfold n_started. cbn. rewrite take_ge; [done|].
    unfold numbered. rewrite length_imap. lia.
  - inversion Hsim; cbn; [by rewrite drop_ge|done].
  - inversion Hsim; cbn; [by rewrite bool_decide_false by lia|done].
Qed.

Lemma scheduler_drains_witness :
  exists n, runs_of (mjoin (run exec ([Push 10; Done 0; Push 20; Push 30; Done 0] ++
      (Done <$> seq n (3 - n))) scheduler_empty).1) = [(10, 0%nat); (20, 1%nat); (30, 2%nat)].
Proof.
  destruct (scheduler_drains [Push 10; Done 0; Push 20; Push 30; Done 0]) as (n&_&E&_).
  - rewrite !not_elem_of_cons. split_and!; (discriminate || apply not_elem_of_nil).
  - exists n. exact E.
Defined.

(** [clear] empties the queue but leaves [running_] set, so it is only safe in
    the destructor: a job pushed after a [clear] while a job is in progress is
    discarded by that job's completion and never runs. *)
Lemma clear_loses_job :
  let s := clear (push_and_run 1 scheduler_empty).2 in
  let '(es, s') := run exec [Push 2; Done 0] s in
  mjoin es = [] /\ q_ s' = [] /\ running_ s' = false.
Proof. vm_compute. done. Qed.
End SchedulerProperties.
