(* ===== verification/Locks.v ===== *)
(** * Locks: the thread-safe wrapper

    Models [rsp-libs/include/rsplib/thread/thread_safe.hpp]: [thread_safe<T>]
    whose [operator->] returns an [auto_locker_t], the [lock] and [unlock] of
    its [lockable_T], and the destructors.  Threads interleave at every access
    of the mutex and of the flag [locked]; a run is a path of the step
    relation. *)

From S2P Require Import Prelude.
From coqutil Require Import Datatypes.RecordSetters.
Import TriangleBracketNotations.
#[local] Arguments constant {_} _ _ /.

(** Where a thread is in an expression [object->operation()]. *)
Inductive pc :=
  | Idle           (** no locker of its own *)
  | Acquire        (** in [lock], before [guard.lock()] *)
  | SetLocked      (** in [lock], before [locked = true] *)
  | Inside         (** the operation on [T] *)
  | Checking          (** in [unlock], before [assert(locked)] *)
  | Release        (** in [unlock], before [guard.unlock()] *)
  | ClearLocked    (** in [unlock], before [locked = false] *)
  | Failed.        (** [assert] has failed *)

#[export] Instance pc_eq_dec : EqDecision pc.
Proof. solve_decision. Defined.

(** [guard] is the thread that owns the mutex. *)
Record lockable := Lockable {
  guard : option nat;
  locked : bool;
  threads : list pc;
}.

Definition create (n : nat) : lockable := Lockable None false (replicate n Idle).

Definition set_pc (i : nat) (p : pc) (s : lockable) : lockable :=
  s <| threads := <[i := p]> (threads s) |>.

(** The next access of thread [i]; [None] when it waits or has failed. *)
Definition thread_step (i : nat) (s : lockable) : option lockable :=
  match threads s !! i with
  | Some Idle => Some (set_pc i Acquire s)
  | Some Acquire =>
      match guard s with
      | None => Some (set_pc i SetLocked (s <| guard := Some i |>))
      | Some _ => None
      end
  | Some SetLocked => Some (set_pc i Inside (s <| locked := true |>))
  | Some Inside => Some (set_pc i Checking s)
  | Some Checking => Some (set_pc i (if locked s then Release else Failed) s)
  | Some Release => Some (set_pc i ClearLocked (s <| guard := None |>))
  | Some ClearLocked => Some (set_pc i Idle (s <| locked := false |>))
  | Some Failed | None => None
  end.

Inductive step : lockable -> lockable -> Prop :=
  | step_thread i s s' : thread_step i s = Some s' -> step s s'.

Definition reachable (n : nat) (s : lockable) : Prop := rtc step (create n) s.

(** The thread owns the mutex. *)
Definition holds (p : pc) : bool :=
  match p with SetLocked | Inside | Checking | Release | Failed => true | _ => false end.

(** [~lockable_T] throws: it is called when no [auto_locker_t] is left. *)
Definition destructor_throws (s : lockable) : bool := locked s.

(** ** Invariant *)

Record inv (s : lockable) : Prop := {
  inv_guard i : guard s = Some i <-> exists p, threads s !! i = Some p /\ holds p = true;
  inv_locked : locked s = true ->
    (exists i p, threads s !! i = Some p /\ (holds p = true \/ p = ClearLocked));
}.

Lemma inv_create n : inv (create n).
Proof.
  split; [|done]. intros i. split; [done|]. intros (p&Hp&Hh).
  apply lookup_replicate in Hp as [-> _]. done.
Qed.

(** Another thread's program counter. *)
Lemma lookup_set_pc i p s j :
  (i < length (threads s))%nat ->
  threads (set_pc i p s) !! j = if decide (j = i) then Some p else threads s !! j.
Proof.
  intros Hi. destruct s. cbn in *. case_decide as Hd; [subst|].
  - by apply list_lookup_insert_eq.
  - by apply list_lookup_insert_ne.
Qed.

(** A step of thread [i] from [p] to [p'] with the mutex and the flag given. *)
Lemma inv_set i p p' g b s :
  inv s -> threads s !! i = Some p ->
  (if holds p' then g = Some i /\ (guard s = None \/ guard s = Some i)
   else if holds p then g = None else g = guard s) ->
  (b = true -> holds p' = true \/ p' = ClearLocked \/
     (locked s = true /\ holds p = false /\ p <> ClearLocked)) ->
  inv (set_pc i p' (s <| guard := g |> <| locked := b |>)).
Proof.
  intros [Ig Il] Hp Hg Hb. assert (Hlt := lookup_lt_Some _ _ _ Hp).
  assert (Hl : forall j, threads (set_pc i p' (s <| guard := g |> <| locked := b |>)) !! j =
    if decide (j = i) then Some p' else threads s !! j).
  { intros j. rewrite lookup_set_pc by (by destruct s). by destruct s. }
  assert (Eg : guard (set_pc i p' (s <| guard := g |> <| locked := b |>)) = g) by (by destruct s).
  assert (Eb : locked (set_pc i p' (s <| guard := g |> <| locked := b |>)) = b) by (by destruct s).
  split; rewrite ?Eg, ?Eb.
  - intros j. rewrite Hl. case_decide as Hd; [subst j|].
    + destruct (holds p') eqn:Eh.
      * destruct Hg as [-> _]. split; [intros _; by exists p'|done].
      * split; [|intros (q&[= <-]&Hq); congruence]. intros Hgi. destruct (holds p) eqn:Ep; [congruence|].
        rewrite Hg in Hgi. apply Ig in Hgi as (q&Hq&Hh). congruence.
    + rewrite <- Ig. destruct (holds p').
      * destruct Hg as [-> [->| ->]]; split; congruence.
      * destruct (holds p) eqn:Ep; [|by rewrite Hg].
        assert (guard s = Some i) by (apply Ig; by exists p). split; congruence.
  - intros ->. destruct (Hb eq_refl) as [Hh|[Hh|(Hlk&Hh&Hne)]].
    + exists i, p'. rewrite Hl, decide_True by done. auto.
    + exists i, p'. rewrite Hl, decide_True by done. auto.
    + destruct (Il Hlk) as (j&q&Hq&Hc). exists j, q. rewrite Hl, decide_False; [done|].
      intros ->. simplify_eq. destruct Hc as [Hc|Hc]; congruence.
Qed.

Lemma inv_step s s' : step s s' -> inv s -> inv s'.
Proof.
  intros [i s0 s1 Hs] Hi. unfold thread_step in Hs.
  destruct (threads s0 !! i) as [p|] eqn:Hp; [|done].
  pose proof (fun p' g b => inv_set i p p' g b s0 Hi Hp) as Hset.
  assert (Hg : holds p = true -> guard s0 = Some i)
    by (intros Hh; apply (inv_guard _ Hi); by exists p).
  destruct p; try done.
  - injection Hs as <-. specialize (Hset Acquire (guard s0) (locked s0)).
    replace (s0 <| guard := guard s0 |> <| locked := locked s0 |>) with s0 in Hset by (by destruct s0).
    apply Hset; [done|]. intros E. right. right. by split_and!.
  - destruct (guard s0) eqn:Eg; [done|]. injection Hs as <-.
    specialize (Hset SetLocked (Some i) (locked s0)).
    replace (s0 <| guard := Some i |> <| locked := locked s0 |>) with (s0 <| guard := Some i |>)
      in Hset by (by destruct s0). apply Hset; [by split; [|left]|]. auto.
  - injection Hs as <-. specialize (Hset Inside (guard s0) true).
    replace (s0 <| guard := guard s0 |> <| locked := true |>) with (s0 <| locked := true |>)
      in Hset by (by destruct s0). apply Hset; [cbn; rewrite Hg by done; auto|]. auto.
  - injection Hs as <-. specialize (Hset Checking (guard s0) (locked s0)).
    replace (s0 <| guard := guard s0 |> <| locked := locked s0 |>) with s0 in Hset by (by destruct s0).
    apply Hset; [cbn; rewrite Hg by done; auto|]. auto.
  - injection Hs as <-.
    specialize (Hset (if locked s0 then Release else Failed) (guard s0) (locked s0)).
    replace (s0 <| guard := guard s0 |> <| locked := locked s0 |>) with s0 in Hset by (by destruct s0).
    apply Hset; destruct (locked s0); cbn; rewrite ?Hg by done; auto.
  - injection Hs as <-. specialize (Hset ClearLocked None (locked s0)).
    replace (s0 <| guard := None |> <| locked := locked s0 |>) with (s0 <| guard := None |>)
      in Hset by (by destruct s0). apply Hset; [done|]. auto.
  - injection Hs as <-. specialize (Hset Idle (guard s0) false).
    replace (s0 <| guard := guard s0 |> <| locked := false |>) with (s0 <| locked := false |>)
      in Hset by (by destruct s0). by apply Hset.
Qed.

Lemma inv_reachable n s : reachable n s -> inv s.
Proof.
  intros Hr. assert (Hg : forall s0, rtc step s0 s -> inv s0 -> inv s).
  { clear Hr. intros s0 H0. induction H0 as [|s1 s2 s3 H12 _ IH]; [done|].
    intros H1. apply IH. by eapply inv_step. }
  apply (Hg _ Hr), inv_create.
Qed.

(** Running a schedule of threads. *)
Fixpoint run_schedule (sched : list nat) (s : lockable) : option lockable :=
  match sched with
  | [] => Some s
  | i :: sched => match thread_step i s with Some s => run_schedule sched s | None => None end
  end.

Lemma run_schedule_reachable sched s s' : run_schedule sched s = Some s' -> rtc step s s'.
Proof.
  revert s. induction sched as [|i sched IH]; intros s Hs; cbn in Hs; [by simplify_eq|].
  destruct (thread_step i s) as [s1|] eqn:E; [|done].
  eapply rtc_l; [by apply (step_thread i)|]. by apply IH.
Qed.

Module LocksProperties.

(** The wrapper gives exclusive access: in every reachable state at most one
    thread is between its [lock] and its [unlock] on the object, and it is the
    owner of the mutex; a waiting thread can proceed when the mutex is free;
    and once no locker is left [locked] is clear, so the destructor does not
    throw. *)
Theorem exclusive_access n s :
  reachable n s ->
  (forall i j p q, threads s !! i = Some p -> threads s !! j = Some q ->
     holds p = true -> holds q = true -> i = j) /\
  (forall i, threads s !! i = Some Acquire ->
     (exists j, guard s = Some j /\ j <> i) \/ is_Some (thread_step i s)) /\
  (Forall (fun p => p = Idle) (threads s) -> destructor_throws s = false).
Proof.
  intros [Ig Il]%inv_reachable. split_and!.
  - intros i j p q Hp Hq Hh Hh'. assert (guard s = Some i) by (apply Ig; by exists p).
    assert (guard s = Some j) by (apply Ig; by exists q). congruence.
  - intros i Hi. unfold thread_step. rewrite Hi. destruct (guard s) as [j|] eqn:Eg; [|eauto].
    left. exists j. split; [done|]. intros ->.
    destruct (proj1 (Ig i) eq_refl) as (p&Hp&Hh). by simplify_eq.
  - intros Hall. unfold destructor_throws. destruct (locked s); [|done].
    destruct (Il eq_refl) as (i&p&Hp&Hc). rewrite Forall_lookup in Hall.
    rewrite (Hall _ _ Hp) in Hc. by destruct Hc.
Qed.

(** The first thread is descheduled between [guard.unlock()] and
    [locked = false]. *)
Definition race : list nat := [0; 0; 0; 0; 0; 0; 1; 1; 1; 0; 1]%nat.

Lemma exclusive_access_witness :
  exists s, reachable 2 s /\ threads s = [Idle; Checking] /\
    (forall i j p q, threads s !! i = Some p -> threads s !! j = Some q ->
       holds p = true -> holds q = true -> i = j).
Proof.
  assert (Hr : run_schedule race (create 2) = Some (Lockable (Some 1%nat) false [Idle; Checking]))
    by (vm_compute; reflexivity).
  exists (Lockable (Some 1%nat) false [Idle; Checking]).
  apply run_schedule_reachable in Hr as Hs. split; [exact Hs|]. split; [reflexivity|].
  exact (proj1 (exclusive_access 2 _ Hs)).
Defined.

(** [unlock] releases the mutex before it clears [locked], so it can clear the
    flag of the next owner, whose [assert(locked)] then fails. *)
Lemma assertion_can_fail :
  exists s, reachable 2 s /\ threads s !! 1%nat = Some Failed.
Proof.
  exists (Lockable (Some 1%nat) false [Idle; Failed]). split; [|done].
  apply (run_schedule_reachable (race ++ [1%nat])). vm_compute. reflexivity.
Qed.
End LocksProperties.
