(* ===== verification/Pool.v ===== *)
(** * Pool: thread pools

    Models [rsp-libs/include/rsplib/thread/thread_pool.hpp] and
    [rsp-svr/user/include/user/server/worker.hpp].  The pool drives an
    [asio::io_context], which is not part of the repository: it is the class
    [io_context] of its operations, with what its documentation promises as the
    class [io_context_laws]; [queue_context] is an instance of both.  Handlers
    are opaque.  A thread of the pool is inside [io_context::run], executing a
    handler, or has returned; the steps of threads and the calls on the pool
    interleave freely, so an execution is a list of [event]s. *)

From S2P Require Import Prelude.
From coqutil Require Import Datatypes.RecordSetters.
Import TriangleBracketNotations.
#[local] Arguments constant {_} _ _ /.

(** ** The execution context *)

(** What a thread inside [run] does next: return, wait, or take a handler. *)
Inductive poll (H Ctx : Type) :=
  | Leave
  | Sleep
  | Take (h : H) (c : Ctx).
Arguments Leave {_ _}.
Arguments Sleep {_ _}.
Arguments Take {_ _} _ _.

Class io_context (H Ctx : Type) := {
  ioc_new : Ctx;
  ioc_post : H -> Ctx -> Ctx;
  ioc_work_started : Ctx -> Ctx;
  ioc_work_finished : Ctx -> Ctx;
  ioc_stop : Ctx -> Ctx;
  ioc_poll : Ctx -> poll H Ctx;
}.

(** Handlers are taken in no particular order, each once; [run] does not return
    while there is a work guard and the context is not stopped; after [stop] it
    returns without taking another handler, also when it is called again. *)
Class io_context_laws (H Ctx : Type) `{io_context H Ctx} := {
  stopped : Ctx -> bool;
  guards : Ctx -> Z;
  ready : Ctx -> list H;
  new_law : stopped ioc_new = false /\ guards ioc_new = 0 /\ ready ioc_new = [];
  post_law h c : stopped (ioc_post h c) = stopped c /\ guards (ioc_post h c) = guards c /\
    ready (ioc_post h c) ≡ₚ h :: ready c;
  work_started_law c : stopped (ioc_work_started c) = stopped c /\
    guards (ioc_work_started c) = guards c + 1 /\ ready (ioc_work_started c) = ready c;
  work_finished_law c : 1 < guards c -> stopped (ioc_work_finished c) = stopped c /\
    guards (ioc_work_finished c) = guards c - 1 /\ ready (ioc_work_finished c) = ready c;
  stop_law c : stopped (ioc_stop c) = true /\ guards (ioc_stop c) = guards c /\
    ready (ioc_stop c) = ready c;
  poll_stopped c : stopped c = true -> ioc_poll c = Leave;
  poll_sleep c : stopped c = false -> 0 < guards c -> ready c = [] -> ioc_poll c = Sleep;
  poll_take c : stopped c = false -> ready c <> [] -> exists h c', ioc_poll c = Take h c' /\
    stopped c' = false /\ guards c' = guards c /\ ready c ≡ₚ h :: ready c';
}.

(** ** thread_pool *)

Section pool.
Context {H Ctx : Type} `{io_context H Ctx}.

Inductive thread := InRun | Executing (h : H) | Exited.

Record thread_pool := ThreadPool {
  io_context_ : Ctx;
  size_ : nat;
  thread_pool_ : option (list thread);     (** the [thread_group], if any *)
}.

(** The member [work_guard_] is made with the context. *)
Definition create (pool_size : nat) : thread_pool :=
  ThreadPool (ioc_work_started ioc_new) pool_size None.

Definition size (p : thread_pool) : nat := size_ p.

(** The object [work] lives until [start] returns. *)
Definition start (p : thread_pool) : thread_pool :=
  let group := default [] (thread_pool_ p) in
  let c := ioc_work_started (io_context_ p) in
  let group := group ++ replicate (size_ p) InRun in
  ThreadPool (ioc_work_finished c) (size_ p) (Some group).

(** [join] may return when every thread of the group has returned; on a pool
    without threads it dereferences a null pointer. *)
Inductive joining := NullPointer | Waiting | Joined.

Definition exited (t : thread) : bool := match t with Exited => true | _ => false end.

Definition join (p : thread_pool) : joining :=
  match thread_pool_ p with
  | None => NullPointer
  | Some group => if forallb exited group then Joined else Waiting
  end.

(** [stop] up to its call of [join], and what follows. *)
Definition stop_begin (p : thread_pool) : bool * thread_pool :=
  match thread_pool_ p with
  | None => (false, p)
  | Some _ => (true, p <| io_context_ := ioc_stop (io_context_ p) |>)
  end.

Definition stop_end (p : thread_pool) : option thread_pool :=
  match join p with
  | Joined => Some (p <| thread_pool_ := None |>)
  | _ => None
  end.

Definition post (h : H) (p : thread_pool) : thread_pool :=
  p <| io_context_ := ioc_post h (io_context_ p) |>.

(** [dispatch] runs the handler at once when the caller is a thread of the pool. *)
Definition dispatch (inside : bool) (h : H) (p : thread_pool) : bool * thread_pool :=
  if inside then (true, p) else (false, post h p).

(** ** Executions *)

Inductive event :=
  | Start
  | Post (h : H)
  | Dispatch (caller : option nat) (h : H)
  | StopCall
  | StopReturn
  | ThreadStep (i : nat).

Inductive effect :=
  | Started (h : H)        (** a thread took it from the context *)
  | Inline (h : H)         (** [dispatch] ran it in the caller *)
  | ThreadLeft (i : nat).

(** [stopping]: a call of [stop] waits in [join]. *)
Record state := State { pool : thread_pool; stopping : bool }.

Definition thread_at (i : nat) (p : thread_pool) : option thread := default [] (thread_pool_ p) !! i.

Definition set_thread (i : nat) (t : thread) (p : thread_pool) : thread_pool :=
  p <| thread_pool_ := (fun group => <[i := t]> group) <$> thread_pool_ p |>.

Definition thread_step (i : nat) (p : thread_pool) : list effect * thread_pool :=
  match thread_at i p with
  | Some InRun =>
      match ioc_poll (io_context_ p) with
      | Leave => ([ThreadLeft i], set_thread i Exited p)
      | Sleep => ([], p)
      | Take h c => ([Started h], set_thread i (Executing h) (p <| io_context_ := c |>))
      end
  | Some (Executing _) => ([], set_thread i InRun p)
  | _ => ([], p)
  end.

Definition executing (caller : option nat) (p : thread_pool) : bool :=
  match caller ≫= (fun i => thread_at i p) with Some (Executing _) => true | _ => false end.

Definition exec (e : event) (s : state) : list effect * state :=
  match e with
  | Start => ([], if stopping s then s else s <| pool := start (pool s) |>)
  | Post h => ([], s <| pool := post h (pool s) |>)
  | Dispatch caller h =>
      let '(ran, p) := dispatch (executing caller (pool s)) h (pool s) in
      (if ran then [Inline h] else [], s <| pool := p |>)
  | StopCall =>
      if stopping s then ([], s)
      else let '(waits, p) := stop_begin (pool s) in ([], State p waits)
  | StopReturn =>
      match (if stopping s then stop_end (pool s) else None) with
      | Some p => ([], State p false)
      | None => ([], s)
      end
  | ThreadStep i => let '(es, p) := thread_step i (pool s) in (es, s <| pool := p |>)
  end.

Definition pool_start (n : nat) : state := State (create n) false.

(** The handlers given to the context, and those the threads took. *)
Definition started (es : list effect) : list H :=
  omap (fun e => match e with Started h => Some h | _ => None end) es.
Definition inline (es : list effect) : list H :=
  omap (fun e => match e with Inline h => Some h | _ => None end) es.
Definition submitted (evs : list event) : list H :=
  omap (fun e => match e with Post h | Dispatch _ h => Some h | _ => None end) evs.
End pool.
Arguments thread : clear implicits.
Arguments thread_pool : clear implicits.
Arguments effect : clear implicits.
Arguments event : clear implicits.
Arguments state : clear implicits.

(** ** worker *)

(** The pool of the sessions: one object, made and started by the first call of
    [instance]. *)
Module worker.
Section worker.
Context {H Ctx : Type} `{io_context H Ctx}.

Definition kThreads : nat := 30.

Definition instance (s_instance : option (thread_pool H Ctx)) : thread_pool H Ctx :=
  match s_instance with
  | Some w => w
  | None => Pool.start (create kThreads)
  end.

Definition start (w : thread_pool H Ctx) : thread_pool H Ctx := Pool.start w.
Definition stop_begin (w : thread_pool H Ctx) : bool * thread_pool H Ctx := Pool.stop_begin w.
Definition post (h : H) (w : thread_pool H Ctx) : thread_pool H Ctx := Pool.post h w.
Definition dispatch (inside : bool) (h : H) (w : thread_pool H Ctx)
    : bool * thread_pool H Ctx := Pool.dispatch inside h w.
End worker.
End worker.

(** ** The threads of tcp_server *)

Module server_threads.
Section server_threads.
Context {H Ctx : Type} `{io_context H Ctx}.

Record threads := Threads {
  acceptor_threads_ : thread_pool H Ctx;
  io_threads_ : thread_pool H Ctx;
}.

Definition create : threads := Threads (Pool.create 2) (Pool.create 5).

(** [start] up to its two joins, which its caller waits in one after the other. *)
Definition start (s : threads) : threads :=
  Threads (Pool.start (acceptor_threads_ s)) (Pool.start (io_threads_ s)).

Definition start_join (s : threads) : joining :=
  match join (acceptor_threads_ s) with
  | Joined => join (io_threads_ s)
  | w => w
  end.

(** [stop] up to its first join; the second pool is stopped after it. *)
Definition stop_begin (s : threads) : bool * threads :=
  let '(waits, p) := Pool.stop_begin (acceptor_threads_ s) in
  (waits, s <| acceptor_threads_ := p |>).

Definition stop_io_begin (s : threads) : bool * threads :=
  let '(waits, p) := Pool.stop_begin (io_threads_ s) in
  (waits, s <| io_threads_ := p |>).
End server_threads.
End server_threads.

(** ** Invariants *)

Section facts.
Context {H Ctx : Type} `{io_context_laws H Ctx}.
Notation state := (state H Ctx) (only parsing).

Definition context (s : state) : Ctx := io_context_ (pool s).
Definition group (s : state) : list (thread H) := default [] (thread_pool_ (pool s)).

Record ok (s : state) : Prop := {
  ok_guard : guards (context s) = 1;
  ok_live t : stopped (context s) = false -> t ∈ group s -> exited t = false;
  ok_stopping : stopping s = true -> stopped (context s) = true /\ is_Some (thread_pool_ (pool s));
}.

Lemma work_window c :
  guards c = 1 -> let c' := ioc_work_finished (ioc_work_started c) in
  stopped c' = stopped c /\ guards c' = 1 /\ ready c' = ready c.
Proof.
  intros Hg. cbn zeta. destruct (work_started_law c) as (A1&A2&A3).
  destruct (work_finished_law (ioc_work_started c)) as (B1&B2&B3); [lia|].
  rewrite B1, B2, B3, A1, A2, A3. split_and!; [done|lia|done].
Qed.

(** What a thread does. *)
Inductive thread_case (i : nat) (s : state) : list (effect H) -> thread_pool H Ctx -> Prop :=
  | case_none : thread_case i s [] (pool s)
  | case_return h :
      group s !! i = Some (Executing h) -> thread_case i s [] (set_thread i InRun (pool s))
  | case_leave :
      group s !! i = Some InRun -> stopped (context s) = true ->
      thread_case i s [ThreadLeft i] (set_thread i Exited (pool s))
  | case_take h c :
      group s !! i = Some InRun -> stopped (context s) = false -> stopped c = false ->
      guards c = guards (context s) -> ready (context s) ≡ₚ h :: ready c ->
      thread_case i s [Started h] (set_thread i (Executing h) ((pool s) <| io_context_ := c |>)).

Lemma thread_step_case i s :
  ok s -> thread_case i s (thread_step i (pool s)).1 (thread_step i (pool s)).2.
Proof.
  intros [Hg _ _]. unfold thread_step, thread_at. fold (group s). fold (context s).
  destruct (group s !! i) as [[|h|]|] eqn:Hi; try apply case_none; [|by eapply case_return].
  destruct (stopped (context s)) eqn:Es.
  { rewrite (poll_stopped _ Es). by apply case_leave. }
  destruct (decide (ready (context s) = [])) as [E|Hne].
  { rewrite (poll_sleep _ Es) by (done || lia). apply case_none. }
  destruct (poll_take _ Es Hne) as (h&c&->&E1&E2&E3). by apply case_take.
Qed.

Lemma group_set_thread i t p b :
  group (State (set_thread i t p) b) = <[i := t]> (group (State p b)).
Proof. destruct p as [c n [g|]]; [done|]. unfold group. cbn. by destruct i. Qed.

Lemma context_set_thread i t p b : context (State (set_thread i t p) b) = context (State p b).
Proof. by destruct p. Qed.

Lemma ok_exec e s : ok s -> ok (exec e s).2.
Proof.
  intros O. pose proof O as [G L S]. destruct e as [|h|caller h| | |i]; cbn [exec].
  - destruct (stopping s) eqn:Es; [done|]. destruct s as [[c n g] b]. cbn in *.
    destruct (work_window c G) as (A1&A2&A3). split; cbn; [done| |by rewrite Es].
    rewrite A1. intros t Hs [Ht|Ht]%elem_of_app; [by apply L|].
    by apply elem_of_replicate in Ht as [-> _].
  - destruct s as [[c n g] b]. cbn in *. destruct (post_law h c) as (A1&A2&A3).
    split; cbn; rewrite ?A1, ?A2; done.
  - unfold dispatch. destruct (executing caller (pool s)); cbn; destruct s as [[c n g] b]; [done|].
    cbn in *. destruct (post_law h c) as (A1&A2&A3). split; cbn; rewrite ?A1, ?A2; done.
  - destruct (stopping s) eqn:Es; [done|]. unfold stop_begin. destruct s as [[c n [g|]] b]; cbn in *.
    + destruct (stop_law c) as (A1&A2&A3). split; cbn; rewrite ?A1, ?A2; done.
    + by split.
  - destruct (stopping s) eqn:Es; [|done]. unfold stop_end, join.
    destruct s as [[c n [g|]] b]; cbn in *; [|done]. destruct (forallb exited g); [|exact O].
    split; cbn; [done| |done]. intros t _ Ht. by apply elem_of_nil in Ht.
  - pose proof (thread_step_case i s O) as Hc. destruct (thread_step i (pool s)) as [es p].
    destruct s as [p0 b]. cbn [fst snd pool] in *. change ((State p0 b) <| pool := p |>) with (State p b).
    destruct Hc as [|h Hi|Hi Hs|h c Hi Hs Hs' Hg' Hr]; [done|..]; split; cbn [stopping] in *;
      rewrite ?context_set_thread, ?group_set_thread; cbn [context pool] in *.
    + done.
    + intros t Hs Ht. apply list_elem_of_lookup in Ht as [i' Ht].
      apply list_lookup_insert_Some in Ht as [(_&<-&_)|[_ Ht]]; [done|].
      apply L; [done|]. by eapply list_elem_of_lookup_2.
    + intros Hb. destruct (S Hb) as [? [g Hg]]. split; [done|]. destruct p0. cbn in *. rewrite Hg. by eexists.
    + done.
    + intros t Hs'. unfold context in *. cbn in *. congruence.
    + intros Hb. destruct (S Hb) as [? [g Hg]]. split; [done|]. destruct p0. cbn in *. rewrite Hg. by eexists.
    + destruct p0. unfold context in *. cbn in *. congruence.
    + intros t _ Ht. apply list_elem_of_lookup in Ht as [i' Ht].
      apply list_lookup_insert_Some in Ht as [(_&<-&_)|[_ Ht]]; [done|].
      apply L; [done|]. destruct p0. by eapply list_elem_of_lookup_2.
    + intros Hb. destruct (S Hb) as [? _]. congruence.
Qed.

Lemma ok_start n : ok (pool_start n).
Proof.
  destruct new_law as (A1&A2&A3). destruct (work_started_law ioc_new) as (B1&B2&B3).
  split; cbn; [lia| |done]. intros t _ Ht. by apply elem_of_nil in Ht.
Qed.

Lemma ok_run n evs : ok (run exec evs (pool_start n)).2.
Proof. apply run_invariant; [intros; by apply ok_exec|apply ok_start]. Qed.

(** ** Where the handlers are *)

Definition submission (e : event H) : option H :=
  match e with Post h | Dispatch _ h => Some h | _ => None end.

Lemma account_exec e s :
  ok s -> let r := exec e s in
  option_list (submission e) ++ ready (context s)
    ≡ₚ started r.1 ++ inline r.1 ++ ready (context r.2).
Proof.
  intros O. pose proof O as [G _ _]. destruct e as [|h|caller h| | |i]; cbn [exec submission option_list app].
  - destruct (stopping s); [done|]. destruct s as [[c n g] b]. cbn in *.
    by destruct (work_window c G) as (_&_&->).
  - destruct s as [[c n g] b]. cbn in *. by destruct (post_law h c) as (_&_&->).
  - unfold dispatch. destruct (executing caller (pool s)); cbn; destruct s as [[c n g] b]; [done|].
    cbn in *. by destruct (post_law h c) as (_&_&->).
  - destruct (stopping s); [done|]. unfold stop_begin. destruct s as [[c n [g|]] b]; cbn in *; [|done].
    by destruct (stop_law c) as (_&_&->).
  - destruct (stopping s); [|done]. unfold stop_end. destruct (join (pool s)), s as [[c n g] b]; done.
  - pose proof (thread_step_case i s O) as Hc. destruct (thread_step i (pool s)) as [es p].
    destruct s as [p0 b]. cbn [fst snd pool] in *. change ((State p0 b) <| pool := p |>) with (State p b).
    destruct Hc as [|h Hi|Hi Hs|h c Hi Hs Hs' Hg' Hr]; rewrite ?context_set_thread; [done..|].
    cbn. rewrite Hr. by destruct p0.
Qed.

Lemma account_run evs s :
  ok s -> let r := run exec evs s in
  submitted evs ++ ready (context s)
    ≡ₚ started (mjoin r.1) ++ inline (mjoin r.1) ++ ready (context r.2).
Proof.
  cbn zeta. revert s. induction evs as [|e evs IH]; intros s O; [done|].
  pose proof (account_exec e s O) as He. specialize (IH (exec e s).2 (ok_exec e s O)).
  rewrite run_cons. cbn [fst snd] in *. rewrite mjoin_cons. unfold started, inline in *. rewrite !omap_app.
  assert (E : submitted (e :: evs) = option_list (submission e) ++ submitted evs) by (by destruct e).
  rewrite E. transitivity (submitted evs ++ (option_list (submission e) ++ ready (context s)));
    [solve_Permutation|]. rewrite He. 
  transitivity (omap (fun e => match e with Started h => Some h | _ => None end) (exec e s).1 ++
    omap (fun e => match e with Inline h => Some h | _ => None end) (exec e s).1 ++
    (submitted evs ++ ready (context (exec e s).2))); [solve_Permutation|]. rewrite IH. solve_Permutation.
Qed.

(** ** Running and stopping *)

Lemma stopped_exec e s :
  ok s -> stopped (context (exec e s).2) = stopped (context s) \/
    (e = StopCall /\ stopped (context (exec e s).2) = true).
Proof.
  intros O. pose proof O as [G _ _]. destruct e as [|h|caller h| | |i]; cbn [exec].
  - left. destruct (stopping s); [done|]. destruct s as [[c n g] b]. cbn in *.
    by destruct (work_window c G) as (->&_&_).
  - left. destruct s as [[c n g] b]. cbn in *. by destruct (post_law h c) as (->&_&_).
  - left. unfold dispatch. destruct (executing caller (pool s)); cbn; destruct s as [[c n g] b]; [done|].
    cbn in *. by destruct (post_law h c) as (->&_&_).
  - destruct (stopping s); [by left|]. unfold stop_begin. destruct s as [[c n [g|]] b]; cbn in *; [|by left].
    right. by destruct (stop_law c) as (->&_&_).
  - left. destruct (stopping s); [|done]. unfold stop_end. destruct (join (pool s)), s as [[c n g] b]; done.
  - left. pose proof (thread_step_case i s O) as Hc. destruct (thread_step i (pool s)) as [es p].
    destruct s as [p0 b]. cbn [fst snd pool] in *. change ((State p0 b) <| pool := p |>) with (State p b).
    destruct Hc as [|h Hi|Hi Hs|h c Hi Hs Hs' Hg' Hr]; rewrite ?context_set_thread; [done..|].
    rewrite Hs. by destruct p0.
Qed.

(** A stopped context stays stopped, and gives no handler to a thread. *)
Lemma stopped_final evs s :
  ok s -> stopped (context s) = true -> started (mjoin (run exec evs s).1) = [].
Proof.
  revert s. induction evs as [|e evs IH]; intros s O Hs; [done|].
  rewrite run_cons. cbn [fst]. rewrite mjoin_cons. unfold started in *. rewrite omap_app, IH, app_nil_r.
  - destruct e as [|h|caller h| | |i]; cbn [exec]; try done.
    + by destruct (dispatch _ _ _) as [[] ?].
    + destruct (stopping s); [done|]. by destruct (stop_begin _).
    + by repeat case_match.
    + pose proof (thread_step_case i s O) as Hc. destruct (thread_step i (pool s)) as [es p].
      cbn [fst snd] in *. destruct Hc; try done. congruence.
  - by apply ok_exec.
  - destruct (stopped_exec e s O) as [->|[_ ->]]; done.
Qed.

Definition is_step (e : event H) : Prop := exists i, e = ThreadStep i.

(** Some steps of the threads lead to [P]. *)
Definition reach (P : state -> Prop) (s : state) : Prop :=
  exists evs, Forall is_step evs /\ P (run exec evs s).2.

Lemma reach_now (P : state -> Prop) s : P s -> reach P s.
Proof. by exists []. Qed.

Lemma reach_step i (P : state -> Prop) s : reach P (exec (ThreadStep i) s).2 -> reach P s.
Proof.
  intros (evs&Hevs&HP). exists (ThreadStep i :: evs). rewrite run_cons. split; [|done].
  constructor; [by exists i|done].
Qed.

(** One turn of thread [i], which is not taking a handler. *)
Lemma thread_returns i h s :
  ok s -> group s !! i = Some (Executing h) ->
  let s' := (exec (ThreadStep i) s).2 in
  group s' = <[i := InRun]> (group s) /\ context s' = context s /\ stopping s' = stopping s.
Proof.
  intros O Hi. cbn [exec]. unfold thread_step, thread_at. fold (group s). rewrite Hi. cbn [fst snd].
  destruct s as [p b]. change ((State p b) <| pool := ?q |>) with (State q b).
  rewrite group_set_thread, context_set_thread. done.
Qed.

Lemma thread_takes i s :
  ok s -> group s !! i = Some InRun -> stopped (context s) = false -> ready (context s) <> [] ->
  let s' := (exec (ThreadStep i) s).2 in
  (exists h, group s' = <[i := Executing h]> (group s)) /\ stopped (context s') = false /\
  length (ready (context s)) = S (length (ready (context s'))).
Proof.
  intros O Hi Hs Hne. destruct (poll_take _ Hs Hne) as (h&c&Hp&E1&E2&E3). cbn [exec].
  unfold thread_step, thread_at. fold (group s). rewrite Hi. fold (context s). rewrite Hp. cbn [fst snd].
  destruct s as [p b]. change ((State p b) <| pool := ?q |>) with (State q b).
  rewrite group_set_thread, context_set_thread. destruct p as [c0 n g]. split_and!; [by exists h|done|].
  by rewrite E3.
Qed.

Lemma thread_leaves i s :
  ok s -> group s !! i = Some InRun -> stopped (context s) = true ->
  let s' := (exec (ThreadStep i) s).2 in
  group s' = <[i := Exited]> (group s) /\ context s' = context s /\ stopping s' = stopping s.
Proof.
  intros O Hi Hs. cbn [exec]. unfold thread_step, thread_at. fold (group s). rewrite Hi. fold (context s).
  rewrite (poll_stopped _ Hs). cbn [fst snd].
  destruct s as [p b]. change ((State p b) <| pool := ?q |>) with (State q b).
  rewrite group_set_thread, context_set_thread. done.
Qed.

(** One thread is enough to run all that waits. *)
Lemma pool_drained s :
  ok s -> stopped (context s) = false -> (0 < length (group s))%nat ->
  reach (fun s' => ready (context s') = []) s.
Proof.
  remember (length (ready (context s))) as m eqn:Em. revert s Em.
  induction m as [m IH] using lt_wf_ind. intros s Em O Hs Hl.
  destruct (decide (ready (context s) = [])) as [E|Hne]; [by apply reach_now|].
  assert (Hgo : forall s, length (ready (context s)) = m -> ok s -> stopped (context s) = false ->
    group s !! 0%nat = Some InRun -> ready (context s) <> [] ->
    reach (fun s' => ready (context s') = []) s).
  { intros s1 E1 O1 Hs1 Hi1 Hne1. destruct (thread_takes 0 s1 O1 Hi1 Hs1 Hne1) as ([h Hg]&Hs2&Hlen).
    apply (reach_step 0). eapply IH; [|reflexivity|by apply ok_exec|done|].
    - lia.
    - rewrite Hg, length_insert. by eapply lookup_lt_Some. }
  destruct (lookup_lt_is_Some_2 (group s) 0) as [t Ht]; [done|].
  pose proof (ok_live s O t Hs ltac:(by eapply list_elem_of_lookup_2)) as Hx.
  destruct t as [|h|]; [by apply Hgo| |done].
  destruct (thread_returns 0 h s O Ht) as (Hg&Hc&_). apply (reach_step 0), Hgo.
  - by rewrite Hc.
  - by apply ok_exec.
  - by rewrite Hc.
  - by rewrite Hg, list_lookup_insert_eq.
  - by rewrite Hc.
Qed.

(** After [stop] every thread returns. *)
Definition left (k : nat) (s0 s : state) : Prop :=
  ok s /\ stopped (context s) = true /\ stopping s = stopping s0 /\
  length (group s) = length (group s0) /\ forall i, (i < k)%nat -> group s !! i = Some Exited.

Lemma thread_left k s0 s :
  left k s0 s -> (k < length (group s0))%nat -> reach (left (S k) s0) s.
Proof.
  assert (Hend : forall s g, ok s -> stopped (context s) = true -> stopping s = stopping s0 ->
    group s = <[k := Exited]> g -> length g = length (group s0) -> (k < length (group s0))%nat ->
    (forall i, (i < k)%nat -> g !! i = Some Exited) -> left (S k) s0 s).
  { intros s1 g O1 Hs1 Hb1 Hg1 Hl1 Hk Hi1. split_and!; try done; [by rewrite Hg1, length_insert|].
    intros i Hi. rewrite Hg1. destruct (decide (i = k)) as [->|Hne].
    - apply list_lookup_insert_eq. lia.
    - rewrite list_lookup_insert_ne by done. apply Hi1. lia. }
  intros (O&Hs&Hb&Hl&Hi) Hk. destruct (lookup_lt_is_Some_2 (group s) k) as [t Ht]; [lia|].
  destruct t as [|h|].
  - destruct (thread_leaves k s O Ht Hs) as (Hg&Hc&Hb'). apply (reach_step k), reach_now.
    eapply Hend; [by apply ok_exec|by rewrite Hc|congruence|exact Hg|done|done|done].
  - destruct (thread_returns k h s O Ht) as (Hg&Hc&Hb'). apply (reach_step k).
    set (s1 := (exec (ThreadStep k) s).2) in *. assert (O1 : ok s1) by (by apply ok_exec).
    assert (Ht1 : group s1 !! k = Some InRun) by (rewrite Hg; apply list_lookup_insert_eq; lia).
    destruct (thread_leaves k s1 O1 Ht1) as (Hg1&Hc1&Hb1); [by rewrite Hc|].
    apply (reach_step k), reach_now. rewrite Hg, list_insert_insert_eq in Hg1.
    eapply Hend; [by apply ok_exec|by rewrite Hc1, Hc|congruence|exact Hg1|done|done|done].
  - apply reach_now. eapply (Hend s (group s)); try done. by rewrite list_insert_id.
Qed.

Lemma reach_bind (P Q : state -> Prop) s :
  reach P s -> (forall s', P s' -> reach Q s') -> reach Q s.
Proof.
  intros (evs&Hevs&HP) HQ. apply HQ in HP as (evs'&Hevs'&HP). exists (evs ++ evs').
  split; [by apply Forall_app|]. by rewrite run_app.
Qed.

Lemma threads_leave s :
  ok s -> stopped (context s) = true -> reach (left (length (group s)) s) s.
Proof.
  intros O Hs. assert (Hk : forall k, (k <= length (group s))%nat -> reach (left k s) s).
  { induction k as [|k IH]; intros Hk; [apply reach_now; split_and!; try done; lia|].
    eapply reach_bind; [apply IH; lia|]. intros s' Hl. by apply thread_left. }
  by apply Hk.
Qed.

Lemma thread_step_size i (p : thread_pool H Ctx) : size_ (thread_step i p).2 = size_ p.
Proof. unfold thread_step. destruct p. repeat case_match; done. Qed.

Lemma thread_step_group i (p : thread_pool H Ctx) :
  (is_Some (thread_pool_ p) -> is_Some (thread_pool_ (thread_step i p).2)) /\
  length (default [] (thread_pool_ (thread_step i p).2)) = length (default [] (thread_pool_ p)).
Proof.
  unfold thread_step. destruct p as [c n [g|]]; repeat case_match; cbn; rewrite ?length_insert; eauto.
Qed.

(** Before [stop]: the pool runs with at least the threads of one [start]. *)
Lemma running_run n evs :
  StopCall ∉ evs -> let s := (run exec evs (pool_start n)).2 in
  size_ (pool s) = n /\ stopped (context s) = false /\ stopping s = false /\
  (Start ∈ evs -> is_Some (thread_pool_ (pool s)) /\ (n <= length (group s))%nat).
Proof.
  induction evs as [|e evs IH] using rev_ind; intros Hn.
  { cbn. destruct new_law as (A1&_&_). destruct (work_started_law ioc_new) as (B1&_&_).
    split_and!; [done|congruence|done|]. intros Hs. by apply elem_of_nil in Hs. }
  apply not_elem_of_app in Hn as [Hn He]. specialize (IH Hn). rewrite run_snoc. cbn [snd].
  pose proof (ok_run n evs) as O. set (s := (run exec evs (pool_start n)).2) in *. clearbody s.
  destruct IH as (Hz&Hs&Hb&Hg).
  assert (Hs' : stopped (context (exec e s).2) = false)
    by (destruct (stopped_exec e s O) as [->|[-> _]]; [done|set_solver]).
  assert (Hin : e <> Start -> Start ∈ evs ++ [e] -> Start ∈ evs)
    by (intros ? [?|?%list_elem_of_singleton]%elem_of_app; congruence).
  cbn zeta. split_and!; [|done|..].
  - destruct e as [|h|caller h| | |i]; cbn [exec]; rewrite ?Hb; try done.
    + unfold dispatch. by destruct (executing _ _), s as [[c n0 g] b].
    + unfold stop_begin. by destruct s as [[c n0 [g|]] b].
    + pose proof (thread_step_size i (pool s)) as E. destruct (thread_step i (pool s)). destruct s. cbn in *. congruence.
  - destruct e as [|h|caller h| | |i]; cbn [exec]; rewrite ?Hb; try (by destruct s); [| |].
    + unfold dispatch. by destruct (executing _ _), s.
    + set_solver.
    + destruct (thread_step i (pool s)). by destruct s.
  - destruct e as [|h|caller h| | |i]; cbn [exec]; rewrite ?Hb; try (by intros Hin'%Hin; auto; destruct s as [[c n0 g] b]).
    + intros _. destruct s as [[c n0 g] b]. cbn in *. split; [eauto|]. rewrite length_app, length_replicate. lia.
    + unfold dispatch. intros Hin'%Hin; [|done]. by destruct (executing _ _), s as [[c n0 g] b]; apply Hg.
    + set_solver.
    + intros Hin'%Hin; [|done]. destruct (Hg Hin') as [[g Hg'] Hl].
      pose proof (thread_step_group i (pool s)) as [E1 E2]. destruct (thread_step i (pool s)) as [es p].
      destruct s as [p0 b]. unfold group in *. cbn in *. rewrite E2. rewrite Hg' in E1. eauto.
Qed.
End facts.

(** ** An execution context *)

(** A queue of handlers, a stop flag and a count of guards. *)
Record queue_context := QueueContext { q_ready : list nat; q_stopped : bool; q_guards : Z }.

#[export] Instance queue_io_context : io_context nat queue_context := {
  ioc_new := QueueContext [] false 0;
  ioc_post h c := QueueContext (q_ready c ++ [h]) (q_stopped c) (q_guards c);
  ioc_work_started c := QueueContext (q_ready c) (q_stopped c) (q_guards c + 1);
  ioc_work_finished c := QueueContext (q_ready c) (q_stopped c) (q_guards c - 1);
  ioc_stop c := QueueContext (q_ready c) true (q_guards c);
  ioc_poll c :=
    if q_stopped c then Leave
    else match q_ready c with
         | h :: hs => Take h (QueueContext hs (q_stopped c) (q_guards c))
         | [] => if q_guards c <=? 0 then Leave else Sleep
         end;
}.

#[export] Program Instance queue_io_laws : io_context_laws nat queue_context := {
  stopped := q_stopped;
  guards := q_guards;
  ready := q_ready;
}.
Next Obligation. done. Qed.
Next Obligation. intros h c. cbn. split_and!; [done|done|]. by rewrite Permutation_app_comm. Qed.
Next Obligation. done. Qed.
Next Obligation. done. Qed.
Next Obligation. done. Qed.
Next Obligation. intros c Hs. cbn. by rewrite Hs. Qed.
Next Obligation. intros c Hs Hg Hr. cbn. rewrite Hs, Hr. by rewrite (proj2 (Z.leb_gt _ _)). Qed.
Next Obligation.
  intros c Hs Hr. cbn. rewrite Hs. destruct (q_ready c) as [|h hs]; [done|]. eexists _, _. by split_and!.
Qed.

Module PoolProperties.

(** A pool that was started runs what it is given.  As long as [stop] is
    not called, whatever the owner and the threads did, every handler that was
    posted or dispatched has been run once, in a thread of the pool or at once
    in the caller, or waits in the context; none is lost or run twice; no
    thread has returned; and some steps of the threads run all that waits. *)
Theorem pool_runs_handlers {H Ctx} `{io_context_laws H Ctx} (n : nat) (evs : list (event H)) :
  (0 < n)%nat -> Start ∈ evs -> StopCall ∉ evs ->
  let r := run exec evs (pool_start n) in
  submitted evs ≡ₚ started (mjoin r.1) ++ inline (mjoin r.1) ++ ready (io_context_ (pool r.2)) /\
  Forall (fun t => exited t = false) (default [] (thread_pool_ (pool r.2))) /\
  exists evs', Forall is_step evs' /\
    let r' := run exec (evs ++ evs') (pool_start n) in
    submitted evs ≡ₚ started (mjoin r'.1) ++ inline (mjoin r'.1).
Proof.
  intros Hn Hin Hno. cbn zeta. destruct (running_run n evs Hno) as (_&Hs&_&Hg).
  destruct (Hg Hin) as [_ Hl]. pose proof (ok_run n evs) as O.
  assert (Hacc : forall evs0, submitted evs0 ≡ₚ started (mjoin (run exec evs0 (pool_start n)).1) ++
    inline (mjoin (run exec evs0 (pool_start n)).1) ++ ready (context (run exec evs0 (pool_start n)).2)).
  { intros evs0. pose proof (account_run evs0 (pool_start n) (ok_start n)) as Ha. cbn zeta in Ha.
    rewrite <- Ha. destruct new_law as (_&_&A3). destruct (work_started_law ioc_new) as (_&_&B3).
    unfold context. cbn. by rewrite B3, A3, app_nil_r. }
  split_and!; [apply Hacc| |].
  - apply Forall_forall. intros t Ht. by eapply (ok_live _ O).
  - destruct (pool_drained _ O Hs) as (evs'&Hsteps&Hr); [lia|]. exists evs'. split; [done|].
    assert (E : submitted (evs ++ evs') = submitted evs).
    { unfold submitted. rewrite omap_app. replace (omap _ evs') with ([] : list H); [by rewrite app_nil_r|].
      clear -Hsteps. induction Hsteps as [|e l [i ->] _ IH]; [done|]. exact IH. }
    specialize (Hacc (evs ++ evs')). rewrite E in Hacc. rewrite Hacc.
    rewrite run_app. cbn [snd]. rewrite Hr. by rewrite app_nil_r.
Qed.

(** A handler is posted and taken; while it runs it dispatches one, and the
    owner another. *)
Definition sample_events : list (event nat) :=
  [Start; Post 4%nat; ThreadStep 1; Dispatch (Some 1%nat) 5%nat; Dispatch None 6%nat].

Lemma pool_runs_handlers_witness :
  submitted sample_events = [4; 5; 6]%nat /\
  exists evs', Forall is_step evs' /\
    let r := run exec (sample_events ++ evs') (pool_start (Ctx := queue_context) 2) in
    submitted sample_events ≡ₚ started (mjoin r.1) ++ inline (mjoin r.1).
Proof.
  split; [reflexivity|].
  apply (pool_runs_handlers (Ctx := queue_context) 2 sample_events); [lia|left|].
  intros Hin. repeat (apply elem_of_cons in Hin as [Hin|Hin]; [discriminate|]).
  by apply elem_of_nil in Hin.
Defined.

(** C38. [stop] ends a pool for good.  Once [stop] is called on a started pool,
    some steps of the threads make every thread return, so that [join] and
    [stop] return and the group is released; and no handler is taken by a thread
    any more, whatever follows: also a later [start] runs nothing, because
    nothing restarts the context. *)
Theorem pool_stop_joins {H Ctx} `{io_context_laws H Ctx} (n : nat) (evs : list (event H)) :
  Start ∈ evs -> StopCall ∉ evs ->
  let s := (run exec (evs ++ [StopCall]) (pool_start n)).2 in
  (exists evs', Forall is_step evs' /\
     let s' := (run exec (evs' ++ [StopReturn]) s).2 in
     thread_pool_ (pool s') = None /\ stopping s' = false) /\
  forall evs', started (mjoin (run exec evs' s).1) = [].
Proof.
  intros Hin Hno. cbn zeta. destruct (running_run n evs Hno) as (_&Hs&Hb&Hg).
  destruct (Hg Hin) as [[g Hgs] _]. pose proof (ok_run n evs) as O. rewrite run_snoc. cbn [snd].
  set (s0 := (run exec evs (pool_start n)).2) in *. pose proof (ok_exec StopCall s0 O) as O1.
  assert (Hst : stopped (context (exec StopCall s0).2) = true /\ stopping (exec StopCall s0).2 = true).
  { clearbody s0. cbn [exec]. rewrite Hb. unfold stop_begin. destruct s0 as [[c m g0] b]. cbn in *. subst g0.
    cbn. by destruct (stop_law c) as (->&_&_). }
  destruct Hst as [Hs1 Hb1]. split; [|intros evs'; by apply stopped_final].
  destruct (threads_leave _ O1 Hs1) as (evs'&Hsteps&O2&Hs2&Hb2&Hl2&Hall). exists evs'. split; [done|].
  rewrite run_snoc. cbn [snd]. set (s2 := (run exec evs' (exec StopCall s0).2).2) in *.
  rewrite Hb1 in Hb2. destruct (ok_stopping _ O2 Hb2) as [_ [g2 Hg2]]. clearbody s2.
  cbn [exec]. rewrite Hb2. unfold stop_end, join, group in *. rewrite Hg2 in *. cbn in Hl2, Hall.
  replace (forallb exited g2) with true; [by destruct s2 as [[]]|]. symmetry. apply forallb_forall.
  intros t Ht. apply list_elem_of_In, list_elem_of_lookup in Ht as [i Ht].
  rewrite Hall in Ht by (rewrite <- Hl2; by eapply lookup_lt_Some). by injection Ht as <-.
Qed.

Lemma pool_stop_joins_witness :
  let s := (run exec ([Start; Post 4%nat] ++ [StopCall]) (pool_start (Ctx := queue_context) 2)).2 in
  (exists evs', Forall is_step evs' /\
     thread_pool_ (pool (run exec (evs' ++ [StopReturn]) s).2) = None) /\
  started (mjoin (run exec [ThreadStep 0; ThreadStep 1; StopReturn; Start; Post 5%nat; ThreadStep 0] s).1) = [].
Proof.
  destruct (pool_stop_joins (Ctx := queue_context) 2 [Start; Post 4%nat]) as [(evs'&Hs&Hend&_) Hno].
  - left.
  - intros Hin. repeat (apply elem_of_cons in Hin as [Hin|Hin]; [discriminate|]). by apply elem_of_nil in Hin.
  - split; [exists evs'; split; assumption|apply Hno].
Defined.

(** [join] before [start] follows a null pointer. *)
Lemma join_before_start n : join (create (H := nat) (Ctx := queue_context) n) = NullPointer.
Proof. reflexivity. Qed.

(** [tcp_server::start] does not return before the acceptor's pool is stopped:
    in every history of the two pools in which it was not, the caller waits. *)
Lemma server_start_waits {H Ctx} `{io_context_laws H Ctx} (evs evs' : list (event H)) :
  Start ∈ evs -> StopCall ∉ evs ->
  server_threads.start_join (server_threads.Threads (pool (run exec evs (pool_start 2)).2)
    (pool (run exec evs' (pool_start (Ctx := Ctx) 5)).2)) = Waiting.
Proof.
  intros Hin Hno. destruct (running_run 2 evs Hno) as (_&Hs&_&Hg). destruct (Hg Hin) as [[g Hgs] Hl].
  pose proof (ok_run 2 evs) as O. unfold server_threads.start_join, join. cbn.
  unfold group in Hl. rewrite Hgs in Hl |- *. cbn in Hl. destruct g as [|t g]; [cbn in Hl; lia|].
  pose proof (ok_live _ O t Hs) as Hx. cbn. rewrite Hx; [done|]. unfold group. rewrite Hgs. left.
Qed.

(** The pool of the sessions is made and started once. *)
Lemma worker_instance_once :
  let w := worker.instance (H := nat) (Ctx := queue_context) None in
  worker.instance (Some w) = w /\ length <$> thread_pool_ w = Some worker.kThreads.
Proof. split; reflexivity. Qed.
End PoolProperties.
