(* ===== verification/Connection.v ===== *)
(** * Connection: a TCP connection of the User server

    Models [rsp-libs/include/rsplib/server/tcp_connection.hpp].  The state has
    the members of [tcp_connection], the handlers posted to its strand and the
    senders in the middle of a call of [send].  Handlers of the strand run one
    at a time, so a handler is one step; [send] runs on any thread, so a call
    of it is a [sender] that takes one step per atomic operation.  What asio
    and the scheduler decide (error codes, the order of completions, whether
    [dispatch] runs at once, spurious failures of the weak compare-exchange)
    is data of the [event]s, so an execution is a list of events. *)

From S2P Require Import Prelude Wire Interpreter.
From coqutil Require Import Datatypes.RecordSetters.
Import TriangleBracketNotations.
#[local] Arguments constant {_} _ _ /.
Import interpreter.

(** The [boost::system::error_code]s the handlers distinguish. *)
Inductive error_code := no_error | eof | operation_aborted | broken_pipe | other_error.

Record pending_write := PendingWrite {
  buffer : raw_buffer;
  reserved_bytes : Z;
}.

(** Handlers posted to the strand. *)
Inductive task :=
  | TStart
  | TStop (force : bool)
  | TSend (buf : raw_buffer) (size : Z).

#[export] Instance byte_eq_decision : EqDecision Init.Byte.byte := Byte.byte_eq_dec.
#[export] Instance task_eq_dec : EqDecision task.
Proof. solve_decision. Defined.

(** Program points of [send] and of the [reserve_send_bytes] it inlines. *)
Inductive sender :=
  | SCheck (msg : raw_buffer)               (** before [send_overflowed_.load()] *)
  | SLoad (msg : raw_buffer)                (** before [pending_send_bytes_.load()] *)
  | SLoop (msg : raw_buffer) (pending : Z)  (** at the loop test, local [pending] *)
  | SReserved (msg : raw_buffer)            (** exchanged, before the second load *)
  | SRollback (msg : raw_buffer)            (** before [fetch_sub] *)
  | SFail (msg : raw_buffer)                (** refused, before [exchange(true)] *)
  | SStop (msg : raw_buffer)                (** before [stop(true)] *)
  | SPost (msg : raw_buffer)                (** before [strand_.post] *)
  | SDone.

(** Calls on the socket, on the close handler and posts, as they happen. *)
Inductive effect :=
  | AsyncWrite (buf : raw_buffer)
  | ShutdownSend
  | CloseSocket
  | OnClosed
  | Posted (buf : raw_buffer)
  | Crash.

Section connection.
Context {D : Type} `{message_dispatcher_interface D}.

Record tcp_connection := TcpConnection {
  strand_ : list task;
  socket_open : bool;
  reads : nat;                      (** outstanding [async_read_some] *)
  writing : option raw_buffer;      (** outstanding [async_write] *)
  interpreter_ : conn_interpreter;
  dispatcher_ : D;
  write_queue_ : list pending_write;
  on_closed_ : bool;                (** the close handler is still set *)
  max_pending_send_bytes_ : Z;
  pending_send_bytes_ : Z;
  send_overflowed_ : bool;
  graceful_close_requested_ : bool;
  sent_shutdown_ : bool;
  closed_ : bool;
  senders : list sender;
}.

Definition kBufBytes : Z := 128.
Definition kMaxPendingSendBytes : Z := 1024 * 1024.

(** The constructor, with a close handler, on an accepted socket. *)
Definition make_connection (d : D) (max : Z) : tcp_connection :=
  TcpConnection [] true 0 None interpreter.create d [] true max 0
    false false false false [].

(** [attach_link]; the connection's own [link_] is never read. *)
Definition conn_attach_link (l : link_ptr) (s : tcp_connection) : tcp_connection :=
  s <| interpreter_ := attach_link l (interpreter_ s) |>.

(** [detach_link] resets the connection's own [link_] only. *)
Definition conn_detach_link (s : tcp_connection) : tcp_connection := s.

(** [create], and the constructor of the session, which attaches itself. *)
Definition create (d : D) (l : link_ptr) (max : Z) : tcp_connection :=
  conn_attach_link l (make_connection d max).

(** ** Atomic helpers *)

Definition release_send_bytes (size : Z) (s : tcp_connection) : tcp_connection :=
  s <| pending_send_bytes_ := uint 64 (pending_send_bytes_ s - size) |>.

Definition post (t : task) (s : tcp_connection) : tcp_connection :=
  s <| strand_ := strand_ s ++ [t] |>.

Definition msg_size (msg : raw_buffer) : Z := Z.of_nat (length msg).

(** ** Handlers of the strand *)

Definition write_next (s : tcp_connection) : list effect * tcp_connection :=
  match write_queue_ s with
  | [] => ([Crash], s)   (** [front()] of an empty queue *)
  | w :: _ => ([AsyncWrite (buffer w)], s <| writing := Some (buffer w) |>)
  end.

Definition finish_close (s : tcp_connection) : list effect * tcp_connection :=
  if closed_ s then ([], s)
  else
    let close := if socket_open s then [CloseSocket] else [] in
    let s1 := s <| closed_ := true |> <| socket_open := false |> in
    let s2 := foldl (fun s w => release_send_bytes (reserved_bytes w) s) s1
                (write_queue_ s1) in
    let s3 := s2 <| write_queue_ := [] |> <| on_closed_ := false |> in
    (close ++ (if on_closed_ s then [OnClosed] else []), s3).

(** [shutdown_failed] is whether [socket_.shutdown] reported an error. *)
Definition shutdown_send_impl (shutdown_failed : bool) (s : tcp_connection)
    : list effect * tcp_connection :=
  let s := s <| sent_shutdown_ := true |> in
  if shutdown_failed then
    let '(es, s) := finish_close s in (ShutdownSend :: es, s)
  else ([ShutdownSend], s).

Definition active_stop_impl (force shutdown_failed : bool) (s : tcp_connection)
    : list effect * tcp_connection :=
  if closed_ s || (negb force && graceful_close_requested_ s) then ([], s)
  else if negb (socket_open s) || force then finish_close s
  else
    let s := s <| graceful_close_requested_ := true |> in
    match write_queue_ s with
    | _ :: _ => ([], s)
    | [] => shutdown_send_impl shutdown_failed s
    end.

Definition send_impl (buf : raw_buffer) (reserved : Z) (s : tcp_connection)
    : list effect * tcp_connection :=
  if closed_ s || graceful_close_requested_ s || send_overflowed_ s
     || negb (socket_open s) then ([], release_send_bytes reserved s)
  else
    let write_in_progress := bool_decide (write_queue_ s <> []) in
    let s := s <| write_queue_ := write_queue_ s ++ [PendingWrite buf reserved] |> in
    if write_in_progress then ([], s) else write_next s.

Definition start_impl (s : tcp_connection) : tcp_connection :=
  if socket_open s then s <| reads := S (reads s) |> else s.

Definition handle_write (error : error_code) (shutdown_failed : bool)
    (s : tcp_connection) : list effect * tcp_connection :=
  let s := s <| writing := None |> in
  if closed_ s then ([], s)
  else
    match error with
    | no_error =>
        match write_queue_ s with
        | [] => ([Crash], s)   (** [front()] of an empty queue *)
        | w :: rest =>
            let s := release_send_bytes (reserved_bytes w) s in
            let s := s <| write_queue_ := rest |> in
            match rest with
            | _ :: _ => write_next s
            | [] =>
                if graceful_close_requested_ s
                then shutdown_send_impl shutdown_failed s else ([], s)
            end
        end
    | _ => finish_close s
    end.

Definition handle_read (error : error_code) (arr : raw_buffer) (bytes : Z)
    (shutdown_failed : bool) (s : tcp_connection) : list effect * tcp_connection :=
  let s := s <| reads := pred (reads s) |> in
  match error with
  | no_error =>
      match handle_buffer (interpreter_ s) arr bytes (dispatcher_ s) with
      | Handled true c d =>
          ([], post TStart (s <| interpreter_ := c |> <| dispatcher_ := d |>))
      | Handled false c d =>
          active_stop_impl true shutdown_failed
            (s <| interpreter_ := c |> <| dispatcher_ := d |>)
      | UndefinedBehaviour | OutOfFuel => ([Crash], s)
      end
  | operation_aborted => if closed_ s then ([], s) else finish_close s
  | _ => finish_close s
  end.

Definition run_task (t : task) (shutdown_failed : bool) (s : tcp_connection)
    : list effect * tcp_connection :=
  match t with
  | TStart => ([], start_impl s)
  | TStop force => active_stop_impl force shutdown_failed s
  | TSend buf size => send_impl buf size s
  end.

(** ** [send], one atomic operation at a time *)

Definition set_sender (i : nat) (pc : sender) (s : tcp_connection) : tcp_connection :=
  s <| senders := <[i := pc]> (senders s) |>.

(** The test of the reservation loop. *)
Definition fits (size pending : Z) (s : tcp_connection) : bool :=
  (size <=? max_pending_send_bytes_ s) && (pending <=? max_pending_send_bytes_ s - size).

(** [stop(true)]: [dispatch] runs the handler at once or queues it. *)
Definition stop_force (immediate shutdown_failed : bool) (s : tcp_connection)
    : list effect * tcp_connection :=
  if immediate then active_stop_impl true shutdown_failed s
  else ([], post (TStop true) s).

Definition sender_step (i : nat) (spurious immediate shutdown_failed : bool)
    (s : tcp_connection) : list effect * tcp_connection :=
  match senders s !! i with
  | Some (SCheck m) =>
      ([], set_sender i (if send_overflowed_ s then SFail m else SLoad m) s)
  | Some (SLoad m) => ([], set_sender i (SLoop m (pending_send_bytes_ s)) s)
  | Some (SLoop m pending) =>
      if fits (msg_size m) pending s then
        if bool_decide (pending_send_bytes_ s = pending) && negb spurious then
          ([], set_sender i (SReserved m)
                 (s <| pending_send_bytes_ := uint 64 (pending + msg_size m) |>))
        else ([], set_sender i (SLoop m (pending_send_bytes_ s)) s)
      else ([], set_sender i (SFail m) s)
  | Some (SReserved m) =>
      ([], set_sender i (if send_overflowed_ s then SRollback m else SPost m) s)
  | Some (SRollback m) =>
      ([], set_sender i (SFail m) (release_send_bytes (msg_size m) s))
  | Some (SFail m) =>
      ([], set_sender i (if send_overflowed_ s then SDone else SStop m)
             (s <| send_overflowed_ := true |>))
  | Some (SStop m) => stop_force immediate shutdown_failed (set_sender i SDone s)
  | Some (SPost m) =>
      ([Posted m], set_sender i SDone (post (TSend m (msg_size m)) s))
  | Some SDone | None => ([], s)
  end.

(** ** Events *)

Inductive event :=
  | CallSend (msg : raw_buffer)
  | SenderStep (i : nat) (spurious immediate shutdown_failed : bool)
  | CallStart
  | CallStop (force immediate shutdown_failed : bool)
  | RunTask (shutdown_failed : bool)
  | ReadDone (error : error_code) (arr : raw_buffer) (bytes : Z) (shutdown_failed : bool)
  | WriteDone (error : error_code) (shutdown_failed : bool).

(** An event that cannot happen in a state leaves it unchanged. *)
Definition exec (e : event) (s : tcp_connection) : list effect * tcp_connection :=
  match e with
  | CallSend m => ([], s <| senders := senders s ++ [SCheck m] |>)
  | SenderStep i sp im sf => sender_step i sp im sf s
  | CallStart => ([], post TStart s)
  | CallStop false _ _ => ([], post (TStop false) s)
  | CallStop true im sf => stop_force im sf s
  | RunTask sf =>
      match strand_ s with
      | [] => ([], s)
      | t :: ts => run_task t sf (s <| strand_ := ts |>)
      end
  | ReadDone e arr n sf =>
      match reads s with O => ([], s) | S _ => handle_read e arr n sf s end
  | WriteDone e sf =>
      match writing s with None => ([], s) | Some _ => handle_write e sf s end
  end.

(** ** What the trace and the state say of each other *)

Definition sender_bytes (pc : sender) : Z :=
  match pc with
  | SReserved m | SRollback m | SPost m => msg_size m
  | _ => 0
  end.

Definition task_bytes (t : task) : Z :=
  match t with TSend _ n => n | _ => 0 end.

(** The bytes of messages that are in the queue, in the strand, or between
    their reservation and their post. *)
Definition outstanding (s : tcp_connection) : Z :=
  sumz reserved_bytes (write_queue_ s) + sumz task_bytes (strand_ s)
  + sumz sender_bytes (senders s).

Definition writes (es : list effect) : list raw_buffer :=
  omap (fun e => match e with AsyncWrite b => Some b | _ => None end) es.

Definition posted (es : list effect) : list raw_buffer :=
  omap (fun e => match e with Posted b => Some b | _ => None end) es.

Definition task_sends (ts : list task) : list raw_buffer :=
  omap (fun t => match t with TSend b _ => Some b | _ => None end) ts.

Definition is_on_closed (e : effect) : bool :=
  match e with OnClosed => true | _ => false end.
Definition is_shutdown_send (e : effect) : bool :=
  match e with ShutdownSend => true | _ => false end.

(** [send_impl] drops its buffer. *)
Definition refusing (s : tcp_connection) : bool :=
  closed_ s || graceful_close_requested_ s || send_overflowed_ s
  || negb (socket_open s).

(** The buffers posted so far are those accepted into the queue, those
    refused, the one [xs] being handled and those still in the strand. *)
Definition fifo (es : list effect) (xs : list raw_buffer) (s : tcp_connection) : Prop :=
  exists acc rej,
    posted es = acc ++ rej ++ xs ++ task_sends (strand_ s) /\
    (rej <> [] -> refusing s = true) /\
    if closed_ s then writes es `prefix_of` acc
    else acc = writes es ++ tail (buffer <$> write_queue_ s).

(** The invariant; [k] is the reservation of the handler being run. *)
Record good (es : list effect) (xs : list raw_buffer) (k : Z)
    (s : tcp_connection) : Prop := {
  good_limit : 0 <= max_pending_send_bytes_ s < 2 ^ 64;
  good_bytes : pending_send_bytes_ s = outstanding s + k;
  good_bound : pending_send_bytes_ s <= max_pending_send_bytes_ s;
  good_queue : Forall (fun w => reserved_bytes w = msg_size (buffer w)) (write_queue_ s);
  good_strand : Forall (fun t => match t with TSend b n => n = msg_size b | _ => True end)
                  (strand_ s);
  good_extra : k = sumz msg_size xs;
  good_writing : closed_ s = false -> writing s = buffer <$> head (write_queue_ s);
  good_closed : closed_ s = true -> write_queue_ s = [];
  good_open : socket_open s = negb (closed_ s);
  good_handler : on_closed_ s = negb (closed_ s);
  good_sent : sent_shutdown_ s = true ->
    graceful_close_requested_ s = true /\ write_queue_ s = [];
  good_fifo : fifo es xs s;
  good_on_closed : count is_on_closed es = Z.b2z (closed_ s);
  good_shutdown : count is_shutdown_send es = Z.b2z (sent_shutdown_ s);
  good_crash : Crash ∉ es;
  good_interpreter : wf_interpreter (interpreter_ s);
}.

Lemma writes_app es es' : writes (es ++ es') = writes es ++ writes es'.
Proof. apply omap_app. Qed.

Lemma posted_app es es' : posted (es ++ es') = posted es ++ posted es'.
Proof. apply omap_app. Qed.

Lemma task_sends_app ts ts' : task_sends (ts ++ ts') = task_sends ts ++ task_sends ts'.
Proof. apply omap_app. Qed.

Lemma msg_size_nonneg m : 0 <= msg_size m.
Proof. unfold msg_size. lia. Qed.

Lemma sender_bytes_nonneg pc : 0 <= sender_bytes pc.
Proof. destruct pc; cbn; (apply msg_size_nonneg || lia). Qed.

Lemma good_parts es xs k s :
  good es xs k s ->
  0 <= sumz reserved_bytes (write_queue_ s) /\ 0 <= sumz task_bytes (strand_ s) /\
  0 <= sumz sender_bytes (senders s) /\ 0 <= k.
Proof.
  intros G. destruct G as [_ _ _ Hq Ht Hk _ _ _ _ _ _ _ _ _ _].
  rewrite Forall_forall in Hq. rewrite Forall_forall in Ht. split_and!.
  - apply sumz_nonneg. intros w Hw. rewrite (Hq w Hw). apply msg_size_nonneg.
  - apply sumz_nonneg. intros [| |b n] Hw; cbn; [lia..|].
    rewrite (Ht _ Hw). apply msg_size_nonneg.
  - apply sumz_nonneg. intros pc _. apply sender_bytes_nonneg.
  - subst k. apply sumz_nonneg. intros m _. apply msg_size_nonneg.
Qed.

(** Releasing what is reserved does not wrap. *)
Lemma good_release es xs k s n :
  good es xs k s -> 0 <= n <= pending_send_bytes_ s ->
  uint 64 (pending_send_bytes_ s - n) = pending_send_bytes_ s - n.
Proof.
  intros [Hm Hb Hle _ _ _ _ _ _ _ _ _ _ _ _ _] Hn. apply uint_small. lia.
Qed.

Lemma release_all ws s :
  0 <= pending_send_bytes_ s < 2 ^ 64 ->
  foldl (fun s w => release_send_bytes (reserved_bytes w) s) s ws
  = s <| pending_send_bytes_ := uint 64 (pending_send_bytes_ s - sumz reserved_bytes ws) |>.
Proof.
  revert s. induction ws as [|w ws IH]; intros s Hs.
  - rewrite sumz_nil, Z.sub_0_r, uint_small by done. by destruct s.
  - cbn [foldl]. rewrite IH by (apply uint_range; lia). destruct s.
    rewrite sumz_cons. cbn. unfold uint, constant. rewrite Zminus_mod_idemp_l.
    do 2 f_equal. lia.
Qed.

Lemma good_finish_close es xs k s :
  good es xs k s -> good (es ++ (finish_close s).1) xs k (finish_close s).2.
Proof.
  intros G. pose proof (good_parts _ _ _ _ G) as (Hq&Ht&Hs&Hk).
  unfold finish_close. destruct (closed_ s) eqn:Ec.
  { cbn. by rewrite app_nil_r. }
  pose proof G as [Hlim Hb Hle Fq Ft Fk Hw _ Ho Hh Hsent (acc&rej&Hp&Hrej&Hacc) Hoc Hsh Hcr Hi].
  rewrite Ec in *. unfold outstanding in Hb.
  rewrite release_all by (destruct s; cbn in *; lia).
  assert (Er : uint 64 (pending_send_bytes_ s - sumz reserved_bytes (write_queue_ s))
               = pending_send_bytes_ s - sumz reserved_bytes (write_queue_ s))
    by (apply (good_release es xs k); [done|lia]).
  rewrite Ho, Hh. destruct s. cbn in *. unfold constant in *. rewrite Er. split; cbn; auto.
  - unfold outstanding. cbn. rewrite sumz_nil. lia.
  - lia.
  - done.
  - intros. split; [|done]. by apply Hsent.
  - exists acc, rej. cbn. rewrite posted_app, writes_app. cbn. rewrite !app_nil_r.
    split_and!; [done| |].
    + done.
    + subst acc. by eexists.
  - rewrite count_app, Hoc. done.
  - rewrite count_app, Hsh. unfold count. cbn. rewrite !sumz_cons, sumz_nil. cbn. lia.
  - set_solver.
Qed.

Lemma good_shutdown_send es xs k sf s :
  good es xs k s -> sent_shutdown_ s = false ->
  graceful_close_requested_ s = true -> write_queue_ s = [] ->
  good (es ++ (shutdown_send_impl sf s).1) xs k (shutdown_send_impl sf s).2.
Proof.
  intros G Hs Hg Hq.
  assert (G' : good (es ++ [ShutdownSend]) xs k (s <| sent_shutdown_ := true |>)).
  { destruct G as [Hlim Hb Hle Fq Ft Fk Hw Hc Ho Hh _ (acc&rej&Hp&Hrej&Hacc) Hoc Hsh Hcr Hi].
    destruct s. cbn in *. subst. split; cbn; auto.
    - exists acc, rej. rewrite posted_app, writes_app. cbn.
      by rewrite (app_nil_r (posted es)), (app_nil_r (writes es)).
    - rewrite count_app, Hoc. unfold count. rewrite sumz_cons, sumz_nil. cbn. lia.
    - rewrite count_app, Hsh. done.
    - set_solver. }
  unfold shutdown_send_impl. destruct sf; [|done].
  pose proof (good_finish_close _ _ _ _ G') as Gf.
  destruct (finish_close _) as [es' s']. cbn in *.
  by rewrite <- app_assoc in Gf.
Qed.

Lemma good_active_stop es xs k force sf s :
  good es xs k s ->
  good (es ++ (active_stop_impl force sf s).1) xs k (active_stop_impl force sf s).2.
Proof.
  intros G. unfold active_stop_impl. case_match; [cbn; by rewrite app_nil_r|].
  breflect. match goal with H : _ \/ _ |- _ => rename H into Hf end.
  case_match; [by apply good_finish_close|]. breflect. subst force.
  assert (Hg : graceful_close_requested_ s = false) by (cbn in Hf; naive_solver).
  assert (Hs : sent_shutdown_ s = false).
  { destruct (sent_shutdown_ s) eqn:E; [|done].
    destruct (good_sent _ _ _ _ G E). congruence. }
  assert (G' : good es xs k (s <| graceful_close_requested_ := true |>)).
  { destruct G as [Hlim Hb Hle Fq Ft Fk Hw Hc Ho Hh _ (acc&rej&Hp&Hrej&Hacc) Hoc Hsh Hcr Hi].
    destruct s. cbn in *. subst. split; cbn; auto.
    exists acc, rej. cbn. split_and!; [done| |done].
    intros. unfold refusing. cbn. by repeat case_match. }
  destruct s as [? ? ? ? ? ? q]. cbn in *. destruct q.
  - by apply good_shutdown_send.
  - cbn. by rewrite app_nil_r.
Qed.

Lemma good_post es xs k t s :
  task_bytes t = 0 -> task_sends [t] = [] ->
  good es xs k s -> good es xs k (post t s).
Proof.
  intros Hn Hs
    [Hlim Hb Hle Fq Ft Fk Hw Hc Ho Hh Hse (acc&rej&Hp&Hrej&Hacc) Hoc Hsh Hcr Hi].
  destruct s. cbn in *. split; cbn; auto.
  - unfold outstanding in *. cbn in *. rewrite sumz_snoc. lia.
  - apply Forall_app. split; [done|]. constructor; [|done]. by destruct t.
  - exists acc, rej. cbn. rewrite task_sends_app. cbn. by rewrite Hs, app_nil_r.
Qed.

Lemma good_stop_force es xs k im sf s :
  good es xs k s -> good (es ++ (stop_force im sf s).1) xs k (stop_force im sf s).2.
Proof.
  intros G. unfold stop_force. destruct im; [by apply good_active_stop|].
  cbn. rewrite app_nil_r. by apply good_post.
Qed.

Lemma good_send_impl es b s :
  good es [b] (msg_size b) s ->
  good (es ++ (send_impl b (msg_size b) s).1) [] 0 (send_impl b (msg_size b) s).2.
Proof.
  intros G. pose proof (good_parts _ _ _ _ G) as (Hq&Ht&Hs&Hk).
  pose proof G as [Hlim Hb Hle Fq Ft Fk Hw Hc Ho Hh Hse (acc&rej&Hp&Hrej&Hacc) Hoc Hsh Hcr Hi].
  unfold send_impl. fold (refusing s). destruct (refusing s) eqn:Er.
  - cbn. rewrite app_nil_r. unfold outstanding in Hb.
    pose proof (good_release _ _ _ _ (msg_size b) G ltac:(lia)) as E.
    destruct s. cbn in *. unfold constant. rewrite E. split; cbn; auto.
    + unfold outstanding. cbn. lia.
    + lia.
    + exists acc, (rej ++ [b]). cbn. rewrite <- app_assoc. split_and!; [done|done|done].
  - assert (rej = []) as -> by (destruct rej; [done|by specialize (Hrej ltac:(done))]).
    unfold refusing in Er. breflect. rename select (closed_ s = false) into Ec.
    rewrite Ec in *. destruct s as [? ? ? ? ? ? q]. cbn in *. subst. specialize (Hw eq_refl).
    destruct q as [|w q]; cbn in *.
    + split; cbn; auto; try done.
      * unfold outstanding in *. cbn in *. rewrite sumz_cons, !sumz_nil in *. cbn. lia.
      * intros Hx. by destruct (Hse Hx).
      * exists (writes es ++ [b]), []. cbn. rewrite posted_app, writes_app, Hp. cbn.
        rewrite !app_nil_r, <- app_assoc. done.
      * rewrite count_app, Hoc. done.
      * rewrite count_app, Hsh. unfold count. rewrite sumz_cons, sumz_nil. cbn. lia.
      * set_solver.
    + rewrite app_nil_r. split; cbn; auto; try done.
      * unfold outstanding in *. cbn in *. rewrite !sumz_cons, sumz_snoc in *. cbn. lia.
      * rewrite app_comm_cons. apply Forall_app. split; [done|]. by constructor.
      * intros Hx. by destruct (Hse Hx).
      * exists (writes es ++ (buffer <$> q) ++ [b]), []. cbn. rewrite Hp, fmap_app.
        split_and!; [|done|done]. by rewrite <- !app_assoc.
Qed.

Lemma finish_close_writing es xs k x s :
  good es xs k s ->
  finish_close (s <| writing := x |>)
  = ((finish_close s).1, (finish_close s).2 <| writing := x |>).
Proof.
  intros G. pose proof (good_parts _ _ _ _ G) as (Hq&Ht&Hs&Hk).
  destruct G as [Hlim Hb Hle _ _ _ _ _ _ _ _ _ _ _ _ _]. unfold outstanding in Hb.
  unfold finish_close. destruct s as [? ? ? ? ? ? q ? ? ? ? ? ? c]. cbn in *.
  destruct c; [done|]. rewrite !release_all by (cbn; lia). done.
Qed.

Lemma good_closed_writing es xs k x s :
  good es xs k s -> closed_ s = true -> good es xs k (s <| writing := x |>).
Proof.
  intros [] Hc. destruct s. cbn in *. subst. by split.
Qed.

Lemma finish_close_closed s : closed_ (finish_close s).2 = true.
Proof.
  unfold finish_close. destruct (closed_ s) eqn:E; [done|]. cbn.
  assert (Hf : forall ws s, closed_ s = true ->
    closed_ (foldl (fun s w => release_send_bytes (reserved_bytes w) s) s ws) = true).
  { induction ws as [|w ws IH]; intros s' H'; [done|]. apply IH. by destruct s'. }
  set (s' := foldl _ _ _). assert (closed_ s' = true) by (apply Hf; by destruct s).
  by destruct s'.
Qed.

Lemma good_handle_write_ok es w q s :
  good es [] 0 s -> closed_ s = false -> write_queue_ s = w :: q ->
  good (es ++ match q with [] => [] | w' :: _ => [AsyncWrite (buffer w')] end) [] 0
    (s <| pending_send_bytes_ := uint 64 (pending_send_bytes_ s - reserved_bytes w) |>
       <| write_queue_ := q |> <| writing := buffer <$> head q |>).
Proof.
  intros G Ec Eq. pose proof (good_parts _ _ _ _ G) as (Hq&Ht&Hs&Hk).
  pose proof G as [Hlim Hb Hle Fq Ft Fk Hw Hc Ho Hh Hse (acc&rej&Hp&Hrej&Hacc) Hoc Hsh Hcr Hi].
  assert (0 <= reserved_bytes w).
  { rewrite Eq in Fq. apply Forall_cons in Fq as [-> _]. apply msg_size_nonneg. }
  assert (0 <= sumz reserved_bytes q).
  { rewrite Eq in Fq. apply Forall_cons in Fq as [_ Fq]. rewrite Forall_forall in Fq.
    apply sumz_nonneg. intros x Hx. rewrite (Fq x Hx). apply msg_size_nonneg. }
  unfold outstanding in Hb. rewrite Eq, sumz_cons in Hb.
  rewrite (good_release _ _ _ _ (reserved_bytes w) G) by lia.
  destruct s. cbn in *. subst. apply Forall_cons in Fq as [Fw Fq]. split; cbn; auto; try done.
  - unfold outstanding. cbn. lia.
  - lia.
  - intros Hx. by destruct (Hse Hx).
  - exists (writes es ++ (buffer <$> q)), rej. cbn.
    rewrite posted_app, writes_app, Hp. destruct q; cbn; rewrite ?app_nil_r;
      (split_and!; [done|done|]); [done|]. by rewrite <- app_assoc.
  - rewrite count_app, Hoc. by destruct q.
  - rewrite count_app, Hsh. destruct q; unfold count; rewrite ?sumz_cons, sumz_nil; cbn; lia.
  - destruct q; set_solver.
Qed.

Lemma good_handle_write es e sf s :
  good es [] 0 s -> is_Some (writing s) ->
  good (es ++ (handle_write e sf s).1) [] 0 (handle_write e sf s).2.
Proof.
  intros G Hwr. unfold handle_write. cbn zeta. destruct (closed_ s) eqn:Ec.
  { replace (closed_ (s <| writing := None |>)) with true by (by destruct s).
    cbn. rewrite app_nil_r. by apply good_closed_writing. }
  replace (closed_ (s <| writing := None |>)) with false by (by destruct s).
  assert (Hfail : good (es ++ (finish_close (s <| writing := None |>)).1) [] 0
                    (finish_close (s <| writing := None |>)).2).
  { rewrite (finish_close_writing es [] 0) by done. apply good_closed_writing.
    - by apply good_finish_close.
    - apply finish_close_closed. }
  destruct e; try exact Hfail. clear Hfail. rewrite (good_writing _ _ _ _ G Ec) in Hwr.
  destruct (write_queue_ s) as [|w q] eqn:Eq; [by destruct Hwr|].
  pose proof (good_handle_write_ok es w q s G Ec Eq) as Gs.
  destruct s as [? ? ? ? ? ? qs ? ? ? ? gr sd]. cbn in Eq, Ec, Gs |- *. subst qs.
  destruct q as [|w' q]; [|exact Gs]. rewrite app_nil_r in Gs.
  destruct gr; [|cbn; by rewrite app_nil_r].
  apply good_shutdown_send; [done| |done|done].
  destruct sd; [|done]. by destruct (good_sent _ _ _ _ G eq_refl).
Qed.

(** Fields the ledger and the trace do not mention. *)
Lemma good_frame es xs k n c d s :
  good es xs k s -> wf_interpreter c ->
  good es xs k (s <| reads := n |> <| interpreter_ := c |> <| dispatcher_ := d |>).
Proof. intros [] Hc. destruct s. by split. Qed.

Lemma good_handle_read es e arr n sf s :
  good es [] 0 s -> (e = no_error -> read_ok (arr, n)) ->
  good (es ++ (handle_read e arr n sf s).1) [] 0 (handle_read e arr n sf s).2.
Proof.
  intros G Hrd. pose proof (good_interpreter _ _ _ _ G) as Hi.
  unfold handle_read. cbn zeta. set (s1 := s <| reads := _ |>).
  assert (G1 : good es [] 0 s1).
  { pose proof (good_frame _ _ _ (pred (reads s)) _ (dispatcher_ s) _ G Hi) as G1.
    unfold s1. by destruct s. }
  assert (Hi1 : interpreter_ s1 = interpreter_ s) by (unfold s1; by destruct s).
  destruct e; try by apply good_finish_close.
  - rewrite Hi1. destruct (stream_total (buffer_ (interpreter_ s) ++ read_bytes (arr, n)))
      as (ms&r&Hs).
    pose proof (handle_buffer_stream _ (arr, n) (dispatcher_ s1) _ _ Hi (Hrd eq_refl) Hs) as E.
    cbn [fst snd] in E. rewrite E. unfold result_of. destruct r as [b|]; cbn [fst snd].
    + rewrite app_nil_r. apply good_post; [done..|].
      assert (Hb : wf_interpreter (ConnInterpreter (link_ (interpreter_ s)) b)).
      { by eapply stream_rest_short. }
      pose proof (good_frame _ _ _ (reads s1) _ (dispatch_all (link_ (interpreter_ s)) ms
        (dispatcher_ s1)) _ G1 Hb) as G2. by destruct s.
    + apply good_active_stop.
      pose proof (good_frame _ _ _ (reads s1) _ (dispatch_all (link_ (interpreter_ s)) ms
        (dispatcher_ s1)) _ G1 (wf_interpreter_create (link_ (interpreter_ s)))) as G2. by destruct s.
  - destruct (closed_ s1); [cbn; by rewrite app_nil_r|by apply good_finish_close].
Qed.

(** A sender that moves from [pc] to [pc'] and changes the two atomics. *)
Lemma good_sender es i pc pc' p o s :
  good es [] 0 s -> senders s !! i = Some pc ->
  p = pending_send_bytes_ s - sender_bytes pc + sender_bytes pc' ->
  p <= max_pending_send_bytes_ s -> (send_overflowed_ s = true -> o = true) ->
  good es [] 0 (s <| pending_send_bytes_ := p |> <| send_overflowed_ := o |>
                  <| senders := <[i := pc']> (senders s) |>).
Proof.
  intros [Hlim Hb Hle Fq Ft Fk Hw Hc Ho Hh Hse (acc&rej&Hp&Hrej&Hacc) Hoc Hsh Hcr Hi]
    Hpc -> Hmax Hov.
  destruct s. cbn in *. split; cbn; auto.
  - unfold outstanding in *. cbn in *. rewrite (sumz_insert _ _ _ _ _ Hpc). lia.
  - exists acc, rej. cbn. split_and!; [done| |done]. intros Hr. specialize (Hrej Hr).
    unfold refusing in *. cbn in *.
    destruct send_overflowed_0; [rewrite (Hov eq_refl)|destruct o];
      rewrite ?orb_true_r in *; done.
Qed.

Lemma good_set_sender es i pc pc' s :
  good es [] 0 s -> senders s !! i = Some pc -> sender_bytes pc' = sender_bytes pc ->
  good es [] 0 (set_sender i pc' s).
Proof.
  intros G Hpc E. pose proof (good_bound _ _ _ _ G) as Hle.
  pose proof (good_sender es i pc pc' (pending_send_bytes_ s) (send_overflowed_ s) s
    G Hpc ltac:(lia) Hle ltac:(done)) as Gs. by destruct s.
Qed.

Lemma fits_spec size pending s :
  fits size pending s = true -> pending + size <= max_pending_send_bytes_ s.
Proof. unfold fits. intros. breflect. lia. Qed.

Lemma good_sender_bytes es i pc s :
  good es [] 0 s -> senders s !! i = Some pc ->
  0 <= sender_bytes pc <= pending_send_bytes_ s.
Proof.
  intros G Hpc. pose proof (good_parts _ _ _ _ G) as (Hq&Ht&_&_).
  rewrite (good_bytes _ _ _ _ G). unfold outstanding.
  assert (Hs : 0 <= sumz sender_bytes (<[i := SDone]> (senders s)))
    by (apply sumz_nonneg; intros; apply sender_bytes_nonneg).
  rewrite (sumz_insert _ _ _ _ _ Hpc) in Hs. cbn in Hs.
  pose proof (sender_bytes_nonneg pc). lia.
Qed.

Lemma good_posted es i m s :
  good es [] 0 s -> senders s !! i = Some (SPost m) ->
  good (es ++ [Posted m]) [] 0 (set_sender i SDone (post (TSend m (msg_size m)) s)).
Proof.
  intros [Hlim Hb Hle Fq Ft Fk Hw Hc Ho Hh Hse (acc&rej&Hp&Hrej&Hacc) Hoc Hsh Hcr Hi] Hpc.
  destruct s. cbn in *. split; cbn; auto.
  - unfold outstanding in *. cbn in *.
    rewrite (sumz_insert _ _ _ _ _ Hpc), sumz_snoc. cbn. lia.
  - apply Forall_app. split; [done|]. by constructor.
  - exists acc, rej. cbn. rewrite task_sends_app, posted_app, writes_app, Hp. cbn.
    rewrite (app_nil_r (writes es)), <- !app_assoc. done.
  - rewrite count_app, Hoc. unfold count. rewrite sumz_cons, sumz_nil. cbn. lia.
  - rewrite count_app, Hsh. unfold count. rewrite sumz_cons, sumz_nil. cbn. lia.
  - set_solver.
Qed.

Lemma good_sender_step es i sp im sf s :
  good es [] 0 s ->
  good (es ++ (sender_step i sp im sf s).1) [] 0 (sender_step i sp im sf s).2.
Proof.
  intros G. pose proof (good_bound _ _ _ _ G) as Hle.
  pose proof (good_limit _ _ _ _ G) as Hlim.
  unfold sender_step. destruct (senders s !! i) as [pc|] eqn:Epc.
  2: { cbn. by rewrite app_nil_r. }
  pose proof (good_sender_bytes _ _ _ _ G Epc) as Hpb.
  pose proof (fun pc' p o => good_sender es i pc pc' p o s G Epc) as Gs.
  pose proof (fun pc' => good_set_sender es i pc pc' s G Epc) as Gm.
  destruct pc as [m|m|m pending|m|m|m|m|m|]; cbn [sender_bytes fst snd] in *;
    rewrite ?app_nil_r.
  - apply Gm. by case_match.
  - by apply Gm.
  - destruct (fits _ _ _) eqn:Ef; [|cbn; rewrite app_nil_r; by apply Gm].
    pose proof (fits_spec _ _ _ Ef). pose proof (msg_size_nonneg m).
    case_match eqn:Ecx; cbn; rewrite app_nil_r; [|by apply Gm].
    apply andb_true_iff in Ecx as [<-%bool_decide_eq_true _]. rewrite uint_small by lia.
    specialize (Gs (SReserved m) (pending_send_bytes_ s + msg_size m) (send_overflowed_ s)).
    destruct s. cbn in *. apply Gs; [lia|lia|done].
  - apply Gm. by case_match.
  - pose proof (good_release _ _ _ _ (msg_size m) G ltac:(lia)) as E.
    specialize (Gs (SFail m) (uint 64 (pending_send_bytes_ s - msg_size m))
      (send_overflowed_ s)). destruct s. cbn in *. apply Gs; [lia|lia|done].
  - specialize (Gs (if send_overflowed_ s then SDone else SStop m)
      (pending_send_bytes_ s) true).
    destruct s. cbn in *. apply Gs; [case_match; cbn; lia|lia|done].
  - apply good_stop_force. by apply Gm.
  - by apply good_posted.
  - done.
Qed.

(** Events as asio makes them: a successful read fills part of the array. *)
Definition event_ok (e : event) : Prop :=
  match e with ReadDone no_error arr n _ => read_ok (arr, n) | _ => True end.

Lemma good_run_task es sf t ts s :
  good es [] 0 s -> strand_ s = t :: ts ->
  good (es ++ (run_task t sf (s <| strand_ := ts |>)).1) [] 0
    (run_task t sf (s <| strand_ := ts |>)).2.
Proof.
  intros G Et. pose proof (good_strand _ _ _ _ G) as Ft. rewrite Et in Ft.
  apply Forall_cons in Ft as [Ht Ft].
  assert (Gt : good es (task_sends [t]) (task_bytes t) (s <| strand_ := ts |>)).
  { destruct G as [Hlim Hb Hle Fq _ Fk Hw Hc Ho Hh Hse (acc&rej&Hp&Hrej&Hacc) Hoc Hsh Hcr Hi].
    destruct s. cbn in *. subst. split; cbn; auto.
    - unfold outstanding in *. cbn in *. rewrite sumz_cons in *. lia.
    - destruct t; try done. cbn. rewrite sumz_cons, sumz_nil. lia.
    - exists acc, rej. cbn. split_and!; [|done|done]. rewrite Hp. by destruct t. }
  destruct t as [|f|b n]; cbn [run_task task_sends task_bytes omap list_omap] in *.
  - cbn. rewrite app_nil_r. unfold start_impl. case_match; [|done].
    pose proof (good_frame _ _ _ (S (reads (s <| strand_ := ts |>))) _
      (dispatcher_ s) _ Gt (good_interpreter _ _ _ _ G)) as G2. by destruct s.
  - by apply good_active_stop.
  - subst n. by apply good_send_impl.
Qed.

Lemma good_exec es e s :
  good es [] 0 s -> event_ok e -> good (es ++ (exec e s).1) [] 0 (exec e s).2.
Proof.
  intros G He. destruct e as [m|i sp im sf| |[] im sf|sf|e arr n sf|e sf];
    cbn [exec fst snd]; rewrite ?app_nil_r.
  - destruct G as [Hlim Hb Hle Fq Ft Fk Hw Hc Ho Hh Hse Hf Hoc Hsh Hcr Hi].
    destruct s. cbn in *. split; cbn; auto.
    unfold outstanding in *. cbn in *. rewrite sumz_snoc. cbn. lia.
  - by apply good_sender_step.
  - by apply good_post.
  - by apply good_stop_force.
  - by apply good_post.
  - destruct (strand_ s) as [|t ts] eqn:Et; [cbn; by rewrite app_nil_r|].
    by apply good_run_task.
  - destruct (reads s); [cbn; by rewrite app_nil_r|].
    apply good_handle_read; [done|]. by intros ->.
  - destruct (writing s) eqn:Ew; [|cbn; by rewrite app_nil_r].
    by apply good_handle_write.
Qed.

Lemma good_create d l max : 0 <= max < 2 ^ 64 -> good [] [] 0 (create d l max).
Proof.
  intros Hm. split; cbn; try done; [lia|by exists [], []|].
  apply not_elem_of_nil.
Qed.

Lemma good_run evs es s :
  good es [] 0 s -> Forall event_ok evs ->
  good (es ++ mjoin (run exec evs s).1) [] 0 (run exec evs s).2.
Proof.
  intros G He. revert es s G. induction He as [|e evs He _ IH]; intros es s G.
  - cbn. by rewrite app_nil_r.
  - rewrite run_cons. cbn [fst snd]. rewrite mjoin_cons, app_assoc.
    apply IH. by apply good_exec.
Qed.

(** ** An overflow closes the connection *)

(** What every handler of the strand leaves alone. *)
Record quiet (s s' : tcp_connection) : Prop := {
  quiet_senders : senders s' = senders s;
  quiet_overflowed : send_overflowed_ s' = send_overflowed_ s;
  quiet_max : max_pending_send_bytes_ s' = max_pending_send_bytes_ s;
  quiet_strand : strand_ s `prefix_of` strand_ s';
  quiet_closed : closed_ s = true -> closed_ s' = true;
}.

#[local] Instance quiet_preorder : PreOrder quiet.
Proof.
  split; [by split|]. intros s1 s2 s3 [] []. split; [congruence..| |auto].
  by etrans.
Qed.

Lemma quiet_finish_close s : quiet s (finish_close s).2.
Proof.
  unfold finish_close. destruct (closed_ s); [done|]. cbn zeta. cbn [snd].
  assert (Hf : forall ws s s0, quiet s s0 -> quiet s
    (foldl (fun s w => release_send_bytes (reserved_bytes w) s) s0 ws)).
  { induction ws as [|w ws IH]; intros s1 s0 Q; [done|]. apply IH. etrans; [done|].
    destruct s0. by split. }
  set (s0 := s <| closed_ := true |> <| socket_open := false |>).
  assert (Q : quiet s s0) by (destruct s; by split).
  pose proof (Hf (write_queue_ s0) s s0 Q) as Q'. etrans; [exact Q'|].
  set (s2 := foldl _ _ _). destruct s2. by split.
Qed.

Lemma quiet_shutdown_send sf s : quiet s (shutdown_send_impl sf s).2.
Proof.
  unfold shutdown_send_impl. set (s0 := s <| sent_shutdown_ := true |>). cbn zeta.
  assert (Q : quiet s s0) by (destruct s; by split).
  destruct sf; [|done]. pose proof (quiet_finish_close s0) as Q'.
  destruct (finish_close s0). cbn in *. by etrans.
Qed.

Lemma quiet_active_stop force sf s : quiet s (active_stop_impl force sf s).2.
Proof.
  unfold active_stop_impl. case_match; [done|]. case_match; [apply quiet_finish_close|].
  cbn zeta. set (s0 := s <| graceful_close_requested_ := true |>).
  assert (Q : quiet s s0) by (destruct s; by split).
  case_match; [|done]. etrans; [exact Q|]. apply quiet_shutdown_send.
Qed.

Lemma active_stop_force_closed sf s : closed_ (active_stop_impl true sf s).2 = true.
Proof.
  unfold active_stop_impl. cbn [negb andb]. destruct (closed_ s) eqn:E; [done|].
  rewrite !orb_true_r. apply finish_close_closed.
Qed.

Lemma quiet_write_next s : quiet s (write_next s).2.
Proof. unfold write_next. case_match; [done|]. destruct s. by split. Qed.

Lemma quiet_send_impl b n s : quiet s (send_impl b n s).2.
Proof.
  unfold send_impl. case_match; [destruct s; by split|]. cbn zeta.
  set (s0 := s <| write_queue_ := _ |>).
  assert (Q : quiet s s0) by (destruct s; by split).
  case_match; [done|]. etrans; [exact Q|]. apply quiet_write_next.
Qed.

Lemma quiet_handle_write e sf s : quiet s (handle_write e sf s).2.
Proof.
  unfold handle_write. cbn zeta. set (s0 := s <| writing := None |>).
  assert (Q : quiet s s0) by (destruct s; by split).
  case_match; [done|]. destruct e; try (etrans; [exact Q|apply quiet_finish_close]).
  destruct (write_queue_ s0) as [|w q]; [done|].
  set (s1 := release_send_bytes (reserved_bytes w) s0 <| write_queue_ := q |>).
  assert (Q1 : quiet s s1) by (destruct s; by split).
  destruct q.
  - destruct (graceful_close_requested_ _); [|exact Q1].
    etrans; [exact Q1|]. apply quiet_shutdown_send.
  - etrans; [exact Q1|]. apply quiet_write_next.
Qed.

Lemma quiet_handle_read e arr n sf s : quiet s (handle_read e arr n sf s).2.
Proof.
  unfold handle_read. cbn zeta. set (s0 := s <| reads := _ |>).
  assert (Q : quiet s s0) by (destruct s; by split).
  assert (Hfail : quiet s (finish_close s0).2)
    by (etrans; [exact Q|apply quiet_finish_close]).
  destruct e; try done; [|by case_match]. destruct (handle_buffer _ _ _ _) as [[] c d| |];
    [| |done|done].
  - etrans; [exact Q|]. destruct s0. split; cbn; try done. by eexists.
  - etrans; [exact Q|]. etrans; [|apply quiet_active_stop]. destruct s0. by split.
Qed.

Lemma exec_max e s : max_pending_send_bytes_ (exec e s).2 = max_pending_send_bytes_ s.
Proof.
  destruct e as [m|i sp im sf| |[] im sf|sf|e arr n sf|e sf]; cbn [exec];
    [by destruct s| |by destruct s| |by destruct s|..].
  - unfold sender_step, stop_force. repeat case_match; try (by destruct s).
    rewrite (quiet_max _ _ (quiet_active_stop true sf _)). by destruct s.
  - destruct im; [apply quiet_max, quiet_active_stop|by destruct s].
  - destruct (strand_ s) as [|t ts]; [done|].
    transitivity (max_pending_send_bytes_ (s <| strand_ := ts |>)); [|by destruct s].
    destruct t; [|apply quiet_max, quiet_active_stop|apply quiet_max, quiet_send_impl].
    cbn [run_task snd]. unfold start_impl. destruct (socket_open _); by destruct s.
  - destruct (reads s); [done|]. apply quiet_max, quiet_handle_read.
  - destruct (writing s); [|done]. apply quiet_max, quiet_handle_write.
Qed.

(** Somebody will run [active_stop_impl(true)]. *)
Definition stop_pending (s : tcp_connection) : Prop :=
  closed_ s = true \/ TStop true ∈ strand_ s \/ exists m, SStop m ∈ senders s.

Lemma stop_pending_quiet s s' : quiet s s' -> stop_pending s -> stop_pending s'.
Proof.
  intros [Hs _ _ Hp Hc] [H1|[H1|H1]]; [left; auto| |].
  - right. left. destruct Hp as [ts ->]. set_solver.
  - right. right. by rewrite Hs.
Qed.

Definition overflow_ok (s : tcp_connection) : Prop :=
  send_overflowed_ s = true -> stop_pending s.

Lemma overflow_ok_quiet s s' : quiet s s' -> overflow_ok s -> overflow_ok s'.
Proof.
  intros Q Ho Hs'. eapply stop_pending_quiet; [done|]. apply Ho.
  by rewrite <- (quiet_overflowed _ _ Q).
Qed.

Lemma overflow_ok_set_sender i pc pc' p o s :
  senders s !! i = Some pc -> (forall m, pc <> SStop m) ->
  (o = true -> send_overflowed_ s = true \/ exists m, pc' = SStop m) ->
  overflow_ok s ->
  overflow_ok (s <| pending_send_bytes_ := p |> <| send_overflowed_ := o |>
                 <| senders := <[i := pc']> (senders s) |>).
Proof.
  intros Hpc Hns Ho Hok Hs. unfold overflow_ok, stop_pending in *. destruct s. cbn in *.
  destruct (Ho Hs) as [Hs'|[m ->]].
  - destruct (Hok Hs') as [?|[?|[m Hm]]]; [by left|by right; left|].
    right. right. exists m. apply list_elem_of_lookup in Hm as [j Hj].
    apply list_elem_of_lookup. exists j. rewrite list_lookup_insert_ne; [done|].
    intros ->. rewrite Hj in Hpc. simplify_eq. by eapply Hns.
  - right. right. exists m. apply list_elem_of_lookup. exists i.
    apply list_lookup_insert_eq. by apply lookup_lt_Some in Hpc.
Qed.

Lemma overflow_ok_sender_step i sp im sf s :
  overflow_ok s -> overflow_ok (sender_step i sp im sf s).2.
Proof.
  intros Hok. unfold sender_step. destruct (senders s !! i) as [pc|] eqn:Epc; [|done].
  pose proof (fun pc' p o Hns Ho => overflow_ok_set_sender i pc pc' p o s Epc Hns Ho Hok)
    as Hm.
  destruct s as [st so rd wr it di q oc mx pe ov gr sd cl se]. cbn in *.
  destruct pc as [m|m|m pending|m|m|m|m|m|]; cbn in *.
  - apply (Hm _ pe ov); [done|by left].
  - apply (Hm _ pe ov); [done|by left].
  - repeat case_match; cbn; [eapply (Hm _ _ ov)|eapply (Hm _ pe ov)|eapply (Hm _ pe ov)];
      (done || by left).
  - apply (Hm _ pe ov); [done|by left].
  - eapply (Hm _ _ ov); [done|by left].
  - apply (Hm _ pe true); [done|]. intros _. destruct ov; [by left|]. right. by eexists.
  - intros _. destruct im; cbn.
    + left. apply active_stop_force_closed.
    + right. left. cbn. set_solver.
  - specialize (Hm SDone pe ov ltac:(done) ltac:(by left)).
    unfold overflow_ok, stop_pending in *. cbn in *. intros Hs. destruct (Hm Hs) as [?|[?|?]];
      [by left|right; left; set_solver|by right; right].
  - done.
Qed.

Lemma overflow_ok_exec e s : overflow_ok s -> overflow_ok (exec e s).2.
Proof.
  intros Hok. destruct e as [m|i sp im sf| |[] im sf|sf|e arr n sf|e sf]; cbn [exec snd].
  - intros Hs. destruct s. unfold overflow_ok, stop_pending in *. cbn in *.
    destruct (Hok Hs) as [?|[?|[m' ?]]]; [by left|by right; left|right; right; exists m'].
    set_solver.
  - by apply overflow_ok_sender_step.
  - eapply overflow_ok_quiet; [|done]. destruct s. split; cbn; try done. by eexists.
  - unfold stop_force. destruct im; cbn [snd].
    + intros _. left. apply active_stop_force_closed.
    + eapply overflow_ok_quiet; [|done]. destruct s. split; cbn; try done. by eexists.
  - eapply overflow_ok_quiet; [|done]. destruct s. split; cbn; try done. by eexists.
  - destruct (strand_ s) as [|t ts] eqn:Et; [done|].
    destruct (decide (t = TStop true)) as [->|Hne].
    + intros _. left. apply active_stop_force_closed.
    + assert (Hok' : overflow_ok (s <| strand_ := ts |>)).
      { intros Hs. assert (Hs' : send_overflowed_ s = true) by (by destruct s).
        unfold stop_pending. destruct (Hok Hs') as [Hc|[Hin|Hin]]; destruct s; cbn in *;
          [by left|right; left; set_solver|by right; right]. }
      eapply overflow_ok_quiet; [|done].
      destruct t; [|apply quiet_active_stop|apply quiet_send_impl].
      cbn [run_task snd]. unfold start_impl. destruct (socket_open _); [|done].
      destruct s. by split.
  - destruct (reads s); [done|]. eapply overflow_ok_quiet; [|done]. apply quiet_handle_read.
  - destruct (writing s); [|done]. eapply overflow_ok_quiet; [|done].
    apply quiet_handle_write.
Qed.

(** ** A closed connection stays silent *)

Definition only_posts (es : list effect) : Prop :=
  Forall (fun e => match e with Posted _ => True | _ => False end) es.

Lemma closed_exec es e s :
  good es [] 0 s -> event_ok e -> closed_ s = true ->
  only_posts (exec e s).1 /\ closed_ (exec e s).2 = true.
Proof.
  intros G He Hc.
  assert (Hfc : forall s, closed_ s = true -> finish_close s = ([], s)).
  { intros s0 H0. unfold finish_close. by rewrite H0. }
  assert (Has : forall f sf s, closed_ s = true -> active_stop_impl f sf s = ([], s)).
  { intros f sf s0 H0. unfold active_stop_impl. by rewrite H0. }
  unfold only_posts. destruct e as [m|i sp im sf| |[] im sf|sf|e arr n sf|e sf];
    cbn [exec].
  - destruct s. by repeat constructor.
  - unfold sender_step. repeat case_match; try (destruct s; by repeat constructor).
    unfold stop_force. case_match; [rewrite Has by (by destruct s)|]; destruct s; by split.
  - destruct s. by repeat constructor.
  - unfold stop_force. case_match; [rewrite Has by done|]; destruct s; by split.
  - destruct s. by repeat constructor.
  - destruct (strand_ s) as [|[|f|b n] ts]; cbn [run_task]; [by repeat constructor|..].
    + unfold start_impl. case_match; destruct s; by split.
    + rewrite Has by (by destruct s). destruct s; by split.
    + unfold send_impl. replace (closed_ (s <| strand_ := ts |>)) with true
        by (by destruct s). destruct s; by split.
  - destruct (reads s) eqn:Er; [by repeat constructor|].
    pose proof (fun H => good_handle_read _ e arr n sf _ G (fun _ => H)) as Gr.
    pose proof (quiet_closed _ _ (quiet_handle_read e arr n sf s) Hc) as Hc'. split; [|done].
    unfold handle_read in *. cbn zeta in *. set (s0 := s <| reads := _ |>) in *.
    assert (Hc0 : closed_ s0 = true) by (by destruct s). rewrite (Hfc s0 Hc0), Hc0.
    destruct e; try by constructor. specialize (Gr He).
    destruct (handle_buffer _ _ _ _) as [[] c d| |]; cbn [fst] in *; [by constructor| | |].
    + rewrite Has; [by constructor|]. by destruct s0.
    + destruct (good_crash _ _ _ _ Gr). set_solver.
    + destruct (good_crash _ _ _ _ Gr). set_solver.
  - destruct (writing s); [|by repeat constructor].
    unfold handle_write. cbn zeta. replace (closed_ (s <| writing := None |>)) with true
      by (by destruct s). destruct s; by split.
Qed.

Lemma closed_run evs es s :
  good es [] 0 s -> Forall event_ok evs -> closed_ s = true ->
  only_posts (mjoin (run exec evs s).1) /\ closed_ (run exec evs s).2 = true.
Proof.
  intros G He. revert es s G. induction He as [|e evs He _ IH]; intros es s G Hc.
  - by repeat constructor.
  - rewrite run_cons. cbn [fst snd]. rewrite mjoin_cons.
    destruct (closed_exec _ _ _ G He Hc) as [Hp Hc'].
    destruct (IH _ _ (good_exec _ _ _ G He) Hc') as [Hp' Hc'']. split; [|done].
    by apply Forall_app.
Qed.

(** ** A graceful stop flushes what was posted before it *)

Definition accepting (s : tcp_connection) : Prop :=
  refusing s = false.

Lemma run_accepting ts rest s :
  accepting s -> strand_ s = ts ++ rest ->
  Forall (fun t => forall f, t <> TStop f) ts ->
  let '(ess, s') := run exec (replicate (length ts) (RunTask false)) s in
  mjoin ess = AsyncWrite <$> (match write_queue_ s with
                              | [] => take 1 (task_sends ts)
                              | _ => [] end) /\
  buffer <$> write_queue_ s' = (buffer <$> write_queue_ s) ++ task_sends ts /\
  accepting s' /\ strand_ s' = rest.
Proof.
  intros Ha Hs Ht. revert s Ha Hs. induction Ht as [|t ts Ht _ IH]; intros s Ha Hs.
  { cbn. rewrite app_nil_r. by destruct (write_queue_ s). }
  cbn [length replicate]. rewrite run_cons. cbn beta iota. rewrite mjoin_cons.
  assert (E : exec (RunTask false) s = run_task t false (s <| strand_ := ts ++ rest |>))
    by (cbn [exec]; by rewrite Hs).
  specialize (IH (exec (RunTask false) s).2). rewrite E in IH |- *. clear E.
  destruct t as [|f|b n]; [|by destruct (Ht f)|].
  - cbn [run_task fst snd] in *. unfold start_impl in *.
    destruct s as [st so rd wr it di q oc mx pe ov gr sd cl se]. cbn in *.
    destruct so; destruct (run exec _ _) as [ess s']; cbn in *; by apply IH.
  - cbn [run_task fst snd] in *. unfold send_impl in *.
    replace (closed_ _ || _ || _ || _) with (refusing s) in * by (by destruct s).
    rewrite Ha in *. unfold write_next in *.
    destruct s as [st so rd wr it di q oc mx pe ov gr sd cl se]. cbn in *.
    destruct q as [|w q]; cbn in *; destruct (run exec _ _) as [ess s']; cbn in *;
      destruct (IH Ha eq_refl) as (E1&E2&E3&E4); rewrite E1, E2; cbn.
    + split_and!; [by destruct (task_sends ts)|done|done|done].
    + split_and!; [done| |done|done]. by rewrite fmap_app, <- app_assoc.
Qed.

Lemma run_writes w q s :
  write_queue_ s = w :: q -> is_Some (writing s) -> closed_ s = false ->
  graceful_close_requested_ s = true ->
  let '(ess, s') := run exec (replicate (S (length q)) (WriteDone no_error false)) s in
  mjoin ess = (AsyncWrite <$> (buffer <$> q)) ++ [ShutdownSend] /\
  write_queue_ s' = [] /\ strand_ s' = strand_ s /\ closed_ s' = false.
Proof.
  revert w s. induction q as [|w' q IH]; intros w s Hq Hw Hc Hg.
  - destruct s as [st so rd wr it di q0 oc mx pe ov gr sd cl se]. cbn in *. subst.
    destruct Hw as [b ->]. done.
  - assert (E : exec (WriteDone no_error false) s = ([AsyncWrite (buffer w')],
      s <| pending_send_bytes_ := uint 64 (pending_send_bytes_ s - reserved_bytes w) |>
        <| write_queue_ := w' :: q |> <| writing := Some (buffer w') |>)).
    { destruct s. cbn in *. subst. destruct Hw as [b ->]. done. }
    cbn [length]. rewrite replicate_S, run_cons, E. cbn beta iota. cbn [fst snd].
    rewrite mjoin_cons. clear E. set (s1 := s <| pending_send_bytes_ := _ |>
      <| write_queue_ := _ |> <| writing := _ |>).
    specialize (IH w' s1 ltac:(by destruct s) ltac:(by destruct s)
      ltac:(by destruct s) ltac:(by destruct s)).
    replace (strand_ s1) with (strand_ s) in IH by (by destruct s).
    destruct (run exec (replicate _ _) s1) as [ess s']. destruct IH as (E1&E2&E3&E4).
    cbn [fst snd]. by rewrite E1.
Qed.

Lemma run_graceful_stop s :
  accepting s -> strand_ s = [TStop false] ->
  writing s = buffer <$> head (write_queue_ s) ->
  let n := length (write_queue_ s) in
  let '(ess, s') :=
    run exec (RunTask false :: replicate n (WriteDone no_error false)) s in
  mjoin ess = (AsyncWrite <$> tail (buffer <$> write_queue_ s)) ++ [ShutdownSend] /\
  strand_ s' = [] /\ write_queue_ s' = [] /\ closed_ s' = false.
Proof.
  intros Ha Hs Hw. cbn zeta. rewrite run_cons. cbn beta iota. rewrite mjoin_cons.
  unfold accepting, refusing in Ha. breflect.
  destruct s as [st so rd wr it di q oc mx pe ov gr sd cl se]. cbn in *. subst. cbn.
  destruct q as [|w q]; [done|]. cbn [app].
  match goal with |- context [run exec _ ?x] => set (s1 := x) end.
  pose proof (run_writes w q s1 eq_refl ltac:(by eexists) eq_refl eq_refl) as Hr.
  cbn [length]. destruct (run exec _ s1) as [ess s']. cbn [fst snd].
  by destruct Hr as (->&?&?&?).
Qed.

Lemma graceful_flush es ts s :
  good es [] 0 s -> accepting s -> strand_ s = ts ++ [TStop false] ->
  Forall (fun t => forall f, t <> TStop f) ts ->
  let bs := (buffer <$> write_queue_ s) ++ task_sends ts in
  let '(ess, s') := run exec (replicate (S (length ts)) (RunTask false) ++
    replicate (length bs) (WriteDone no_error false)) s in
  mjoin ess = (AsyncWrite <$> drop (length (take 1 (write_queue_ s))) bs) ++ [ShutdownSend]
  /\ strand_ s' = [] /\ write_queue_ s' = [] /\ closed_ s' = false.
Proof.
  intros G Ha Hs Ht. cbn zeta. rewrite replicate_S_end, <- app_assoc, run_app.
  cbn beta iota. rewrite mjoin_app.
  pose proof (run_accepting ts _ s Ha Hs Ht) as Hr.
  assert (G1 := good_run (replicate (length ts) (RunTask false)) es s G
    ltac:(by apply Forall_replicate)).
  destruct (run exec (replicate (length ts) (RunTask false)) s) as [ess s1].
  cbn [fst snd] in *. destruct Hr as (->&Eq&Ha1&Hs1). rewrite <- Eq, length_fmap.
  assert (Hc1 : closed_ s1 = false) by (unfold accepting, refusing in Ha1; by breflect).
  pose proof (run_graceful_stop s1 Ha1 Hs1 (good_writing _ _ _ _ G1 Hc1)) as Hr.
  cbn zeta in Hr. cbn [app]. destruct (run exec _ s1) as [ess' s'].
  cbn [fst snd]. destruct Hr as (->&?&?&?). split_and!; [|done..].
  rewrite app_assoc. f_equal. rewrite <- fmap_app. f_equal. rewrite Eq.
  destruct (write_queue_ s) as [|w q]; [|done]. cbn. by destruct (task_sends ts).
Qed.
(** ** The messages a connection holds *)

Definition sender_msg (pc : sender) : option raw_buffer :=
  match pc with
  | SCheck m | SLoad m | SLoop m _ | SReserved m | SRollback m | SFail m | SStop m
  | SPost m => Some m
  | SDone => None
  end.

Definition held (s : tcp_connection) : list raw_buffer :=
  omap sender_msg (senders s) ++ task_sends (strand_ s) ++ (buffer <$> write_queue_ s).

(** A step that takes no message in and reads nothing. *)
Record kframe (s : tcp_connection) (es : list effect) (s' : tcp_connection) : Prop := {
  kf_held : held s' ⊆ held s;
  kf_writes : writes es ⊆ held s;
  kf_interpreter : interpreter_ s' = interpreter_ s;
  kf_dispatcher : dispatcher_ s' = dispatcher_ s;
}.

Lemma kframe_trans s es s' es' s'' :
  kframe s es s' -> kframe s' es' s'' -> kframe s (es ++ es') s''.
Proof.
  intros [A1 B1 C1 D1] [A2 B2 C2 D2]. split; [by etrans| |congruence..].
  rewrite writes_app. set_solver.
Qed.

(** Changes of the other members. *)
Lemma kframe_same s s' :
  senders s' = senders s -> strand_ s' = strand_ s -> write_queue_ s' = write_queue_ s ->
  interpreter_ s' = interpreter_ s -> dispatcher_ s' = dispatcher_ s -> kframe s [] s'.
Proof. intros E1 E2 E3 E4 E5. split; [|set_solver|done..]. unfold held. by rewrite E1, E2, E3. Qed.

Lemma kframe_silent s es s' : writes es = [] -> kframe s [] s' -> kframe s es s'.
Proof. intros E [A B C D0]. split; [done|rewrite E; set_solver|done..]. Qed.

Lemma kframe_finish_close s : kframe s (finish_close s).1 (finish_close s).2.
Proof.
  unfold finish_close. destruct (closed_ s); [by apply kframe_same|]. cbn zeta. cbn [fst snd].
  assert (Hr : forall ws s0, let s1 := foldl (fun s w => release_send_bytes (reserved_bytes w) s) s0 ws
    in senders s1 = senders s0 /\ strand_ s1 = strand_ s0 /\
       interpreter_ s1 = interpreter_ s0 /\ dispatcher_ s1 = dispatcher_ s0).
  { induction ws as [|w ws IH]; intros s0; [done|]. cbn [foldl].
    destruct (IH (release_send_bytes (reserved_bytes w) s0)) as (->&->&->&->). by destruct s0. }
  set (s0 := s <| closed_ := true |> <| socket_open := false |>).
  destruct (Hr (write_queue_ s0) s0) as (E1&E2&E3&E4). set (s2 := foldl _ _ _) in *.
  assert (E0 : senders s0 = senders s /\ strand_ s0 = strand_ s /\
    interpreter_ s0 = interpreter_ s /\ dispatcher_ s0 = dispatcher_ s) by (by destruct s).
  destruct E0 as (F1&F2&F3&F4). clearbody s2 s0. apply kframe_silent.
  { destruct (socket_open s), (on_closed_ s); done. }
  destruct s2. cbn in *. subst. split; cbn; [|set_solver|done..].
  unfold held. cbn. rewrite F1, F2. set_solver.
Qed.

Lemma kframe_shutdown_send sf s :
  kframe s (shutdown_send_impl sf s).1 (shutdown_send_impl sf s).2.
Proof.
  unfold shutdown_send_impl. set (s0 := s <| sent_shutdown_ := true |>). cbn zeta.
  assert (K : kframe s [ShutdownSend] s0).
  { apply kframe_silent; [done|]. by apply kframe_same; destruct s. }
  destruct sf; [|done]. pose proof (kframe_finish_close s0) as K'.
  destruct (finish_close s0). exact (kframe_trans _ _ _ _ _ K K').
Qed.

Lemma kframe_active_stop force sf s :
  kframe s (active_stop_impl force sf s).1 (active_stop_impl force sf s).2.
Proof.
  unfold active_stop_impl. case_match; [by apply kframe_same|].
  case_match; [apply kframe_finish_close|]. cbn zeta.
  set (s0 := s <| graceful_close_requested_ := true |>).
  assert (K : kframe s [] s0) by (by apply kframe_same; destruct s).
  case_match; [|done]. exact (kframe_trans _ [] _ _ _ K (kframe_shutdown_send sf s0)).
Qed.

Lemma kframe_write_next s : kframe s (write_next s).1 (write_next s).2.
Proof.
  unfold write_next. destruct (write_queue_ s) as [|w q] eqn:Eq; cbn [fst snd].
  { apply kframe_silent; [done|]. by apply kframe_same. }
  destruct s. cbn in *. subst. split; cbn; try done. unfold held. cbn. set_solver.
Qed.

Lemma kframe_handle_write e sf s : kframe s (handle_write e sf s).1 (handle_write e sf s).2.
Proof.
  unfold handle_write. cbn zeta. set (s0 := s <| writing := None |>).
  assert (K : kframe s [] s0) by (by apply kframe_same; destruct s).
  assert (Kc : kframe s (finish_close s0).1 (finish_close s0).2)
    by exact (kframe_trans _ [] _ _ _ K (kframe_finish_close s0)).
  case_match; [done|]. destruct e; try done.
  destruct (write_queue_ s0) as [|w q] eqn:Eq; [by apply kframe_silent|].
  set (s1 := release_send_bytes (reserved_bytes w) s0 <| write_queue_ := q |>).
  assert (K1 : kframe s [] s1).
  { apply (kframe_trans _ [] s0 []); [done|]. subst s1. destruct s0. cbn in *. subst.
    split; cbn; try done; unfold held; cbn; set_solver. }
  destruct q.
  - destruct (graceful_close_requested_ _); [|exact K1].
    exact (kframe_trans _ [] _ _ _ K1 (kframe_shutdown_send sf s1)).
  - exact (kframe_trans _ [] _ _ _ K1 (kframe_write_next s1)).
Qed.

Lemma kframe_run_task t ts sf s :
  strand_ s = t :: ts ->
  kframe s (run_task t sf (s <| strand_ := ts |>)).1 (run_task t sf (s <| strand_ := ts |>)).2.
Proof.
  intros Es. set (s0 := s <| strand_ := ts |>).
  assert (K : kframe s [] s0).
  { destruct s. cbn in *. subst. split; cbn; try done; [|set_solver].
    unfold held. cbn. destruct t; set_solver. }
  destruct t as [|force|b n]; cbn [run_task fst snd].
  - apply (kframe_trans _ [] s0 []); [done|]. unfold start_impl.
    destruct (socket_open s0); [|by apply kframe_same]. by apply kframe_same; destruct s0.
  - exact (kframe_trans _ [] _ _ _ K (kframe_active_stop force sf s0)).
  - unfold send_impl. case_match.
    + apply (kframe_trans _ [] s0 []); [done|]. by apply kframe_same; destruct s0.
    + cbn zeta. set (s1 := s0 <| write_queue_ := _ |>).
      assert (K1 : kframe s [] s1).
      { subst s1 s0. destruct s. cbn in *. subst. split; cbn; try done; [|set_solver].
        unfold held. cbn. rewrite fmap_app. cbn. set_solver. }
      case_match; [done|]. exact (kframe_trans _ [] _ _ _ K1 (kframe_write_next s1)).
Qed.

Lemma kframe_sender_step i sp im sf s :
  kframe s (sender_step i sp im sf s).1 (sender_step i sp im sf s).2.
Proof.
  assert (Hs : forall pc pc' s', senders s !! i = Some pc ->
    (forall m, sender_msg pc' = Some m -> sender_msg pc = Some m) ->
    kframe s [] s' -> senders s' = senders s -> kframe s [] (set_sender i pc' s')).
  { intros pc pc' s' Hpc Hm K E. apply (kframe_trans _ [] s' []); [done|].
    rewrite <- E in Hpc. destruct s'. cbn in *.
    split; cbn; try done; [|set_solver]. unfold held. cbn.
    pose proof (omap_insert sender_msg _ i pc pc' Hpc Hm). set_solver. }
  unfold sender_step. destruct (senders s !! i) as [pc|] eqn:Hpc; [|by apply kframe_same].
  destruct pc as [m|m|m n|m|m|m|m|m|].
  - destruct (send_overflowed_ s); eapply Hs; try done; by apply kframe_same.
  - eapply Hs; try done; by apply kframe_same.
  - destruct (fits (msg_size m) n s); [destruct (_ && _)|];
      eapply Hs; try done; try (by destruct s); by apply kframe_same; destruct s.
  - destruct (send_overflowed_ s); eapply Hs; try done; by apply kframe_same.
  - eapply Hs; try done; try (by destruct s); by apply kframe_same; destruct s.
  - destruct (send_overflowed_ s); eapply Hs; try done; try (by destruct s);
      by apply kframe_same; destruct s.
  - assert (K : kframe s [] (set_sender i SDone s)).
    { eapply Hs; try done. by apply kframe_same. }
    unfold stop_force. destruct im.
    + exact (kframe_trans _ [] _ _ _ K (kframe_active_stop true sf _)).
    + apply (kframe_trans _ [] _ []  _ K). cbn [fst snd]. set (s0 := set_sender i SDone s).
      destruct s0. split; cbn; try done; [|set_solver]. unfold held. cbn.
      rewrite task_sends_app. set_solver.
  - apply kframe_silent; [done|]. cbn [snd].
    assert (Hin : m ∈ omap sender_msg (senders s)).
    { apply list_elem_of_omap. exists (SPost m). split; [|done]. by eapply list_elem_of_lookup_2. }
    pose proof (omap_insert sender_msg _ i _ SDone Hpc ltac:(done)).
    destruct s. cbn in *. split; cbn; try done; [|set_solver]. unfold held. cbn.
    rewrite task_sends_app. set_solver.
  - by apply kframe_same.
Qed.

Definition event_msgs (e : event) : list raw_buffer :=
  match e with CallSend m => [m] | _ => [] end.

(** What a connection writes was given to [send], and a read does not change it. *)
Lemma held_exec e s :
  held (exec e s).2 ⊆ event_msgs e ++ held s /\ writes (exec e s).1 ⊆ held s.
Proof.
  assert (Hk : forall r, kframe s r.1 r.2 -> held r.2 ⊆ event_msgs e ++ held s /\
    writes r.1 ⊆ held s) by (intros r []; set_solver).
  destruct e as [m|i sp im sf| |[] im sf|sf|e arr n sf|e sf]; cbn [exec].
  - destruct s. unfold held. cbn. rewrite omap_app. cbn. set_solver.
  - apply Hk, kframe_sender_step.
  - destruct s. unfold held. cbn. rewrite task_sends_app. set_solver.
  - unfold stop_force. destruct im; [apply Hk, kframe_active_stop|].
    destruct s. unfold held. cbn. rewrite task_sends_app. set_solver.
  - destruct s. unfold held. cbn. rewrite task_sends_app. set_solver.
  - destruct (strand_ s) as [|t ts] eqn:Es; [cbn; set_solver|]. by apply Hk, kframe_run_task.
  - destruct (reads s); [cbn; set_solver|]. unfold handle_read. cbn zeta.
    set (s0 := s <| reads := _ |>). assert (E0 : held s0 = held s) by (by destruct s).
    assert (Hc : held (finish_close s0).2 ⊆ held s /\ writes (finish_close s0).1 ⊆ held s).
    { destruct (kframe_finish_close s0). rewrite <- E0. done. }
    rewrite <- E0 in *.
    destruct e; [|done|destruct (closed_ s0); [cbn; set_solver|done]|done|done].
    destruct (handle_buffer _ _ _ _) as [[] c d| |]; cbn [event_msgs app fst snd];
      [| |set_solver..].
    + destruct s0. unfold held. cbn. rewrite task_sends_app. set_solver.
    + set (s1 := s0 <| interpreter_ := c |> <| dispatcher_ := d |>).
      replace (held s0) with (held s1) by (by destruct s0).
      by destruct (kframe_active_stop true sf s1).
  - destruct (writing s); [|cbn; set_solver]. apply Hk, kframe_handle_write.
Qed.

(** The interpreter keeps its link, and dispatches on it. *)
Lemma exec_dispatches es e s :
  good es [] 0 s -> event_ok e ->
  link_ (interpreter_ (exec e s).2) = link_ (interpreter_ s) /\
  exists ms, dispatcher_ (exec e s).2 = dispatch_all (link_ (interpreter_ s)) ms (dispatcher_ s).
Proof.
  intros G He.
  assert (Hi : forall s', interpreter_ s' = interpreter_ s -> dispatcher_ s' = dispatcher_ s ->
    link_ (interpreter_ s') = link_ (interpreter_ s) /\
    exists ms, dispatcher_ s' = dispatch_all (link_ (interpreter_ s)) ms (dispatcher_ s)).
  { intros s' -> ->. split; [done|]. by exists []. }
  assert (Hk : forall r : list effect * tcp_connection, kframe s r.1 r.2 ->
    link_ (interpreter_ r.2) = link_ (interpreter_ s) /\
    exists ms, dispatcher_ r.2 = dispatch_all (link_ (interpreter_ s)) ms (dispatcher_ s)).
  { intros r []. by apply Hi. }
  destruct e as [m|i sp im sf| |[] im sf|sf|e arr n sf|e sf]; cbn [exec];
    try (by apply Hi; destruct s).
  - apply Hk, kframe_sender_step.
  - unfold stop_force. destruct im; [apply Hk, kframe_active_stop|]. by apply Hi; destruct s.
  - destruct (strand_ s) as [|t ts] eqn:Es; [by apply Hi|]. by apply Hk, kframe_run_task.
  - destruct (reads s); [by apply Hi|]. unfold handle_read. cbn zeta.
    set (s0 := s <| reads := _ |>).
    assert (K : kframe s [] s0) by (by apply kframe_same; destruct s).
    assert (Kc : kframe s (finish_close s0).1 (finish_close s0).2)
      by exact (kframe_trans _ [] _ _ _ K (kframe_finish_close s0)).
    destruct e; try (by apply Hk); [|by destruct (closed_ s0); apply Hk].
    destruct (stream_total (buffer_ (interpreter_ s) ++ read_bytes (arr, n))) as (ms&r&Hs).
    pose proof (handle_buffer_stream _ (arr, n) (dispatcher_ s) ms r
      (good_interpreter _ _ _ _ G) He Hs) as E. cbn [fst snd] in E.
    replace (interpreter_ s0) with (interpreter_ s) by (by destruct s).
    replace (dispatcher_ s0) with (dispatcher_ s) by (by destruct s). rewrite E.
    unfold result_of. destruct (leftover_ok r); cbn [snd].
    + destruct s0. cbn. eauto.
    + set (s1 := s0 <| interpreter_ := _ |> <| dispatcher_ := _ |>).
      destruct (kframe_active_stop true sf s1) as [_ _ -> ->]. subst s1. destruct s0. cbn. eauto.
  - destruct (writing s); [|by apply Hi]. apply Hk, kframe_handle_write.
Qed.

(** A detached connection still dispatches to the link it was attached to. *)
Lemma detach_keeps_link l s :
  link_ (interpreter_ (conn_detach_link (conn_attach_link l s))) = l.
Proof. destruct s. unfold conn_attach_link, conn_detach_link, attach_link. cbn. by destruct interpreter_0. Qed.
End connection.
Arguments tcp_connection : clear implicits.

Module ConnectionProperties.
Import recorder.

(** A history of a connection: what it emitted and its final state. *)
Definition history {D} `{message_dispatcher_interface D} (evs : list event) (d : D)
    (l : link_ptr) (max : Z) : list effect * tcp_connection D :=
  (mjoin (run exec evs (create d l max)).1, (run exec evs (create d l max)).2).

Lemma history_good {D} `{message_dispatcher_interface D} evs (d : D) l max :
  0 <= max < 2 ^ 64 -> Forall event_ok evs ->
  good (history evs d l max).1 [] 0 (history evs d l max).2.
Proof. intros Hm He. apply (good_run evs []); [by apply good_create|done]. Qed.

(** Two senders; the second does not fit, and its overflow closes the connection
    while the first message is being written. *)
Definition overflow_events : list event :=
  let go i := SenderStep i false true false in
  [CallSend (repeat Init.Byte.x61 3); go 0%nat; go 0%nat; go 0%nat; go 0%nat; go 0%nat;
   RunTask false;
   CallSend (repeat Init.Byte.x62 2); go 1%nat; go 1%nat; go 1%nat; go 1%nat; go 1%nat].

Lemma overflow_events_ok : Forall event_ok overflow_events.
Proof. by repeat constructor. Qed.

(** C20. Egress accounting.  In every interleaving of concurrent [send] calls
    with the handlers of the strand, [pending_send_bytes_] is exactly the
    number of bytes of the messages that are queued, posted or reserved by a
    caller, it never exceeds [max_pending_send_bytes_], and the atomic never
    wraps. *)
Theorem egress_accounting {D} `{message_dispatcher_interface D} evs (d : D) l max :
  0 <= max < 2 ^ 64 -> Forall event_ok evs ->
  let s := (history evs d l max).2 in
  pending_send_bytes_ s = outstanding s /\ 0 <= pending_send_bytes_ s <= max.
Proof.
  intros Hm He. cbn zeta. pose proof (history_good evs d l max Hm He) as G.
  pose proof (good_parts _ _ _ _ G) as (?&?&?&_).
  pose proof (good_bytes _ _ _ _ G) as Hb. pose proof (good_bound _ _ _ _ G) as Hle.
  assert (E : max_pending_send_bytes_ (history evs d l max).2 = max).
  { unfold history. cbn [snd]. apply (run_invariant exec
      (fun s => max_pending_send_bytes_ s = max)); [|done].
    intros o s <-. apply exec_max. }
  rewrite E in Hle. unfold outstanding in *. lia.
Qed.

Lemma egress_accounting_witness :
  pending_send_bytes_ (history (take 7 overflow_events) ([] : log) None 4).2 = 3 /\
  pending_send_bytes_ (history (take 7 overflow_events) ([] : log) None 4).2 <= 4.
Proof.
  destruct (egress_accounting (take 7 overflow_events) ([] : log) None 4)
    as [E [_ Hle]]; [lia|by repeat constructor|].
  split; [vm_compute; reflexivity|exact Hle].
Defined.

(** Sends leave the connection in order.  Whatever the interleaving, the
    buffers given to [async_write] are a prefix of the buffers posted by [send],
    in the order of the posts: nothing is reordered, duplicated or skipped.
    While the connection is open, the write in progress is that of the head of
    the queue and the rest of the queue follows without a gap. *)
Theorem egress_fifo {D} `{message_dispatcher_interface D} evs (d : D) l max :
  0 <= max < 2 ^ 64 -> Forall event_ok evs ->
  let '(es, s) := history evs d l max in
  writes es `prefix_of` posted es /\
  (if closed_ s then True
   else writing s = buffer <$> head (write_queue_ s) /\
        writes es ++ tail (buffer <$> write_queue_ s) `prefix_of` posted es).
Proof.
  intros Hm He. pose proof (history_good evs d l max Hm He) as G.
  destruct (history evs d l max) as [es s]. cbn [fst snd] in G.
  pose proof (good_writing _ _ _ _ G) as Hw.
  destruct (good_fifo _ _ _ _ G) as (acc&rej&->&_&Ha).
  destruct (closed_ s); split; auto.
  - by apply prefix_app_r.
  - subst acc. rewrite <- !app_assoc. by eexists.
  - split; [by apply Hw|]. subst acc. by eexists.
Qed.

Lemma egress_fifo_witness :
  let es := (history overflow_events ([] : log) None 4).1 in
  writes es `prefix_of` posted es /\ writes es = [repeat Init.Byte.x61 3].
Proof.
  split; [|vm_compute; reflexivity].
  pose proof (egress_fifo overflow_events ([] : log) None 4 ltac:(lia) overflow_events_ok)
    as Hf. destruct (history _ _ _ _) as [es s]. exact (proj1 Hf).
Defined.

(** C31. Closing happens once and is final.  The close handler runs exactly once
    when the connection is closed and never before; the send side is shut down
    at most once; no handler touches an empty queue or reads out of bounds; and
    after the close no event writes to the socket, shuts it down or runs the
    close handler again. *)
Theorem close_once_final {D} `{message_dispatcher_interface D} evs evs' (d : D) l max :
  0 <= max < 2 ^ 64 -> Forall event_ok (evs ++ evs') ->
  let '(es, s) := history evs d l max in
  count is_on_closed es = Z.b2z (closed_ s) /\
  count is_shutdown_send es <= 1 /\ Crash ∉ es /\
  (if closed_ s then
     write_queue_ s = [] /\ only_posts (mjoin (run exec evs' s).1) /\
     closed_ (run exec evs' s).2 = true
   else True).
Proof.
  intros Hm [He He']%Forall_app. pose proof (history_good evs d l max Hm He) as G.
  destruct (history evs d l max) as [es s]. cbn [fst snd] in G.
  rewrite (good_on_closed _ _ _ _ G), (good_shutdown _ _ _ _ G).
  split_and!; [done|by destruct (sent_shutdown_ s); cbn; lia|apply (good_crash _ _ _ _ G)|].
  destruct (closed_ s) eqn:Ec; [|done].
  split; [by apply (good_closed _ _ _ _ G)|]. by apply (closed_run _ es).
Qed.

Lemma close_once_final_witness :
  let '(es, s) := history overflow_events ([] : log) None 4 in
  count is_on_closed es = 1 /\ closed_ s = true /\
  only_posts (mjoin (run exec [WriteDone operation_aborted false; CallStart;
                               RunTask false; CallSend []] s).1).
Proof.
  pose proof (close_once_final overflow_events [WriteDone operation_aborted false; CallStart;
    RunTask false; CallSend []] ([] : log) None 4 ltac:(lia)
    ltac:(apply Forall_app; split; [apply overflow_events_ok|by repeat constructor])) as Hc.
  assert (E : closed_ (history overflow_events ([] : log) None 4).2 = true)
    by (vm_compute; reflexivity).
  destruct (history _ _ _ _) as [es s]. cbn in E. rewrite E in Hc.
  destruct Hc as (Hc&_&_&_&Hp&_). split; [exact Hc|split; [exact E|exact Hp]].
Defined.

(** An overflow closes the connection.  In every interleaving, once
    [send_overflowed_] is set the connection is closed, or the forced stop is
    in the strand, or the one caller that set the flag is about to request it;
    and running the forced stop closes the connection. *)
Theorem overflow_closes {D} `{message_dispatcher_interface D} evs (d : D) l max :
  let s := (history evs d l max).2 in
  (if send_overflowed_ s then stop_pending s else True) /\
  (forall sf, closed_ (run_task (TStop true) sf s).2 = true).
Proof.
  cbn zeta. split; [|intros; apply active_stop_force_closed].
  assert (Ho : overflow_ok (history evs d l max).2).
  { apply (run_invariant exec overflow_ok); [apply overflow_ok_exec|]. done. }
  unfold overflow_ok in Ho. destruct (send_overflowed_ _); auto.
Qed.

(** C32. A graceful stop flushes.  From any reachable state in which the
    connection accepts sends and [stop(false)] was posted behind the sends
    [ts], running the strand and completing the writes writes every queued and
    posted buffer, in order, then shuts the send side down, and leaves nothing
    reserved but what callers still hold; the connection is not closed. *)
Theorem graceful_stop_flushes {D} `{message_dispatcher_interface D} evs (d : D) l max ts :
  0 <= max < 2 ^ 64 -> Forall event_ok evs ->
  let s := (history evs d l max).2 in
  accepting s -> strand_ s = ts ++ [TStop false] ->
  Forall (fun t => forall f, t <> TStop f) ts ->
  let bs := (buffer <$> write_queue_ s) ++ task_sends ts in
  let '(ess, s') := run exec (replicate (S (length ts)) (RunTask false) ++
    replicate (length bs) (WriteDone no_error false)) s in
  mjoin ess = (AsyncWrite <$> drop (length (take 1 (write_queue_ s))) bs) ++ [ShutdownSend]
  /\ pending_send_bytes_ s' = sumz sender_bytes (senders s') /\ closed_ s' = false.
Proof.
  intros Hm He. cbn zeta. intros Ha Hs Ht.
  pose proof (history_good evs d l max Hm He) as G.
  pose proof (graceful_flush _ ts _ G Ha Hs Ht) as Hf. cbn zeta in Hf.
  set (evs' := replicate _ _ ++ _) in *.
  assert (He' : Forall event_ok evs').
  { apply Forall_app. split; by apply Forall_replicate. }
  pose proof (good_bytes _ _ _ _ (good_run evs' _ _ G He')) as Hb.
  destruct (run exec evs' _) as [ess s']. destruct Hf as (E1&E2&E3&E4).
  split_and!; [done| |done]. cbn [snd] in Hb. rewrite Hb. unfold outstanding.
  rewrite E2, E3, !sumz_nil. lia.
Qed.

Lemma graceful_stop_flushes_witness :
  let b := repeat Init.Byte.x61 3 in
  let evs := take 6 overflow_events ++ [CallStop false false false] in
  let s := (history evs ([] : log) None 4).2 in
  mjoin (run exec [RunTask false; RunTask false; WriteDone no_error false] s).1
  = [AsyncWrite b; ShutdownSend].
Proof.
  pose proof (graceful_stop_flushes (take 6 overflow_events ++ [CallStop false false false])
    ([] : log) None 4 [TSend (repeat Init.Byte.x61 3) 3] ltac:(lia)
    ltac:(by repeat constructor) ltac:(vm_compute; reflexivity)
    ltac:(vm_compute; reflexivity) ltac:(by repeat constructor)) as Hg.
  exact (proj1 Hg).
Defined.
End ConnectionProperties.
