(* ===== verification/Pipeline.v ===== *)
(** * Pipeline: the order of messages through a connection

    Each [send] is a loop of atomic operations, a post to the strand of the
    connection, a queue and a write: here the order of the messages is followed
    through all of them.  [p] tells which messages are followed.  The only
    assumption is that a followed message is posted when the earlier followed
    sends of the connection have returned. *)

From S2P Require Import Prelude Wire Interpreter Connection.
From coqutil Require Import Datatypes.RecordSetters.
Import TriangleBracketNotations.
Import interpreter.
#[local] Arguments constant {_} _ _ /.

Section pipeline.
Context (p : raw_buffer -> bool).

(** The messages that are followed. *)
Notation sel := (filter (fun b : raw_buffer => p b = true)).

Lemma sel_sublist bs bs' : bs `sublist_of` bs' -> sel bs `sublist_of` sel bs'.
Proof.
  induction 1 as [|x bs bs' Hs IH|x bs bs' Hs IH]; [done|..]; rewrite !filter_cons; case_decide;
    by repeat constructor.
Qed.

(** ** One connection *)

Section one_connection.
Context {D : Type} `{message_dispatcher_interface D}.

(** What is on its way to the socket, in order; the first of the queue has
    been given to it. *)
Definition pipe (s : tcp_connection D) : list raw_buffer :=
  tail (buffer <$> write_queue_ s) ++ task_sends (strand_ s) ++ omap sender_msg (senders s).

(** A send posts its message after the followed sends before it. *)
Definition in_turn (e : Connection.event) (s : tcp_connection D) : Prop :=
  match e with
  | SenderStep i _ _ _ => forall m, senders s !! i = Some (SPost m) -> p m = true ->
      sel (omap sender_msg (take i (senders s))) = []
  | _ => True
  end.

#[export] Instance in_turn_dec e s : Decision (in_turn e s).
Proof.
  destruct e as [|i ? ? ?| | | | |]; try (by left). cbn.
  destruct (senders s !! i) as [[]|] eqn:Ei; try (by left).
  destruct (decide (p msg = true)) as [Hp|Hp]; [|left; intros m [= <-]; done].
  destruct (decide (sel (omap sender_msg (take i (senders s))) = [])) as [E|E].
  - left. intros m [= <-] _. exact E.
  - right. intros H1. by apply E, (H1 msg).
Defined.

(** Messages leave the pipe at its front, or are dropped. *)
Definition drains (s : tcp_connection D) (es : list Connection.effect) (s' : tcp_connection D) : Prop :=
  sel (writes es) ++ sel (pipe s') `sublist_of` sel (pipe s).

Lemma drains_trans s es s' es' s'' :
  drains s es s' -> drains s' es' s'' -> drains s (es ++ es') s''.
Proof.
  unfold drains. intros H1 H2. rewrite writes_app, filter_app, <- (assoc_L (++)).
  etrans; [|exact H1]. by apply sublist_app.
Qed.

Lemma drains_pipe s es s' : writes es = [] -> pipe s' `sublist_of` pipe s -> drains s es s'.
Proof. intros E Hs. unfold drains. rewrite E. by apply sel_sublist. Qed.

Lemma drains_same s s' :
  senders s' = senders s -> strand_ s' = strand_ s -> write_queue_ s' = write_queue_ s -> drains s [] s'.
Proof. intros E1 E2 E3. apply drains_pipe; [done|]. unfold pipe. by rewrite E1, E2, E3. Qed.

Lemma drains_finish_close s : drains s (finish_close s).1 (finish_close s).2.
Proof.
  unfold finish_close. destruct (closed_ s); [by apply drains_same|]. cbn zeta. cbn [fst snd].
  assert (Hr : forall ws (s0 : tcp_connection D),
    let s1 := foldl (fun s w => release_send_bytes (reserved_bytes w) s) s0 ws in
    senders s1 = senders s0 /\ strand_ s1 = strand_ s0).
  { induction ws as [|w ws IH]; intros s0; [done|]. cbn [foldl].
    destruct (IH (release_send_bytes (reserved_bytes w) s0)) as (->&->). by destruct s0. }
  set (s0 := s <| closed_ := true |> <| socket_open := false |>).
  destruct (Hr (write_queue_ s0) s0) as (E1&E2). set (s2 := foldl _ _ _) in *.
  assert (E0 : senders s0 = senders s /\ strand_ s0 = strand_ s) by (by destruct s).
  destruct E0 as (F1&F2). clearbody s2 s0. apply drains_pipe.
  { destruct (socket_open s), (on_closed_ s); done. }
  destruct s2. cbn in *. subst. unfold pipe. cbn. rewrite F1, F2. by apply sublist_inserts_l.
Qed.

Lemma drains_shutdown_send sf s : drains s (shutdown_send_impl sf s).1 (shutdown_send_impl sf s).2.
Proof.
  unfold shutdown_send_impl. set (s0 := s <| sent_shutdown_ := true |>). cbn zeta.
  assert (K : drains s [ShutdownSend] s0) by (apply (drains_same s s0); by destruct s).
  destruct sf; [|done]. pose proof (drains_finish_close s0) as K'.
  destruct (finish_close s0). exact (drains_trans _ _ _ _ _ K K').
Qed.

Lemma drains_active_stop force sf s :
  drains s (active_stop_impl force sf s).1 (active_stop_impl force sf s).2.
Proof.
  unfold active_stop_impl. case_match; [by apply drains_same|].
  case_match; [apply drains_finish_close|]. cbn zeta. set (s0 := s <| graceful_close_requested_ := true |>).
  assert (K : drains s [] s0) by (by apply drains_same; destruct s).
  case_match; [|done]. exact (drains_trans _ [] _ _ _ K (drains_shutdown_send sf s0)).
Qed.

(** The first of the queue is given to the socket. *)
Lemma drains_write_next w q s s0 :
  write_queue_ s = w :: q -> pipe s0 = buffer w :: pipe s ->
  drains s0 (write_next s).1 (write_next s).2.
Proof.
  intros Eq Ep. unfold write_next. rewrite Eq. cbn [fst snd]. unfold drains. rewrite Ep.
  replace (pipe (s <| writing := _ |>)) with (pipe s) by (by destruct s).
  change (writes [AsyncWrite (buffer w)]) with [buffer w]. by rewrite <- filter_app.
Qed.

Lemma drains_handle_write e sf s : drains s (handle_write e sf s).1 (handle_write e sf s).2.
Proof.
  unfold handle_write. cbn zeta. set (s0 := s <| writing := None |>).
  assert (K : drains s [] s0) by (by apply drains_same; destruct s).
  assert (E0 : pipe s0 = pipe s) by (by destruct s).
  assert (Kc : drains s (finish_close s0).1 (finish_close s0).2)
    by exact (drains_trans _ [] _ _ _ K (drains_finish_close s0)).
  case_match; [done|]. destruct e; try done.
  destruct (write_queue_ s0) as [|w q] eqn:Eq; [exact K|].
  set (s1 := (release_send_bytes (reserved_bytes w) s0) <| write_queue_ := q |>).
  assert (E1 : write_queue_ s1 = q) by (by destruct s0).
  assert (P1 : pipe s0 = (buffer <$> q) ++ task_sends (strand_ s1) ++ omap sender_msg (senders s1)).
  { unfold pipe. rewrite Eq. by destruct s0. }
  destruct q as [|w' q].
  - assert (K1 : drains s [] s1).
    { apply drains_pipe; [done|]. rewrite <- E0, P1. unfold pipe. by rewrite E1. }
    destruct (graceful_close_requested_ s1); [|exact K1].
    exact (drains_trans _ [] _ _ _ K1 (drains_shutdown_send sf s1)).
  - eapply drains_write_next; [done|]. rewrite <- E0, P1. unfold pipe. by rewrite E1.
Qed.

Lemma drains_run_task t ts sf s :
  strand_ s = t :: ts ->
  drains s (run_task t sf (s <| strand_ := ts |>)).1 (run_task t sf (s <| strand_ := ts |>)).2.
Proof.
  intros Es. set (s0 := s <| strand_ := ts |>).
  assert (Ep : pipe s = tail (buffer <$> write_queue_ s0) ++ task_sends [t] ++ task_sends ts ++ omap sender_msg (senders s0)).
  { unfold pipe. rewrite Es. change (t :: ts) with ([t] ++ ts). rewrite task_sends_app, <- (assoc_L (++)).
    by destruct s. }
  assert (E0 : pipe s0 = tail (buffer <$> write_queue_ s0) ++ task_sends ts ++ omap sender_msg (senders s0))
    by (by destruct s).
  assert (K : drains s [] s0).
  { apply drains_pipe; [done|]. rewrite Ep, E0. apply sublist_app; [done|]. by apply sublist_inserts_l. }
  destruct t as [|force|b n]; cbn [run_task fst snd].
  - apply (drains_trans _ [] s0 []); [done|]. unfold start_impl.
    destruct (socket_open s0); [|by apply drains_same]. by apply drains_same; destruct s0.
  - exact (drains_trans _ [] _ _ _ K (drains_active_stop force sf s0)).
  - unfold send_impl. case_match.
    + apply (drains_trans _ [] s0 []); [done|]. by apply drains_same; destruct s0.
    + cbn zeta. set (s1 := s0 <| write_queue_ := _ |>).
      assert (E1 : write_queue_ s1 = write_queue_ s0 ++ [PendingWrite b n]) by (by destruct s0).
      assert (E2 : pipe s1 = tail (buffer <$> write_queue_ s1) ++ task_sends ts ++ omap sender_msg (senders s0)).
      { subst s1. clear -s0. subst s0. by destruct s. }
      rewrite E1, fmap_app in E2. cbn [task_sends omap list_omap app] in Ep.
      case_bool_decide as Hq.
      * cbn [fst snd]. apply drains_pipe; [done|]. rewrite Ep, E2. destruct (write_queue_ s0); [done|]. cbn.
        by rewrite <- (assoc_L (++)).
      * assert (Eq : write_queue_ s0 = []) by (destruct (write_queue_ s0); [done|by destruct Hq]).
        rewrite Eq in *. eapply (drains_write_next (PendingWrite b n) []); [done|]. by rewrite Ep, E2.
Qed.

(** A send posts its message: it was the first of those that wait to post. *)
Lemma sel_senders_post i m (s : tcp_connection D) :
  senders s !! i = Some (SPost m) ->
  (p m = true -> sel (omap sender_msg (take i (senders s))) = []) ->
  sel [m] ++ sel (omap sender_msg (<[i := SDone]> (senders s))) `sublist_of` sel (omap sender_msg (senders s)).
Proof.
  intros Hi Ht. assert (Hl : (i < length (senders s))%nat) by (by eapply lookup_lt_Some).
  rewrite insert_take_drop by done. rewrite <- (take_drop_middle (senders s) i (SPost m)) at 3 by done.
  rewrite !omap_app, !filter_app. cbn [omap list_omap sender_msg]. destruct (p m) eqn:Em.
  - rewrite (Ht eq_refl). rewrite !filter_cons, filter_nil, Em. done.
  - rewrite !filter_cons, filter_nil, Em. done.
Qed.

(** A send that does not post keeps its message or drops it. *)
Lemma drains_sender i pc s s' :
  senders s' = <[i := pc]> (senders s) -> strand_ s' = strand_ s -> write_queue_ s' = write_queue_ s ->
  (sender_msg pc = None \/ exists pc0, senders s !! i = Some pc0 /\ sender_msg pc = sender_msg pc0) ->
  drains s [] s'.
Proof.
  intros E1 E2 E3 Hp. apply drains_pipe; [done|]. unfold pipe. rewrite E1, E2, E3.
  apply sublist_app; [done|]. apply sublist_app; [done|].
  destruct (senders s !! i) as [pc0|] eqn:Hi.
  2: { rewrite list_insert_ge; [done|by apply lookup_ge_None]. }
  rewrite insert_take_drop by (by eapply lookup_lt_Some).
  rewrite <- (take_drop_middle (senders s) i pc0) at 3 by done.
  rewrite !omap_app. apply sublist_app; [done|]. cbn. destruct Hp as [->|(pc1&Hpc&->)].
  - destruct (sender_msg pc0); [by constructor|done].
  - by simplify_eq.
Qed.

Lemma drains_post_other t s : task_sends [t] = [] -> drains s [] (Connection.post t s).
Proof.
  intros Ht. apply drains_pipe; [done|]. unfold pipe.
  replace (strand_ (Connection.post t s)) with (strand_ s ++ [t]) by (by destruct s).
  rewrite task_sends_app, Ht, app_nil_r. by destruct s.
Qed.

Lemma drains_sender_step i sp im sf s :
  in_turn (SenderStep i sp im sf) s -> drains s (sender_step i sp im sf s).1 (sender_step i sp im sf s).2.
Proof.
  intros Ht. unfold sender_step. destruct (senders s !! i) as [pc|] eqn:Hi; [|by apply drains_same].
  assert (Hs : forall pc' s', senders s' = <[i := pc']> (senders s) -> strand_ s' = strand_ s ->
    write_queue_ s' = write_queue_ s -> sender_msg pc' = None \/ sender_msg pc' = sender_msg pc ->
    drains s [] s').
  { intros pc' s' E1 E2 E3 Hp. apply (drains_sender i pc'); [done..|]. destruct Hp as [?|?]; [by left|right].
    by exists pc. }
  destruct pc as [m|m|m pend|m|m|m|m|m|]; cbn [fst snd].
  - apply (Hs (if send_overflowed_ s then SFail m else SLoad m)); try (by destruct s). case_match; by right.
  - apply (Hs (SLoop m (pending_send_bytes_ s))); try (by destruct s). by right.
  - repeat case_match; cbn [fst snd].
    + apply (Hs (SReserved m)); try (by destruct s). by right.
    + apply (Hs (SLoop m (pending_send_bytes_ s))); try (by destruct s). by right.
    + apply (Hs (SFail m)); try (by destruct s). by right.
  - apply (Hs (if send_overflowed_ s then SRollback m else SPost m)); try (by destruct s). case_match; by right.
  - apply (Hs (SFail m)); try (by destruct s). by right.
  - apply (Hs (if send_overflowed_ s then SDone else SStop m)); try (by destruct s). case_match; [by left|by right].
  - assert (K : drains s [] (set_sender i SDone s)) by (apply (Hs SDone); try (by destruct s); by left).
    unfold stop_force. destruct im; cbn [fst snd].
    + exact (drains_trans _ [] _ _ _ K (drains_active_stop true sf _)).
    + apply (drains_trans _ [] _ [] _ K). by apply drains_post_other.
  - specialize (Ht m Hi). unfold drains. change (writes [Posted m]) with (@nil raw_buffer).
    rewrite filter_nil. cbn [app]. unfold pipe.
    assert (E : let s' := set_sender i SDone (Connection.post (TSend m (msg_size m)) s) in
      write_queue_ s' = write_queue_ s /\ strand_ s' = strand_ s ++ [TSend m (msg_size m)] /\
      senders s' = <[i := SDone]> (senders s)) by (by destruct s).
    cbn zeta in E. destruct E as (->&->&->). rewrite task_sends_app.
    change (task_sends [TSend m (msg_size m)]) with [m].
    rewrite !filter_app, <- !(assoc_L (++)). apply sublist_app; [done|]. apply sublist_app; [done|].
    by apply sel_senders_post.
  - by apply drains_same.
Qed.

(** Every event. *)
Lemma drains_exec e (s : tcp_connection D) :
  in_turn e s ->
  sel (writes (Connection.exec e s).1) ++ sel (pipe (Connection.exec e s).2)
    `sublist_of` sel (pipe s) ++ sel (event_msgs e).
Proof.
  intros Ht.
  assert (Hk : forall r : list Connection.effect * tcp_connection D, drains s r.1 r.2 ->
    sel (writes r.1) ++ sel (pipe r.2) `sublist_of` sel (pipe s) ++ sel []).
  { intros r Hr. rewrite filter_nil, app_nil_r. exact Hr. }
  destruct e as [m|i sp im sf| |[] im sf|sf|e arr n sf|e sf]; cbn [Connection.exec event_msgs].
  - cbn [fst snd]. change (writes []) with (@nil raw_buffer). rewrite filter_nil. cbn [app].
    rewrite <- filter_app. apply sel_sublist. unfold pipe. destruct s. cbn.
    by rewrite omap_app, <- !(assoc_L (++)).
  - by apply Hk, drains_sender_step.
  - by apply Hk, drains_post_other.
  - apply Hk. unfold stop_force. destruct im; [apply drains_active_stop|by apply drains_post_other].
  - by apply Hk, drains_post_other.
  - destruct (strand_ s) as [|t ts] eqn:Es; [by apply Hk, drains_same|]. by apply Hk, drains_run_task.
  - apply Hk. destruct (reads s); [by apply drains_same|]. unfold handle_read. cbn zeta.
    set (s0 := s <| reads := _ |>). assert (K : drains s [] s0) by (by apply drains_same; destruct s).
    assert (Kc : drains s (finish_close s0).1 (finish_close s0).2)
      by exact (drains_trans _ [] _ _ _ K (drains_finish_close s0)).
    destruct e; try done; [|by destruct (closed_ s0)].
    destruct (handle_buffer _ _ _ _) as [[] c d| |]; try exact K.
    + apply (drains_trans _ [] s0 []); [done|].
      apply (drains_trans _ [] (s0 <| interpreter_ := c |> <| dispatcher_ := d |>) []);
        [by apply drains_same; destruct s0|by apply drains_post_other].
    + apply (drains_trans _ [] s0); [done|].
      apply (drains_trans _ [] (s0 <| interpreter_ := c |> <| dispatcher_ := d |>));
        [by apply drains_same; destruct s0|apply drains_active_stop].
  - apply Hk. destruct (writing s); [apply drains_handle_write|by apply drains_same].
Qed.
End one_connection.
End pipeline.
