(* ===== verification/Contents.v ===== *)
(** * Contents: the interface between a room and its contents

    Models the interfaces of [rsp-svr/rci] ([room_message_interface],
    [room_api_interface]) and the implementation of [rsp-svr/room_contents]
    ([contents.cpp]).  A callback receives what [api_->users()] returns and
    yields the calls it makes on the room; the room applies them. *)

From S2P Require Import Prelude.
From Stdlib Require Import Ascii.

Notation RoomId := Z (only parsing).
Notation Uid := string (only parsing).

Inductive KickoutReason := kAdmin | kRoomOwner | kRoomVoting | kOther.

(** [static_cast<int>(reason)]. *)
Definition kickout_int (r : KickoutReason) : Z :=
  match r with kAdmin => 0 | kRoomOwner => 1 | kRoomVoting => 2 | kOther => 3 end.

(** Calls on [room_api_interface] other than [users]. *)
Inductive api_call :=
  | send_to_user (uids : list Uid) (msg : string)
  | kick_out_user (uid : Uid) (reason : KickoutReason).

(** [room_message_interface]: the callbacks of a contents object of state [C]. *)
Class room_message_interface (C : Type) := {
  create_contents : C;
  on_create_room : RoomId -> list Uid -> C -> list api_call * C;
  on_user_enter : Uid -> list Uid -> C -> list api_call * C;
  on_user_exit : Uid -> list Uid -> C -> list api_call * C;
  on_destroy_room : list Uid -> C -> list api_call * C;
  on_recv_message : Uid -> string -> list Uid -> C -> list api_call * C;
  on_kicked_out_user : Uid -> KickoutReason -> list Uid -> C -> list api_call * C;
}.

(** ** The contents of the repository *)

Module contents.
Definition delimiter : Ascii.ascii := ":"%char.

(** The loop of [std::getline]: a token ends at a delimiter, and at the end of
    the stream when at least one character was extracted. *)
Fixpoint getline_tokens (token : string) (stream : string) : list string :=
  match stream with
  | EmptyString => if decide (token = "") then [] else [token]
  | String c stream =>
      if decide (c = delimiter) then token :: getline_tokens "" stream
      else getline_tokens (token +:+ String c "") stream
  end.

Definition entered (uid : Uid) : string := "(" +:+ uid +:+ ") has entered".
Definition exited (uid : Uid) : string := "(" +:+ uid +:+ ") has exited".
Definition echo (from : Uid) (msg : string) : string :=
  "(" +:+ from +:+ "):" +:+ msg.

Definition recv_message (from : Uid) (msg : string) (users : list Uid)
    : list api_call :=
  let tokens := getline_tokens "" msg in
  match tokens with
  | t0 :: t1 :: _ =>
      if decide ("kickout" = t0) then [kick_out_user t1 kRoomOwner]
      else [send_to_user users (echo from msg)]
  | _ => [send_to_user users (echo from msg)]
  end.

#[export] Instance contents_interface : room_message_interface unit := {
  create_contents := tt;
  on_create_room _ _ c := ([], c);
  on_user_enter uid users c := ([send_to_user users (entered uid)], c);
  on_user_exit uid users c := ([send_to_user users (exited uid)], c);
  on_destroy_room _ c := ([], c);
  on_recv_message from msg users c := (recv_message from msg users, c);
  on_kicked_out_user _ _ _ c := ([], c);
}.
End contents.
Import contents.

(** ** Tokens *)

(** A string without a delimiter. *)
Fixpoint plain (s : string) : Prop :=
  match s with
  | EmptyString => True
  | String c s => c <> delimiter /\ plain s
  end.

Lemma split_first s : plain s \/ exists u r, plain u /\ s = u +:+ String delimiter r.
Proof.
  induction s as [|c s IH]; [by left|].
  destruct (decide (c = delimiter)) as [->|Hc]; [right; by exists "", s|].
  destruct IH as [Hs|(u&r&Hu&->)]; [by left|right]. by exists (String c u), r.
Qed.

Lemma tokens_plain tok s :
  plain s -> getline_tokens tok s =
    if decide (tok +:+ s = "") then [] else [tok +:+ s].
Proof.
  revert tok. induction s as [|c s IH]; intros tok Hs; cbn.
  - by rewrite string_app_nil_r.
  - destruct Hs as [Hc Hs]. rewrite decide_False by done.
    by rewrite IH, string_app_assoc by done.
Qed.

Lemma tokens_split tok u r :
  plain u -> getline_tokens tok (u +:+ String delimiter r)
             = (tok +:+ u) :: getline_tokens "" r.
Proof.
  revert tok. induction u as [|c u IH]; intros tok Hu;
    rewrite ?string_app_nil_l, ?string_app_cons; cbn.
  - by rewrite string_app_nil_r.
  - destruct Hu as [Hc Hu]. rewrite decide_False by done.
    by rewrite IH, string_app_assoc by done.
Qed.

(** The first token of a stream that has one. *)
Lemma tokens_head s t ts :
  getline_tokens "" s = t :: ts ->
  plain t /\ ((s = t /\ t <> "" /\ ts = []) \/
              exists r, s = t +:+ String delimiter r /\ ts = getline_tokens "" r).
Proof.
  destruct (split_first s) as [Hs|(u&r&Hu&->)].
  - rewrite tokens_plain by done. cbn. case_decide; [done|]. intros [= <- <-]. eauto.
  - rewrite tokens_split by done. cbn. intros [= <- <-]. eauto.
Qed.

Lemma plain_split_inj u u' r r' :
  plain u -> plain u' -> u +:+ String delimiter r = u' +:+ String delimiter r' ->
  u = u' /\ r = r'.
Proof.
  revert u'. induction u as [|c u IH]; intros [|c' u'] Hu Hu' E;
    rewrite ?string_app_nil_l, ?string_app_cons in E; cbn in *; simplify_eq.
  - done.
  - by destruct Hu'.
  - by destruct Hu.
  - destruct (IH u') as [-> ->]; naive_solver.
Qed.

Module ContentsProperties.

(** The commands: [kickout:uid], followed by nothing or by further fields. *)
Definition is_kickout (msg uid : string) : Prop :=
  plain uid /\
  ((uid <> "" /\ msg = "kickout:" +:+ uid) \/
   exists rest, msg = "kickout:" +:+ uid +:+ ":" +:+ rest).

(** The kick-out command.  A message received by the contents kicks a user
    out exactly when it is [kickout:uid], alone with a non-empty [uid] or
    followed by further fields; every other message is echoed to all users of
    the room with the name of its sender. *)
Theorem recv_message_exact from msg users :
  (forall uid, recv_message from msg users = [kick_out_user uid kRoomOwner]
               <-> is_kickout msg uid) /\
  (recv_message from msg users = [send_to_user users ("(" +:+ from +:+ "):" +:+ msg)]
   \/ exists uid, is_kickout msg uid).
Proof.
  assert (Hk : forall uid, is_kickout msg uid ->
            exists ts, getline_tokens "" msg = "kickout" :: uid :: ts).
  { intros uid [Hp [[Hne ->]|[rest ->]]].
    - exists []. change ("kickout:" +:+ uid) with ("kickout" +:+ String delimiter uid).
      rewrite tokens_split by (cbn; by split_and!). rewrite tokens_plain by done. cbn.
      by rewrite decide_False.
    - exists (getline_tokens "" rest).
      change ("kickout:" +:+ uid +:+ ":" +:+ rest)
        with ("kickout" +:+ String delimiter (uid +:+ String delimiter rest)).
      rewrite tokens_split by (cbn; by split_and!). by rewrite tokens_split. }
  assert (Hr : forall uid ts, getline_tokens "" msg = "kickout" :: uid :: ts ->
            is_kickout msg uid).
  { intros uid ts E. destruct (tokens_head _ _ _ E) as [_ [(_&_&?)|(r&->&E')]]; [done|].
    symmetry in E'. destruct (tokens_head _ _ _ E') as [Hp [(->&Hne&_)|(r'&->&_)]].
    - split; [done|]. left. by split.
    - split; [done|]. right. by exists r'. }
  unfold recv_message. split.
  - intros uid. split.
    + destruct (getline_tokens "" msg) as [|t0 [|t1 ts]] eqn:E; try done.
      case_decide as Hd; [|done]. subst t0. intros [= ->]. by eapply Hr.
    + intros (ts&->)%Hk. by rewrite decide_True.
  - destruct (getline_tokens "" msg) as [|t0 [|t1 ts]] eqn:E; try by left.
    case_decide as Hd; [|by left]. subst t0. right. exists t1. by eapply Hr.
Qed.
End ContentsProperties.
