(* ===== verification/Rooms.v ===== *)
(** * Rooms: the Room server

    Models [rsp-svr/room]: [room.hpp] and [room.cpp], [room_manager.hpp],
    [room_message_handler.hpp] and the request path of
    [intranet/user_channel.hpp].  Rooms are shared pointers: [heap_] holds the
    objects and a [room_ptr] is an index into it.

    Three kinds of thread touch this state: the router thread of the channel,
    which handles one message at a time; the strand on which the handlers of a
    room run one at a time; and the thread that calls [shutdown].  A step is at
    most one critical section of a mutex, one compare-exchange or one access
    to state owned by the strand: what is left of a handler is a [task] put
    back at the front of its room's tasks, and what is left of a message is the
    [router] program point.  [RunTask r] runs the first task of room [r], so
    the tasks of a room are FIFO and those of different rooms interleave
    freely.  Random numbers and clock readings are data of the [event]s. *)

From S2P Require Import Prelude Wire Queued Contents.
From coqutil Require Import Datatypes.RecordSetters.
Import TriangleBracketNotations.
Import MessageTypes.
#[local] Arguments constant {_} _ _ /.

Notation RoutingId := string (only parsing).
Notation room_ptr := nat (only parsing).

(** [struct user]. *)
Record user := User { uid : Uid; route : RoutingId }.

Inductive SenderType := kContent | kUser.

Inductive lifecycle := kOpen | kClosing | kClosed.

#[export] Instance lifecycle_eq_dec : EqDecision lifecycle.
Proof. solve_decision. Defined.

(** What [handle_request] binds into the completion of a request. *)
Record request := Request {
  rq_key : string * Z;         (** destination and request id *)
  rq_ticket : nat;
  rq_type : MessageType;       (** [message_trait<T>::res_type] *)
  rq_room_id : RoomId;         (** the [room_id] the response carries *)
}.

(** Handlers posted to the strand of a room, and what is left of them. *)
Inductive task :=
  | TCreate (room_id : RoomId)
  | TJoin (q : request) (u : Uid) (source : RoutingId)
  | TJoinNotify (q : request) (u : Uid) (joined inserted : bool)
  | TJoinComplete (q : request) (u : Uid) (success inserted : bool)
  | TEnter (u : Uid)
  | TLeave (q : request) (u : Uid)
  | TLeaveNotify (q : request) (u : Uid) (gone empty : bool)
  | TLeaveComplete (q : request) (u : Uid) (success gone empty : bool)
  | TExit (u : Uid) (empty : bool)
  | TCloseRoom
  | TClose
  | TSend (sender : option user) (users : list user) (msg : string)
  | TKick (u : Uid) (reason : KickoutReason).

(** What is left of the message the router thread is handling. *)
Inductive router_pc :=
  | RJoin (q : request) (r : room_ptr) (u : Uid) (source : RoutingId)
  | RLeave (q : request) (r : room_ptr) (u : Uid)
  | RCreate (q : request) (u : Uid) (source : RoutingId)
  | RInit (q : request) (r : room_ptr)
  | RComplete (q : request) (success : bool)
  | RFwd (r : room_ptr) (from : Uid) (msg : string).

(** Callbacks of a room's contents. *)
Inductive callback :=
  | CbCreate | CbEnter (u : Uid) | CbExit (u : Uid) | CbDestroy
  | CbRecv (from : Uid) (msg : string) | CbKicked (u : Uid).

(** What the server does to the outside. *)
Inductive effect :=
  | Response (ticket : nat) (destination : RoutingId) (type : MessageType)
      (request_id : Z) (room_id : RoomId) (success : bool)
  | FwdClient (destination : RoutingId) (sender : option Uid) (to : Uid) (msg : string)
  | NtfLeaveRoom (destination : RoutingId) (to : Uid) (kickout_reason : Z)
  | Callback (r : room_ptr) (c : callback)
  | PongReply (destination : RoutingId)
  | Thrown (e : exn)
  | Crash.                  (** a call through a null [contents_] *)

(** Messages of the User servers. *)
Inductive u2r_message :=
  | MPing
  | MReqCreateRoom (request_id : Z) (u : Uid)
  | MReqJoinRoom (request_id : Z) (u : Uid) (room_id : RoomId)
  | MFwdRoom (u : Uid) (msg : string)
  | MReqLeaveRoom (request_id : Z) (u : Uid)
  | MCancelRequest (request_id : Z).

(** ** Requests, their tickets and their answers *)

Definition answered (es : list effect) : list nat :=
  omap (fun e => match e with Response t _ _ _ _ _ => Some t | _ => None end) es.

(** [ow] are the requests somebody still has to complete, as keys and tickets;
    [bg] are tickets on which [begin] has been called. *)
Record core (es : list effect) (ow : list (string * Z * nat)) (bg : list nat)
    (q : queued_requests) : Prop := {
  core_wf : Queued.wf q;
  core_active k t : active_ q !! k = Some t <-> (k, t) ∈ ow;
  core_nodup : NoDup ow.*2;
  core_begun t : t ∈ bg -> tickets_ q !! t = Some kStarted \/ tickets_ q !! t = Some kCancelled;
  core_once : NoDup (answered es);
  core_answered t : t ∈ answered es -> t ∉ ow.*2 /\ tickets_ q !! t = Some kStarted;
  core_all t : (t < length (tickets_ q))%nat ->
    t ∈ ow.*2 \/ t ∈ answered es \/ tickets_ q !! t = Some kCancelled \/
    Thrown logic_error ∈ es;
}.

Section core_facts.

Lemma answered_app es es' : answered (es ++ es') = answered es ++ answered es'.
Proof. apply omap_app. Qed.

Lemma core_proper es es' ow ow' bg bg' q :
  answered es' = answered es -> es ⊆ es' -> ow ≡ₚ ow' -> bg' ⊆ bg ->
  core es ow bg q -> core es' ow' bg' q.
Proof.
  intros Ee Hes Ho Hb [H1 H2 H3 H4 H5 H6 H7]. split; try done.
  - intros k t. by rewrite H2, Ho.
  - by rewrite <- Ho.
  - auto.
  - by rewrite Ee.
  - intros t. rewrite Ee, <- Ho. auto.
  - intros t Ht. rewrite Ee, <- Ho. destruct (H7 t Ht) as [?|[?|[?|?]]]; auto.
Qed.

Lemma core_sub es ow ow' bg bg' q :
  ow ≡ₚ ow' -> bg' ⊆ bg -> core es ow bg q -> core es ow' bg' q.
Proof. by apply core_proper. Qed.

Lemma core_alloc es ow bg q t : core es ow bg q -> t ∈ ow.*2 -> (t < length (tickets_ q))%nat.
Proof.
  intros Hc ([k t']&->&Hin)%list_elem_of_fmap. apply (core_active _ _ _ _ Hc) in Hin.
  by eapply (wf_alloc _ (core_wf _ _ _ _ Hc)).
Qed.

(** A compare-exchange on a ticket that is still owned. *)
Lemma core_cas es ow bg bg' q t to :
  core es ow bg q -> to <> kQueued -> t ∈ ow.*2 -> bg' ⊆ t :: bg ->
  core es ow bg' (queued.ticket_cas t to q).2.
Proof.
  intros Hc Hto Ht Hbg. pose proof Hc as [H1 H2 H3 H4 H5 H6 H7].
  assert (Hlk : forall t', (t' = t /\ tickets_ (queued.ticket_cas t to q).2 !! t' = Some to)
            \/ ((t' = t -> tickets_ q !! t <> Some kQueued) /\
                tickets_ (queued.ticket_cas t to q).2 !! t' = tickets_ q !! t')).
  { intros t'. unfold queued.ticket_cas. destruct (decide (t' = t)) as [->|Hne].
    - destruct (tickets_ q !! t) as [[]|] eqn:E; cbn [snd]; [left|right; by split..].
      split; [done|]. apply list_lookup_insert_eq. by apply lookup_lt_Some in E.
    - right. split; [done|]. destruct (tickets_ q !! t) as [[]|]; cbn; try done.
      by rewrite list_lookup_insert_ne. }
  assert (Ha : active_ (queued.ticket_cas t to q).2 = active_ q)
    by (unfold queued.ticket_cas; by destruct (tickets_ q !! t) as [[]|]).
  assert (Hlen : length (tickets_ (queued.ticket_cas t to q).2) = length (tickets_ q)).
  { unfold queued.ticket_cas. destruct (tickets_ q !! t) as [[]|]; cbn; try done.
    apply length_insert. }
  split; try done.
  - by apply wf_ticket_cas.
  - intros k t'. by rewrite Ha.
  - intros t' Hin. destruct (Hlk t') as [[-> E]|[Hd E]]; rewrite E.
    { destruct to; [done|by left|by right]. }
    apply Hbg, elem_of_cons in Hin as [->|Hin]; [|auto].
    pose proof (core_alloc _ _ _ _ _ Hc Ht) as Hl.
    destruct (lookup_lt_is_Some_2 (tickets_ q) t Hl) as [[] E']; [tauto|auto..].
  - intros t' Hin. destruct (H6 t' Hin) as [Hn Hs]. split; [done|].
    destruct (Hlk t') as [[-> E]|[Hd E]]; [done|]. by rewrite E.
  - intros t' Hl. rewrite Hlen in Hl. destruct (Hlk t') as [[-> E]|[Hd E]]; [by left|].
    rewrite E. auto.
Qed.

Lemma core_cancel es ow bg q k now :
  core es ow bg q -> core es ow bg (queued.cancel k now q).
Proof.
  intros Hc. assert (Hp : core es ow bg (queued.prune now q)).
  { destruct Hc as [H1 H2 H3 H4 H5 H6 H7]. split; try done. by apply wf_prune. }
  clear Hc. unfold queued.cancel. destruct (active_ (queued.prune now q) !! k) as [t|] eqn:E.
  - apply (core_active _ _ _ _ Hp) in E. eapply core_cas; [done|done| |set_solver].
    apply list_elem_of_fmap. by eexists (_, _).
  - case_decide; [done|].
    destruct (remember_frame k now (queued.prune now q)) as (Ea&Et&_&_).
    destruct Hp as [H1 H2 H3 H4 H5 H6 H7].
    split; rewrite ?Ea, ?Et; try done. by apply wf_remember.
Qed.

Lemma core_admit es ow bg q k now :
  core es ow bg q ->
  match queued.admit_ k now q with
  | (Some t, q') => core es ((k, t) :: ow) bg q'
  | (None, q') => core es ow bg q'
  end.
Proof.
  intros Hc. pose proof (wf_admit k now q (core_wf _ _ _ _ Hc)) as Hw.
  unfold queued.admit_ in *. case_decide as Hd.
  { destruct Hc as [H1 H2 H3 H4 H5 H6 H7]. split; try done. }
  cbn in *. pose proof (core_alloc _ _ _ _ (length (tickets_ q)) Hc) as Hal.
  destruct Hc as [H1 H2 H3 H4 H5 H6 H7].
  assert (Hk : active_ q !! k = None) by (apply eq_None_not_Some; tauto).
  split; cbn; try done.
  - intros k' t. rewrite lookup_insert_Some, elem_of_cons, <- H2. split.
    + intros [[<- <-]|[? ?]]; auto.
    + intros [[= -> ->]|Hin]; [by left|].
      destruct (decide (k = k')) as [->|]; [by rewrite Hk in Hin|by right].
  - constructor; [|done]. intros Hin. specialize (Hal Hin). lia.
  - intros t Hin. destruct (H4 t Hin) as [?|?]; [left|right]; by apply lookup_app_l_Some.
  - intros t Hin. destruct (H6 t Hin) as [Hn Hs]. split.
    + intros [->|?]%elem_of_cons; [|done]. apply lookup_lt_Some in Hs. lia.
    + by apply lookup_app_l_Some.
  - intros t. rewrite length_app. cbn. intros Hl.
    destruct (decide (t = length (tickets_ q))) as [->|]; [left; left|].
    destruct (H7 t ltac:(lia)) as [?|[?|[?|?]]]; [left; by right|auto|right; right; left|auto].
    by apply lookup_app_l_Some.
Qed.

(** Completing the request [(k, t)]: [finish] succeeds, and the request leaves
    the owned ones. *)
Lemma core_finish es es' ow bg q k t now :
  core es ((k, t) :: ow) bg q ->
  (answered es' = [t] /\ tickets_ q !! t = Some kStarted) \/
  (answered es' = [] /\ (tickets_ q !! t = Some kCancelled \/ Thrown logic_error ∈ es')) ->
  (queued.finish k t now q).1 = true /\ core (es ++ es') ow bg (queued.finish k t now q).2.
Proof.
  intros Hc Hes. pose proof Hc as [H1 H2 H3 H4 H5 H6 H7].
  assert (Hk : active_ q !! k = Some t) by (apply H2; left).
  pose proof (wf_finish k t now q H1) as Hw. unfold queued.finish in *. rewrite Hk in *.
  rewrite decide_True in * by done. cbn [fst snd] in *. split; [done|].
  set (q1 := queued.prune now _) in *.
  destruct (remember_frame k now q1) as (Ea&Et&_&_).
  cbn in H3. apply NoDup_cons in H3 as [Hnt H3].
  assert (Hns : t ∉ answered es) by (intros Hin; destruct (H6 t Hin) as [Hn _]; apply Hn; left).
  split; rewrite ?Ea, ?Et; try done; cbn.
  - intros k' t'. rewrite lookup_delete_Some, H2, elem_of_cons. split.
    + intros [? [[= -> ->]|?]]; done.
    + intros Hin. split; [|by right]. intros ->.
      assert (Hin' : active_ q !! k' = Some t') by (apply H2; by right).
      rewrite Hk in Hin'. simplify_eq. apply Hnt, list_elem_of_fmap. by eexists (_, _).
  - rewrite answered_app. destruct Hes as [[-> _]|[-> _]]; [|by rewrite app_nil_r].
    apply NoDup_app. split_and!; [done| |apply NoDup_singleton]. set_solver.
  - intros t'. rewrite answered_app, elem_of_app. intros [Hin|Hin].
    + destruct (H6 t' Hin) as [Hn Hs]. cbn in Hn. set_solver.
    + destruct Hes as [[E Hs]|[E _]]; rewrite E in Hin; [|set_solver].
      apply list_elem_of_singleton in Hin as ->. done.
  - intros t' Hl. rewrite answered_app, !elem_of_app.
    destruct (H7 t' Hl) as [Ho|[?|[?|?]]]; auto. cbn in Ho.
    apply elem_of_cons in Ho as [->|?]; [|auto].
    destruct Hes as [[-> _]|[_ [?|?]]]; [right; left; right; left|auto..].
Qed.

Lemma core_start : core [] [] [] queued.create_default.
Proof.
  split; cbn; [apply wf_create| |constructor| |constructor| |lia].
  - intros k t. by rewrite lookup_empty, elem_of_nil.
  - intros t. by rewrite elem_of_nil.
  - intros t. by rewrite elem_of_nil.
Qed.
End core_facts.

Section rooms.
Context {C : Type} `{room_message_interface C}.

Record room := Room {
  room_id_ : RoomId;
  owner_ : user;
  users_ : gmap Uid user;
  contents_ : option C;
  lifecycle_ : lifecycle;
}.

Record server := Server {
  heap_ : list room;
  rooms_ : gmap Z room_ptr;
  user_rooms_ : gmap Uid RoomId;
  stopping_ : bool;
  closing_ : list room_ptr;          (** rooms [shutdown] has yet to close *)
  strand_ : list (room_ptr * task);
  router_ : option router_pc;
  requests_ : queued_requests;
}.

Definition server_start : server := Server [] ∅ ∅ false [] [] None queued.create_default.

Definition get (r : room_ptr) (s : server) : option room := heap_ s !! r.
Definition set_room (r : room_ptr) (x : room) (s : server) : server :=
  s <| heap_ := <[r := x]> (heap_ s) |>.
Definition post (r : room_ptr) (t : task) (s : server) : server :=
  s <| strand_ := strand_ s ++ [(r, t)] |>.

(** The rest of the running handler of room [r] goes before its other tasks. *)
Definition continue (r : room_ptr) (t : task) (s : server) : server :=
  s <| strand_ := (r, t) :: strand_ s |>.

(** ** room *)

(** The constructor; [users_] starts with the owner. *)
Definition make_room (room_id : RoomId) (owner : user) : room :=
  Room room_id owner {[ uid owner := owner ]} None kOpen.

(** [room::users]. *)
Definition users (x : room) : list Uid :=
  (fun e => uid e.2) <$> map_entries String.le (users_ x).

(** [room::send_to_user] with [SenderType::kContent]; [find_users] is its loop. *)
Definition find_users (x : room) (uids : list Uid) : list user :=
  omap (fun u => users_ x !! u) uids.

Definition room_send_to_user (r : room_ptr) (x : room) (sender : option user)
    (uids : list Uid) (msg : string) (s : server) : bool * server :=
  let found := find_users x uids in
  if decide (length uids = length found)
  then (true, post r (TSend sender found msg) s) else (false, s).

Definition send_to_all_user (r : room_ptr) (x : room) (sender : option user)
    (msg : string) (s : server) : server :=
  post r (TSend sender (snd <$> map_entries String.le (users_ x)) msg) s.

(** A call the contents make on the room. *)
Definition api (r : room_ptr) (x : room) (s : server) (c : api_call) : server :=
  match c with
  | send_to_user uids msg => snd (room_send_to_user r x None uids msg s)
  | kick_out_user u reason => post r (TKick u reason) s
  end.

(** A call through [contents_]: the callback and then its calls on the room. *)
Definition call_contents (r : room_ptr) (cb : callback)
    (f : list Uid -> C -> list api_call * C) (s : server) : list effect * server :=
  match get r s with
  | None => ([], s)
  | Some x =>
      match contents_ x with
      | None => ([Crash], s)
      | Some c =>
          let '(calls, c) := f (users x) c in
          ([Callback r cb],
           foldl (api r x) (set_room r (x <| contents_ := Some c |>) s) calls)
      end
  end.

(** [room::close_impl]. *)
Definition close_impl (r : room_ptr) (s : server) : list effect * server :=
  match get r s with
  | None => ([], s)
  | Some x =>
      if decide (lifecycle_ x <> kOpen) then ([], s)
      else
        match contents_ x with
        | None => ([], set_room r (x <| lifecycle_ := kClosed |>) s)
        | Some c =>
            let '(calls, _) := on_destroy_room (users x) c in
            let closed := x <| contents_ := None |> <| lifecycle_ := kClosed |> in
            ([Callback r CbDestroy], foldl (api r x) (set_room r closed s) calls)
        end
  end.

(** [room::send_to_user_impl]. *)
Definition send_to_user_impl (sender : option user) (to : list user) (msg : string)
    : list effect :=
  (fun u => FwdClient (route u) (uid <$> sender) (uid u) msg) <$> to.

(** [room::kick_out_user_impl]. *)
Definition kick_out_user_impl (r : room_ptr) (u : Uid) (reason : KickoutReason)
    (s : server) : list effect * server :=
  match get r s with
  | None => ([], s)
  | Some x =>
      match users_ x !! u with
      | None => ([], s)
      | Some found =>
          let ntf := NtfLeaveRoom (route found) u (kickout_int reason) in
          match contents_ x with
          | None => ([ntf; Crash], s)
          | Some _ =>
              let '(es, s) := call_contents r (CbKicked u) (on_kicked_out_user u reason) s in
              (ntf :: es,
               match get r s with
               | Some x => set_room r (x <| users_ := delete u (users_ x) |>) s
               | None => s
               end)
          end
      end
  end.

(** ** room_manager *)

(** [create_room]; [room_id] is what [rng(10000, 100000)] returned. *)
Definition create_room (room_id : RoomId) (u : Uid) (source : RoutingId) (s : server)
    : outcome room_ptr * server :=
  if stopping_ s then (Throw logic_error, s)
  else
    let created := length (heap_ s) in
    (Ret created,
     s <| heap_ := heap_ s ++ [make_room room_id (User u source)] |>
       <| rooms_ := <[room_id := created]> (rooms_ s) |>
       <| user_rooms_ := <[u := room_id]> (user_rooms_ s) |>).

Definition find_room (room_id : RoomId) (s : server) : option room_ptr :=
  rooms_ s !! room_id.

Definition find_user_room (u : Uid) (s : server) : option room_ptr :=
  match user_rooms_ s !! u with
  | None => None
  | Some room_id => find_room room_id s
  end.

(** [rooms_.find(instance->room_id())] finds this instance. *)
Definition registered (r : room_ptr) (s : server) : option RoomId :=
  match get r s with
  | None => None
  | Some x => if decide (rooms_ s !! room_id_ x = Some r) then Some (room_id_ x) else None
  end.

Definition joined_room (u : Uid) (r : room_ptr) (s : server) : bool * server :=
  match registered r s with
  | None => (false, s)
  | Some id => (true, s <| user_rooms_ := <[u := id]> (user_rooms_ s) |>)
  end.

Definition left_room (u : Uid) (r : room_ptr) (s : server) : bool * server :=
  match user_rooms_ s !! u, registered r s with
  | Some id', Some id =>
      if decide (id' = id) then (true, s <| user_rooms_ := delete u (user_rooms_ s) |>)
      else (false, s)
  | _, _ => (false, s)
  end.

(** [room_manager::leave_room] (not used by the handler). *)
Definition manager_leave_room (u : Uid) (s : server) : option room_ptr * server :=
  match user_rooms_ s !! u with
  | None => (None, s)
  | Some id => (find_room id s, s <| user_rooms_ := delete u (user_rooms_ s) |>)
  end.

(** [close_room] up to [instance->close()], which is the result's [true]. *)
Definition close_room (r : room_ptr) (s : server) : bool * server :=
  match registered r s with
  | None => (false, s)
  | Some id =>
      (true, s <| rooms_ := delete id (rooms_ s) |>
               <| user_rooms_ := filter (fun e => e.2 <> id) (user_rooms_ s) |>)
  end.

(** [shutdown]: the critical section; [closing_] are the rooms to close. *)
Definition shutdown (s : server) : server :=
  if stopping_ s then s
  else s <| stopping_ := true |>
         <| closing_ := (map_entries Z.le (rooms_ s)).*2 |>
         <| rooms_ := ∅ |> <| user_rooms_ := ∅ |>.

(** ** user_channel *)

(** The completion closure of [handle_request]. *)
Definition complete (q : request) (success : bool) (now : Z) (s : server)
    : list effect * server :=
  let was_started := queued.started (rq_ticket q) (requests_ s) in
  let '(finished, reqs) := queued.finish (rq_key q) (rq_ticket q) now (requests_ s) in
  let s := s <| requests_ := reqs |> in
  if finished && was_started then
    ([Response (rq_ticket q) (rq_key q).1 (rq_type q) (rq_key q).2 (rq_room_id q) success],
     s)
  else ([], s).

(** The [begin] closure. *)
Definition begin_request (q : request) (s : server) : bool * server :=
  let '(b, reqs) := queued.try_start (rq_ticket q) (requests_ s) in
  (b, s <| requests_ := reqs |>).

(** ** Strand handlers *)

(** [room::join_room]: the test of [begin] and the membership. *)
Definition join_task (r : room_ptr) (q : request) (u : Uid) (source : RoutingId)
    (s : server) : server :=
  let '(begun, s) := begin_request q s in
  match get r s with
  | None => continue r (TJoinNotify q u false false) s   (** no such pointer *)
  | Some x =>
      if negb begun || negb (bool_decide (lifecycle_ x = kOpen))
      then continue r (TJoinNotify q u false false) s
      else
        let inserted := bool_decide (users_ x !! u = None) in
        let member := match users_ x !! u with
                      | Some m => User (uid m) source
                      | None => User u source
                      end in
        continue r (TJoinNotify q u true inserted)
          (set_room r (x <| users_ := <[u := member]> (users_ x) |>) s)
  end.

(** [room::leave_room] likewise. *)
Definition leave_task (r : room_ptr) (q : request) (u : Uid) (s : server) : server :=
  let '(begun, s) := begin_request q s in
  match get r s with
  | None => continue r (TLeaveNotify q u false false) s  (** no such pointer *)
  | Some x =>
      if negb begun || negb (bool_decide (lifecycle_ x = kOpen))
         || bool_decide (users_ x !! u = None)
      then continue r (TLeaveNotify q u false false) s
      else
        let rest := delete u (users_ x) in
        continue r (TLeaveNotify q u true (bool_decide (rest = ∅)))
          (set_room r (x <| users_ := rest |>) s)
  end.

Definition run_task (now : Z) (r : room_ptr) (t : task) (s : server)
    : list effect * server :=
  match t with
  | TCreate room_id => call_contents r CbCreate (on_create_room room_id) s
  | TJoin q u source => ([], join_task r q u source s)
  | TJoinNotify q u joined inserted =>
      let '(success, s) := if joined then joined_room u r s else (false, s) in
      ([], continue r (TJoinComplete q u success inserted) s)
  | TJoinComplete q u success inserted =>
      let '(es, s) := complete q success now s in
      (es, if inserted then continue r (TEnter u) s else s)
  | TEnter u => call_contents r (CbEnter u) (on_user_enter u) s
  | TLeave q u => ([], leave_task r q u s)
  | TLeaveNotify q u gone empty =>
      let '(success, s) := if gone then left_room u r s else (false, s) in
      ([], continue r (TLeaveComplete q u success gone empty) s)
  | TLeaveComplete q u success gone empty =>
      let '(es, s) := complete q success now s in
      (es, if gone then continue r (TExit u empty) s else s)
  | TExit u empty =>
      let '(es, s) := call_contents r (CbExit u) (on_user_exit u) s in
      (es, if empty then continue r TCloseRoom s else s)
  | TCloseRoom =>
      let '(found, s) := close_room r s in
      ([], if found then continue r TClose s else s)
  | TClose => close_impl r s
  | TSend sender to msg => (send_to_user_impl sender to msg, s)
  | TKick u reason => kick_out_user_impl r u reason s
  end.

(** Takes the first task of room [r]. *)
Fixpoint take_task (r : room_ptr) (ts : list (room_ptr * task))
    : option (task * list (room_ptr * task)) :=
  match ts with
  | [] => None
  | (r', t) :: ts =>
      if decide (r' = r) then Some (t, ts)
      else match take_task r ts with
           | Some (t', ts) => Some (t', (r', t) :: ts)
           | None => None
           end
  end.

(** ** The router thread *)

Definition set_router (pc : option router_pc) (s : server) : server :=
  s <| router_ := pc |>.

(** [handle_request] up to the first step of the handler of the request. *)
Definition admit_request (source : RoutingId) (request_id : Z) (type : MessageType)
    (room_id : RoomId) (now : Z) (s : server) : option request * server :=
  let key := (source, request_id) in
  let '(ticket, reqs) := queued.admit_ key now (requests_ s) in
  ((fun t => Request key t type room_id) <$> ticket, s <| requests_ := reqs |>).

(** Where a join or leave request goes: the room's strand, or an immediate
    failure after [begin]. *)
Definition route_request (q : request) (found : option room_ptr)
    (posted : room_ptr -> router_pc) (s : server) : server :=
  match found with
  | Some r => set_router (Some (posted r)) s
  | None => set_router (Some (RComplete q false)) (snd (begin_request q s))
  end.

(** Receiving a message while the router thread is idle. *)
Definition receive (source : RoutingId) (m : u2r_message) (now : Z) (s : server)
    : list effect * server :=
  match m with
  | MPing => ([PongReply source], s)
  | MReqCreateRoom id u =>
      match admit_request source id kUser2RoomResCreateRoom 0 now s with
      | (None, s) => ([], s)
      | (Some q, s) =>
          let '(begun, s) := begin_request q s in
          ([], set_router (Some (if begun then RCreate q u source else RComplete q false)) s)
      end
  | MReqJoinRoom id u room_id =>
      match admit_request source id kUser2RoomResJoinRoom room_id now s with
      | (None, s) => ([], s)
      | (Some q, s) => ([], route_request q (find_room room_id s) (fun r => RJoin q r u source) s)
      end
  | MReqLeaveRoom id u =>
      match admit_request source id kUser2RoomResLeaveRoom 0 now s with
      | (None, s) => ([], s)
      | (Some q, s) => ([], route_request q (find_user_room u s) (fun r => RLeave q r u) s)
      end
  | MFwdRoom u msg =>
      match find_user_room u s with
      | None => ([], s)
      | Some r => ([], set_router (Some (RFwd r u msg)) s)
      end
  | MCancelRequest id =>
      ([], s <| requests_ := queued.cancel (source, id) now (requests_ s) |>)
  end.

(** The next step of the message being handled. *)
Definition router_step (pc : router_pc) (rng now : Z) (s : server)
    : list effect * server :=
  let s := set_router None s in
  match pc with
  | RJoin q r u source => ([], post r (TJoin q u source) s)
  | RLeave q r u => ([], post r (TLeave q u) s)
  | RCreate q u source =>
      match create_room rng u source s with
      | (Ret r, s) =>
          ([], set_router (Some (RInit (Request (rq_key q) (rq_ticket q) (rq_type q) rng) r)) s)
      | (Throw e, s) =>
          let '(_, reqs) := queued.finish (rq_key q) (rq_ticket q) now (requests_ s) in
          ([Thrown e], s <| requests_ := reqs |>)
      end
  | RInit q r =>
      match get r s with
      | None => ([], set_router (Some (RComplete q true)) s)  (** no such pointer *)
      | Some x =>
          ([], set_router (Some (RComplete q true))
                 (post r (TCreate (room_id_ x))
                    (set_room r (x <| contents_ := Some create_contents |>) s)))
      end
  | RComplete q success => complete q success now s
  | RFwd r from msg => call_contents r (CbRecv from msg) (on_recv_message from msg) s
  end.

Inductive event :=
  | Receive (source : RoutingId) (m : u2r_message) (now : Z)
  | RouterStep (rng now : Z)
  | RunTask (r : room_ptr) (now : Z)
  | Shutdown
  | ShutdownStep.

Definition exec (e : event) (s : server) : list effect * server :=
  match e with
  | Receive source m now =>
      match router_ s with None => receive source m now s | Some _ => ([], s) end
  | RouterStep rng now =>
      match router_ s with None => ([], s) | Some pc => router_step pc rng now s end
  | RunTask r now =>
      match take_task r (strand_ s) with
      | None => ([], s)
      | Some (t, ts) => run_task now r t (s <| strand_ := ts |>)
      end
  | Shutdown => ([], shutdown s)
  | ShutdownStep =>
      match closing_ s with
      | [] => ([], s)
      | r :: rs => ([], post r TClose (s <| closing_ := rs |>))
      end
  end.

(** ** Steps that leave the registry alone *)

Definition shape (x : room) : RoomId * lifecycle := (room_id_ x, lifecycle_ x).

Record frame (s s' : server) : Prop := {
  fr_shape r : shape <$> heap_ s' !! r = shape <$> heap_ s !! r;
  fr_length : length (heap_ s') = length (heap_ s);
  fr_rooms : rooms_ s' = rooms_ s;
  fr_user_rooms : user_rooms_ s' = user_rooms_ s;
  fr_stopping : stopping_ s' = stopping_ s;
  fr_closing : closing_ s' = closing_ s;
  fr_close r : (r, TClose) ∈ strand_ s' -> (r, TClose) ∈ strand_ s;
}.

#[local] Instance frame_preorder : PreOrder frame.
Proof.
  split; [by split|]. intros s1 s2 s3 F G. split.
  - intros r. rewrite (fr_shape _ _ G). apply (fr_shape _ _ F).
  - rewrite (fr_length _ _ G). apply (fr_length _ _ F).
  - rewrite (fr_rooms _ _ G). apply (fr_rooms _ _ F).
  - rewrite (fr_user_rooms _ _ G). apply (fr_user_rooms _ _ F).
  - rewrite (fr_stopping _ _ G). apply (fr_stopping _ _ F).
  - rewrite (fr_closing _ _ G). apply (fr_closing _ _ F).
  - intros r Hr. by apply (fr_close _ _ F), (fr_close _ _ G).
Qed.

Lemma frame_set_room r x x' s :
  get r s = Some x -> shape x' = shape x -> frame s (set_room r x' s).
Proof.
  intros Hx E. destruct s. unfold get in Hx. cbn in *. split; try done; cbn.
  - intros r'. destruct (decide (r = r')) as [->|].
    + rewrite list_lookup_insert_eq by (by apply lookup_lt_Some in Hx). rewrite Hx. cbn. by rewrite E.
    + by rewrite list_lookup_insert_ne.
  - apply length_insert.
Qed.

Lemma frame_post r t s : t <> TClose -> frame s (post r t s).
Proof. intros Ht. destruct s. split; try done; cbn. set_solver. Qed.

Lemma frame_continue r t s : t <> TClose -> frame s (continue r t s).
Proof. intros Ht. destruct s. split; try done; cbn. set_solver. Qed.

Lemma frame_requests q s : frame s (s <| requests_ := q |>).
Proof. destruct s. by split. Qed.

Lemma frame_router pc s : frame s (set_router pc s).
Proof. destruct s. by split. Qed.

Lemma frame_calls r x calls s : frame s (foldl (api r x) s calls).
Proof.
  revert s. induction calls as [|c calls IH]; intros s; [done|]. cbn. etrans; [|apply IH].
  destruct c; cbn; [|by apply frame_post].
  unfold room_send_to_user. case_decide; [by apply frame_post|done].
Qed.

Lemma frame_call_contents r cb f s : frame s (call_contents r cb f s).2.
Proof.
  unfold call_contents. destruct (get r s) as [x|] eqn:Hx; [|done].
  destruct (contents_ x) as [c|]; [|done]. destruct (f (users x) c) as [calls c']. cbn [snd].
  etrans; [|apply frame_calls]. eapply frame_set_room; [done|]. by destruct x.
Qed.

Lemma frame_begin q s : frame s (begin_request q s).2.
Proof.
  unfold begin_request. destruct (queued.try_start _ _). apply frame_requests.
Qed.

Lemma frame_complete q b now s : frame s (complete q b now s).2.
Proof.
  unfold complete. destruct (queued.finish _ _ _ _) as [b' q']. case_match;
    apply frame_requests.
Qed.

Lemma frame_admit source id t rid now s :
  frame s (admit_request source id t rid now s).2.
Proof. unfold admit_request. destruct (queued.admit_ _ _ _). apply frame_requests. Qed.

Lemma frame_join_task r q u source s : frame s (join_task r q u source s).
Proof.
  unfold join_task. pose proof (frame_begin q s) as Hb.
  destruct (begin_request q s) as [b s1]. cbn in Hb. etrans; [exact Hb|].
  destruct (get r s1) as [x|] eqn:Hx; [|by apply frame_continue]. case_match; [by apply frame_continue|].
  etrans; [|by apply frame_continue]. eapply frame_set_room; [done|]. by destruct x.
Qed.

Lemma frame_leave_task r q u s : frame s (leave_task r q u s).
Proof.
  unfold leave_task. pose proof (frame_begin q s) as Hb.
  destruct (begin_request q s) as [b s1]. cbn in Hb. etrans; [exact Hb|].
  destruct (get r s1) as [x|] eqn:Hx; [|by apply frame_continue]. case_match; [by apply frame_continue|].
  etrans; [|by apply frame_continue]. eapply frame_set_room; [done|]. by destruct x.
Qed.

Lemma frame_kick r u reason s : frame s (kick_out_user_impl r u reason s).2.
Proof.
  unfold kick_out_user_impl. destruct (get r s) as [x|]; [|done].
  destruct (users_ x !! u); [|done]. destruct (contents_ x); [|done].
  pose proof (frame_call_contents r (CbKicked u) (on_kicked_out_user u reason) s) as Hc.
  destruct (call_contents _ _ _ _) as [es s1]. cbn in *. etrans; [exact Hc|].
  destruct (get r s1) as [x1|] eqn:Hx1; [|done].
  eapply frame_set_room; [done|]. by destruct x1.
Qed.

Lemma take_task_perm r ts t ts' :
  take_task r ts = Some (t, ts') -> ts ≡ₚ (r, t) :: ts'.
Proof.
  revert ts'. induction ts as [|[r' x] ts IH]; intros ts'; cbn; [done|].
  case_decide as Hr.
  - intros [= <- <-]. by subst.
  - destruct (take_task r ts) as [[y ts2]|]; [|done]. intros [= <- <-].
    rewrite (IH ts2 eq_refl). constructor.
Qed.

(** ** The registry of rooms *)

Record reg_ok (s : server) : Prop := {
  ro_rooms id r : rooms_ s !! id = Some r -> shape <$> heap_ s !! r = Some (id, kOpen);
  ro_users u id : user_rooms_ s !! u = Some id -> is_Some (rooms_ s !! id);
  ro_stop : stopping_ s = true -> rooms_ s = ∅;
  ro_closing r : r ∈ closing_ s \/ (r, TClose) ∈ strand_ s ->
    (r < length (heap_ s))%nat /\ forall id, rooms_ s !! id <> Some r;
}.

Lemma reg_ok_frame s s' : frame s s' -> reg_ok s -> reg_ok s'.
Proof.
  intros F [H1 H2 H3 H4]. split.
  - intros id r. rewrite (fr_rooms _ _ F), (fr_shape _ _ F). apply H1.
  - intros u id. rewrite (fr_rooms _ _ F), (fr_user_rooms _ _ F). apply H2.
  - rewrite (fr_rooms _ _ F), (fr_stopping _ _ F). apply H3.
  - intros r. rewrite (fr_rooms _ _ F), (fr_length _ _ F), (fr_closing _ _ F).
    intros [Hr|Hr%(fr_close _ _ F)]; apply H4; auto.
Qed.

Lemma registered_Some r s id :
  registered r s = Some id <->
  exists x, get r s = Some x /\ room_id_ x = id /\ rooms_ s !! id = Some r.
Proof.
  unfold registered. destruct (get r s) as [x|]; [|naive_solver].
  case_decide; naive_solver.
Qed.

Lemma registered_rooms r s id :
  reg_ok s -> registered r s = Some id <-> rooms_ s !! id = Some r.
Proof.
  intros Hr. rewrite registered_Some. split; [naive_solver|]. intros Hid.
  pose proof (ro_rooms _ Hr _ _ Hid) as Hs. unfold get.
  destruct (heap_ s !! r) as [x|]; [|done]. cbn in Hs. exists x.
  unfold shape in Hs. naive_solver.
Qed.

Lemma reg_ok_start : reg_ok server_start.
Proof.
  split; cbn; try done; intros *; rewrite ?elem_of_nil; by (tauto || rewrite lookup_empty).
Qed.

Lemma reg_ok_create id u source s :
  reg_ok s -> reg_ok (create_room id u source s).2.
Proof.
  intros Hr. unfold create_room. destruct (stopping_ s) eqn:Es; [done|].
  destruct Hr as [H1 H2 H3 H4].
  destruct s as [h rs us st cl ta ro rq]. cbn in *. subst st.
  assert (Hlt : forall id r, rs !! id = Some r -> (r < length h)%nat).
  { intros id' r Hr. specialize (H1 _ _ Hr). destruct (h !! r) eqn:E; [|done].
    by eapply lookup_lt_Some. }
  split; cbn.
  - intros id' r [[<- <-]|[Hne Hr]]%lookup_insert_Some.
    + by rewrite lookup_app_r, Nat.sub_diag by lia.
    + rewrite lookup_app_l by eauto. auto.
  - intros v id' [[<- <-]|[Hne Hu]]%lookup_insert_Some.
    + rewrite lookup_insert_eq. by eexists.
    + destruct (decide (id = id')) as [->|]; [rewrite lookup_insert_eq; by eexists|].
      rewrite lookup_insert_ne by done. eauto.
  - done.
  - intros r Hr. destruct (H4 r Hr) as [Hl Hn]. rewrite length_app. split; [lia|].
    intros id' [[<- ?]|[_ Hr']]%lookup_insert_Some; [lia|]. by eapply Hn.
Qed.

Lemma reg_ok_joined u r s : reg_ok s -> reg_ok (joined_room u r s).2.
Proof.
  intros Hr. unfold joined_room. destruct (registered r s) as [id|] eqn:E; [|done].
  apply registered_rooms in E; [|done]. destruct Hr as [H1 H2 H3 H4].
  destruct s. cbn in *. split; cbn; auto.
  intros v id' [[<- <-]|[_ Hv]]%lookup_insert_Some; eauto.
Qed.

Lemma reg_ok_left u r s : reg_ok s -> reg_ok (left_room u r s).2.
Proof.
  intros Hr. unfold left_room. destruct (user_rooms_ s !! u); [|done].
  destruct (registered r s); [|done]. case_decide; [|done].
  destruct Hr as [H1 H2 H3 H4]. destruct s. cbn in *. split; cbn; auto.
  intros v id' [_ Hv]%lookup_delete_Some. eauto.
Qed.

Lemma reg_ok_close_room r s :
  reg_ok s ->
  reg_ok (let '(found, s) := close_room r s in if found then continue r TClose s else s).
Proof.
  intros Hr. unfold close_room. destruct (registered r s) as [id|] eqn:E; [|done].
  apply registered_rooms in E; [|done]. destruct Hr as [H1 H2 H3 H4].
  assert (Hinj : forall id', rooms_ s !! id' = Some r -> id' = id).
  { intros id' Hid'. apply H1 in Hid'. rewrite (H1 _ _ E) in Hid'. by simplify_eq. }
  assert (Hl : (r < length (heap_ s))%nat).
  { pose proof (H1 _ _ E) as Hs. destruct (heap_ s !! r) eqn:E'; [|done].
    by eapply lookup_lt_Some. }
  destruct s as [h rs us st cl ta ro rq]. cbn in *. split; cbn.
  - intros id' r' [_ Hr']%lookup_delete_Some. auto.
  - intros v id' [Hv Hne]%map_lookup_filter_Some. rewrite lookup_delete_ne by done. eauto.
  - intros Hst. rewrite (H3 Hst). apply delete_empty.
  - intros r' Hr'. destruct (decide (r' = r)) as [->|Hne].
    + split; [done|]. intros id' [Hne Hid']%lookup_delete_Some. by rewrite (Hinj _ Hid') in Hne.
    + destruct (H4 r') as [Hl' Hn]; [set_solver|]. split; [done|].
      intros id' [_ Hid']%lookup_delete_Some. by eapply Hn.
Qed.

Lemma reg_ok_close_impl r s :
  reg_ok s -> (forall id, rooms_ s !! id <> Some r) -> reg_ok (close_impl r s).2.
Proof.
  intros Hr Hn. unfold close_impl. destruct (get r s) as [x|] eqn:Hx; [|done].
  case_decide; [done|].
  assert (Hset : forall x', reg_ok (set_room r x' s)).
  { intros x'. destruct Hr as [H1 H2 H3 H4]. destruct s. cbn in *. split; cbn; auto.
    - intros id r' Hr'. rewrite list_lookup_insert_ne; [auto|]. intros ->. by eapply Hn.
    - intros r' Hr'. rewrite length_insert. auto. }
  destruct (contents_ x) as [c|]; [|apply Hset].
  destruct (on_destroy_room (users x) c) as [calls c']. cbn [snd].
  eapply reg_ok_frame; [apply frame_calls|apply Hset].
Qed.

Lemma reg_ok_shutdown s : reg_ok s -> reg_ok (shutdown s).
Proof.
  intros Hr. unfold shutdown. destruct (stopping_ s) eqn:E; [done|].
  destruct Hr as [H1 H2 H3 H4].
  destruct s as [h rs us st cl ta ro rq]. cbn in *. subst st. split; cbn; try done.
  intros r [Hr|Hr].
  - split; [|intros id; by rewrite lookup_empty].
    apply list_elem_of_fmap in Hr as ([id r']&->&Hin). rewrite elem_of_map_entries in Hin.
    apply H1 in Hin. cbn. destruct (h !! r') eqn:E; [|done]. by eapply lookup_lt_Some.
  - split; [apply H4; by right|intros id; by rewrite lookup_empty].
Qed.

Lemma frame_receive src m now s : frame s (receive src m now s).2.
Proof.
  destruct m as [|id u|id u rid|u msg|id u|id]; cbn [receive].
  - done.
  - pose proof (frame_admit src id kUser2RoomResCreateRoom 0 now s) as Ha.
    destruct (admit_request _ _ _ _ _ _) as [[q|] s1]; [|done].
    pose proof (frame_begin q s1) as Hb. destruct (begin_request q s1) as [b s2].
    etrans; [exact Ha|]. etrans; [exact Hb|]. apply frame_router.
  - pose proof (frame_admit src id kUser2RoomResJoinRoom rid now s) as Ha.
    destruct (admit_request _ _ _ _ _ _) as [[q|] s1]; [|done]. etrans; [exact Ha|].
    unfold route_request. destruct (find_room rid s1); [apply frame_router|].
    etrans; [apply frame_begin|apply frame_router].
  - destruct (find_user_room u s); [apply frame_router|done].
  - pose proof (frame_admit src id kUser2RoomResLeaveRoom 0 now s) as Ha.
    destruct (admit_request _ _ _ _ _ _) as [[q|] s1]; [|done]. etrans; [exact Ha|].
    unfold route_request. destruct (find_user_room u s1); [apply frame_router|].
    etrans; [apply frame_begin|apply frame_router].
  - apply frame_requests.
Qed.

Lemma reg_ok_router_step pc rng now s : reg_ok s -> reg_ok (router_step pc rng now s).2.
Proof.
  intros Hr. unfold router_step. cbn zeta.
  apply (reg_ok_frame s (set_router None s)) in Hr; [|apply frame_router].
  set (s0 := set_router None s) in *. clearbody s0. destruct pc as [q r u src|q r u|q u src|q r|q b|r u msg].
  - eapply reg_ok_frame; [by apply frame_post|done].
  - eapply reg_ok_frame; [by apply frame_post|done].
  - pose proof (reg_ok_create rng u src s0 Hr) as Hc.
    destruct (create_room rng u src s0) as [[r|e] s1]; cbn [snd] in *.
    + eapply reg_ok_frame; [apply frame_router|done].
    + destruct (queued.finish _ _ _ _). eapply reg_ok_frame; [apply frame_requests|done].
  - destruct (get r s0) as [x|] eqn:Hx; cbn [snd].
    2: { eapply reg_ok_frame; [apply frame_router|done]. }
    eapply reg_ok_frame; [apply frame_router|]. eapply reg_ok_frame; [by apply frame_post|].
    eapply reg_ok_frame; [|done]. eapply frame_set_room; [done|]. by destruct x.
  - eapply reg_ok_frame; [apply frame_complete|done].
  - eapply reg_ok_frame; [apply frame_call_contents|done].
Qed.

(** Every task but the three that call the registry leaves it alone. *)
Lemma frame_run_task now r t s :
  (match t with TJoinNotify _ _ _ _ | TLeaveNotify _ _ _ _ | TCloseRoom | TClose => False
           | _ => True end) ->
  frame s (run_task now r t s).2.
Proof.
  destruct t; intros Ht; try done; cbn [run_task snd]; try done.
  - apply frame_call_contents.
  - apply frame_join_task.
  - pose proof (frame_complete q success now s) as Hc. destruct (complete _ _ _ _) as [es s1].
    etrans; [exact Hc|]. cbn. destruct inserted; [by apply frame_continue|done].
  - apply frame_call_contents.
  - apply frame_leave_task.
  - pose proof (frame_complete q success now s) as Hc. destruct (complete _ _ _ _) as [es s1].
    etrans; [exact Hc|]. cbn. destruct gone; [by apply frame_continue|done].
  - pose proof (frame_call_contents r (CbExit u) (on_user_exit u) s) as Hc.
    destruct (call_contents _ _ _ _) as [es s1].
    etrans; [exact Hc|]. cbn. destruct empty; [by apply frame_continue|done].
  - apply frame_kick.
Qed.

Lemma reg_ok_run_task now r t s :
  reg_ok s -> (t = TClose -> forall id, rooms_ s !! id <> Some r) ->
  reg_ok (run_task now r t s).2.
Proof.
  intros Hr Hn. destruct t; try (eapply reg_ok_frame; [by apply frame_run_task|done]);
    cbn [run_task].
  - pose proof (reg_ok_joined u r s Hr) as Hj. destruct joined.
    + destruct (joined_room u r s) as [b s1]. eapply reg_ok_frame; [by apply frame_continue|done].
    + eapply reg_ok_frame; [by apply frame_continue|done].
  - pose proof (reg_ok_left u r s Hr) as Hj. destruct gone.
    + destruct (left_room u r s) as [b s1]. eapply reg_ok_frame; [by apply frame_continue|done].
    + eapply reg_ok_frame; [by apply frame_continue|done].
  - pose proof (reg_ok_close_room r s Hr) as Hc. by destruct (close_room r s).
  - apply reg_ok_close_impl; auto.
Qed.

Lemma reg_ok_exec e s : reg_ok s -> reg_ok (exec e s).2.
Proof.
  intros Hr. destruct e as [src m now|rng now|r now| |]; cbn [exec].
  - destruct (router_ s); [done|]. eapply reg_ok_frame; [apply frame_receive|done].
  - destruct (router_ s); [|done]. by apply reg_ok_router_step.
  - destruct (take_task r (strand_ s)) as [[t ts]|] eqn:Et; [|done].
    apply take_task_perm in Et.
    assert (Hs : reg_ok (s <| strand_ := ts |>)).
    { destruct Hr as [H1 H2 H3 H4]. destruct s. cbn in *. split; cbn; auto.
      intros r' [Hr'|Hr']; apply H4; [by left|right]. rewrite Et. set_solver. }
    apply reg_ok_run_task; [done|]. intros ->. destruct Hr as [_ _ _ H4].
    destruct s. cbn in *. apply H4. right. rewrite Et. set_solver.
  - by apply reg_ok_shutdown.
  - destruct (closing_ s) as [|r rs] eqn:E; [done|]. destruct Hr as [H1 H2 H3 H4].
    destruct s. cbn in *. subst. split; cbn; auto. set_solver.
Qed.

(** ** Every request is completed by somebody *)

Definition rq_own (q : request) : string * Z * nat := (rq_key q, rq_ticket q).

Definition task_own (t : task) : list (string * Z * nat) :=
  match t with
  | TJoin q _ _ | TJoinNotify q _ _ _ | TJoinComplete q _ _ _
  | TLeave q _ | TLeaveNotify q _ _ _ | TLeaveComplete q _ _ _ _ => [rq_own q]
  | _ => []
  end.

Definition task_begun (t : task) : list nat :=
  match t with
  | TJoinNotify q _ _ _ | TJoinComplete q _ _ _
  | TLeaveNotify q _ _ _ | TLeaveComplete q _ _ _ _ => [rq_ticket q]
  | _ => []
  end.

Definition pc_own (pc : router_pc) : list (string * Z * nat) :=
  match pc with
  | RJoin q _ _ _ | RLeave q _ _ | RCreate q _ _ | RInit q _ | RComplete q _ => [rq_own q]
  | RFwd _ _ _ => []
  end.

Definition pc_begun (pc : router_pc) : list nat :=
  match pc with
  | RCreate q _ _ | RInit q _ | RComplete q _ => [rq_ticket q]
  | _ => []
  end.

Definition owned (s : server) : list (string * Z * nat) :=
  from_option pc_own [] (router_ s) ++ mjoin ((fun e => task_own e.2) <$> strand_ s).

Definition begun (s : server) : list nat :=
  from_option pc_begun [] (router_ s) ++ mjoin ((fun e => task_begun e.2) <$> strand_ s).

Definition req_ok (es : list effect) (s : server) : Prop :=
  core es (owned s) (begun s) (requests_ s).

Record rframe (s s' : server) : Prop := {
  rf_requests : requests_ s' = requests_ s;
  rf_owned : owned s' = owned s;
  rf_begun : begun s' = begun s;
}.

#[local] Instance rframe_preorder : PreOrder rframe.
Proof. split; [by split|]. intros s1 s2 s3 [] []. split; congruence. Qed.

Lemma rframe_set_room r x s : rframe s (set_room r x s).
Proof. by destruct s. Qed.

Lemma rframe_post r t s : task_own t = [] -> task_begun t = [] -> rframe s (post r t s).
Proof.
  intros Ho Hb. destruct s. split; [done|..]; unfold owned, begun; cbn;
    rewrite fmap_app, mjoin_app; cbn; by rewrite ?Ho, ?Hb, !app_nil_r.
Qed.

Lemma rframe_continue r t s :
  task_own t = [] -> task_begun t = [] -> rframe s (continue r t s).
Proof.
  intros Ho Hb. destruct s. split; [done|..]; unfold owned, begun; cbn; by rewrite ?Ho, ?Hb.
Qed.

Lemma rframe_calls r x calls s : rframe s (foldl (api r x) s calls).
Proof.
  revert s. induction calls as [|c calls IH]; intros s; [done|]. cbn. etrans; [|apply IH].
  destruct c; cbn; [|by apply rframe_post].
  unfold room_send_to_user. case_decide; [by apply rframe_post|done].
Qed.

(** Effects that neither answer nor throw. *)
Definition silent (es : list effect) : Prop := answered es = [].

Lemma rframe_call_contents r cb f s :
  rframe s (call_contents r cb f s).2 /\ silent (call_contents r cb f s).1.
Proof.
  unfold call_contents. destruct (get r s) as [x|] eqn:Hx; [|done].
  destruct (contents_ x) as [c|]; [|done]. destruct (f (users x) c) as [calls c'].
  split; [|done]. cbn [snd]. etrans; [|apply rframe_calls]. apply rframe_set_room.
Qed.

Lemma rframe_close_impl r s : rframe s (close_impl r s).2 /\ silent (close_impl r s).1.
Proof.
  unfold close_impl. destruct (get r s) as [x|]; [|done]. case_decide; [done|].
  destruct (contents_ x) as [c|]; [|split; [apply rframe_set_room|done]].
  destruct (on_destroy_room (users x) c) as [calls c']. split; [|done]. cbn [snd].
  etrans; [|apply rframe_calls]. apply rframe_set_room.
Qed.

Lemma rframe_kick r u reason s :
  rframe s (kick_out_user_impl r u reason s).2 /\
  silent (kick_out_user_impl r u reason s).1.
Proof.
  unfold kick_out_user_impl. destruct (get r s) as [x|]; [|done].
  destruct (users_ x !! u); [|done]. destruct (contents_ x); [|done].
  destruct (rframe_call_contents r (CbKicked u) (on_kicked_out_user u reason) s) as [Hf Hs].
  destruct (call_contents _ _ _ _) as [es s1]. cbn in *. split; [|done].
  etrans; [exact Hf|]. destruct (get r s1); [apply rframe_set_room|done].
Qed.

Lemma silent_sends sender to msg : silent (send_to_user_impl sender to msg).
Proof. unfold silent. by induction to. Qed.

Lemma rframe_registry u r s :
  rframe s (joined_room u r s).2 /\ rframe s (left_room u r s).2 /\
  rframe s (close_room r s).2.
Proof.
  unfold joined_room, left_room, close_room.
  destruct (registered r s); destruct (user_rooms_ s !! u); cbn [snd]; repeat case_decide;
    split_and!; by destruct s.
Qed.

Lemma req_ok_rframe es es' s s' :
  rframe s s' -> silent es' -> req_ok es s -> req_ok (es ++ es') s'.
Proof.
  intros [H1 H2 H3] Hs. unfold req_ok. rewrite H1, H2, H3.
  apply core_proper; [|set_solver|done|done]. rewrite answered_app, Hs. apply app_nil_r.
Qed.

(** Running a task of which the request is not in the strand any more. *)
Definition req_ok_task (es : list effect) (t : task) (s : server) : Prop :=
  core es (task_own t ++ owned s) (task_begun t ++ begun s) (requests_ s).

Lemma req_ok_silent_task es es' t s s' :
  task_own t = [] -> rframe s s' -> silent es' -> req_ok_task es t s ->
  req_ok (es ++ es') s'.
Proof.
  unfold req_ok_task. intros Ho Hf Hs Hc. rewrite Ho in Hc.
  eapply req_ok_rframe; [done|done|].
  eapply core_sub; [reflexivity| |done]. set_solver.
Qed.

(** The rest of a handler keeps the request of the task. *)
Lemma req_ok_continue es r q t s :
  task_own t = [rq_own q] -> task_begun t = [rq_ticket q] ->
  core es (rq_own q :: owned s) (rq_ticket q :: begun s) (requests_ s) ->
  req_ok (es ++ []) (continue r t s).
Proof.
  intros Ho Hb Hc. rewrite app_nil_r. destruct s. unfold req_ok, owned, begun in *. cbn in *.
  rewrite Ho, Hb. eapply core_sub; [|  |done]; [by rewrite Permutation_middle|set_solver].
Qed.

Lemma req_ok_begin es q s :
  core es (rq_own q :: owned s) (begun s) (requests_ s) ->
  core es (rq_own q :: owned (begin_request q s).2)
    (rq_ticket q :: begun (begin_request q s).2) (requests_ (begin_request q s).2).
Proof.
  intros Hc. unfold begin_request. destruct (queued.try_start _ _) as [b reqs] eqn:E.
  assert (Hc' : core es (rq_own q :: owned s) (rq_ticket q :: begun s) reqs).
  { replace reqs with (queued.ticket_cas (rq_ticket q) kStarted (requests_ s)).2
      by (unfold queued.try_start in E; by rewrite E).
    eapply core_cas; [done|done|by left|done]. }
  by destruct s.
Qed.

Lemma req_ok_join_task es r q u src s :
  req_ok_task es (TJoin q u src) s -> req_ok (es ++ []) (join_task r q u src s).
Proof.
  intros Hc%req_ok_begin. unfold join_task. destruct (begin_request q s) as [b s1].
  cbn [snd] in Hc. destruct (get r s1) as [x|]; [|by eapply req_ok_continue].
  case_match; [by eapply req_ok_continue|]. eapply req_ok_continue; [done|done|].
  by destruct s1.
Qed.

Lemma req_ok_leave_task es r q u s :
  req_ok_task es (TLeave q u) s -> req_ok (es ++ []) (leave_task r q u s).
Proof.
  intros Hc%req_ok_begin. unfold leave_task. destruct (begin_request q s) as [b s1].
  cbn [snd] in Hc. destruct (get r s1) as [x|]; [|by eapply req_ok_continue].
  case_match; [by eapply req_ok_continue|]. eapply req_ok_continue; [done|done|].
  by destruct s1.
Qed.

Lemma req_ok_complete es q b now s :
  core es (rq_own q :: owned s) (rq_ticket q :: begun s) (requests_ s) ->
  req_ok (es ++ (complete q b now s).1) (complete q b now s).2.
Proof.
  intros Hc. unfold complete.
  set (resp := Response _ _ _ _ _ _).
  set (es' := if queued.started (rq_ticket q) (requests_ s) then [resp] else []).
  destruct (core_finish es es' (owned s) (rq_ticket q :: begun s) (requests_ s) (rq_key q)
    (rq_ticket q) now Hc) as [Hf Hc'].
  { unfold es', queued.started.
    destruct (core_begun _ _ _ _ Hc (rq_ticket q)) as [E|E]; [left|rewrite E..]; cbn; auto. }
  destruct (queued.finish _ _ _ _) as [f reqs]. cbn in Hf, Hc'. subst f. cbn [andb].
  assert (Hs : core (es ++ es') (owned s) (begun s) reqs).
  { eapply core_sub; [reflexivity| |done]. set_solver. }
  unfold es' in Hs. destruct (queued.started _ _); by destruct s.
Qed.

Lemma req_ok_run_task es now r t s :
  req_ok_task es t s -> req_ok (es ++ (run_task now r t s).1) (run_task now r t s).2.
Proof.
  intros Hc. destruct t; cbn [run_task fst snd].
  - eapply (req_ok_silent_task _ _ (TCreate room_id)); [done|apply rframe_call_contents..|done].
  - by apply req_ok_join_task.
  - destruct (rframe_registry u r s) as (Hf&_&_). destruct joined.
    + destruct (joined_room u r s) as [b s1]. destruct Hf as [E1 E2 E3]. cbn [snd] in *.
      eapply req_ok_continue; [done|done|]. by rewrite E1, E2, E3.
    + by eapply req_ok_continue.
  - apply (req_ok_complete es q success now s) in Hc. destruct (complete _ _ _ _) as [es' s1].
    cbn in *. destruct inserted; [|done]. rewrite <- (app_nil_r (es ++ es')).
    eapply req_ok_rframe; [by apply rframe_continue|done|done].
  - eapply (req_ok_silent_task _ _ (TEnter u)); [done|apply rframe_call_contents..|done].
  - by apply req_ok_leave_task.
  - destruct (rframe_registry u r s) as (_&Hf&_). destruct gone.
    + destruct (left_room u r s) as [b s1]. destruct Hf as [E1 E2 E3]. cbn [snd] in *.
      eapply req_ok_continue; [done|done|]. by rewrite E1, E2, E3.
    + by eapply req_ok_continue.
  - apply (req_ok_complete es q success now s) in Hc. destruct (complete _ _ _ _) as [es' s1].
    cbn in *. destruct gone; [|done]. rewrite <- (app_nil_r (es ++ es')).
    eapply req_ok_rframe; [by apply rframe_continue|done|done].
  - destruct (rframe_call_contents r (CbExit u) (on_user_exit u) s) as [Hf Hs].
    destruct (call_contents _ _ _ _) as [es' s1]. cbn [fst snd] in *.
    eapply (req_ok_silent_task _ _ (TExit u empty)); [done| |done|done].
    etrans; [exact Hf|]. destruct empty; [by apply rframe_continue|done].
  - destruct (rframe_registry "" r s) as (_&_&Hf). destruct (close_room r s) as [b s1].
    cbn [fst snd] in *. eapply (req_ok_silent_task _ _ TCloseRoom); [done| |done|done].
    etrans; [exact Hf|]. destruct b; [by apply rframe_continue|done].
  - destruct (rframe_close_impl r s). by eapply (req_ok_silent_task _ _ TClose).
  - eapply (req_ok_silent_task _ _ (TSend sender users0 msg));
      [done|done|apply silent_sends|done].
  - destruct (rframe_kick r u reason s). by eapply (req_ok_silent_task _ _ (TKick u reason)).
Qed.

Lemma owned_router pc s :
  router_ s = None ->
  owned (set_router (Some pc) s) = pc_own pc ++ owned s /\
  begun (set_router (Some pc) s) = pc_begun pc ++ begun s.
Proof. intros E. destruct s. cbn in E. subst. done. Qed.

Lemma req_ok_admit es src id ty rid now s :
  req_ok es s ->
  let '(q, s') := admit_request src id ty rid now s in
  router_ s' = router_ s /\
  match q with
  | Some q => core es (rq_own q :: owned s') (begun s') (requests_ s')
  | None => req_ok es s'
  end.
Proof.
  intros Hc. unfold admit_request.
  pose proof (core_admit es _ _ _ (src, id) now Hc) as Ha.
  destruct (queued.admit_ _ _ _) as [[t|] reqs]; cbn; split; by destruct s.
Qed.

(** Handing an admitted request to the next step of the router thread. *)
Lemma req_ok_handoff es q pc s :
  router_ s = None -> pc_own pc = [rq_own q] -> pc_begun pc ⊆ [rq_ticket q] ->
  core es (rq_own q :: owned s) (pc_begun pc ++ begun s) (requests_ s) ->
  req_ok (es ++ []) (set_router (Some pc) s).
Proof.
  intros Hr Ho Hb Hc. rewrite app_nil_r. unfold req_ok.
  destruct (owned_router pc s Hr) as [E1 E2]. rewrite E1, E2, Ho. by destruct s.
Qed.

Lemma begin_router q s : router_ (begin_request q s).2 = router_ s.
Proof. unfold begin_request. by destruct (queued.try_start _ _). Qed.

Lemma req_ok_route es q found posted s :
  router_ s = None ->
  (forall r, pc_own (posted r) = [rq_own q] /\ pc_begun (posted r) = []) ->
  core es (rq_own q :: owned s) (begun s) (requests_ s) ->
  req_ok (es ++ []) (route_request q found posted s).
Proof.
  intros Hr Hp Hc. unfold route_request. destruct found as [r|].
  - destruct (Hp r) as [Ho Hb]. eapply req_ok_handoff;
      [done|done|rewrite Hb; set_solver|by rewrite Hb].
  - eapply (req_ok_handoff _ q); [by rewrite begin_router|done|done|]. by apply req_ok_begin.
Qed.

Lemma req_ok_receive es src m now s :
  router_ s = None -> req_ok es s ->
  req_ok (es ++ (receive src m now s).1) (receive src m now s).2.
Proof.
  intros Hr Hc. assert (Hid : req_ok (es ++ []) s) by (by rewrite app_nil_r).
  destruct m as [|id u|id u rid|u msg|id u|id]; cbn [receive].
  - by eapply req_ok_rframe.
  - pose proof (req_ok_admit es src id kUser2RoomResCreateRoom 0 now s Hc) as Ha.
    destruct (admit_request _ _ _ _ _ _) as [[q|] s1]; rewrite Hr in Ha; destruct Ha as [Hr1 Ha];
      [|cbn; by rewrite app_nil_r].
    pose proof (req_ok_begin _ _ _ Ha) as Hb. pose proof (begin_router q s1) as Hr2.
    destruct (begin_request q s1) as [b s2]. cbn [fst snd] in *. rewrite Hr1 in Hr2.
    destruct b; by eapply (req_ok_handoff _ q).
  - pose proof (req_ok_admit es src id kUser2RoomResJoinRoom rid now s Hc) as Ha.
    destruct (admit_request _ _ _ _ _ _) as [[q|] s1]; rewrite Hr in Ha; destruct Ha as [Hr1 Ha];
      [|cbn; by rewrite app_nil_r]. by apply req_ok_route.
  - destruct (find_user_room u s) as [r|]; [|done]. cbn [fst snd].
    destruct s. cbn in Hr. subst. done.
  - pose proof (req_ok_admit es src id kUser2RoomResLeaveRoom 0 now s Hc) as Ha.
    destruct (admit_request _ _ _ _ _ _) as [[q|] s1]; rewrite Hr in Ha; destruct Ha as [Hr1 Ha];
      [|cbn; by rewrite app_nil_r]. by apply req_ok_route.
  - cbn. rewrite app_nil_r. apply (core_cancel _ _ _ _ (src, id) now) in Hc. by destruct s.
Qed.

Lemma req_ok_router_step es pc rng now s :
  router_ s = Some pc -> req_ok es s ->
  req_ok (es ++ (router_step pc rng now s).1) (router_step pc rng now s).2.
Proof.
  intros Hr Hc. unfold router_step. cbn zeta. set (s0 := set_router None s).
  assert (Hr0 : router_ s0 = None) by (by destruct s).
  assert (Hc0 : core es (pc_own pc ++ owned s0) (pc_begun pc ++ begun s0) (requests_ s0)).
  { unfold req_ok, owned, begun in Hc. rewrite Hr in Hc. by destruct s. }
  clearbody s0. clear s Hr Hc. destruct pc as [q r u src|q r u|q u src|q r|q b|r u msg].
  - cbn [fst snd]. rewrite app_nil_r. destruct s0. cbn in *. subst.
    unfold req_ok, owned, begun in *. cbn in *. rewrite !fmap_app, !mjoin_app. cbn.
    refine (core_sub _ _ _ _ _ _ _ _ Hc0); [apply Permutation_cons_append|set_solver].
  - cbn [fst snd]. rewrite app_nil_r. destruct s0. cbn in *. subst.
    unfold req_ok, owned, begun in *. cbn in *. rewrite !fmap_app, !mjoin_app. cbn.
    refine (core_sub _ _ _ _ _ _ _ _ Hc0); [apply Permutation_cons_append|set_solver].
  - unfold create_room. destruct (stopping_ s0).
    + destruct (core_finish es [Thrown logic_error] (owned s0) (rq_ticket q :: begun s0)
        (requests_ s0) (rq_key q) (rq_ticket q) now Hc0) as [_ Hf].
      { right. split; [done|right; left]. }
      destruct (queued.finish _ _ _ _) as [f reqs]. cbn [fst snd] in *.
      assert (Hs : core (es ++ [Thrown logic_error]) (owned s0) (begun s0) reqs).
      { eapply core_sub; [reflexivity| |done]. set_solver. }
      by destruct s0.
    + eapply (req_ok_handoff _ q); [by destruct s0|done|done|]. by destruct s0.
  - destruct (get r s0) as [x|]; cbn [fst snd]; [|by eapply (req_ok_handoff _ q)].
    set (s1 := post _ _ _). assert (Hf : rframe s0 s1).
    { unfold s1. etrans; [apply rframe_set_room|by apply rframe_post]. }
    eapply (req_ok_handoff _ q); [|done|done|].
    + unfold s1. by destruct s0.
    + destruct Hf as [E1 E2 E3]. by rewrite E1, E2, E3.
  - by apply req_ok_complete.
  - destruct (rframe_call_contents r (CbRecv u msg) (on_recv_message u msg) s0).
    by eapply req_ok_rframe.
Qed.

Lemma req_ok_exec es e s : req_ok es s -> req_ok (es ++ (exec e s).1) (exec e s).2.
Proof.
  intros Hc. assert (Hid : req_ok (es ++ []) s) by (by rewrite app_nil_r).
  destruct e as [src m now|rng now|r now| |]; cbn [exec].
  - destruct (router_ s) eqn:Er; [done|]. by apply req_ok_receive.
  - destruct (router_ s) eqn:Er; [|done]. by apply req_ok_router_step.
  - destruct (take_task r (strand_ s)) as [[t ts]|] eqn:Et; [|done].
    apply take_task_perm in Et. apply req_ok_run_task. unfold req_ok_task.
    assert (Eo : task_own t ++ owned (s <| strand_ := ts |>) ≡ₚ owned s).
    { destruct s. unfold owned. cbn in *. rewrite Et. cbn.
      by rewrite !app_assoc, (Permutation_app_comm (task_own t)). }
    assert (Eb : task_begun t ++ begun (s <| strand_ := ts |>) ≡ₚ begun s).
    { destruct s. unfold begun. cbn in *. rewrite Et. cbn.
      by rewrite !app_assoc, (Permutation_app_comm (task_begun t)). }
    replace (requests_ (s <| strand_ := ts |>)) with (requests_ s) by (by destruct s).
    eapply core_sub; [by symmetry| |done]. by rewrite Eb.
  - unfold shutdown. cbn. destruct (stopping_ s); [done|]. by destruct s.
  - destruct (closing_ s) as [|r rs]; [done|]. eapply req_ok_rframe; [|done|done].
    etrans; [|by apply rframe_post]. by destruct s.
Qed.

(** ** The life of a room's contents *)

Definition has_contents (r : room_ptr) (s : server) : Prop :=
  exists x c, get r s = Some x /\ contents_ x = Some c.

Definition empty_room (closed : bool) (r : room_ptr) (s : server) : Prop :=
  exists x, get r s = Some x /\ contents_ x = None /\
    (closed = true -> lifecycle_ x = kClosed).

Lemma empty_no_contents b r s : empty_room b r s -> ~ has_contents r s.
Proof. intros (x&Hx&Hc&_) (x'&c&Hx'&Hc'). congruence. Qed.

(** Steps that give no room its contents (back) and reopen none. *)
Record keeps (s s' : server) : Prop := {
  kp_empty b r : empty_room b r s -> empty_room b r s';
  kp_length : (length (heap_ s) <= length (heap_ s'))%nat;
}.

#[local] Instance keeps_preorder : PreOrder keeps.
Proof. split; [by split|]. intros s1 s2 s3 [] []. split; [auto|lia]. Qed.

Lemma keeps_heap s s' : heap_ s' = heap_ s -> keeps s s'.
Proof.
  intros E. split; [|by rewrite E]. intros b r. unfold empty_room, get. by rewrite E.
Qed.

Lemma keeps_set_room r x x' s :
  get r s = Some x ->
  (contents_ x = None -> contents_ x' = None /\ (lifecycle_ x = kClosed -> lifecycle_ x' = kClosed)) ->
  keeps s (set_room r x' s).
Proof.
  intros Hx Hk. destruct s. unfold get in *. cbn in *. split.
  - intros b r' (y&Hy&Hc&Hl). unfold empty_room, get in *. cbn in *.
    destruct (decide (r = r')) as [->|Hne].
    + rewrite list_lookup_insert_eq by (by apply lookup_lt_Some in Hx).
      simplify_eq. destruct (Hk Hc) as [? ?]. exists x'. auto.
    + rewrite list_lookup_insert_ne by done. by exists y.
  - cbn. by rewrite length_insert.
Qed.

Lemma heap_calls r x calls s : heap_ (foldl (api r x) s calls) = heap_ s.
Proof.
  revert s. induction calls as [|c calls IH]; intros s; [done|]. cbn. rewrite IH.
  destruct c; cbn; [|by destruct s]. unfold room_send_to_user.
  case_decide; by destruct s.
Qed.

(** What a step may emit: callbacks only to rooms with contents, and the last
    callback of a room alone, leaving it closed. *)
Record emits (s : server) (es : list effect) (s' : server) : Prop := {
  em_alive r cb : Callback r cb ∈ es -> has_contents r s;
  em_destroy r : Callback r CbDestroy ∈ es ->
    es = [Callback r CbDestroy] /\ empty_room true r s';
  em_keeps : keeps s s';
}.

Lemma emits_none s es s' :
  (forall r cb, Callback r cb ∉ es) -> keeps s s' -> emits s es s'.
Proof. intros He Hk. split; [|intros r Hin|done]; [intros r cb Hin|]; by destruct (He _ _ Hin). Qed.

Lemma emits_call_contents r cb f s :
  cb <> CbDestroy -> emits s (call_contents r cb f s).1 (call_contents r cb f s).2.
Proof.
  intros Hcb. unfold call_contents. destruct (get r s) as [x|] eqn:Hx.
  2: { apply emits_none; [set_solver|done]. }
  destruct (contents_ x) as [c|] eqn:Hc.
  2: { apply emits_none; [set_solver|done]. }
  destruct (f (users x) c) as [calls c']. cbn [fst snd]. split.
  - intros r' cb' [= -> ->]%list_elem_of_singleton. by exists x, c.
  - intros r' [= -> <-]%list_elem_of_singleton. done.
  - etrans; [eapply keeps_set_room; [done|]|apply keeps_heap, heap_calls]. congruence.
Qed.

Lemma emits_close_impl r s : emits s (close_impl r s).1 (close_impl r s).2.
Proof.
  unfold close_impl. destruct (get r s) as [x|] eqn:Hx.
  2: { apply emits_none; [set_solver|done]. }
  case_decide as Hl; [apply emits_none; [set_solver|done]|].
  destruct (contents_ x) as [c|] eqn:Hc.
  - destruct (on_destroy_room (users x) c) as [calls c']. cbn [fst snd]. split.
    + intros r' cb' [= -> ->]%list_elem_of_singleton. by exists x, c.
    + intros r' [= ->]%list_elem_of_singleton. split; [done|].
      unfold empty_room, get. rewrite heap_calls. destruct s. unfold get in Hx. cbn in *.
      rewrite list_lookup_insert_eq by (by apply lookup_lt_Some in Hx).
      eexists. split; [done|]. by destruct x.
    + etrans; [eapply keeps_set_room; [done|]|apply keeps_heap, heap_calls]. congruence.
  - apply emits_none; [set_solver|]. eapply keeps_set_room; [done|]. by destruct x.
Qed.

Lemma emits_kick r u reason s :
  emits s (kick_out_user_impl r u reason s).1 (kick_out_user_impl r u reason s).2.
Proof.
  unfold kick_out_user_impl. destruct (get r s) as [x|] eqn:Hx;
    [|apply emits_none; [set_solver|done]].
  destruct (users_ x !! u); [|apply emits_none; [set_solver|done]].
  destruct (contents_ x) as [c|]; [|apply emits_none; [set_solver|done]].
  destruct (emits_call_contents r (CbKicked u) (on_kicked_out_user u reason) s)
    as [H1 H2 H3]; [done|].
  destruct (call_contents _ _ _ _) as [es s1] eqn:Ec. cbn [fst snd] in *. split.
  - intros r' cb [?|Hin]%elem_of_cons; [done|eauto].
  - intros r' [?|Hin]%elem_of_cons; [done|]. destruct (H2 _ Hin) as [-> _].
    unfold call_contents in Ec. rewrite Hx in Ec. repeat case_match; simplify_eq.
  - etrans; [exact H3|]. destruct (get r s1) as [x1|] eqn:Hx1; [|done].
    eapply keeps_set_room; [done|]. by destruct x1.
Qed.

Lemma keeps_complete q b now s :
  (forall r cb, Callback r cb ∉ (complete q b now s).1) /\ keeps s (complete q b now s).2.
Proof.
  unfold complete. destruct (queued.finish _ _ _ _) as [f reqs].
  case_match; (split; [set_solver|apply keeps_heap; by destruct s]).
Qed.

Lemma keeps_begin q s : keeps s (begin_request q s).2.
Proof. apply keeps_heap. unfold begin_request. destruct (queued.try_start _ _). by destruct s. Qed.

Lemma keeps_continue r t s : keeps s (continue r t s).
Proof. apply keeps_heap. by destruct s. Qed.

Lemma keeps_join_task r q u src s : keeps s (join_task r q u src s).
Proof.
  unfold join_task. pose proof (keeps_begin q s) as Hb.
  destruct (begin_request q s) as [b s1]. etrans; [exact Hb|]. cbn [snd].
  destruct (get r s1) as [x|] eqn:Hx; [|apply keeps_continue].
  case_match; [apply keeps_continue|]. etrans; [|apply keeps_continue].
  eapply keeps_set_room; [done|]. by destruct x.
Qed.

Lemma keeps_leave_task r q u s : keeps s (leave_task r q u s).
Proof.
  unfold leave_task. pose proof (keeps_begin q s) as Hb.
  destruct (begin_request q s) as [b s1]. etrans; [exact Hb|]. cbn [snd].
  destruct (get r s1) as [x|] eqn:Hx; [|apply keeps_continue].
  case_match; [apply keeps_continue|]. etrans; [|apply keeps_continue].
  eapply keeps_set_room; [done|]. by destruct x.
Qed.

Lemma heap_registry u r s :
  heap_ (joined_room u r s).2 = heap_ s /\ heap_ (left_room u r s).2 = heap_ s /\
  heap_ (close_room r s).2 = heap_ s.
Proof.
  unfold joined_room, left_room, close_room.
  destruct (registered r s); destruct (user_rooms_ s !! u); cbn [snd]; repeat case_decide;
    split_and!; by destruct s.
Qed.

Lemma emits_run_task now r t s : emits s (run_task now r t s).1 (run_task now r t s).2.
Proof.
  destruct t; cbn [run_task fst snd].
  - by apply emits_call_contents.
  - apply emits_none; [set_solver|apply keeps_join_task].
  - apply emits_none; [by destruct joined, (joined_room u r s); set_solver|].
    destruct (heap_registry u r s) as (Hh&_&_). destruct joined; [|apply keeps_continue].
    destruct (joined_room u r s). etrans; [by apply keeps_heap|apply keeps_continue].
  - destruct (keeps_complete q success now s). destruct (complete _ _ _ _) as [es s1].
    apply emits_none; [done|]. etrans; [done|]. cbn.
    destruct inserted; [apply keeps_continue|done].
  - by apply emits_call_contents.
  - apply emits_none; [set_solver|apply keeps_leave_task].
  - apply emits_none; [by destruct gone, (left_room u r s); set_solver|].
    destruct (heap_registry u r s) as (_&Hh&_). destruct gone; [|apply keeps_continue].
    destruct (left_room u r s). etrans; [by apply keeps_heap|apply keeps_continue].
  - destruct (keeps_complete q success now s). destruct (complete _ _ _ _) as [es s1].
    apply emits_none; [done|]. etrans; [done|]. cbn.
    destruct gone; [apply keeps_continue|done].
  - destruct (emits_call_contents r (CbExit u) (on_user_exit u) s) as [H1 H2 H3]; [done|].
    destruct (call_contents _ _ _ _) as [es s1]. cbn [fst snd] in *.
    assert (Hk : keeps s1 (if empty then continue r TCloseRoom s1 else s1))
      by (destruct empty; [apply keeps_continue|done]).
    split; [done| |by etrans]. intros r' Hin. destruct (H2 r' Hin) as [? ?].
    split; [done|]. by apply (kp_empty _ _ Hk).
  - apply emits_none; [by destruct (close_room r s); set_solver|].
    destruct (heap_registry "" r s) as (_&_&Hh). destruct (close_room r s) as [b s1].
    etrans; [by apply keeps_heap|]. cbn. destruct b; [apply keeps_continue|done].
  - apply emits_close_impl.
  - apply emits_none; [|done]. intros r' cb Hin. unfold send_to_user_impl in Hin.
    by apply list_elem_of_fmap in Hin as (?&?&_).
  - apply emits_kick.
Qed.

Lemma heap_admit src id ty rid now s : heap_ (admit_request src id ty rid now s).2 = heap_ s.
Proof. unfold admit_request. destruct (queued.admit_ _ _ _). by destruct s. Qed.

Lemma admit_router src id ty rid now s :
  router_ (admit_request src id ty rid now s).2 = router_ s.
Proof. unfold admit_request. destruct (queued.admit_ _ _ _). by destruct s. Qed.

Lemma heap_begin q s : heap_ (begin_request q s).2 = heap_ s.
Proof. unfold begin_request. destruct (queued.try_start _ _). by destruct s. Qed.

Lemma heap_router pc s : heap_ (set_router pc s) = heap_ s.
Proof. by destruct s. Qed.

Lemma route_quiet q found posted s :
  (forall r q' r', posted r <> RInit q' r') ->
  heap_ (route_request q found posted s) = heap_ s /\
  forall q' r, router_ (route_request q found posted s) <> Some (RInit q' r).
Proof.
  intros Hp. unfold route_request. destruct found as [r|]; rewrite heap_router, ?heap_begin.
  - split; [done|]. intros q' r'. destruct s. cbn. intros [= E]. by eapply Hp.
  - split; [done|]. by destruct (begin_request q s).2.
Qed.

Lemma receive_quiet src m now s :
  router_ s = None ->
  (forall r cb, Callback r cb ∉ (receive src m now s).1) /\
  heap_ (receive src m now s).2 = heap_ s /\
  forall q r, router_ (receive src m now s).2 <> Some (RInit q r).
Proof.
  intros Hr.
  assert (Ha : forall id ty rid, let '(_, s1) := admit_request src id ty rid now s in
    heap_ s1 = heap_ s /\ router_ s1 = None).
  { intros id ty rid. pose proof (heap_admit src id ty rid now s).
    pose proof (admit_router src id ty rid now s).
    destruct (admit_request _ _ _ _ _ _). cbn in *. split; congruence. }
  destruct m as [|id u|id u rid|u msg|id u|id]; cbn [receive].
  - cbn. rewrite Hr. split_and!; [set_solver|done|done].
  - specialize (Ha id kUser2RoomResCreateRoom 0).
    destruct (admit_request _ _ _ _ _ _) as [[q|] s1]; destruct Ha as [Hh Hr1]; cbn [fst snd].
    + pose proof (heap_begin q s1) as Hb. destruct (begin_request q s1) as [b s2].
      cbn [fst snd] in *. rewrite heap_router. split_and!; [set_solver|congruence|].
      destruct s2. by destruct b.
    + rewrite Hr1. split_and!; [set_solver|done|done].
  - specialize (Ha id kUser2RoomResJoinRoom rid).
    destruct (admit_request _ _ _ _ _ _) as [[q|] s1]; destruct Ha as [Hh Hr1]; cbn [fst snd].
    + rewrite <- Hh. split; [set_solver|]. by apply route_quiet.
    + rewrite Hr1. split_and!; [set_solver|done|done].
  - destruct (find_user_room u s); cbn [fst snd]; rewrite ?heap_router, ?Hr;
      (split_and!; [set_solver|done|]); by destruct s.
  - specialize (Ha id kUser2RoomResLeaveRoom 0).
    destruct (admit_request _ _ _ _ _ _) as [[q|] s1]; destruct Ha as [Hh Hr1]; cbn [fst snd].
    + rewrite <- Hh. split; [set_solver|]. by apply route_quiet.
    + rewrite Hr1. split_and!; [set_solver|done|done].
  - split_and!; [set_solver|by destruct s|]. destruct s. cbn in *. by rewrite Hr.
Qed.

(** Histories of callbacks: a room that was told [on_destroy_room] is closed and
    has no contents, and was told nothing afterwards. *)
Record life (es : list effect) (s : server) : Prop := {
  lf_bound r cb : Callback r cb ∈ es -> (r < length (heap_ s))%nat;
  lf_destroyed r : Callback r CbDestroy ∈ es -> empty_room true r s;
  lf_init q r : router_ s = Some (RInit q r) ->
    empty_room false r s /\ forall cb, Callback r cb ∉ es;
  lf_last r es1 es2 : es = es1 ++ Callback r CbDestroy :: es2 ->
    forall cb, Callback r cb ∉ es2;
}.

Lemma has_contents_bound r s : has_contents r s -> (r < length (heap_ s))%nat.
Proof. intros (x&c&Hx&_). by eapply lookup_lt_Some. Qed.

Lemma life_emits es es' s s' :
  life es s -> emits s es' s' ->
  (forall q r, router_ s' = Some (RInit q r) ->
     empty_room false r s' /\ (forall cb, Callback r cb ∉ es) /\ ~ has_contents r s) ->
  life (es ++ es') s'.
Proof.
  intros [H1 H2 H3 H4] [E1 E2 E3] Hi. pose proof (kp_length _ _ E3) as Hl. split.
  - intros r cb [Hin|Hin]%elem_of_app; [specialize (H1 _ _ Hin)|
      specialize (has_contents_bound _ _ (E1 _ _ Hin))]; lia.
  - intros r [Hin|Hin]%elem_of_app; [|by apply E2]. by apply (kp_empty _ _ E3), H2.
  - intros q r Hr. destruct (Hi q r Hr) as (He&Hn&Hh). split; [done|].
    intros cb [Hin|Hin]%elem_of_app; [by eapply Hn|]. by apply Hh, (E1 _ _ Hin).
  - intros r es1 es2 E cb Hin. apply app_eq_inv in E as [(k&E&E')|(k&->&E')].
    + destruct k as [|e k]; cbn in E'.
      * destruct (E2 r) as [E'' _]; [rewrite <- E'; left|]. rewrite E'' in E'.
        injection E' as Hnil. rewrite Hnil in Hin. by apply elem_of_nil in Hin.
      * injection E' as <- ->. apply elem_of_app in Hin as [Hin|Hin]; [by eapply H4|].
        eapply empty_no_contents; [apply (H2 r)|by apply (E1 _ _ Hin)]. rewrite E. set_solver.
    + destruct (E2 r) as [E'' _]; [rewrite E'; set_solver|]. rewrite E' in E''.
      destruct k as [|e k]; cbn in E''.
      * injection E'' as Hnil. rewrite Hnil in Hin. by apply elem_of_nil in Hin.
      * injection E'' as _ Hnil. by destruct k.
Qed.

(** Steps that do not touch the router keep a pending initialisation. *)
Lemma life_same_router es es' s s' :
  life es s -> emits s es' s' -> router_ s' = router_ s -> life (es ++ es') s'.
Proof.
  intros Hl He Hr. eapply life_emits; [done|done|]. intros q r. rewrite Hr. intros Hi.
  destruct (lf_init _ _ Hl q r Hi) as [Hem Hn]. split_and!; [|done|by eapply empty_no_contents].
  by apply (kp_empty _ _ (em_keeps _ _ _ He)).
Qed.

Lemma router_calls r x calls s : router_ (foldl (api r x) s calls) = router_ s.
Proof.
  revert s. induction calls as [|c calls IH]; intros s; [done|]. cbn. rewrite IH.
  destruct c; cbn; [|by destruct s]. unfold room_send_to_user. case_decide; by destruct s.
Qed.

Lemma router_call_contents r cb f s : router_ (call_contents r cb f s).2 = router_ s.
Proof.
  unfold call_contents. destruct (get r s) as [x|]; [|done].
  destruct (contents_ x) as [c|]; [|done]. destruct (f (users x) c). cbn [snd].
  rewrite router_calls. by destruct s.
Qed.

Lemma router_continue r t s : router_ (continue r t s) = router_ s.
Proof. by destruct s. Qed.

Lemma router_complete q b now s : router_ (complete q b now s).2 = router_ s.
Proof.
  unfold complete. destruct (queued.finish _ _ _ _) as [f reqs]. by destruct (f && _), s.
Qed.

Lemma router_run_task now r t s : router_ (run_task now r t s).2 = router_ s.
Proof.
  destruct t; cbn [run_task snd]; try apply router_call_contents; try done.
  - unfold join_task. pose proof (begin_router q s) as Hb. destruct (begin_request q s) as [b s1].
    cbn in Hb. rewrite <- Hb.
    destruct (get r s1); [case_match|]; rewrite router_continue; done || by destruct s1.
  - destruct joined; [|by destruct s]. unfold joined_room.
    destruct (registered r s); by destruct s.
  - pose proof (router_complete q success now s) as Hc. destruct (complete _ _ _ _) as [es s1].
    cbn in *. rewrite <- Hc. by destruct inserted, s1.
  - unfold leave_task. pose proof (begin_router q s) as Hb. destruct (begin_request q s) as [b s1].
    cbn in Hb. rewrite <- Hb.
    destruct (get r s1); [case_match|]; rewrite router_continue; done || by destruct s1.
  - destruct gone; [|by destruct s]. unfold left_room.
    destruct (user_rooms_ s !! u), (registered r s); try case_decide; by destruct s.
  - pose proof (router_complete q success now s) as Hc. destruct (complete _ _ _ _) as [es s1].
    cbn in *. rewrite <- Hc. by destruct gone, s1.
  - pose proof (router_call_contents r (CbExit u) (on_user_exit u) s) as Hc.
    destruct (call_contents _ _ _ _) as [es s1]. cbn in *. rewrite <- Hc. by destruct empty, s1.
  - unfold close_room. destruct (registered r s); by destruct s.
  - unfold close_impl. destruct (get r s) as [x|]; [|done]. case_decide; [done|].
    destruct (contents_ x); [|by destruct s]. destruct (on_destroy_room _ _). cbn [snd].
    rewrite router_calls. by destruct s.
  - unfold kick_out_user_impl. destruct (get r s) as [x|]; [|done].
    destruct (users_ x !! u); [|done]. destruct (contents_ x); [|done].
    pose proof (router_call_contents r (CbKicked u) (on_kicked_out_user u reason) s) as Hc.
    destruct (call_contents _ _ _ _) as [es s1]. cbn in *. rewrite <- Hc.
    destruct (get r s1); by destruct s1.
Qed.

Lemma life_router_step es pc rng now s :
  router_ s = Some pc -> life es s ->
  life (es ++ (router_step pc rng now s).1) (router_step pc rng now s).2.
Proof.
  intros Hr Hl. unfold router_step. cbn zeta. set (s0 := set_router None s).
  assert (Hk0 : keeps s s0) by (apply keeps_heap, heap_router).
  assert (Hr0 : router_ s0 = None) by (by destruct s).
  assert (Hl0 : life es s0).
  { rewrite <- (app_nil_r es). eapply life_emits; [done|apply emits_none; [set_solver|done]|].
    by rewrite Hr0. }
  assert (Hd : forall s', keeps s0 s' -> (forall q r, router_ s' <> Some (RInit q r)) ->
            life (es ++ []) s').
  { intros s' Hk Hn. eapply life_emits; [done|apply emits_none; [set_solver|done]|].
    intros q r Hq. by destruct (Hn q r). }
  destruct pc as [q r u src|q r u|q u src|q r|q b|r u msg]; cbn [fst snd].
  - apply Hd; [apply keeps_heap|]; by destruct s.
  - apply Hd; [apply keeps_heap|]; by destruct s.
  - unfold create_room. destruct (stopping_ s0) eqn:Est.
    + destruct (queued.finish _ _ _ _) as [f reqs]. cbn [fst snd].
      eapply life_emits; [done|apply emits_none; [set_solver|apply keeps_heap; by destruct s]|].
      by destruct s.
    + eapply life_emits; [done|apply emits_none; [set_solver|]|].
      * split; [|destruct s; cbn; rewrite length_app; lia]. intros b r (x&Hx&Hc).
        exists x. destruct s. unfold get in *. cbn in *. split; [|done].
        by apply lookup_app_l_Some.
      * intros q' r Hq. destruct s. cbn in Hq. injection Hq as <- <-. split_and!.
        -- eexists. unfold get. cbn. by rewrite lookup_app_r, Nat.sub_diag by done.
        -- intros cb Hin. apply (lf_bound _ _ Hl0) in Hin. cbn in Hin. lia.
        -- intros Hc%has_contents_bound. cbn in Hc. lia.
  - destruct (lf_init _ _ Hl q r Hr) as [Hem Hn].
    destruct (get r s0) as [x|] eqn:Hx; cbn [fst snd].
    2: { apply Hd; [apply keeps_heap|]; by destruct s. }
    rewrite app_nil_r. destruct Hl0 as [H1 H2 _ H4]. split.
    + intros r' cb Hin. specialize (H1 _ _ Hin). destruct s. cbn in *. by rewrite length_insert.
    + intros r' Hin. destruct (decide (r = r')) as [<-|Hne]; [by destruct (Hn _ Hin)|].
      destruct (H2 r' Hin) as (y&Hy&Hc). exists y. split; [|done].
      destruct s. unfold get in *. cbn in *. by rewrite list_lookup_insert_ne.
    + by destruct s.
    + done.
  - destruct (keeps_complete q b now s0) as [Hn Hk]. eapply life_emits; [done|by apply emits_none|].
    by rewrite router_complete, Hr0.
  - eapply life_same_router; [done|by apply emits_call_contents|].
    apply router_call_contents.
Qed.

Lemma life_exec es e s : life es s -> life (es ++ (exec e s).1) (exec e s).2.
Proof.
  intros Hl. assert (Hid : life (es ++ []) s) by (by rewrite app_nil_r).
  destruct e as [src m now|rng now|r now| |]; cbn [exec].
  - destruct (router_ s) eqn:Er; [done|].
    destruct (receive_quiet src m now s Er) as (Hn&Hh&Hr).
    eapply life_emits; [done|apply emits_none; [done|by apply keeps_heap]|].
    intros q r Hi. by destruct (Hr q r).
  - destruct (router_ s) eqn:Er; [|done]. by apply life_router_step.
  - destruct (take_task r (strand_ s)) as [[t ts]|]; [|done].
    set (s1 := s <| strand_ := ts |>).
    assert (Hl1 : life es s1).
    { rewrite <- (app_nil_r es). eapply life_same_router; [done| |by destruct s].
      apply emits_none; [set_solver|apply keeps_heap; by destruct s]. }
    eapply life_same_router; [done|apply emits_run_task|apply router_run_task].
  - eapply life_same_router; [done|apply emits_none; [set_solver|apply keeps_heap]|];
      unfold shutdown; cbn; destruct (stopping_ s); by destruct s.
  - destruct (closing_ s); [done|].
    eapply life_same_router; [done|apply emits_none; [set_solver|apply keeps_heap]|];
      by destruct s.
Qed.

(** ** A request from end to end *)

(** No handler of room [r] is waiting. *)
Definition idle (r : room_ptr) (ts : list (room_ptr * task)) : Prop :=
  Forall (fun e => e.1 <> r) ts.

Lemma take_task_idle r t ts : idle r ts -> take_task r (ts ++ [(r, t)]) = Some (t, ts).
Proof.
  induction 1 as [|[r' t'] ts Hne _ IH]; cbn in *; [by rewrite decide_True|].
  by rewrite decide_False, IH.
Qed.

Lemma take_task_next r t ts : take_task r ((r, t) :: ts) = Some (t, ts).
Proof. cbn. by rewrite decide_True. Qed.

(** The life of a ticket that nobody cancels. *)
Lemma ticket_path k now now' q t q1 :
  queued.admit_ k now q = (Some t, q1) ->
  exists q2, queued.try_start t q1 = (true, q2) /\ queued.started t q2 = true /\
    exists q3, queued.finish k t now' q2 = (true, q3).
Proof.
  unfold queued.admit_. case_decide; [done|]. cbn. intros [= <- <-].
  unfold queued.try_start, queued.ticket_cas. cbn.
  rewrite lookup_app_r, Nat.sub_diag by done. cbn. eexists. split; [done|]. split.
  - unfold queued.started. cbn. rewrite insert_app_r_alt, Nat.sub_diag by done. cbn.
    rewrite lookup_app_r, Nat.sub_diag by done. cbn. by rewrite bool_decide_true.
  - unfold queued.finish. cbn. rewrite lookup_insert_eq, decide_True by done. by eexists.
Qed.

(** The handlers of the three stages of a join, on an open room. *)
Lemma join_stages h rs us st cl ta q1 q2 q3 q u src r x now :
  idle r ta -> h !! r = Some x -> lifecycle_ x = kOpen -> rs !! room_id_ x = Some r ->
  queued.try_start (rq_ticket q) q1 = (true, q2) ->
  queued.started (rq_ticket q) q2 = true ->
  queued.finish (rq_key q) (rq_ticket q) now q2 = (true, q3) ->
  let inserted := bool_decide (users_ x !! u = None) in
  let member := match users_ x !! u with
                | Some m => User (uid m) src | None => User u src end in
  let x' := x <| users_ := <[u := member]> (users_ x) |> in
  run exec (replicate 3 (RunTask r now))
    (Server h rs us st cl (ta ++ [(r, TJoin q u src)]) None q1) =
  ([[]; []; [Response (rq_ticket q) (rq_key q).1 (rq_type q) (rq_key q).2 (rq_room_id q) true]],
   Server (<[r := x']> h) rs (<[u := room_id_ x]> us) st cl
     (if inserted then (r, TEnter u) :: ta else ta) None q3).
Proof.
  intros Hidle Hx Hopen Hrs Hst Hsd Hf. cbn zeta. pose proof (lookup_lt_Some _ _ _ Hx) as Hlt.
  destruct x as [rid ow us0 c lc]. cbn in Hopen, Hrs. subst lc.
  cbn [replicate]. rewrite run_cons. cbn [exec strand_].
  rewrite take_task_idle by done. cbn [run_task fst snd]. unfold join_task, begin_request.
  cbn -[take_task]. rewrite Hst. cbn -[take_task]. unfold get. cbn -[take_task].
  rewrite Hx. cbn -[take_task]. rewrite (bool_decide_true (kOpen = kOpen)) by done.
  cbn -[take_task]. rewrite take_task_next. cbn -[take_task].
  unfold joined_room, registered, get. cbn -[take_task].
  rewrite list_lookup_insert_eq by done. cbn -[take_task]. rewrite decide_True by done.
  cbn -[take_task]. rewrite take_task_next. cbn.
  unfold complete. cbn. rewrite Hsd, Hf. cbn. by destruct (us0 !! u).
Qed.

Lemma join_run s src id u rid now r x c t q1 :
  router_ s = None -> idle r (strand_ s) -> rooms_ s !! rid = Some r ->
  get r s = Some x -> room_id_ x = rid -> lifecycle_ x = kOpen -> contents_ x = Some c ->
  queued.admit_ (src, id) now (requests_ s) = (Some t, q1) ->
  let '(es, s') := run exec ([Receive src (MReqJoinRoom id u rid) now; RouterStep 0 now] ++
    replicate 3 (RunTask r now)) s in
  mjoin es = [Response t src kUser2RoomResJoinRoom id rid true] /\
  find_user_room u s' = Some r /\ rooms_ s' = rooms_ s /\
  (exists x', get r s' = Some x' /\ contents_ x' = Some c /\
    route <$> users_ x' !! u = Some src /\
    forall v, v <> u -> users_ x' !! v = users_ x !! v) /\
  strand_ s' = (if decide (users_ x !! u = None) then [(r, TEnter u)] else []) ++ strand_ s.
Proof.
  destruct s as [h rs us st cl ta ro rq]. unfold get. cbn [router_ strand_ rooms_ heap_ requests_].
  intros -> Hidle Hrid Hx <- Hopen Hc Ha. pose proof (lookup_lt_Some _ _ _ Hx) as Hlt.
  destruct (ticket_path _ now now _ _ _ Ha) as (q2&Hst&Hsd&q3&Hf).
  set (q := Request (src, id) t kUser2RoomResJoinRoom (room_id_ x)).
  assert (E : run exec [Receive src (MReqJoinRoom id u (room_id_ x)) now; RouterStep 0 now]
    (Server h rs us st cl ta None rq)
    = ([[]; []], Server h rs us st cl (ta ++ [(r, TJoin q u src)]) None q1)).
  { rewrite run_cons. cbn [exec router_ receive]. unfold admit_request. cbn. rewrite Ha. cbn.
    unfold route_request, find_room. cbn. by rewrite Hrid. }
  rewrite run_app, E. cbn [fst snd].
  rewrite (join_stages h rs us st cl ta q1 q2 q3 q u src r x now) by done.
  cbn [fst snd]. split_and!; [done| |done| |].
  - unfold find_user_room, find_room. cbn. by rewrite lookup_insert_eq.
  - cbn. rewrite list_lookup_insert_eq by done. eexists. split; [done|]. destruct x; cbn in *.
    split; [done|]. rewrite lookup_insert_eq. split; [by destruct (_ !! u)|].
    intros v Hv. by rewrite lookup_insert_ne.
  - cbn. case_decide as Hd; [by rewrite bool_decide_true|by rewrite bool_decide_false].
Qed.

Lemma leave_stages h rs us st cl ta q1 q2 q3 q u r x now :
  idle r ta -> h !! r = Some x -> lifecycle_ x = kOpen -> rs !! room_id_ x = Some r ->
  is_Some (users_ x !! u) -> us !! u = Some (room_id_ x) ->
  queued.try_start (rq_ticket q) q1 = (true, q2) ->
  queued.started (rq_ticket q) q2 = true ->
  queued.finish (rq_key q) (rq_ticket q) now q2 = (true, q3) ->
  let x' := x <| users_ := delete u (users_ x) |> in
  run exec (replicate 3 (RunTask r now))
    (Server h rs us st cl (ta ++ [(r, TLeave q u)]) None q1) =
  ([[]; []; [Response (rq_ticket q) (rq_key q).1 (rq_type q) (rq_key q).2 (rq_room_id q) true]],
   Server (<[r := x']> h) rs (delete u us) st cl
     ((r, TExit u (bool_decide (delete u (users_ x) = ∅))) :: ta) None q3).
Proof.
  intros Hidle Hx Hopen Hrs [m Hm] Hus Hst Hsd Hf. cbn zeta.
  pose proof (lookup_lt_Some _ _ _ Hx) as Hlt.
  destruct x as [rid ow us0 c lc]. cbn in Hopen, Hrs, Hm, Hus. subst lc.
  cbn [replicate]. rewrite run_cons. cbn [exec strand_].
  rewrite take_task_idle by done. cbn [run_task fst snd]. unfold leave_task, begin_request.
  cbn -[take_task]. rewrite Hst. cbn -[take_task]. unfold get. cbn -[take_task].
  rewrite Hx. cbn -[take_task]. rewrite (bool_decide_true (kOpen = kOpen)) by done.
  rewrite (bool_decide_false (us0 !! u = None)) by (by rewrite Hm).
  cbn -[take_task]. rewrite take_task_next. cbn -[take_task].
  unfold left_room, registered, get. cbn -[take_task].
  rewrite Hus, list_lookup_insert_eq by done. cbn -[take_task].
  rewrite (decide_True (P := rs !! rid = Some r)) by done. rewrite decide_True by done.
  cbn -[take_task]. rewrite take_task_next. cbn.
  unfold complete. cbn. by rewrite Hsd, Hf.
Qed.

Lemma call_contents_frame r cb f s x c :
  get r s = Some x -> contents_ x = Some c ->
  exists s', call_contents r cb f s = ([Callback r cb], s') /\ frame s s' /\
    exists x', get r s' = Some x' /\ users_ x' = users_ x /\ is_Some (contents_ x').
Proof.
  intros Hx Hc. pose proof (frame_call_contents r cb f s) as Hf.
  unfold call_contents in *. rewrite Hx, Hc in *. destruct (f (users x) c) as [calls c'].
  cbn [snd] in Hf. eexists. split_and!; [done|done|].
  unfold get. rewrite heap_calls. destruct s. unfold get in Hx. cbn in *.
  rewrite list_lookup_insert_eq by (by eapply lookup_lt_Some).
  eexists. split; [done|]. by destruct x.
Qed.

(** The end of the last leave: the exit callback and the closing of the room. *)
Lemma exit_run s r x c u now ta :
  reg_ok s -> strand_ s = (r, TExit u true) :: ta -> get r s = Some x ->
  contents_ x = Some c -> rooms_ s !! room_id_ x = Some r ->
  let '(es, s') := run exec (replicate 3 (RunTask r now)) s in
  mjoin es = [Callback r (CbExit u); Callback r CbDestroy] /\
  rooms_ s' = delete (room_id_ x) (rooms_ s) /\
  (forall v, user_rooms_ s' !! v <> Some (room_id_ x)) /\
  exists x', get r s' = Some x' /\ contents_ x' = None /\ lifecycle_ x' = kClosed.
Proof.
  intros Hok Hs Hx Hc Hr. cbn [replicate]. rewrite run_cons. cbn beta iota.
  cbn [exec]. rewrite Hs, take_task_next. cbn [run_task].
  set (s0 := s <| strand_ := ta |>).
  assert (Hok0 : reg_ok s0).
  { destruct Hok as [H1 H2 H3 H4]. destruct s. cbn in *. split; cbn; auto.
    intros r' [?|?]; apply H4; [by left|right]. rewrite Hs. set_solver. }
  assert (Hx0 : get r s0 = Some x) by (by destruct s).
  destruct (call_contents_frame r (CbExit u) (on_user_exit u) s0 x c Hx0 Hc)
    as (s1&->&Hf&x1&Hx1&Hu1&[c1 Hc1]). cbn [fst snd].
  pose proof (reg_ok_frame _ _ Hf Hok0) as Hok1.
  assert (Hr1 : rooms_ s1 !! room_id_ x = Some r).
  { rewrite (fr_rooms _ _ Hf). by destruct s. }
  assert (Hreg : registered r s1 = Some (room_id_ x)) by (by apply registered_rooms).
  assert (Hl1 : shape x1 = (room_id_ x, kOpen)).
  { pose proof (ro_rooms _ Hok1 _ _ Hr1) as Hs1. unfold get in Hx1. rewrite Hx1 in Hs1.
    cbn in Hs1. congruence. }
  assert (Hrs : rooms_ s1 = rooms_ s) by (rewrite (fr_rooms _ _ Hf); by destruct s).
  clear Hf Hok0 s0 Hx0 Hs. rewrite <- Hrs. clear Hrs Hok Hx Hr Hc s.
  destruct s1 as [h rs us st cl ta1 ro rq]. unfold get in *.
  cbn [heap_ rooms_ user_rooms_] in *. rewrite run_cons.
  cbn [exec continue strand_]. cbn -[take_task]. rewrite take_task_next. cbn -[take_task].
  unfold close_room. replace (registered _ _) with (Some (room_id_ x)).
  cbn -[take_task]. rewrite take_task_next. cbn [run_task]. unfold close_impl, get. cbn.
  rewrite Hx1. destruct x1 as [rid ow us1 co lc]. unfold shape in Hl1. cbn in *. simplify_eq.
  rewrite decide_False by (intros ?; done). cbn.
  destruct (on_destroy_room _ c1) as [calls c2]. cbn [fst snd].
  match goal with |- context [foldl (api r ?y) ?z calls] =>
    pose proof (frame_calls r y calls z) as Hf; pose proof (heap_calls r y calls z) as Hh;
    set (s2 := foldl (api r y) z calls) in *
  end.
  rewrite (fr_rooms _ _ Hf), (fr_user_rooms _ _ Hf), Hh. cbn. split_and!; [done|done| |].
  - intros v [_ Hne]%map_lookup_filter_Some. done.
  - rewrite list_lookup_insert_eq by (by eapply lookup_lt_Some). by eexists.
Qed.

Lemma last_leave_run s src id u now r x c t q1 :
  reg_ok s -> router_ s = None -> idle r (strand_ s) -> user_rooms_ s !! u = Some (room_id_ x) ->
  rooms_ s !! room_id_ x = Some r -> get r s = Some x -> contents_ x = Some c ->
  is_Some (users_ x !! u) -> delete u (users_ x) = ∅ ->
  queued.admit_ (src, id) now (requests_ s) = (Some t, q1) ->
  let '(es, s') := run exec ([Receive src (MReqLeaveRoom id u) now; RouterStep 0 now] ++
    replicate 3 (RunTask r now) ++ replicate 3 (RunTask r now)) s in
  mjoin es = [Response t src kUser2RoomResLeaveRoom id 0 true;
              Callback r (CbExit u); Callback r CbDestroy] /\
  rooms_ s' = delete (room_id_ x) (rooms_ s) /\
  (forall v, user_rooms_ s' !! v <> Some (room_id_ x)) /\
  exists x', get r s' = Some x' /\ contents_ x' = None /\ lifecycle_ x' = kClosed.
Proof.
  intros Hok. assert (Hok' : forall evs, reg_ok (run exec evs s).2)
    by (intros evs; apply run_invariant; [intros; by apply reg_ok_exec|done]).
  destruct s as [h rs us st cl ta ro rq]. unfold get. cbn [router_ strand_ rooms_ heap_ requests_
    user_rooms_]. intros -> Hidle Hus Hrid Hx Hc Hu Hemp Ha.
  pose proof (lookup_lt_Some _ _ _ Hx) as Hlt.
  assert (Hopen : lifecycle_ x = kOpen).
  { pose proof (ro_rooms _ Hok _ _ Hrid) as Hs. cbn in Hs. rewrite Hx in Hs.
    unfold shape in Hs. cbn in Hs. congruence. }
  destruct (ticket_path _ now now _ _ _ Ha) as (q2&Hst&Hsd&q3&Hf).
  set (q := Request (src, id) t kUser2RoomResLeaveRoom 0).
  assert (E : run exec [Receive src (MReqLeaveRoom id u) now; RouterStep 0 now]
    (Server h rs us st cl ta None rq)
    = ([[]; []], Server h rs us st cl (ta ++ [(r, TLeave q u)]) None q1)).
  { rewrite run_cons. cbn [exec router_ receive]. unfold admit_request. cbn. rewrite Ha. cbn.
    unfold route_request, find_user_room, find_room. cbn. by rewrite Hus, Hrid. }
  pose proof (leave_stages h rs us st cl ta q1 q2 q3 q u r x now Hidle Hx Hopen Hrid Hu Hus
    Hst Hsd Hf) as E'. cbn zeta in E'. rewrite bool_decide_true in E' by done.
  specialize (Hok' ([Receive src (MReqLeaveRoom id u) now; RouterStep 0 now] ++
    replicate 3 (RunTask r now))).
  rewrite run_app, E in Hok'. cbn [fst snd] in Hok'. rewrite E' in Hok'. cbn [snd] in Hok'.
  rewrite run_app, E. cbn [fst snd]. rewrite run_app, E'. cbn [fst snd].
  set (s1 := Server _ _ _ _ _ _ _ _) in *.
  pose proof (exit_run s1 r (x <| users_ := delete u (users_ x) |>) c u now ta Hok' eq_refl)
    as He. destruct (run exec (replicate 3 (RunTask r now)) s1) as [es s']. cbn [fst snd].
  rewrite !mjoin_app. destruct He as (->&Hrs&Hus'&Hx').
  - unfold get. cbn. by rewrite list_lookup_insert_eq.
  - by destruct x.
  - by destruct x.
  - split_and!; [done|by destruct x|by destruct x|done].
Qed.
End rooms.
Arguments room : clear implicits.
Arguments server : clear implicits.

Module RoomsProperties.
Import contents.

Section histories.
Context {C : Type} `{room_message_interface C}.

Lemma history_req_ok evs es (s : server C) :
  req_ok es s -> req_ok (es ++ mjoin (run exec evs s).1) (run exec evs s).2.
Proof.
  revert es s. induction evs as [|e evs IH]; intros es s Hs; [by rewrite app_nil_r|].
  rewrite run_cons. cbn [fst snd]. rewrite mjoin_cons, app_assoc. apply IH.
  by apply req_ok_exec.
Qed.

Lemma history_life evs es (s : server C) :
  life es s -> life (es ++ mjoin (run exec evs s).1) (run exec evs s).2.
Proof.
  revert es s. induction evs as [|e evs IH]; intros es s Hs; [by rewrite app_nil_r|].
  rewrite run_cons. cbn [fst snd]. rewrite mjoin_cons, app_assoc. apply IH.
  by apply life_exec.
Qed.

Lemma life_start : life [] (server_start (C := C)).
Proof. split; cbn; try done; intros *; [set_solver..|]. by destruct es1. Qed.

Lemma history_reg_ok evs : reg_ok (run exec evs (server_start (C := C))).2.
Proof. apply run_invariant; [intros; by apply reg_ok_exec|apply reg_ok_start]. Qed.
End histories.

(** C21. The registry of rooms is consistent in every interleaving of the router
    thread, the strands and [shutdown]: a registered room is an open room of
    that id, the room of every member is registered, so the lookup by user
    finds a room exactly when the user has one, and after [shutdown] nothing is
    registered. *)
Theorem registry_consistent {C} `{room_message_interface C} evs :
  let s := (run exec evs (server_start (C := C))).2 in
  (forall id r, rooms_ s !! id = Some r ->
     exists x, get r s = Some x /\ room_id_ x = id /\ lifecycle_ x = kOpen) /\
  (forall u, find_user_room u s = None <-> user_rooms_ s !! u = None) /\
  (if stopping_ s then rooms_ s = ∅ /\ user_rooms_ s = ∅ else True).
Proof.
  cbn zeta. destruct (history_reg_ok (C := C) evs) as [H1 H2 H3 _].
  set (s := (run exec evs server_start).2) in *. split_and!.
  - intros id r Hr. specialize (H1 _ _ Hr). unfold get. destruct (heap_ s !! r) as [x|]; [|done].
    exists x. unfold shape in H1. cbn in H1. by simplify_eq.
  - intros u. unfold find_user_room, find_room. destruct (user_rooms_ s !! u) as [id|] eqn:E;
      [|done]. destruct (H2 _ _ E) as [r Hr]. by rewrite Hr.
  - destruct (stopping_ s); [|done]. specialize (H3 eq_refl). split; [done|].
    apply map_empty. intros u. destruct (user_rooms_ s !! u) as [id|] eqn:E; [|done].
    destruct (H2 _ _ E) as [r Hr]. by rewrite H3, lookup_empty in Hr.
Qed.



(** A user creates a room; the room's handlers have run. *)
Definition created : list event :=
  [Receive "A" (MReqCreateRoom 1 "al") 0; RouterStep 12345 0; RouterStep 0 0;
   RouterStep 0 0; RunTask 0 0].

Definition al_room : room unit :=
  Room 12345 (User "al" "A") {[ "al" := User "al" "A" ]} (Some tt) kOpen.

Definition al_leaves : list event :=
  [Receive "A" (MReqLeaveRoom 2 "al") 0; RouterStep 0 0] ++ replicate 6 (RunTask 0 0).


(** A join succeeds on an open room.  When a join request for a registered
    room is admitted and the room's strand is idle, running its handlers sends
    exactly one successful response to the sender, registers the user in that
    room with the route of the sender, leaves the other members alone, and the
    contents are told about the user exactly when the user is new. *)
Theorem join_request_succeeds {C} `{room_message_interface C} evs src id u rid now r x c t q1 :
  let s := (run exec evs (server_start (C := C))).2 in
  router_ s = None -> idle r (strand_ s) -> rooms_ s !! rid = Some r ->
  get r s = Some x -> contents_ x = Some c ->
  queued.admit_ (src, id) now (requests_ s) = (Some t, q1) ->
  let '(es, s') := run exec ([Receive src (MReqJoinRoom id u rid) now; RouterStep 0 now] ++
    replicate 3 (RunTask r now)) s in
  mjoin es = [Response t src kUser2RoomResJoinRoom id rid true] /\
  find_user_room u s' = Some r /\ rooms_ s' = rooms_ s /\
  (exists x', get r s' = Some x' /\ contents_ x' = Some c /\
    route <$> users_ x' !! u = Some src /\
    forall v, v <> u -> users_ x' !! v = users_ x !! v) /\
  strand_ s' = (if decide (users_ x !! u = None) then [(r, TEnter u)] else []) ++ strand_ s.
Proof.
  cbn zeta. intros Hr Hidle Hrid Hx Hc Ha.
  pose proof (ro_rooms _ (history_reg_ok evs) _ _ Hrid) as Hs. unfold get in Hx.
  rewrite Hx in Hs. unfold shape in Hs. cbn in Hs. injection Hs as Hid Hopen.
  eapply join_run; try done.
Qed.

Lemma join_request_succeeds_witness :
  let s := (run exec created (server_start (C := unit))).2 in
  let '(es, s') := run exec ([Receive "B" (MReqJoinRoom 7 "bo" 12345) 0; RouterStep 0 0] ++
    replicate 3 (RunTask 0 0)) s in
  mjoin es = [Response 1 "B" kUser2RoomResJoinRoom 7 12345 true] /\
  find_user_room "bo" s' = Some 0%nat.
Proof.
  cbn zeta. set (s := (run exec created (server_start (C := unit))).2).
  assert (H1 : router_ s = None) by (vm_compute; reflexivity).
  assert (H2 : idle 0 (strand_ s)) by (vm_compute; constructor).
  assert (H3 : rooms_ s !! 12345 = Some 0%nat) by (vm_compute; reflexivity).
  assert (H4 : get 0 s = Some al_room) by (vm_compute; reflexivity).
  assert (H5 : contents_ al_room = Some tt) by reflexivity.
  assert (H6 : queued.admit_ ("B", 7) 0 (requests_ s)
    = (Some 1%nat, (queued.admit_ ("B", 7) 0 (requests_ s)).2)) by (vm_compute; reflexivity).
  pose proof (join_request_succeeds created "B" 7 "bo" 12345 0 0%nat al_room tt 1%nat _
    H1 H2 H3 H4 H5 H6) as Hj.
  cbn zeta in Hj. fold s in Hj. clearbody s.
  destruct (run exec _ s) as [es s']. destruct Hj as (Hj1&Hj2&_).
  split; [exact Hj1|exact Hj2].
Defined.

(** The last leave closes the room.  When the only member of a registered
    room leaves, the sender receives exactly one successful response, the
    contents are told about the exit and then about the destruction, the room
    is unregistered, no user is left registered in it, and it is closed. *)
Theorem last_leave_closes {C} `{room_message_interface C} evs src id u now r x c t q1 :
  let s := (run exec evs (server_start (C := C))).2 in
  router_ s = None -> idle r (strand_ s) -> user_rooms_ s !! u = Some (room_id_ x) ->
  rooms_ s !! room_id_ x = Some r -> get r s = Some x -> contents_ x = Some c ->
  is_Some (users_ x !! u) -> delete u (users_ x) = ∅ ->
  queued.admit_ (src, id) now (requests_ s) = (Some t, q1) ->
  let '(es, s') := run exec ([Receive src (MReqLeaveRoom id u) now; RouterStep 0 now] ++
    replicate 3 (RunTask r now) ++ replicate 3 (RunTask r now)) s in
  mjoin es = [Response t src kUser2RoomResLeaveRoom id 0 true;
              Callback r (CbExit u); Callback r CbDestroy] /\
  rooms_ s' = delete (room_id_ x) (rooms_ s) /\
  (forall v, user_rooms_ s' !! v <> Some (room_id_ x)) /\
  exists x', get r s' = Some x' /\ contents_ x' = None /\ lifecycle_ x' = kClosed.
Proof.
  cbn zeta. intros Hr Hidle Hus Hrid Hx Hc Hu He Ha.
  eapply last_leave_run; try done. apply history_reg_ok.
Qed.

Lemma last_leave_closes_witness :
  let s := (run exec created (server_start (C := unit))).2 in
  let '(es, s') := run exec ([Receive "B" (MReqLeaveRoom 7 "al") 0; RouterStep 0 0] ++
    replicate 3 (RunTask 0 0) ++ replicate 3 (RunTask 0 0)) s in
  mjoin es = [Response 1 "B" kUser2RoomResLeaveRoom 7 0 true;
              Callback 0 (CbExit "al"); Callback 0 CbDestroy] /\
  rooms_ s' = delete 12345 (rooms_ s).
Proof.
  cbn zeta. set (s := (run exec created (server_start (C := unit))).2).
  assert (H1 : router_ s = None) by (vm_compute; reflexivity).
  assert (H2 : idle 0 (strand_ s)) by (vm_compute; constructor).
  assert (H3 : user_rooms_ s !! "al" = Some (room_id_ al_room)) by (vm_compute; reflexivity).
  assert (H4 : rooms_ s !! room_id_ al_room = Some 0%nat) by (vm_compute; reflexivity).
  assert (H5 : get 0 s = Some al_room) by (vm_compute; reflexivity).
  assert (H6 : contents_ al_room = Some tt) by reflexivity.
  assert (H7 : is_Some (users_ al_room !! "al")) by (by eexists).
  assert (H8 : delete "al" (users_ al_room) = ∅) by (vm_compute; reflexivity).
  assert (H9 : queued.admit_ ("B", 7) 0 (requests_ s)
    = (Some 1%nat, (queued.admit_ ("B", 7) 0 (requests_ s)).2)) by (vm_compute; reflexivity).
  pose proof (last_leave_closes created "B" 7 "al" 0 0%nat al_room tt 1%nat _
    H1 H2 H3 H4 H5 H6 H7 H8 H9) as Hl.
  cbn zeta in Hl. fold s in Hl. clearbody s.
  destruct (run exec _ s) as [es s']. destruct Hl as (Hl1&Hl2&_).
  split; [exact Hl1|exact Hl2].
Defined.

(** [on_recv_message] runs on the router thread and does not look at the
    lifecycle: a message forwarded while the sender's leave closes the room is
    delivered through a null [contents_]. *)
Lemma forward_races_with_close :
  mjoin (run exec (created ++
    [Receive "A" (MReqLeaveRoom 2 "al") 0; RouterStep 0 0;
     Receive "A" (MFwdRoom "al" "hi") 0] ++
    replicate 6 (RunTask 0 0) ++ [RouterStep 0 0]) (server_start (C := unit))).1
  = [Response 0 "A" 15 1 12345 true; Callback 0 CbCreate;
     Response 1 "A" 27 2 0 true; Callback 0 (CbExit "al"); Callback 0 CbDestroy; Crash].
Proof. vm_compute. reflexivity. Qed.

(** A kick-out leaves [user_rooms_] alone: the user that was kicked out still
    has a room, whose contents still receive the user's messages. *)
Lemma kicked_user_keeps_forwarding :
  mjoin (run exec (created ++
    [Receive "A" (MFwdRoom "al" "kickout:al") 0; RouterStep 0 0; RunTask 0 0;
     Receive "A" (MFwdRoom "al" "hi") 0; RouterStep 0 0]) (server_start (C := unit))).1
  = [Response 0 "A" 15 1 12345 true; Callback 0 CbCreate;
     Callback 0 (CbRecv "al" "kickout:al"); NtfLeaveRoom "A" "al" 1; Callback 0 (CbKicked "al");
     Callback 0 (CbRecv "al" "hi")].
Proof. vm_compute. reflexivity. Qed.

(** Two rooms that draw the same random id: the second replaces the first in
    the registry, and the first member is now found in the second room. *)
Lemma room_id_collision :
  let s := (run exec (created ++
    [Receive "B" (MReqCreateRoom 1 "bo") 0; RouterStep 12345 0; RouterStep 0 0;
     RouterStep 0 0; RunTask 1 0]) (server_start (C := unit))).2 in
  find_user_room "al" s = Some 1%nat /\ users <$> get 1 s = Some ["bo"] /\
  users <$> get 0 s = Some ["al"].
Proof. vm_compute. done. Qed.
End RoomsProperties.
