(* ===== verification/Chat.v ===== *)
(** * Chat: what a message in a room does

    The Room server with the contents of the repository: a message of a member
    is echoed to every member of the room, to each on the route it joined by,
    or, when it is the kick-out command, removes a member and tells it. *)

From S2P Require Import Prelude Wire Queued Contents Rooms.
From coqutil Require Import Datatypes.RecordSetters.
Import TriangleBracketNotations.
Import contents MessageTypes.
#[local] Arguments constant {_} _ _ /.

(** ** Members are filed under their names *)

Section keyed.
Context {C : Type} `{room_message_interface C}.

Definition named (x : room C) : Prop := forall u v, users_ x !! u = Some v -> uid v = u.

Definition keyed (s : server C) : Prop := forall r x, heap_ s !! r = Some x -> named x.

Lemma keyed_heap s s' : heap_ s' = heap_ s -> keyed s -> keyed s'.
Proof. unfold keyed. by intros ->. Qed.

Lemma keyed_set r x s : named x -> keyed s -> keyed (set_room r x s).
Proof.
  intros Hx Hs r' x' Hr'. destruct s as [h rs us st cl sd ro rq]. cbn in *.
  apply list_lookup_insert_Some in Hr' as [(->&->&_)|[_ ?]]; [done|by eapply Hs].
Qed.

Lemma keyed_call_contents r cb f s : keyed s -> keyed (call_contents r cb f s).2.
Proof.
  intros Hs. unfold call_contents. destruct (get r s) as [x|] eqn:Hx; [|done].
  destruct (contents_ x) as [c|]; [|done]. destruct (f (users x) c) as [calls c'].
  eapply keyed_heap; [apply heap_calls|]. apply keyed_set; [|done].
  pose proof (Hs r x Hx) as Hn. by destruct x.
Qed.

Lemma keyed_complete q success now s : keyed s -> keyed (complete q success now s).2.
Proof.
  apply keyed_heap. unfold complete. destruct (queued.finish _ _ _ _) as [b reqs]. case_match; by destruct s.
Qed.

Lemma keyed_join r q u src s : keyed s -> keyed (join_task r q u src s).
Proof.
  intros Hs. unfold join_task. pose proof (heap_begin q s) as Eh. destruct (begin_request q s) as [b s1].
  cbn [snd] in Eh. apply (keyed_heap _ _ Eh) in Hs. destruct (get r s1) as [x|] eqn:Hx; [|by destruct s1].
  case_match; [by destruct s1|]. eapply keyed_heap; [reflexivity|]. apply keyed_set; [|done].
  intros v w. destruct x as [id ow us co li]. cbn. rewrite lookup_insert_Some.
  intros [[<- <-]|[_ Hw]]; [|by eapply (Hs r)]. destruct (us !! u) eqn:Hu; [|done]. cbn.
  by eapply (Hs r _ Hx).
Qed.

Lemma keyed_leave r q u s : keyed s -> keyed (leave_task r q u s).
Proof.
  intros Hs. unfold leave_task. pose proof (heap_begin q s) as Eh. destruct (begin_request q s) as [b s1].
  cbn [snd] in Eh. apply (keyed_heap _ _ Eh) in Hs. destruct (get r s1) as [x|] eqn:Hx; [|by destruct s1].
  case_match; [by destruct s1|]. eapply keyed_heap; [reflexivity|]. apply keyed_set; [|done].
  intros v w. destruct x as [id ow us co li]. cbn. intros [_ Hw]%lookup_delete_Some. by eapply (Hs r _ Hx).
Qed.

Lemma keyed_kick r u reason s : keyed s -> keyed (kick_out_user_impl r u reason s).2.
Proof.
  intros Hs. unfold kick_out_user_impl. destruct (get r s) as [x|] eqn:Hx; [|done].
  destruct (users_ x !! u); [|done]. destruct (contents_ x); [|done].
  pose proof (keyed_call_contents r (CbKicked u) (on_kicked_out_user u reason) s Hs) as Hk.
  destruct (call_contents _ _ _ s) as [es s1]. cbn [snd] in *. destruct (get r s1) as [x1|] eqn:Hx1; [|done].
  apply keyed_set; [|done]. intros v w. pose proof (Hk r x1 Hx1) as Hn. destruct x1 as [id ow us co li]. cbn in *.
  intros [_ Hw]%lookup_delete_Some. by apply Hn.
Qed.

Lemma keyed_close r s : keyed s -> keyed (close_impl r s).2.
Proof.
  intros Hs. unfold close_impl. destruct (get r s) as [x|] eqn:Hx; [|done]. case_decide; [done|].
  pose proof (Hs r x Hx) as Hn. destruct (contents_ x) as [c|].
  - destruct (on_destroy_room (users x) c) as [calls c']. eapply keyed_heap; [apply heap_calls|].
    apply keyed_set; [|done]. by destruct x.
  - apply keyed_set; [|done]. by destruct x.
Qed.

Lemma keyed_run_task now r t s : keyed s -> keyed (run_task now r t s).2.
Proof.
  intros Hs. destruct t; cbn [run_task].
  - by apply keyed_call_contents.
  - by apply keyed_join.
  - assert (Hj : keyed (if joined then joined_room u r s else (false, s)).2).
    { destruct joined; [|done]. unfold joined_room. case_match; by destruct s. }
    destruct (if joined then _ else _) as [b s1]. by destruct s1.
  - pose proof (keyed_complete q success now s Hs) as Hc. destruct (complete q success now s) as [es s1].
    destruct inserted; by destruct s1.
  - by apply keyed_call_contents.
  - by apply keyed_leave.
  - assert (Hj : keyed (if gone then left_room u r s else (false, s)).2).
    { destruct gone; [|done]. unfold left_room. repeat case_match; by destruct s. }
    destruct (if gone then _ else _) as [b s1]. by destruct s1.
  - pose proof (keyed_complete q success now s Hs) as Hc. destruct (complete q success now s) as [es s1].
    destruct gone; by destruct s1.
  - pose proof (keyed_call_contents r (CbExit u) (on_user_exit u) s Hs) as Hc.
    destruct (call_contents _ _ _ s) as [es s1]. destruct empty; by destruct s1.
  - assert (Hc : keyed (close_room r s).2) by (unfold close_room; case_match; by destruct s).
    destruct (close_room r s) as [[] s1]; by destruct s1.
  - by apply keyed_close.
  - done.
  - by apply keyed_kick.
Qed.

Lemma keyed_receive src m now s : keyed s -> keyed (receive src m now s).2.
Proof.
  assert (Ha : forall id ty rm, heap_ (admit_request src id ty rm now s).2 = heap_ s).
  { intros id ty rm. unfold admit_request. destruct (queued.admit_ _ _ _). by destruct s. }
  apply keyed_heap. destruct m as [|id u|id u rm|u msg|id u|id]; cbn [receive]; try done.
  - specialize (Ha id kUser2RoomResCreateRoom 0). destruct (admit_request _ _ _ _ _ s) as [[q|] s1]; [|done].
    pose proof (heap_begin q s1) as Eb. destruct (begin_request q s1) as [b s2]. cbn in *. destruct s2. cbn in *. congruence.
  - specialize (Ha id kUser2RoomResJoinRoom rm). destruct (admit_request _ _ _ _ _ s) as [[q|] s1]; [|done].
    unfold route_request. destruct (find_room rm s1); [by destruct s1|].
    pose proof (heap_begin q s1) as Eb. destruct (begin_request q s1) as [b s2]. cbn in *. destruct s2. cbn in *. congruence.
  - destruct (find_user_room u s); by destruct s.
  - specialize (Ha id kUser2RoomResLeaveRoom 0). destruct (admit_request _ _ _ _ _ s) as [[q|] s1]; [|done].
    unfold route_request. destruct (find_user_room u s1); [by destruct s1|].
    pose proof (heap_begin q s1) as Eb. destruct (begin_request q s1) as [b s2]. cbn in *. destruct s2. cbn in *. congruence.
Qed.

Lemma keyed_router pc rng now s : keyed s -> keyed (router_step pc rng now s).2.
Proof.
  intros Hs. assert (Hs1 : keyed (set_router None s)) by (by destruct s). unfold router_step. clear Hs.
  set (s1 := set_router None s) in *. clearbody s1. destruct pc as [| |q u src|q r| |].
  - by destruct s1.
  - by destruct s1.
  - unfold create_room. destruct (stopping_ s1).
    + destruct (queued.finish _ _ _ _). by destruct s1.
    + intros r x Hx. destruct s1 as [h rs us st cl sd ro rq]. cbn in *.
      apply lookup_app_Some in Hx as [Hx|[_ Hx]]; [by eapply Hs1|].
      apply list_lookup_singleton_Some in Hx as [_ <-]. intros v w Hw.
      change (({[u := User u src]} : gmap Uid user) !! v = Some w) in Hw.
      by apply lookup_singleton_Some in Hw as [<- <-].
  - destruct (get r s1) as [x|] eqn:Hx; [|by destruct s1]. eapply keyed_heap; [reflexivity|].
    apply keyed_set; [|done]. pose proof (Hs1 r x Hx). by destruct x.
  - by apply keyed_complete.
  - by apply keyed_call_contents.
Qed.

Lemma keyed_exec e s : keyed s -> keyed (exec e s).2.
Proof.
  intros Hs. destruct e as [src m now|rng now|r now| |]; cbn [exec].
  - destruct (router_ s); [done|by apply keyed_receive].
  - destruct (router_ s); [by apply keyed_router|done].
  - destruct (take_task r (strand_ s)) as [[t ts]|]; [|done]. apply keyed_run_task. by destruct s.
  - cbn. unfold shutdown. destruct (stopping_ s) eqn:E; [done|]. by destruct s.
  - destruct (closing_ s); [done|]. by destruct s.
Qed.

Lemma keyed_history evs : keyed (run exec evs (server_start (C := C))).2.
Proof. apply run_invariant; [intros; by apply keyed_exec|]. by intros r x Hx. Qed.

(** Looking the names of all members up finds all members. *)
Lemma find_all (x : room C) : named x -> find_users x (users x) = snd <$> map_entries String.le (users_ x).
Proof.
  intros Hn. unfold find_users, users.
  assert (Hall : Forall (fun e => users_ x !! uid e.2 = Some e.2) (map_entries String.le (users_ x))).
  { apply Forall_forall. intros [u v] Hv. apply elem_of_map_entries in Hv. cbn. by rewrite (Hn u v Hv). }
  induction Hall as [|e l He _ IH]; [done|]. rewrite !fmap_cons. cbn [omap list_omap]. rewrite He. by rewrite <- IH.
Qed.
End keyed.

(** ** The three steps of a message *)

(** The message of a member of room [r], taken by the router thread, handed to
    the contents, and the handler their call posts. *)
Definition chat_steps (src u msg : string) (r : nat) (rng now : Z) : list event :=
  [Receive src (MFwdRoom u msg) now; RouterStep rng now; RunTask r now].

Definition members (x : room unit) : list user := snd <$> map_entries String.le (users_ x).

Section steps.
Context (s : server unit) (src u msg : string) (r : nat) (x : room unit) (rng now : Z).
Hypothesis Hro : router_ s = None.
Hypothesis Hfind : find_user_room u s = Some r.
Hypothesis Hget : get r s = Some x.
Hypothesis Hcon : contents_ x = Some tt.
Hypothesis Hidle : idle r (strand_ s).

(** The contents do not change. *)
Lemma call_contents_calls cb f calls :
  f (users x) tt = (calls, tt) ->
  call_contents r cb f s = ([Callback r cb], foldl (api r x) s calls).
Proof.
  clear Hro Hfind Hidle. intros Hf. unfold call_contents. rewrite Hget, Hcon, Hf. f_equal. f_equal.
  unfold get in Hget. destruct s as [h rs us st cl sd ro rq], x as [id ow us0 co li]. cbn in *. subst co.
  unfold set_room. cbn. by rewrite list_insert_id.
Qed.

(** Up to the handler: the contents have been called, and call the room. *)
Lemma chat_called call t :
  recv_message u msg (users x) = [call] -> (forall s1, api r x s1 call = post r t s1) ->
  run exec (chat_steps src u msg r rng now) s =
    ([[]; [Callback r (CbRecv u msg)]; (run_task now r t s).1], (run_task now r t s).2).
Proof.
  intros Hcall Hpost. unfold chat_steps.
  assert (E1 : exec (Receive src (MFwdRoom u msg) now) s = ([], set_router (Some (RFwd r u msg)) s)).
  { cbn [exec]. rewrite Hro. cbn [receive]. by rewrite Hfind. }
  assert (E2 : exec (RouterStep rng now) (set_router (Some (RFwd r u msg)) s) =
    ([Callback r (CbRecv u msg)], post r t s)).
  { cbn [exec]. replace (router_ (set_router (Some (RFwd r u msg)) s)) with (Some (RFwd r u msg)) by (by destruct s).
    unfold router_step. replace (set_router None _) with s.
    - rewrite (call_contents_calls (CbRecv u msg) (on_recv_message u msg) [call]); [cbn [foldl]; by rewrite Hpost|].
      cbn. by rewrite Hcall.
    - clear -Hro. destruct s. cbn in *. by subst. }
  assert (E3 : exec (RunTask r now) (post r t s) = run_task now r t s).
  { cbn [exec]. replace (strand_ (post r t s)) with (strand_ s ++ [(r, t)]) by (by destruct s).
    rewrite (take_task_idle r t _ Hidle). f_equal. by destruct s. }
  rewrite !run_cons, E1. cbn [fst snd]. rewrite E2. cbn [fst snd]. by rewrite E3.
Qed.

(** The calls of the contents on the room. *)
Lemma echo_posts msg' s1 :
  named x -> api r x s1 (send_to_user (users x) msg') = post r (TSend None (members x) msg') s1.
Proof.
  intros Hn. cbn. unfold room_send_to_user. rewrite (find_all x Hn), decide_True; [done|].
  unfold users. by rewrite !length_fmap.
Qed.

Lemma chat_echoed :
  named x -> (forall v, ~ ContentsProperties.is_kickout msg v) ->
  run exec (chat_steps src u msg r rng now) s =
    ([[]; [Callback r (CbRecv u msg)];
      (fun v => Rooms.FwdClient (route v) None (uid v) (echo u msg)) <$> members x], s).
Proof.
  intros Hn Hno. destruct (ContentsProperties.recv_message_exact u msg (users x)) as [_ [Hcall|[v Hv]]];
    [|by destruct (Hno v)].
  exact (chat_called _ (TSend None (members x) (echo u msg)) Hcall (fun s1 => echo_posts _ s1 Hn)).
Qed.

(** A kick-out. *)
Lemma kick_exact v :
  kick_out_user_impl r v kRoomOwner s =
  match users_ x !! v with
  | None => ([], s)
  | Some w => ([NtfLeaveRoom (route w) v 1; Callback r (CbKicked v)],
               set_room r (Room (room_id_ x) (owner_ x) (delete v (users_ x)) (contents_ x) (lifecycle_ x)) s)
  end.
Proof.
  clear Hro Hfind Hidle. unfold kick_out_user_impl. rewrite Hget. destruct (users_ x !! v) as [w|]; [|done]. rewrite Hcon at 1.
  rewrite (call_contents_calls (CbKicked v) (on_kicked_out_user v kRoomOwner) []) by done. cbn [foldl].
  rewrite Hget. by destruct x.
Qed.
End steps.

Module ChatProperties.
Import ContentsProperties.


(** Two users in a room: a word, and a kick-out. *)
Definition two_in_room : list event :=
  RoomsProperties.created ++ [Receive "B" (MReqJoinRoom 7 "bo" 12345) 0; RouterStep 0 0] ++
  replicate 5 (RunTask 0 0).

End ChatProperties.
