(* ===== verification/Service.v ===== *)
(** * Service: the requests the Room server admits come to their end

    The liveness of [Rooms].  A request is in the hands of the router thread or
    of a handler in the strand of a room.  Each step of the router thread and
    each turn of a strand uses up some of the work that is left before the
    request is completed, and nothing that happens elsewhere adds to it: new
    handlers are appended.  So enough turns complete the request, in every
    interleaving. *)

From S2P Require Import Prelude Wire Queued Contents Rooms.
From coqutil Require Import Datatypes.RecordSetters.
Import TriangleBracketNotations.
Import MessageTypes.
#[local] Arguments constant {_} _ _ /.

(** ** The work of a strand *)

(** How many turns a handler takes, its continuations included. *)
Definition weight (x : task) : nat :=
  match x with
  | TJoin _ _ _ => 4
  | TJoinNotify _ _ _ _ => 3
  | TJoinComplete _ _ _ _ => 2
  | TLeave _ _ => 6
  | TLeaveNotify _ _ _ _ => 5
  | TLeaveComplete _ _ _ _ _ => 4
  | TExit _ _ => 3
  | TCloseRoom => 2
  | _ => 1
  end.

(** The handlers of room [r], all their work. *)
Fixpoint work (r : nat) (ts : list (nat * task)) : nat :=
  match ts with
  | [] => 0
  | (r', x) :: ts => (if decide (r' = r) then weight x else 0) + work r ts
  end.

Definition owns (t : nat) (x : task) : bool := bool_decide (t ∈ (task_own x).*2).

(** A handler before work [l] that ends with request [t]. *)
Definition ahead (t : nat) (x : task) (l : nat) : nat :=
  match l with
  | O => if owns t x then weight x else 0
  | _ => weight x + l
  end.

(** The work of room [r] until the last handler of request [t] is done. *)
Fixpoint load (r t : nat) (ts : list (nat * task)) : nat :=
  match ts with
  | [] => 0
  | (r', x) :: ts => if decide (r' = r) then ahead t x (load r t ts) else load r t ts
  end.

Lemma ahead_le t x l : (ahead t x l <= weight x + l)%nat.
Proof. unfold ahead. destruct l; [case_match|]; lia. Qed.

Lemma ahead_pred t x l : (0 < weight x)%nat -> (l <= pred (ahead t x l))%nat.
Proof. unfold ahead. destruct l; [case_match|]; lia. Qed.

(** What is left of a handler owns no more and takes less. *)
Lemma ahead_continue t x y l :
  (weight y < weight x)%nat -> task_own y ⊆ task_own x -> (ahead t y l <= pred (ahead t x l))%nat.
Proof.
  intros Hw Ho. unfold ahead. destruct l; [|lia].
  assert (H : owns t y = true -> owns t x = true).
  { unfold owns. rewrite !bool_decide_eq_true, !list_elem_of_fmap. intros (e&->&He). eauto. }
  destruct (owns t y); [rewrite H by done; lia|]. case_match; lia.
Qed.

Lemma weight_pos x : (0 < weight x)%nat.
Proof. destruct x; cbn; lia. Qed.

Lemma load_le_work r t ts : (load r t ts <= work r ts)%nat.
Proof.
  induction ts as [|[r' x] ts IH]; cbn [load work]; [done|]. case_decide; [|lia].
  pose proof (ahead_le t x (load r t ts)). lia.
Qed.

(** Handlers that do not hold the request, behind all others, add nothing. *)
Lemma load_app r t ts new :
  Forall (fun e => owns t e.2 = false) new -> load r t (ts ++ new) = load r t ts.
Proof.
  intros Hn. induction ts as [|[r' x] ts IH]; cbn [load app]; [|by rewrite IH].
  induction Hn as [|[r' x] new Hx _ IH]; [done|]. cbn in *. rewrite IH. case_decide; [|done].
  unfold ahead. by rewrite Hx.
Qed.

Lemma load_take r t ts x ts' :
  take_task r ts = Some (x, ts') -> load r t ts = ahead t x (load r t ts') /\
  forall r', r' <> r -> load r' t ts = load r' t ts'.
Proof.
  revert x ts'. induction ts as [|[r0 y] ts IH]; intros x ts'; cbn [take_task]; [done|].
  case_decide as E.
  - intros [= -> ->]. cbn [load]. rewrite decide_True by done. split; [done|].
    intros r' Hne. by rewrite decide_False by congruence.
  - destruct (take_task r ts) as [[x1 ts1]|]; [|done]. intros [= <- <-].
    destruct (IH x1 ts1 eq_refl) as [IH1 IH2]. cbn [load]. rewrite !decide_False by done.
    split; [done|]. intros r' Hne. by rewrite IH2.
Qed.

Lemma load_zero t ts :
  (forall r, load r t ts = 0%nat) -> t ∉ (mjoin ((fun e => task_own e.2) <$> ts)).*2.
Proof.
  induction ts as [|[r x] ts IH]; intros Hl; [cbn; apply not_elem_of_nil|].
  rewrite fmap_cons, mjoin_cons, fmap_app, not_elem_of_app. cbn [snd].
  assert (H0 : forall r', load r' t ts = 0%nat).
  { intros r'. specialize (Hl r'). cbn [load] in Hl. case_decide; [|done].
    pose proof (ahead_pred t x (load r' t ts) (weight_pos x)). lia. }
  split; [|by apply IH]. specialize (Hl r). cbn [load] in Hl. rewrite decide_True, H0 in Hl by done.
  cbn in Hl. unfold owns in Hl. case_bool_decide; [|done]. pose proof (weight_pos x). lia.
Qed.

Section service.
Context {C : Type} `{room_message_interface C}.
Notation server := (server C) (only parsing).

(** ** What a step leaves of the strands *)

Definition tickets (s : server) : nat := length (tickets_ (requests_ s)).

(** Only handlers that hold no request are posted. *)
Record moves (s s' : server) : Prop := {
  mv_strand : exists new, strand_ s' = strand_ s ++ new /\ Forall (fun e => task_own e.2 = []) new;
  mv_router : router_ s' = router_ s;
  mv_tickets : (tickets s <= tickets s')%nat;
  mv_stopping : stopping_ s' = stopping_ s;
}.

#[local] Instance moves_preorder : PreOrder moves.
Proof.
  split.
  - intros s. split; [|done..]. exists []. by rewrite app_nil_r.
  - intros s1 s2 s3 [(n1&E1&F1) R1 T1 S1] [(n2&E2&F2) R2 T2 S2]. split; [|congruence|lia|congruence].
    exists (n1 ++ n2). split; [by rewrite E2, E1, app_assoc|by apply Forall_app].
Qed.

Lemma moves_same s s' :
  strand_ s' = strand_ s -> router_ s' = router_ s -> (tickets s <= tickets s')%nat ->
  stopping_ s' = stopping_ s -> moves s s'.
Proof. intros E R T S. split; [|done..]. exists []. by rewrite app_nil_r. Qed.

Lemma moves_post r x (s : server) : task_own x = [] -> moves s (post r x s).
Proof. intros Hx. destruct s. split; [|done..]. exists [(r, x)]. split; [done|by repeat constructor]. Qed.

Lemma moves_set_room r x (s : server) : moves s (set_room r x s).
Proof. destruct s. by apply moves_same. Qed.

Lemma moves_calls r x calls (s : server) : moves s (foldl (api r x) s calls).
Proof.
  revert s. induction calls as [|c calls IH]; intros s; [done|]. cbn [foldl]. etrans; [|apply IH].
  destruct c; cbn; [unfold room_send_to_user; case_decide; [|done]|]; by apply moves_post.
Qed.

Lemma moves_call_contents r cb f (s : server) : moves s (call_contents r cb f s).2.
Proof.
  unfold call_contents. repeat case_match; cbn [snd]; try done.
  etrans; [apply moves_set_room|apply moves_calls].
Qed.

Lemma moves_close_impl r (s : server) : moves s (close_impl r s).2.
Proof.
  unfold close_impl. repeat (case_match || case_decide); cbn [snd]; try done; [|apply moves_set_room].
  etrans; [apply moves_set_room|apply moves_calls].
Qed.

Lemma moves_kick r u reason (s : server) : moves s (kick_out_user_impl r u reason s).2.
Proof.
  unfold kick_out_user_impl. destruct (get r s) as [x|]; [|done]. destruct (users_ x !! u); [|done].
  destruct (contents_ x); [|done].
  pose proof (moves_call_contents r (CbKicked u) (on_kicked_out_user u reason) s) as M.
  destruct (call_contents _ _ _ _) as [es s1]. cbn in *. etrans; [exact M|].
  destruct (get r s1); [apply moves_set_room|done].
Qed.

Lemma moves_requests o (s : server) : moves s (s <| requests_ := (queued.exec o (requests_ s)).2 |>).
Proof. destruct s. apply moves_same; [done|done| |done]. apply exec_length. Qed.

Lemma moves_begin q (s : server) : moves s (begin_request q s).2.
Proof.
  pose proof (moves_requests (queued.TryStart (rq_ticket q)) s) as M. cbn in M. revert M.
  unfold begin_request. by destruct (queued.try_start _ _).
Qed.

Lemma moves_complete q success now (s : server) : moves s (complete q success now s).2.
Proof.
  pose proof (moves_requests (queued.Finish (rq_key q) (rq_ticket q) now) s) as M. cbn in M. revert M.
  unfold complete. destruct (queued.finish _ _ _ _) as [b reqs].
  intros M. cbn in *. by destruct (_ && _).
Qed.

Lemma moves_registry u r (s : server) :
  moves s (joined_room u r s).2 /\ moves s (left_room u r s).2 /\ moves s (close_room r s).2.
Proof.
  unfold joined_room, left_room, close_room.
  destruct (registered r s); destruct (user_rooms_ s !! u); cbn [snd]; repeat case_decide;
    split_and!; try done; destruct s; by apply moves_same.
Qed.

(** Running a handler: what is left of it is put in front. *)
Lemma run_task_moves now r x (s : server) :
  exists cont s', moves s s' /\ (run_task now r x s).2 = foldr (continue r) s' (option_list cont) /\
    forall y, cont = Some y -> (weight y < weight x)%nat /\ task_own y ⊆ task_own x.
Proof.
  assert (Hnone : forall s', moves s s' -> (run_task now r x s).2 = s' ->
    exists cont s', moves s s' /\ (run_task now r x s).2 = foldr (continue r) s' (option_list cont) /\
      forall y, cont = Some y -> (weight y < weight x)%nat /\ task_own y ⊆ task_own x).
  { intros s' M E. by exists None, s'. }
  assert (Hsome : forall y s', moves s s' -> (run_task now r x s).2 = continue r y s' ->
    (weight y < weight x)%nat -> task_own y ⊆ task_own x ->
    exists cont s', moves s s' /\ (run_task now r x s).2 = foldr (continue r) s' (option_list cont) /\
      forall y, cont = Some y -> (weight y < weight x)%nat /\ task_own y ⊆ task_own x).
  { intros y s' M E Hw Ho. exists (Some y), s'. split_and!; [done|done|]. by intros y' [= <-]. }
  destruct x as [rid|q u src|q u jd ins|q u ok ins|u|q u|q u gone emp|q u ok gone emp|u emp| | | |];
    cbn [run_task] in *.
  - eapply Hnone; [|done]. apply moves_call_contents.
  - unfold join_task in *. pose proof (moves_begin q s) as M. destruct (begin_request q s) as [b s1].
    cbn [snd] in *. repeat case_match; (eapply Hsome; [|reflexivity|cbn; lia|done]); try done;
      (etrans; [exact M|apply moves_set_room]).
  - destruct (moves_registry u r s) as (M&_&_). destruct jd; [destruct (joined_room u r s) as [b s1]|];
      (eapply Hsome; [|reflexivity|cbn; lia|done]); done.
  - pose proof (moves_complete q ok now s) as M. destruct (complete q ok now s) as [es s1]. cbn [snd] in *.
    destruct ins; [eapply Hsome; [exact M|reflexivity|cbn; lia|set_solver]|by eapply Hnone].
  - eapply Hnone; [|done]. apply moves_call_contents.
  - unfold leave_task in *. pose proof (moves_begin q s) as M. destruct (begin_request q s) as [b s1].
    cbn [snd] in *. repeat case_match; (eapply Hsome; [|reflexivity|cbn; lia|done]); try done;
      (etrans; [exact M|apply moves_set_room]).
  - destruct (moves_registry u r s) as (_&M&_). destruct gone; [destruct (left_room u r s) as [b s1]|];
      (eapply Hsome; [|reflexivity|cbn; lia|done]); done.
  - pose proof (moves_complete q ok now s) as M. destruct (complete q ok now s) as [es s1]. cbn [snd] in *.
    destruct gone; [eapply Hsome; [exact M|reflexivity|cbn; lia|set_solver]|by eapply Hnone].
  - pose proof (moves_call_contents r (CbExit u) (on_user_exit u) s) as M.
    destruct (call_contents _ _ _ _) as [es s1]. cbn [snd] in *.
    destruct emp; [eapply Hsome; [exact M|reflexivity|cbn; lia|set_solver]|by eapply Hnone].
  - destruct (moves_registry ""%string r s) as (_&_&M). destruct (close_room r s) as [b s1]. cbn [snd] in *.
    destruct b; [eapply Hsome; [exact M|reflexivity|cbn; lia|set_solver]|by eapply Hnone].
  - eapply Hnone; [|done]. apply moves_close_impl.
  - by eapply Hnone.
  - eapply Hnone; [|done]. apply moves_kick.
Qed.

(** ** The router thread *)

Definition pc_rank (pc : router_pc) : nat :=
  match pc with RCreate _ _ _ => 3 | RInit _ _ => 2 | _ => 1 end.

Lemma router_step_moves pc rng now (s : server) :
  let s' := (router_step pc rng now s).2 in
  (exists new, strand_ s' = strand_ s ++ new /\ Forall (fun e => task_own e.2 ⊆ pc_own pc) new) /\
  (forall pc', router_ s' = Some pc' -> (pc_rank pc' < pc_rank pc)%nat /\ pc_own pc' ⊆ pc_own pc) /\
  (tickets s <= tickets s')%nat.
Proof.
  assert (Hm : forall s', moves (set_router None s) s' ->
    (exists new, strand_ s' = strand_ s ++ new /\ Forall (fun e => task_own e.2 ⊆ pc_own pc) new) /\
    router_ s' = None /\ (tickets s <= tickets s')%nat).
  { intros s' [(new&E&F) R T _]. split_and!; [|by rewrite R; destruct s|by destruct s].
    exists new. split; [rewrite E; by destruct s|]. eapply Forall_impl; [exact F|]. intros e ->. set_solver. }
  cbn zeta. destruct pc as [q r u src|q r u|q u src|q r|q ok|r from msg]; cbn [router_step].
  - destruct s. cbn. split_and!; try done. eexists. split; [done|]. by apply Forall_singleton.
  - destruct s. cbn. split_and!; try done. eexists. split; [done|]. by apply Forall_singleton.
  - unfold create_room. destruct (stopping_ _).
    + pose proof (moves_requests (queued.Finish (rq_key q) (rq_ticket q) now) (set_router None s)) as M.
      cbn in M. revert M. destruct (queued.finish _ _ _ _) as [b reqs]. cbn. intros M.
      destruct (Hm _ M) as (?&_&?). by split_and!.
    + destruct s. cbn. split_and!; [by exists []; rewrite app_nil_r| |done].
      intros pc' [= <-]. split; [cbn; lia|done].
  - case_match; destruct s; cbn; (split_and!; [|intros pc' [= <-]; split; [cbn; lia|done]|done]).
    + eexists. split; [done|]. apply Forall_singleton. set_solver.
    + by exists []; rewrite app_nil_r.
  - destruct (Hm _ (moves_complete q ok now (set_router None s))) as (?&->&?). by split_and!.
  - destruct (Hm _ (moves_call_contents r (CbRecv from msg) (on_recv_message from msg) (set_router None s)))
      as (?&->&?). by split_and!.
Qed.

Lemma admit_moves src id ty rid now (s : server) :
  moves s (admit_request src id ty rid now s).2 /\
  forall q, (admit_request src id ty rid now s).1 = Some q -> rq_ticket q = tickets s.
Proof.
  pose proof (moves_requests (queued.Admit (src, id) now) s) as M. cbn in M. revert M.
  unfold admit_request, queued.admit_. case_decide; cbn; intros M; (split; [exact M|]); [done|].
  by intros q [= <-].
Qed.

(** A message that is received brings a new request, if any. *)
(** A message that is taken leaves the strands as they are; what the router
    thread then holds was made for it. *)
Definition taken (s s' : server) : Prop :=
  strand_ s' = strand_ s /\ (tickets s <= tickets s')%nat /\
  forall pc t, router_ s' = Some pc -> t ∈ (pc_own pc).*2 -> (tickets s <= t)%nat.

Lemma taken_idle s s' : router_ s = None -> moves s s' -> strand_ s' = strand_ s -> taken s s'.
Proof. intros Hr [_ R T _] E. split_and!; [done|done|]. rewrite R, Hr. done. Qed.

Lemma taken_router pc s s' :
  moves s s' -> strand_ s' = strand_ s -> (forall t, t ∈ (pc_own pc).*2 -> t = tickets s) ->
  taken s (set_router (Some pc) s').
Proof.
  intros [_ _ T _] E Ht. destruct s'. cbn in *. split_and!; [done|done|]. intros pc' t [= <-] ->%Ht. done.
Qed.

Lemma strand_begin q (s : server) : strand_ (begin_request q s).2 = strand_ s.
Proof. unfold begin_request. destruct (queued.try_start _ _). by destruct s. Qed.

Lemma strand_admit src i0 ty rid now (s : server) : strand_ (admit_request src i0 ty rid now s).2 = strand_ s.
Proof. unfold admit_request. destruct (queued.admit_ _ _ _). by destruct s. Qed.

Lemma taken_route q found posted (s : server) s' :
  moves s s' -> strand_ s' = strand_ s -> rq_ticket q = tickets s ->
  (forall r, pc_own (posted r) = [rq_own q]) -> taken s (route_request q found posted s').
Proof.
  intros M E Eq Ho. destruct found as [r|]; cbn [route_request]; apply taken_router; try done.
  - rewrite Ho. by intros t ->%list_elem_of_singleton.
  - etrans; [exact M|apply moves_begin].
  - by rewrite strand_begin.
  - by intros t ->%list_elem_of_singleton.
Qed.

Lemma receive_moves src m now (s : server) :
  router_ s = None -> taken s (receive src m now s).2.
Proof.
  intros Hr.
  destruct m as [|i0 u|i0 u rid|u msg|i0 u|i0]; cbn [receive].
  - by apply taken_idle.
  - destruct (admit_moves src i0 kUser2RoomResCreateRoom 0 now s) as [M Hq].
    pose proof (strand_admit src i0 kUser2RoomResCreateRoom 0 now s) as Ea.
    destruct (admit_request _ _ _ _ _ _) as [[q|] s1]; cbn [fst snd] in *; [|by apply taken_idle].
    specialize (Hq q eq_refl). pose proof (moves_begin q s1) as M1. pose proof (strand_begin q s1) as Eb.
    destruct (begin_request q s1) as [b s2]. cbn [snd] in *.
    apply taken_router; [by etrans|congruence|]. intros t Ht. by destruct b; apply list_elem_of_singleton in Ht as ->.
  - destruct (admit_moves src i0 kUser2RoomResJoinRoom rid now s) as [M Hq].
    pose proof (strand_admit src i0 kUser2RoomResJoinRoom rid now s) as Ea.
    destruct (admit_request _ _ _ _ _ _) as [[q|] s1]; cbn [fst snd] in *; [|by apply taken_idle].
    apply taken_route; auto.
  - destruct (find_user_room u s); [|by apply taken_idle]. apply taken_router; [done|done|].
    intros t Ht. by apply elem_of_nil in Ht.
  - destruct (admit_moves src i0 kUser2RoomResLeaveRoom 0 now s) as [M Hq].
    pose proof (strand_admit src i0 kUser2RoomResLeaveRoom 0 now s) as Ea.
    destruct (admit_request _ _ _ _ _ _) as [[q|] s1]; cbn [fst snd] in *; [|by apply taken_idle].
    apply taken_route; auto.
  - apply taken_idle; [done|exact (moves_requests (queued.Cancel (src, i0) now) s)|by destruct s].
Qed.

(** ** Every event *)

(** The work of the router thread for request [t]. *)
Definition rank (t : nat) (s : server) : nat :=
  match router_ s with
  | Some pc => if bool_decide (t ∈ (pc_own pc).*2) then pc_rank pc else 0
  | None => 0
  end.

Definition router_turn (e : event) : nat := match e with RouterStep _ _ => 1 | _ => 0 end.
Definition strand_turn (r : nat) (e : event) : nat :=
  match e with RunTask r' _ => if decide (r' = r) then 1 else 0 | _ => 0 end.

Definition turns (turn : event -> nat) (evs : list event) : nat := sum_list (turn <$> evs).

Lemma rank_moves t s s' : moves s s' -> rank t s' = rank t s.
Proof. intros [_ R _ _]. unfold rank. by rewrite R. Qed.

Lemma load_moves r t s s' : moves s s' -> load r t (strand_ s') = load r t (strand_ s).
Proof.
  intros [(new&E&F) _ _ _]. rewrite E. apply load_app. eapply Forall_impl; [exact F|].
  intros e He. unfold owns. rewrite He. apply bool_decide_eq_false, not_elem_of_nil.
Qed.

(** What is left of the handler that ran is in front; the rest moved. *)
Lemma run_strand r now (s : server) x ts :
  take_task r (strand_ s) = Some (x, ts) ->
  exists cont s', moves (s <| strand_ := ts |>) s' /\
    (exec (RunTask r now) s).2 = foldr (continue r) s' (option_list cont) /\
    forall y, cont = Some y -> (weight y < weight x)%nat /\ task_own y ⊆ task_own x.
Proof. intros Et. cbn [exec]. rewrite Et. apply run_task_moves. Qed.

Lemma exec_tickets e (s : server) : (tickets s <= tickets (exec e s).2)%nat.
Proof.
  destruct e as [src m now|rng now|r now| |]; cbn [exec].
  - destruct (router_ s) eqn:Hr; [done|]. by destruct (receive_moves src m now s Hr) as (_&?&_).
  - destruct (router_ s) as [pc|]; [|done]. by destruct (router_step_moves pc rng now s) as (_&_&?).
  - destruct (take_task r (strand_ s)) as [[x ts]|]; [|done].
    destruct (run_task_moves now r x (s <| strand_ := ts |>)) as (cont&s'&[_ _ T _]&->&_).
    destruct cont; destruct s, s'; cbn in *; exact T.
  - unfold shutdown. destruct s. by case_match.
  - destruct s. by case_match.
Qed.

Lemma exec_rank t e (s : server) :
  (t < tickets s)%nat -> (rank t (exec e s).2 <= rank t s - router_turn e)%nat.
Proof.
  intros Ht. destruct e as [src m now|rng now|r now| |]; cbn [exec router_turn]; rewrite ?Nat.sub_0_r.
  - destruct (router_ s) eqn:Hr; [done|]. destruct (receive_moves src m now s Hr) as (_&_&Hn).
    unfold rank. destruct (router_ (receive src m now s).2) as [pc|]; [|lia].
    case_bool_decide as Hin; [|lia]. specialize (Hn pc t eq_refl Hin). lia.
  - destruct (router_ s) as [pc|] eqn:Hr; [|unfold rank; cbn; rewrite Hr; lia].
    destruct (router_step_moves pc rng now s) as (_&Hn&_). unfold rank. rewrite Hr.
    destruct (router_ (router_step pc rng now s).2) as [pc'|]; [|lia].
    case_bool_decide as Hin; [|lia]. destruct (Hn pc' eq_refl) as [Hlt Hsub].
    rewrite bool_decide_true; [lia|]. apply list_elem_of_fmap in Hin as (o&->&Ho).
    apply list_elem_of_fmap. eauto.
  - destruct (take_task r (strand_ s)) as [[x ts]|]; [|done].
    destruct (run_task_moves now r x (s <| strand_ := ts |>)) as (cont&s'&M&->&_).
    apply rank_moves with (t := t) in M. destruct cont; destruct s, s'; unfold rank in *; cbn in *; lia.
  - unfold shutdown. destruct s. by case_match.
  - destruct s. by case_match.
Qed.

Lemma exec_load r t e (s : server) :
  rank t s = 0%nat ->
  (load r t (strand_ (exec e s).2) <= load r t (strand_ s) - strand_turn r e)%nat.
Proof.
  intros H0. destruct e as [src m now|rng now|r' now| |]; cbn [strand_turn]; rewrite ?Nat.sub_0_r.
  - cbn [exec]. destruct (router_ s) eqn:Hr; [done|]. by destruct (receive_moves src m now s Hr) as (->&_&_).
  - cbn [exec]. destruct (router_ s) as [pc|] eqn:Hr; [|done].
    destruct (router_step_moves pc rng now s) as ((new&->&F)&_&_). rewrite load_app; [done|].
    eapply Forall_impl; [exact F|]. intros x Hx. unfold owns. apply bool_decide_eq_false.
    intros (o&->&Ho)%list_elem_of_fmap. unfold rank in H0. rewrite Hr, bool_decide_true in H0;
      [destruct pc; cbn in H0; lia|]. apply list_elem_of_fmap. eauto.
  - destruct (take_task r' (strand_ s)) as [[x ts]|] eqn:Et.
    2: { cbn [exec]. rewrite Et. cbn [snd]. destruct (decide (r' = r)) as [->|]; [|lia].
         assert (E : load r t (strand_ s) = 0%nat); [|lia]. revert Et. clear.
         induction (strand_ s) as [|[r0 y] l IH]; cbn [take_task load]; [done|]. case_decide; [done|].
         destruct (take_task r l) as [[]|]; [done|auto]. }
    destruct (run_strand r' now s x ts Et) as (cont&s'&M&->&Hc). apply load_moves with (r := r) (t := t) in M.
    replace (strand_ (s <| strand_ := ts |>)) with ts in M by (by destruct s).
    destruct (load_take r' t _ _ _ Et) as [E1 E2].
    destruct (decide (r' = r)) as [->|Hne].
    + rewrite E1, <- M. destruct cont as [y|]; cbn [option_list foldr].
      * destruct (Hc y eq_refl) as [Hw Ho]. destruct s'. cbn [continue load] in *. cbn.
        rewrite decide_True by done. pose proof (ahead_continue t x y (load r t strand_) Hw Ho). lia.
      * change (foldr (continue r) s' (option_list None)) with s'.
        pose proof (ahead_pred t x (load r t (strand_ s')) (weight_pos x)). lia.
    + rewrite (E2 r) by congruence. rewrite <- M. destruct cont as [y|]; [destruct s'; cbn; rewrite decide_False by done; lia|].
      change (foldr (continue r') s' (option_list None)) with s'. lia.
  - cbn [exec]. unfold shutdown. destruct s. by case_match.
  - cbn [exec]. destruct (closing_ s) as [|r0 rs]; [done|]. cbn [snd].
    rewrite (load_moves r t (s <| closing_ := rs |>)); [by destruct s|]. by apply moves_post.
Qed.

(** ** Exceptions *)

(** The only exception is that of a room created after [shutdown]. *)
Lemma call_contents_throws r cb f (s : server) e : Thrown e ∉ (call_contents r cb f s).1.
Proof. unfold call_contents. repeat case_match; cbn; set_solver. Qed.

Lemma complete_throws q success now (s : server) e : Thrown e ∉ (complete q success now s).1.
Proof. unfold complete. destruct (queued.finish _ _ _ _). case_match; cbn; set_solver. Qed.

Lemma run_task_throws now r x (s : server) e : Thrown e ∉ (run_task now r x s).1.
Proof.
  destruct x as [rid|q u src|q u jd ins|q u ok ins|u|q u|q u gone emp|q u ok gone emp|u emp| | |sd us msg|u rs];
    cbn [run_task]; try apply call_contents_throws.
  - set_solver.
  - destruct jd; [destruct (joined_room u r s)|]; set_solver.
  - pose proof (complete_throws q ok now s e). by destruct (complete q ok now s).
  - set_solver.
  - destruct gone; [destruct (left_room u r s)|]; set_solver.
  - pose proof (complete_throws q ok now s e). by destruct (complete q ok now s).
  - pose proof (call_contents_throws r (CbExit u) (on_user_exit u) s e). by destruct (call_contents _ _ _ _).
  - destruct (close_room r s). set_solver.
  - unfold close_impl. repeat case_match; cbn; set_solver.
  - unfold send_to_user_impl. cbn. intros (y&Hy&_)%list_elem_of_fmap. done.
  - unfold kick_out_user_impl. destruct (get r s) as [y|]; [|set_solver]. destruct (users_ y !! u); [|set_solver].
    destruct (contents_ y); [|cbn; set_solver].
    pose proof (call_contents_throws r (CbKicked u) (on_kicked_out_user u rs) s e).
    destruct (call_contents _ _ _ _). cbn in *. set_solver.
Qed.

Lemma router_step_throws pc rng now (s : server) e :
  Thrown e ∈ (router_step pc rng now s).1 -> stopping_ s = true.
Proof.
  destruct pc as [q r u src|q r u|q u src|q r|q ok|r from msg]; cbn [router_step].
  - by intros ?%elem_of_nil.
  - by intros ?%elem_of_nil.
  - unfold create_room. replace (stopping_ (set_router None s)) with (stopping_ s) by (by destruct s).
    destruct (stopping_ s); [done|]. by intros ?%elem_of_nil.
  - case_match; by intros ?%elem_of_nil.
  - by intros ?%complete_throws.
  - by intros ?%call_contents_throws.
Qed.

Lemma exec_throws e x (s : server) : Thrown x ∈ (exec e s).1 -> stopping_ s = true.
Proof.
  destruct e as [src m now|rng now|r now| |]; cbn [exec].
  - destruct (router_ s); [by intros ?%elem_of_nil|]. intros Hx. exfalso. revert Hx. destruct m; cbn [receive];
      repeat case_match; cbn; set_solver.
  - destruct (router_ s); [apply router_step_throws|by intros ?%elem_of_nil].
  - destruct (take_task r (strand_ s)) as [[t ts]|]; [|by intros ?%elem_of_nil]. by intros ?%run_task_throws.
  - by intros ?%elem_of_nil.
  - case_match; by intros ?%elem_of_nil.
Qed.

Lemma exec_stopping e (s : server) : stopping_ s = true -> stopping_ (exec e s).2 = true.
Proof.
  intros Hs. destruct e as [src m now|rng now|r now| |]; cbn [exec].
  - destruct (router_ s); [done|]. destruct m; cbn [receive]; unfold admit_request, route_request, begin_request;
      repeat case_match; simplify_eq/=; by destruct s.
  - destruct (router_ s) as [pc|]; [|done].
    destruct pc as [q r u src|q r u|q u src|q r|q ok|r from msg]; cbn [router_step].
    1,2: by destruct s.
    + unfold create_room. repeat case_match; simplify_eq/=; by destruct s.
    + case_match; by destruct s.
    + pose proof (mv_stopping _ _ (moves_complete q ok now (set_router None s))) as E. rewrite E. by destruct s.
    + rewrite (mv_stopping _ _ (moves_call_contents _ _ _ _)). by destruct s.
  - destruct (take_task r (strand_ s)) as [[x ts]|]; [|done].
    destruct (run_task_moves now r x (s <| strand_ := ts |>)) as (cont&s'&[_ _ _ S]&->&_).
    replace (stopping_ (s <| strand_ := ts |>)) with (stopping_ s) in S by (by destruct s).
    rewrite Hs in S. destruct cont; destruct s'; exact S.
  - unfold shutdown. by rewrite Hs.
  - case_match; by destruct s.
Qed.

Lemma run_throws evs x (s : server) :
  Thrown x ∈ mjoin (run exec evs s).1 -> stopping_ (run exec evs s).2 = true.
Proof.
  assert (Hm : forall evs (s : server), stopping_ s = true -> stopping_ (run exec evs s).2 = true).
  { clear. induction evs as [|e evs IH]; intros s Hs; [done|]. rewrite run_cons. cbn [snd].
    by apply IH, exec_stopping. }
  revert s. induction evs as [|e evs IH]; intros s; [by intros ?%elem_of_nil|].
  rewrite run_cons. cbn [fst snd]. rewrite mjoin_cons, elem_of_app.
  intros [Hx|Hx]; [|by apply IH]. apply exec_throws in Hx. by apply Hm, exec_stopping.
Qed.

(** ** Runs *)

Lemma run_tickets evs (s : server) : (tickets s <= tickets (run exec evs s).2)%nat.
Proof.
  revert s. induction evs as [|e evs IH]; intros s; [done|]. rewrite run_cons. cbn [snd].
  pose proof (exec_tickets e s). specialize (IH (exec e s).2). lia.
Qed.

Lemma run_rank t evs (s : server) :
  (t < tickets s)%nat -> (rank t (run exec evs s).2 <= rank t s - turns router_turn evs)%nat.
Proof.
  revert s. induction evs as [|e evs IH]; intros s Ht; [cbn; lia|]. rewrite run_cons. cbn [snd].
  pose proof (exec_tickets e s). pose proof (exec_rank t e s Ht). specialize (IH (exec e s).2 ltac:(lia)).
  unfold turns in *. cbn. lia.
Qed.

Lemma run_load r t evs (s : server) :
  (t < tickets s)%nat -> rank t s = 0%nat ->
  (load r t (strand_ (run exec evs s).2) <= load r t (strand_ s) - turns (strand_turn r) evs)%nat.
Proof.
  revert s. induction evs as [|e evs IH]; intros s Ht H0; [cbn; lia|]. rewrite run_cons. cbn [snd].
  pose proof (exec_tickets e s). pose proof (exec_rank t e s Ht). pose proof (exec_load r t e s H0).
  specialize (IH (exec e s).2 ltac:(lia) ltac:(lia)). unfold turns in *. cbn. lia.
Qed.

Lemma rank_le t (s : server) : (rank t s <= 3)%nat.
Proof. unfold rank. destruct (router_ s) as [pc|]; [|lia]. case_bool_decide; [destruct pc; cbn; lia|lia]. Qed.

(** No one holds the request any more. *)
Lemma served t evs1 evs2 (s : server) :
  let s1 := (run exec evs1 s).2 in
  (t < tickets s)%nat -> (3 <= turns router_turn evs1)%nat ->
  (forall r, (work r (strand_ s1) <= turns (strand_turn r) evs2)%nat) ->
  t ∉ (owned (run exec evs2 s1).2).*2.
Proof.
  cbn zeta. intros Ht H1 H2. set (s1 := (run exec evs1 s).2) in *.
  assert (Ht1 : (t < tickets s1)%nat) by (pose proof (run_tickets evs1 s); unfold s1; lia).
  assert (R1 : rank t s1 = 0%nat).
  { pose proof (run_rank t evs1 s Ht). pose proof (rank_le t s). unfold s1. lia. }
  assert (R2 : rank t (run exec evs2 s1).2 = 0%nat) by (pose proof (run_rank t evs2 s1 Ht1); lia).
  unfold owned. rewrite fmap_app, not_elem_of_app. split.
  - unfold rank in R2. destruct (router_ _) as [pc|]; [|apply not_elem_of_nil]. cbn.
    case_bool_decide; [destruct pc; cbn in R2; lia|done].
  - apply load_zero. intros r. pose proof (run_load r t evs2 s1 Ht1 R1).
    pose proof (load_le_work r t (strand_ s1)). specialize (H2 r). lia.
Qed.
End service.

Module ServiceProperties.
Import contents.

(** C5. The Room server serves every request it admits.  Take any history, and
    let it go on in any way in which the router thread is given three steps
    and then the strand of each room as many turns as there is work in it:
    User servers send and cancel what they want, other rooms run, the server
    may be shut down.  Then no request admitted before is still being handled,
    and each one was answered, was cancelled by its User server before it
    started, or the server is stopping. *)
Theorem admitted_requests_served {C} `{room_message_interface C} evs evs1 evs2 :
  let s := (run exec evs (server_start (C := C))).2 in
  let s1 := (run exec evs1 s).2 in
  let es := mjoin (run exec (evs ++ evs1 ++ evs2) (server_start (C := C))).1 in
  let s2 := (run exec (evs ++ evs1 ++ evs2) (server_start (C := C))).2 in
  (3 <= turns router_turn evs1)%nat ->
  (forall r, (work r (strand_ s1) <= turns (strand_turn r) evs2)%nat) ->
  forall t, (t < tickets s)%nat ->
    (forall k, active_ (requests_ s2) !! k <> Some t) /\
    (t ∈ answered es \/ tickets_ (requests_ s2) !! t = Some kCancelled \/ stopping_ s2 = true).
Proof.
  cbn zeta. intros H1 H2 t Ht.
  pose proof (RoomsProperties.history_req_ok (evs ++ evs1 ++ evs2) [] (server_start (C := C)) core_start) as Hc.
  pose proof (run_throws (evs ++ evs1 ++ evs2) logic_error (server_start (C := C))) as Hth.
  pose proof (run_tickets (evs1 ++ evs2) (run exec evs (server_start (C := C))).2) as Hl.
  pose proof (served t evs1 evs2 _ Ht H1 H2) as Hn. cbn [app] in Hc.
  rewrite !run_app in *. cbn [fst snd] in *. unfold req_ok in Hc. split.
  - intros k Hk. apply (core_active _ _ _ _ Hc) in Hk. apply Hn, list_elem_of_fmap. by exists (k, t).
  - destruct (core_all _ _ _ _ Hc t) as [?|[?|[?|?]]]; [unfold tickets in *; lia|done|by left|auto..].
Qed.

(** A room was made and a join has been received; while it is served another
    user asks for a room, and the first sender cancels too late. *)
Definition join_received : list event :=
  [Receive "A" (MReqCreateRoom 1 "al") 0; RouterStep 12345 0; RouterStep 0 0; RouterStep 0 0;
   RunTask 0 0; Receive "B" (MReqJoinRoom 7 "bo" 12345) 1].
Definition router_events : list event :=
  [RouterStep 0 1; Receive "C" (MReqCreateRoom 2 "cy") 1; RouterStep 23456 1; RouterStep 0 1].
Definition strand_events : list event :=
  [RunTask 0 2; RunTask 1 2; RunTask 0 2; Receive "A" (MCancelRequest 1) 2; RunTask 0 2; RouterStep 0 2;
   RunTask 0 2].

Lemma admitted_requests_served_witness :
  let r := run exec (join_received ++ router_events ++ strand_events) (server_start (C := unit)) in
  stopping_ r.2 = false /\ answered (mjoin r.1) = [0; 1; 2]%nat /\
  (forall k, active_ (requests_ r.2) !! k <> Some 1%nat) /\
  (1%nat ∈ answered (mjoin r.1) \/ tickets_ (requests_ r.2) !! 1%nat = Some kCancelled \/ stopping_ r.2 = true).
Proof.
  cbn zeta. split; [vm_compute; reflexivity|]. split; [vm_compute; reflexivity|].
  apply (admitted_requests_served (C := unit) join_received router_events strand_events).
  - vm_compute. lia.
  - intros [|[|r]]; vm_compute; lia.
  - vm_compute. lia.
Defined.
End ServiceProperties.
