(* ===== verification/Lifetime.v ===== *)
(** * Lifetime: the contents library and the statics of the Room server

    Models [rsp-svr/room]: [so/so_factory.hpp], [so/so_manager.hpp],
    [so_interface] of [rci/] with [room_contents/src/so.cpp], the function-local
    statics [so_manager::instance], [room_manager::instance] and
    [intranet::instance], their destructors, and [main].  Rooms are reduced to
    the lifetime of their contents, whose code is in the library: registered
    rooms are closed by [room_manager::shutdown], rooms being closed are
    released by their close handler or with the worker pool.

    Of C++ the model takes that a function-local static is constructed on first
    use, that one whose constructor throws is tried again at the next use, and
    that statics are destroyed in the reverse order of the completion of their
    construction.  The results of [dlopen] and [dlsym] are arguments; [dlopen]
    counts its references. *)

From S2P Require Import Prelude.
From coqutil Require Import Datatypes.RecordSetters.
Import TriangleBracketNotations.
#[local] Arguments constant {_} _ _ /.

Inductive static := SoManager | RoomManager | Intranet.

#[export] Instance static_eq_dec : EqDecision static.
Proof. solve_decision. Defined.

Record process := Process {
  made : list static;                (** constructed statics, the latest first *)
  so_interface_ : option nat;
  next_so : nat;                     (** objects the library has made *)
  rooms_ : list nat;                 (** registered rooms *)
  closing : list nat;                (** rooms with a posted [close_impl] *)
  next_room : nat;
  stopping_ : bool;
}.

Definition process_start : process := Process [] None 0 [] [] 0 false.

Inductive effect :=
  | Dlopen
  | Dlclose
  | Create (so : nat)                (** [creator_()] *)
  | OnLoad (so : nat)
  | OnUnload (so : nat)
  | DeleteSo (so : nat)
  | NewContents (so r : nat)         (** [so_interface::create_room] *)
  | OnDestroyRoom (r : nat)
  | DeleteContents (r : nat)
  | StopChannel
  | Thrown
  | Crash.

(** ** so_factory and so_manager *)

(** What [dlopen] and [dlsym] answer. *)
Record dl := Dl { open_ok : bool; symbol_ok : bool }.

(** [so_factory()]: the constructor throws when the library or the symbol is
    missing; in the second case the handle is not closed. *)
Definition so_factory (d : dl) : list effect * bool :=
  if negb (open_ok d) then ([Thrown], false)
  else if negb (symbol_ok d) then ([Dlopen; Thrown], false)
  else ([Dlopen], true).

(** [so_manager::instance]; whether it returned. *)
Definition so_manager_instance (d : dl) (s : process) : list effect * bool * process :=
  if decide (SoManager ∈ made s) then ([], true, s)
  else
    let '(es, ok) := so_factory d in
    (es, ok, if ok then s <| made := SoManager :: made s |> else s).

(** [load]: assigning the new object deletes the old one. *)
Definition load (s : process) : list effect * process :=
  let so := next_so s in
  (Create so :: (match so_interface_ s with Some old => [DeleteSo old] | None => [] end)
     ++ [OnLoad so],
   s <| so_interface_ := Some so |> <| next_so := S so |>).

Definition unload (s : process) : list effect :=
  match so_interface_ s with Some so => [OnUnload so] | None => [] end.

(** [~so_manager]: [unload], then [so_interface_], then [~so_factory]. *)
Definition so_manager_destroy (s : process) : list effect * process :=
  (unload s ++ (match so_interface_ s with Some so => [DeleteSo so] | None => [] end) ++ [Dlclose],
   s <| so_interface_ := None |>).

(** ** room_manager and intranet *)

(** A static whose construction needs the previous one. *)
Definition instance_after (dependency : list effect * bool * process) (x : static)
    : list effect * bool * process :=
  let '(es, ok, s) := dependency in
  (es, ok, if ok && negb (bool_decide (x ∈ made s)) then s <| made := x :: made s |> else s).

Definition room_manager_instance (d : dl) (s : process) : list effect * bool * process :=
  instance_after (so_manager_instance d s) RoomManager.

(** The constructor of [intranet] makes its [user_channel], whose default
    argument is [room_manager::instance()]. *)
Definition intranet_instance (d : dl) (s : process) : list effect * bool * process :=
  if decide (Intranet ∈ made s) then ([], true, s)
  else instance_after (room_manager_instance d s) Intranet.

(** [room_manager::create_room] and [room::create_room]. *)
Definition create_room (s : process) : list effect * process :=
  if stopping_ s then ([Thrown], s)
  else match so_interface_ s with
       | None => ([Crash], s)
       | Some so =>
           let r := next_room s in
           ([NewContents so r], s <| rooms_ := r :: rooms_ s |> <| next_room := S r |>)
       end.

(** [room_manager::close_room]. *)
Definition close_room (r : nat) (s : process) : process :=
  if decide (r ∈ rooms_ s)
  then s <| rooms_ := filter (fun r' => r' <> r) (rooms_ s) |> <| closing := r :: closing s |>
  else s.

(** [room::close_impl]. *)
Definition close_contents (r : nat) : list effect := [OnDestroyRoom r; DeleteContents r].

Definition run_close (r : nat) (s : process) : list effect * process :=
  if decide (r ∈ closing s)
  then (close_contents r, s <| closing := filter (fun r' => r' <> r) (closing s) |>)
  else ([], s).

(** [room_manager::shutdown]; [call_once]. *)
Definition shutdown (s : process) : list effect * process :=
  if stopping_ s then ([], s)
  else (rooms_ s ≫= close_contents, s <| rooms_ := [] |> <| stopping_ := true |>).

(** [~room_manager]: [shutdown], then the members; the handlers that were not
    run are released with the worker pool, and the rooms with them. *)
Definition room_manager_destroy (s : process) : list effect * process :=
  let '(es, s) := shutdown s in
  (es ++ (DeleteContents <$> closing s), s <| closing := [] |>).

(** [~intranet]. *)
Definition intranet_destroy (s : process) : list effect * process :=
  if decide (RoomManager ∈ made s)
  then let '(es, s) := shutdown s in (StopChannel :: es, s)
  else ([StopChannel; Crash], s).

(** ** The process *)

Inductive op :=
  | UseSoManager (d : dl)
  | UseRoomManager (d : dl)
  | UseIntranet (d : dl)
  | Load (d : dl)
  | CreateRoom (d : dl)
  | CloseRoom (r : nat)
  | RunClose (r : nat)
  | Shutdown (d : dl).

(** An operation on the object an [instance] returned. *)
Definition on_instance (i : list effect * bool * process)
    (f : process -> list effect * process) : list effect * process :=
  let '(es, ok, s) := i in
  if ok then let '(es', s) := f s in (es ++ es', s) else (es, s).

Definition exec (o : op) (s : process) : list effect * process :=
  match o with
  | UseSoManager d => on_instance (so_manager_instance d s) (fun s => ([], s))
  | UseRoomManager d => on_instance (room_manager_instance d s) (fun s => ([], s))
  | UseIntranet d => on_instance (intranet_instance d s) (fun s => ([], s))
  | Load d => on_instance (so_manager_instance d s) load
  | CreateRoom d => on_instance (room_manager_instance d s) create_room
  | CloseRoom r => ([], close_room r s)
  | RunClose r => run_close r s
  | Shutdown d => on_instance (room_manager_instance d s) shutdown
  end.

Definition destroy (x : static) (s : process) : list effect * process :=
  match x with
  | SoManager => so_manager_destroy s
  | RoomManager => room_manager_destroy s
  | Intranet => intranet_destroy s
  end.

(** The end of the process: [fuel] is the number of statics. *)
Fixpoint destroy_all (fuel : nat) (s : process) : list effect * process :=
  match fuel, made s with
  | S fuel, x :: xs =>
      let '(es, s) := destroy x (s <| made := xs |>) in
      let '(es', s) := destroy_all fuel s in (es ++ es', s)
  | _, _ => ([], s)
  end.

Definition exit (s : process) : list effect * process := destroy_all (length (made s)) s.

(** [main] of the Room server: the library first, then the channel. *)
Definition main (d : dl) : list op := [Load d; UseIntranet d].

(** ** What the library needs *)

(** The mapped code, and the objects whose code it is. *)
Record audit := Audit { mapped : nat; sos : gset nat; contents : gset nat }.
Definition audit_start : audit := Audit 0 ∅ ∅.

(** An effect is legal when the code it runs is mapped and the object it is run
    on is alive; the library is told of its end when no room is left, and is
    unmapped when no object of it is left. *)
Definition observe (e : effect) (a : audit) : option audit :=
  let '(Audit n so rs) := a in
  match e with
  | Dlopen => Some (Audit (S n) so rs)
  | Dlclose =>
      match n with
      | O => None
      | S n => if decide (n = 0%nat -> so = ∅ /\ rs = ∅) then Some (Audit n so rs) else None
      end
  | Create x => if decide (n <> 0%nat /\ x ∉ so) then Some (Audit n ({[x]} ∪ so) rs) else None
  | OnLoad x => if decide (n <> 0%nat /\ x ∈ so) then Some a else None
  | OnUnload x => if decide (n <> 0%nat /\ x ∈ so /\ rs = ∅) then Some a else None
  | DeleteSo x => if decide (n <> 0%nat /\ x ∈ so) then Some (Audit n (so ∖ {[x]}) rs) else None
  | NewContents x r =>
      if decide (n <> 0%nat /\ x ∈ so /\ r ∉ rs) then Some (Audit n so ({[r]} ∪ rs)) else None
  | OnDestroyRoom r => if decide (n <> 0%nat /\ r ∈ rs) then Some a else None
  | DeleteContents r =>
      if decide (n <> 0%nat /\ r ∈ rs) then Some (Audit n so (rs ∖ {[r]})) else None
  | StopChannel | Thrown => Some a
  | Crash => None
  end.

Fixpoint observe_all (es : list effect) (a : audit) : option audit :=
  match es with
  | [] => Some a
  | e :: es => observe e a ≫= observe_all es
  end.

Lemma observe_app es es' a : observe_all (es ++ es') a = observe_all es a ≫= observe_all es'.
Proof.
  revert a. induction es as [|e es IH]; intros a; [done|]. cbn [app observe_all].
  destruct (observe e a); [apply IH|done].
Qed.

(** Statics are made in the order of their dependencies. *)
Definition in_order (xs : list static) : Prop :=
  xs = [SoManager] \/ xs = [RoomManager; SoManager] \/ xs = [Intranet; RoomManager; SoManager].

(** The state after the library was loaded. *)
Record loaded (s : process) (a : audit) : Prop := {
  lo_order : in_order (made s);
  lo_so so : so_interface_ s = Some so -> (so < next_so s)%nat;
  lo_nodup : NoDup (rooms_ s ++ closing s);
  lo_fresh r : r ∈ rooms_ s ++ closing s -> (r < next_room s)%nat;
  lo_stopping : stopping_ s = true -> rooms_ s = [];
  lo_manager : RoomManager ∉ made s -> rooms_ s ++ closing s = [];
  lo_audit : exists so, so_interface_ s = Some so /\
    a = Audit 1 {[so]} (list_to_set (rooms_ s ++ closing s));
}.

(** Steps that keep the process in such a state, with legal effects. *)
Definition legal (s : process) (a : audit) (r : list effect * process) : Prop :=
  exists a', observe_all r.1 a = Some a' /\ loaded r.2 a'.

(** Closing rooms that are in the audit. *)
Lemma observe_close rs n so cs :
  n <> 0%nat -> NoDup rs -> list_to_set rs ⊆ cs ->
  observe_all (rs ≫= close_contents) (Audit n so cs) = Some (Audit n so (cs ∖ list_to_set rs)).
Proof.
  intros Hn Hnd Hin. revert cs Hin. induction rs as [|r rs IH]; intros cs Hin.
  { cbn. f_equal. f_equal. set_solver. }
  apply NoDup_cons in Hnd as [Hr Hnd]. cbn -[decide]. cbn in Hin.
  rewrite decide_True by set_solver. cbn -[decide]. rewrite decide_True by set_solver. cbn.
  change (observe_all (rs ≫= close_contents) (Audit n so (cs ∖ {[r]})) =
    Some (Audit n so (cs ∖ ({[r]} ∪ list_to_set rs)))).
  rewrite IH by (done || set_solver). f_equal. f_equal. set_solver.
Qed.

Lemma observe_delete rs n so cs :
  n <> 0%nat -> NoDup rs -> list_to_set rs ⊆ cs ->
  observe_all (DeleteContents <$> rs) (Audit n so cs) = Some (Audit n so (cs ∖ list_to_set rs)).
Proof.
  intros Hn Hnd Hin. revert cs Hin. induction rs as [|r rs IH]; intros cs Hin.
  { cbn. f_equal. f_equal. set_solver. }
  apply NoDup_cons in Hnd as [Hr Hnd]. cbn -[decide]. cbn in Hin.
  rewrite decide_True by set_solver. cbn [mbind option_bind]. rewrite IH by (done || set_solver).
  f_equal. f_equal. set_solver.
Qed.

Lemma loaded_so s a d : loaded s a -> so_manager_instance d s = ([], true, s).
Proof.
  intros [O _ _ _ _ _ _]. unfold so_manager_instance. rewrite decide_True; [done|].
  destruct O as [->|[->| ->]]; set_solver.
Qed.

Lemma loaded_made s a xs :
  loaded s a -> in_order xs -> (RoomManager ∈ made s -> RoomManager ∈ xs) ->
  loaded (s <| made := xs |>) a.
Proof.
  intros [O A B C D E F] Ho Hx. destruct s. split; cbn in *; auto.
Qed.

Lemma loaded_manager s a d :
  loaded s a -> exists s', room_manager_instance d s = ([], true, s') /\ loaded s' a /\
    RoomManager ∈ made s' /\ (Intranet ∈ made s -> s' = s).
Proof.
  intros L. unfold room_manager_instance. rewrite (loaded_so s a d L). cbn.
  destruct (decide (RoomManager ∈ made s)) as [Hm|Hm].
  { rewrite bool_decide_eq_true_2 by done. by exists s. }
  rewrite bool_decide_eq_false_2 by done. cbn. eexists. split; [done|].
  destruct (lo_order _ _ L) as [E|[E|E]]; rewrite E in *; [|set_solver|set_solver].
  split_and!; [|destruct s; set_solver|set_solver].
  apply loaded_made; [done| |set_solver]. right. by left.
Qed.

Lemma loaded_intranet s a d :
  loaded s a -> exists s', intranet_instance d s = ([], true, s') /\ loaded s' a.
Proof.
  intros L. unfold intranet_instance. case_decide as Hi; [by exists s|].
  destruct (loaded_manager s a d L) as (s'&->&L'&Hm&_). cbn.
  destruct (decide (Intranet ∈ made s')) as [Hi'|Hi'].
  { rewrite bool_decide_eq_true_2 by done. by exists s'. }
  rewrite bool_decide_eq_false_2 by done. cbn. eexists. split; [done|].
  destruct (lo_order _ _ L') as [E|[E|E]]; rewrite E in *; [set_solver| |set_solver].
  apply loaded_made; [done| |set_solver]. right. by right.
Qed.

Lemma legal_load s a : loaded s a -> legal s a (load s).
Proof.
  intros [O A B C D E (so&Hso&->)]. pose proof (A so Hso) as Hlt. unfold load. rewrite Hso.
  exists (Audit 1 {[next_so s]} (list_to_set (rooms_ s ++ closing s))). split.
  - cbn -[decide]. rewrite decide_True by set_solver by lia. cbn -[decide].
    rewrite decide_True by set_solver. cbn -[decide]. rewrite decide_True by (split; [done|]; set_solver by lia).
    cbn. f_equal. f_equal. set_solver by lia.
  - destruct s. split; cbn in *; try done; [|eauto]. intros so' [= <-]. lia.
Qed.

Lemma legal_create s a : loaded s a -> RoomManager ∈ made s -> legal s a (create_room s).
Proof.
  intros [O A B C D E (so&Hso&->)] Hm. unfold create_room.
  destruct (stopping_ s) eqn:Es.
  { eexists. split; [done|]. split; eauto. }
  rewrite Hso. assert (Hf : next_room s ∉ rooms_ s ++ closing s) by (intros Hr%C; lia).
  exists (Audit 1 {[so]} (list_to_set (next_room s :: rooms_ s ++ closing s))). split.
  - cbn -[decide]. rewrite decide_True; [done|]. split_and!; [done|set_solver|].
    by rewrite elem_of_list_to_set.
  - destruct s. split; cbn in *; try done; [by apply NoDup_cons|..|eauto].
    + intros r [->|Hr]%elem_of_cons; [lia|]. apply C in Hr. lia.
    + congruence.
Qed.

Lemma filter_removed (r : nat) l :
  NoDup l -> r ∈ l -> l ≡ₚ r :: filter (fun r' => r' <> r) l.
Proof.
  intros Hnd Hr. apply NoDup_Permutation; [done| |].
  - apply NoDup_cons. split; [|by apply NoDup_filter]. by intros [? _]%list_elem_of_filter.
  - intros x. rewrite elem_of_cons, list_elem_of_filter. destruct (decide (x = r)); naive_solver.
Qed.

Lemma list_to_set_perm (l l' : list nat) : l ≡ₚ l' -> list_to_set l =@{gset nat} list_to_set l'.
Proof. intros E. apply set_eq. intros x. by rewrite !elem_of_list_to_set, E. Qed.

Lemma legal_close_room r s a : loaded s a -> legal s a ([], close_room r s).
Proof.
  intros L. unfold close_room. case_decide as Hr; [|by exists a].
  destruct L as [O A B C D E (so&Hso&->)].
  set (s' := s <| rooms_ := _ |> <| closing := _ |>).
  assert (P : rooms_ s' ++ closing s' ≡ₚ rooms_ s ++ closing s).
  { destruct s as [m i ns rs cs nr st]. cbn in *. apply NoDup_app in B as (B&_&_).
    rewrite <- Permutation_middle. rewrite (filter_removed r rs B Hr) at 2. done. }
  exists (Audit 1 {[so]} (list_to_set (rooms_ s ++ closing s))). split; [done|]. split.
  - by destruct s.
  - by destruct s.
  - by rewrite P.
  - intros r'. rewrite P. by destruct s; apply C.
  - intros Hs. destruct s. cbn in *. by rewrite (D Hs) in Hr; apply elem_of_nil in Hr.
  - intros Hm. destruct s. cbn in *. specialize (E Hm). destruct rooms_0; [by apply elem_of_nil in Hr|done].
  - exists so. split; [by destruct s|]. f_equal. symmetry. by apply list_to_set_perm.
Qed.

Lemma legal_run_close r s a : loaded s a -> legal s a (run_close r s).
Proof.
  intros L. unfold run_close. case_decide as Hr; [|by exists a].
  destruct L as [O A B C D E (so&Hso&->)]. destruct s as [m i ns rs cs nr st]. cbn -[decide observe_all] in *.
  apply NoDup_app in B as (B1&B2&B3).
  exists (Audit 1 {[so]} (list_to_set (rs ++ filter (fun r' => r' <> r) cs))). split.
  - cbn -[decide]. rewrite decide_True by (split; [done|]; set_solver). cbn -[decide].
    rewrite decide_True by (split; [done|]; set_solver). cbn. f_equal. f_equal.
    apply set_eq. intros x. rewrite elem_of_difference, !elem_of_list_to_set, !elem_of_app,
      list_elem_of_filter, elem_of_singleton. destruct (decide (x = r)) as [->|]; [|naive_solver].
    specialize (B2 r). naive_solver.
  - assert (Hsub : forall x, x ∈ filter (fun r' => r' <> r) cs -> x ∈ cs)
      by (by intros x [_ ?]%list_elem_of_filter).
    split; cbn; try done; [| | |eauto].
    + apply NoDup_app. split_and!; [done|set_solver|by apply NoDup_filter].
    + intros x Hx. apply C. set_solver.
    + intros Hm. destruct (proj1 (app_nil _ _) (E Hm)) as [-> ->]. done.
Qed.

Lemma legal_shutdown s a : loaded s a -> legal s a (shutdown s).
Proof.
  intros L. unfold shutdown. destruct (stopping_ s) eqn:Es; [by exists a|].
  destruct L as [O A B C D E (so&Hso&->)]. destruct s as [m i ns rs cs nr st]. cbn -[observe_all mbind] in *.
  apply NoDup_app in B as (B1&B2&B3).
  exists (Audit 1 {[so]} (list_to_set cs)). split.
  - cbn [fst]. rewrite observe_close by (done || set_solver). f_equal. f_equal.
    apply set_eq. intros x. rewrite elem_of_difference, !elem_of_list_to_set, !elem_of_app.
    specialize (B2 x). naive_solver.
  - split; cbn; try done; [| |eauto].
    + intros x Hx. apply C. set_solver.
    + intros Hm. by destruct (proj1 (app_nil _ _) (E Hm)) as [-> ->].
Qed.

Lemma legal_on_manager d f s a :
  loaded s a ->
  (forall s', loaded s' a -> RoomManager ∈ made s' -> legal s' a (f s')) ->
  legal s a (on_instance (room_manager_instance d s) f).
Proof.
  intros L Hf. destruct (loaded_manager s a d L) as (s'&->&L'&Hm&_). cbn.
  destruct (Hf s' L' Hm) as (a'&Ha&La). destruct (f s') as [es s2]. by exists a'.
Qed.

Lemma legal_exec o s a : loaded s a -> legal s a (exec o s).
Proof.
  intros L. destruct o as [d|d|d|d|d|r|r|d]; cbn [exec].
  - rewrite (loaded_so s a d L). cbn. by exists a.
  - apply legal_on_manager; [done|]. intros s' L' _. by exists a.
  - destruct (loaded_intranet s a d L) as (s'&->&L'). cbn. by exists a.
  - rewrite (loaded_so s a d L). cbn [on_instance]. destruct (legal_load s a L) as (a'&Ha&La).
    destruct (load s) as [es s']. by exists a'.
  - apply legal_on_manager; [done|]. intros s' L' Hm. by apply legal_create.
  - by apply legal_close_room.
  - by apply legal_run_close.
  - apply legal_on_manager; [done|]. intros s' L' _. by apply legal_shutdown.
Qed.

Lemma legal_run ops s a :
  loaded s a -> exists a', observe_all (mjoin (run exec ops s).1) a = Some a' /\
    loaded (run exec ops s).2 a'.
Proof.
  revert s a. induction ops as [|o ops IH]; intros s a L; [by exists a|].
  rewrite run_cons. cbn [fst snd]. rewrite mjoin_cons, observe_app.
  destruct (legal_exec o s a L) as (a1&->&L1). by apply IH.
Qed.

(** ** The end *)

(** The statics go in the order channel, rooms, library. *)
Lemma loaded_start d :
  open_ok d = true -> symbol_ok d = true ->
  observe_all (exec (Load d) process_start).1 audit_start = Some (Audit 1 {[0%nat]} ∅) /\
  loaded (exec (Load d) process_start).2 (Audit 1 {[0%nat]} ∅).
Proof.
  destruct d as [[] []]; try done. intros _ _. split; [done|].
  split; cbn; try done; [by left|intros so Hso; vm_compute in Hso |- *; injection Hso as <-; lia|constructor|by intros r Hr%elem_of_nil|eauto].
Qed.

(** [~room_manager] leaves no contents. *)
Lemma manager_gone s a :
  loaded s a -> exists so, so_interface_ (room_manager_destroy s).2 = Some so /\
    observe_all (room_manager_destroy s).1 a = Some (Audit 1 {[so]} ∅).
Proof.
  intros L. destruct (legal_shutdown s a L) as (a1&Ha&L1).
  assert (Hr : rooms_ (shutdown s).2 = []).
  { unfold shutdown. destruct (stopping_ s) eqn:Es; [by apply (lo_stopping _ _ L)|by destruct s]. }
  unfold room_manager_destroy. destruct (shutdown s) as [es s1]. cbn [fst snd] in *.
  destruct L1 as [_ _ B _ _ _ (so&Hso&->)]. rewrite Hr in *. cbn [app] in *.
  exists so. split; [by destruct s1|]. rewrite observe_app, Ha. cbn [mbind option_bind].
  rewrite observe_delete by done. f_equal. f_equal. set_solver.
Qed.

Lemma manager_destroy_made xs s :
  room_manager_destroy (s <| made := xs |>)
  = ((room_manager_destroy s).1, (room_manager_destroy s).2 <| made := xs |>).
Proof. unfold room_manager_destroy, shutdown. by destruct s as [m i ns rs cs nr []]. Qed.

(** [~so_manager], last. *)
Lemma library_gone so s :
  so_interface_ s = Some so ->
  observe_all (so_manager_destroy s).1 (Audit 1 {[so]} ∅) = Some audit_start.
Proof.
  intros Hso. unfold so_manager_destroy, unload. rewrite Hso. cbn -[decide].
  rewrite decide_True by set_solver. cbn -[decide]. rewrite decide_True by set_solver. cbn -[decide].
  rewrite decide_True by set_solver. cbn. unfold audit_start. f_equal. f_equal. set_solver.
Qed.

Lemma destroy_cons fuel x xs s :
  made s = x :: xs ->
  destroy_all (S fuel) s =
    let r := destroy x (s <| made := xs |>) in
    let r' := destroy_all fuel r.2 in (r.1 ++ r'.1, r'.2).
Proof.
  intros E. cbn [destroy_all]. rewrite E. cbn zeta. destruct (destroy x _) as [es s1]. cbn [fst snd].
  by destruct (destroy_all fuel s1).
Qed.

Lemma exit_library so s :
  made s = [SoManager] -> so_interface_ s = Some so ->
  observe_all (destroy_all 1 s).1 (Audit 1 {[so]} ∅) = Some audit_start.
Proof.
  intros E Hso. destruct s as [m i ns rs cs nr st]. cbn in E, Hso. subst m i.
  exact (library_gone so (Process [] (Some so) ns rs cs nr st) eq_refl).
Qed.

(** From the destruction of the rooms on. *)
Lemma exit_rooms s a :
  loaded s a -> made s = [RoomManager; SoManager] ->
  observe_all (destroy_all 2 s).1 a = Some audit_start.
Proof.
  intros L E. destruct (manager_gone s a L) as (so&Hso&Ha). rewrite (destroy_cons 1 _ _ s E).
  cbn [destroy fst]. cbn zeta. rewrite manager_destroy_made. cbn [fst snd].
  rewrite observe_app, Ha. cbn [mbind option_bind].
  apply exit_library; destruct (room_manager_destroy s) as [es []]; done.
Qed.

Lemma exit_all s a : loaded s a -> observe_all (exit s).1 a = Some audit_start.
Proof.
  intros L. unfold exit. destruct (lo_order _ _ L) as [E|[E|E]]; rewrite E; cbn [length].
  - pose proof (lo_manager _ _ L) as Hm. destruct L as [_ _ _ _ _ _ (so&Hso&->)].
    rewrite Hm by (rewrite E; set_solver). by apply exit_library.
  - by apply exit_rooms.
  - set (s1 := s <| made := [RoomManager; SoManager] |>).
    assert (L1 : loaded s1 a) by (apply loaded_made; [done|right; by left|set_solver]).
    assert (E1 : made s1 = [RoomManager; SoManager]) by (by destruct s).
    rewrite (destroy_cons 2 _ _ s E). cbn [destroy]. cbn zeta. fold s1.
    unfold intranet_destroy. rewrite E1, decide_True by set_solver.
    destruct (legal_shutdown s1 a L1) as (a2&Ha&L2).
    assert (E2 : made (shutdown s1).2 = made s1) by (unfold shutdown; case_match; by destruct s).
    destruct (shutdown s1) as [es s2]. cbn [fst snd] in *.
    change (StopChannel :: es) with ([StopChannel] ++ es). rewrite <- app_assoc, observe_app.
    replace (observe_all [StopChannel] a) with (Some a) by (by destruct a).
    cbn [mbind option_bind]. rewrite observe_app, Ha. apply exit_rooms; [done|congruence].
Qed.

Module LifetimeProperties.


(** A room is left open, another is being closed when the process ends. *)
Definition busy : list op :=
  [CreateRoom (Dl true true); CreateRoom (Dl true true); CloseRoom 1].


(** A second [load] deletes the first object without [on_unload]. *)
Lemma reload_skips_unload d :
  (run exec [Load d; Load d] process_start).1
  = if open_ok d && symbol_ok d
    then [[Dlopen; Create 0; OnLoad 0]; [Create 1; DeleteSo 0; OnLoad 1]]
    else if open_ok d then [[Dlopen; Thrown]; [Dlopen; Thrown]] else [[Thrown]; [Thrown]].
Proof. by destruct d as [[] []]. Qed.
End LifetimeProperties.
