(* ===== verification/Server.v ===== *)
(** * Server: the TCP server and its observers

    Models [rsp-libs/include/rsplib/server/tcp_server.hpp] and [server_event.hpp]
    over [Connection]: the accept loop, the set of subscribers and the close
    handler every connection is made with.  A connection is a position in the
    list of all connections made; [None] is one that [async_accept] has not
    accepted (or failed to).  Observers are objects with a state of their own,
    behind the interface [server_event]. *)

From S2P Require Import Prelude Wire Interpreter Connection.
From coqutil Require Import Datatypes.RecordSetters.
Import TriangleBracketNotations.
Import interpreter.
#[local] Arguments constant {_} _ _ /.

Notation connection_ptr := nat (only parsing).

(** [on_conn_created] may attach a link to the connection. *)
Class server_event (E : Type) := {
  on_conn_created : connection_ptr -> E -> link_ptr * E;
  on_conn_closed : connection_ptr -> E -> E;
}.

Section server.
Context {D : Type} `{message_dispatcher_interface D} (d0 : D).
Context {E : Type} `{server_event E}.

Record tcp_server := TcpServer {
  connections : list (option (tcp_connection D));
  event_subscribers_ : gset nat;
  observers : gmap nat E;
}.

Definition subscribe (p : nat) (s : tcp_server) : tcp_server :=
  s <| event_subscribers_ := {[p]} ∪ event_subscribers_ s |>.

Definition unsubscribe (p : nat) (s : tcp_server) : tcp_server :=
  s <| event_subscribers_ := event_subscribers_ s ∖ {[p]} |>.

(** The calls of one observer. *)
Definition created_one (c : connection_ptr) (st : link_ptr * gmap nat E) (p : nat)
    : link_ptr * gmap nat E :=
  match st.2 !! p with
  | None => st
  | Some x =>
      let '(l, x) := on_conn_created c x in
      (match l with Some _ => l | None => st.1 end, <[p := x]> st.2)
  end.

Definition closed_one (c : connection_ptr) (obs : gmap nat E) (p : nat) : gmap nat E :=
  match obs !! p with
  | None => obs
  | Some x => <[p := on_conn_closed c x]> obs
  end.

Definition notify_on_created (c : connection_ptr) (s : tcp_server)
    : link_ptr * tcp_server :=
  let '(l, obs) := foldl (created_one c) (None, observers s)
                     (elements (event_subscribers_ s)) in
  (l, s <| observers := obs |>).

Definition notify_on_closed (c : connection_ptr) (s : tcp_server) : tcp_server :=
  s <| observers := foldl (closed_one c) (observers s)
                      (elements (event_subscribers_ s)) |>.

(** The new connection is the last of the list, until it is accepted. *)
Definition start_accept (s : tcp_server) : tcp_server :=
  s <| connections := connections s ++ [None] |>.

Definition handle_accept (c : connection_ptr) (error : bool) (s : tcp_server) : tcp_server :=
  if error then start_accept s
  else
    let '(l, s) := notify_on_created c s in
    let conn := post TStart (Connection.create d0 l kMaxPendingSendBytes) in
    start_accept (s <| connections := <[c := Some conn]> (connections s) |>).

(** A handler of connection [c]; its close handler notifies the observers. *)
Definition on_connection (c : connection_ptr) (e : Connection.event) (s : tcp_server)
    : list Connection.effect * tcp_server :=
  match connections s !! c with
  | Some (Some conn) =>
      let '(es, conn) := Connection.exec e conn in
      let s := s <| connections := <[c := Some conn]> (connections s) |> in
      (es, if existsb is_on_closed es then notify_on_closed c s else s)
  | _ => ([], s)
  end.

Inductive event :=
  | Subscribe (p : nat)
  | Unsubscribe (p : nat)
  | AcceptDone (error : bool)
  | OnConnection (c : connection_ptr) (e : Connection.event).

(** The effects of a step, by connection. *)
Definition exec (e : event) (s : tcp_server)
    : list (connection_ptr * Connection.effect) * tcp_server :=
  match e with
  | Subscribe p => ([], subscribe p s)
  | Unsubscribe p => ([], unsubscribe p s)
  | AcceptDone error =>
      match connections s with
      | [] => ([], s)
      | _ => ([], handle_accept (pred (length (connections s))) error s)
      end
  | OnConnection c e =>
      let '(es, s) := on_connection c e s in (pair c <$> es, s)
  end.

(** The server with the given observers, subscribed in the order of [ps], after
    [start]. *)
Definition server_start (obs : gmap nat E) (ps : list nat) : tcp_server :=
  start_accept (foldr subscribe (TcpServer [] ∅ obs) ps).

(** ** Notifications *)

Lemma created_one_ne c st p q : q <> p -> (created_one c st q).2 !! p = st.2 !! p.
Proof.
  intros Hne. unfold created_one. destruct (st.2 !! q) as [x|]; [|done].
  destruct (on_conn_created c x). cbn. by rewrite lookup_insert_ne.
Qed.

Lemma closed_one_ne c obs p q : q <> p -> closed_one c obs q !! p = obs !! p.
Proof.
  intros Hne. unfold closed_one. destruct (obs !! q); [|done]. by rewrite lookup_insert_ne.
Qed.

Lemma fold_created_ne c ps st p : p ∉ ps -> (foldl (created_one c) st ps).2 !! p = st.2 !! p.
Proof.
  revert st. induction ps as [|q ps IH]; intros st Hp; [done|]. cbn [foldl].
  apply not_elem_of_cons in Hp as [Hne Hp]. rewrite IH by done. by apply created_one_ne.
Qed.

Lemma fold_closed_ne c ps obs p : p ∉ ps -> foldl (closed_one c) obs ps !! p = obs !! p.
Proof.
  revert obs. induction ps as [|q ps IH]; intros obs Hp; [done|]. cbn [foldl].
  apply not_elem_of_cons in Hp as [Hne Hp]. rewrite IH by done. by apply closed_one_ne.
Qed.

(** A subscriber is told once; nobody else is. *)
Lemma notify_created_observer c s p :
  observers (notify_on_created c s).2 !! p =
    if decide (p ∈ event_subscribers_ s) then (fun x => (on_conn_created c x).2) <$> observers s !! p
    else observers s !! p.
Proof.
  unfold notify_on_created.
  assert (Hf : forall ps st, NoDup ps -> (foldl (created_one c) st ps).2 !! p =
    if decide (p ∈ ps) then (fun x => (on_conn_created c x).2) <$> st.2 !! p else st.2 !! p).
  { intros ps st Hn. case_decide as Hp; [|by apply fold_created_ne].
    apply list_elem_of_split in Hp as (ps1&ps2&->). rewrite foldl_app. cbn [foldl].
    apply NoDup_app in Hn as (_&Hd&Hn2). apply NoDup_cons in Hn2 as [Hp2 _].
    rewrite fold_created_ne by done. unfold created_one at 1.
    rewrite fold_created_ne by set_solver.
    destruct (st.2 !! p) as [x|] eqn:Ex.
    - cbn. destruct (on_conn_created c x). cbn. by rewrite lookup_insert_eq.
    - cbn. by rewrite fold_created_ne by set_solver. }
  specialize (Hf (elements (event_subscribers_ s)) (None, observers s)
    (NoDup_elements _)).
  destruct (foldl _ _ _) as [l obs]. destruct s as [cs subs ob]. cbn in *. rewrite Hf.
  repeat case_decide; set_solver.
Qed.

Lemma notify_closed_observer c s p :
  observers (notify_on_closed c s) !! p =
    if decide (p ∈ event_subscribers_ s) then on_conn_closed c <$> observers s !! p
    else observers s !! p.
Proof.
  assert (Hf : forall ps obs, NoDup ps -> foldl (closed_one c) obs ps !! p =
    if decide (p ∈ ps) then on_conn_closed c <$> obs !! p else obs !! p).
  { intros ps obs Hn. case_decide as Hp; [|by apply fold_closed_ne].
    apply list_elem_of_split in Hp as (ps1&ps2&->). rewrite foldl_app. cbn [foldl].
    apply NoDup_app in Hn as (_&Hd&Hn2). apply NoDup_cons in Hn2 as [Hp2 _].
    rewrite fold_closed_ne by done. unfold closed_one at 1.
    rewrite fold_closed_ne by set_solver.
    destruct (obs !! p) as [x|] eqn:Ex; [by rewrite lookup_insert_eq|].
    by rewrite fold_closed_ne by set_solver. }
  specialize (Hf (elements (event_subscribers_ s)) (observers s) (NoDup_elements _)).
  destruct s as [cs subs ob]. cbn in *. rewrite Hf. repeat case_decide; set_solver.
Qed.

Lemma notify_created_rest c s :
  connections (notify_on_created c s).2 = connections s /\
  event_subscribers_ (notify_on_created c s).2 = event_subscribers_ s.
Proof. unfold notify_on_created. destruct (foldl _ _ _). by destruct s. Qed.

Lemma notify_closed_rest c s :
  connections (notify_on_closed c s) = connections s /\
  event_subscribers_ (notify_on_closed c s) = event_subscribers_ s.
Proof. by destruct s. Qed.
End server.
Arguments tcp_server : clear implicits.

(** ** An observer that records what it is told *)

Module recorder_observer.
Inductive notice := Created (c : connection_ptr) | Closed (c : connection_ptr).

#[export] Instance notices : server_event (list notice) := {
  on_conn_created c x := (None, x ++ [Created c]);
  on_conn_closed c x := x ++ [Closed c];
}.
End recorder_observer.
Import recorder_observer.

Section lifecycle.
Context {D : Type} `{message_dispatcher_interface D} (d0 : D).

Definition about (c : connection_ptr) (n : notice) : bool :=
  match n with Created c' | Closed c' => bool_decide (c' = c) end.

(** What an observer was told of a connection. *)
Definition told (c : connection_ptr) (x : list notice) : list notice :=
  filter (fun n => about c n = true) x.

Definition expected (c : connection_ptr) (o : option (option (tcp_connection D)))
    : list notice :=
  match o with
  | Some (Some conn) => Created c :: if closed_ conn then [Closed c] else []
  | _ => []
  end.

Lemma told_snoc c x n :
  told c (x ++ [n]) = told c x ++ (if about c n then [n] else []).
Proof.
  unfold told. rewrite filter_app. f_equal. destruct (about c n) eqn:Ea.
  - by rewrite filter_cons_True.
  - by rewrite filter_cons_False by congruence.
Qed.

Record live (p : nat) (s : tcp_server D (list notice)) : Prop := {
  lv_subscribed : p ∈ event_subscribers_ s;
  lv_told : exists x, observers s !! p = Some x /\
    forall c, told c x = expected c (connections s !! c);
  lv_good c conn : connections s !! c = Some (Some conn) -> exists es, good es [] 0 conn;
  lv_pending : last (connections s) = Some None;
}.

(** The close handler runs in the step that closes the connection. *)
Lemma closing_step es e conn :
  good es [] 0 conn -> event_ok e ->
  existsb is_on_closed (Connection.exec e conn).1 =
    closed_ (Connection.exec e conn).2 && negb (closed_ conn) /\
  (closed_ conn = true -> closed_ (Connection.exec e conn).2 = true).
Proof.
  intros G He. pose proof (good_on_closed _ _ _ _ G) as H1.
  pose proof (good_on_closed _ _ _ _ (good_exec _ _ _ G He)) as H2.
  rewrite count_app in H2. pose proof (count_nonneg is_on_closed (Connection.exec e conn).1).
  pose proof (existsb_count is_on_closed (Connection.exec e conn).1) as Hb.
  destruct (existsb _ _), (closed_ conn), (closed_ (Connection.exec e conn).2); cbn in *;
    split; try done; lia.
Qed.

Lemma live_start p ps (obs : gmap nat (list notice)) :
  p ∈ ps -> obs !! p = Some [] -> live p (server_start (D := D) obs ps).
Proof.
  intros Hp Ho. unfold server_start.
  set (s := foldr subscribe (TcpServer [] ∅ obs) ps).
  assert (Hs : connections s = [] /\ observers s = obs /\ p ∈ event_subscribers_ s).
  { unfold s. clear s. induction ps as [|q ps IH]; [set_solver|]. cbn [foldr].
    destruct (decide (p ∈ ps)) as [Hin|Hin].
    - destruct (IH Hin) as (E1&E2&E3). destruct (foldr _ _ _). cbn in *. set_solver.
    - assert (p = q) as -> by set_solver. clear IH Hp Hin.
      assert (Hg : connections (foldr subscribe (TcpServer (D := D) [] ∅ obs) ps) = [] /\
                   observers (foldr subscribe (TcpServer (D := D) [] ∅ obs) ps) = obs).
      { induction ps as [|r ps IH]; [done|]. cbn [foldr]. by destruct (foldr _ _ _). }
      destruct (foldr _ _ _). cbn in *. set_solver. }
  destruct s as [cs subs ob]. cbn in Hs. destruct Hs as (->&->&Hin).
  split; cbn; [done| | |done].
  - exists []. split; [done|]. by intros [|[|c]].
  - by intros [|[|c]] conn.
Qed.

Lemma lookup_pending {A} (l : list (option A)) c :
  (l ++ [None]) !! c = l !! c \/ (l !! c = None /\ (l ++ [None]) !! c = Some None).
Proof.
  destruct (decide (c < length l)%nat) as [Hl|Hl]; [left; by apply lookup_app_l|].
  destruct (decide (c = length l)) as [->|].
  - right. split; [by apply lookup_ge_None|]. by rewrite list_lookup_middle.
  - left. rewrite !lookup_ge_None_2; [done|lia|]. rewrite length_app. cbn. lia.
Qed.

Lemma expected_pending c l : expected c ((l ++ [None]) !! c) = expected c (l !! c).
Proof. by destruct (lookup_pending l c) as [->|[-> ->]]. Qed.

Lemma good_pending l c (conn : tcp_connection D) :
  (l ++ [None]) !! c = Some (Some conn) -> l !! c = Some (Some conn).
Proof. by destruct (lookup_pending l c) as [->|[_ ->]]. Qed.

Lemma good_accepted l : good [] [] 0 (post TStart (Connection.create d0 l kMaxPendingSendBytes)).
Proof.
  apply good_post; [done..|]. apply good_create. unfold kMaxPendingSendBytes. lia.
Qed.

Lemma live_accept p error s :
  live p s -> live p (handle_accept d0 (pred (length (connections s))) error s).
Proof.
  intros [Hp (x&Hx&Ht) Hg Hl]. unfold handle_accept. destruct error.
  { destruct s as [cs subs ob]. cbn in *. split; cbn; [done| | |by rewrite last_snoc].
    - exists x. split; [done|]. intros c. by rewrite expected_pending.
    - intros c conn Hc%good_pending. eauto. }
  set (c0 := pred (length (connections s))).
  pose proof (notify_created_observer c0 s p) as Ho. rewrite decide_True, Hx in Ho by done.
  destruct (notify_created_rest c0 s) as [Ec Es].
  assert (Hc0 : connections s !! c0 = Some None) by (by unfold c0; rewrite <- last_lookup).
  destruct (notify_on_created c0 s) as [l s1]. cbn in Ho, Ec, Es.
  destruct s1 as [cs subs ob]. cbn in *. subst cs subs.
  split; cbn; [done| | |by rewrite last_snoc].
  - exists (x ++ [Created c0]). split; [done|]. intros c. rewrite expected_pending, told_snoc, Ht.
    destruct (decide (c = c0)) as [->|Hne].
    + rewrite list_lookup_insert_eq by (by eapply lookup_lt_Some). rewrite Hc0. cbn.
      by rewrite bool_decide_true.
    + rewrite list_lookup_insert_ne by done. cbn. rewrite bool_decide_false by done.
      apply app_nil_r.
  - intros c conn Hc%good_pending.
    apply list_lookup_insert_Some in Hc as [(_&Hc&_)|[_ Hc]]; [|eauto].
    simplify_eq. exists []. apply good_accepted.
Qed.

Lemma live_connection p c e s :
  event_ok e -> live p s -> live p (on_connection c e s).2.
Proof.
  intros He [Hp (x&Hx&Ht) Hg Hl]. unfold on_connection.
  destruct (connections s !! c) as [[conn|]|] eqn:Ec; [|by split; eauto..].
  destruct (Hg _ _ Ec) as [es0 G]. destruct (closing_step _ e _ G He) as [Hcl Hst].
  pose proof (good_exec _ _ _ G He) as G'.
  destruct (Connection.exec e conn) as [es conn']. cbn [fst snd] in *.
  set (s1 := s <| connections := <[c := Some conn']> (connections s) |>).
  assert (Hlast : last (<[c := Some conn']> (connections s)) = Some None).
  { rewrite !last_lookup, length_insert in *. rewrite list_lookup_insert_ne; [done|].
    intros ->. congruence. }
  assert (Hgood : forall c' k, <[c := Some conn']> (connections s) !! c' = Some (Some k) ->
    exists es, good es [] 0 k).
  { intros c' k Hc. apply list_lookup_insert_Some in Hc as [(_&Hc&_)|[_ Hc]]; simplify_eq; eauto. }
  assert (Hexp : forall c', expected c' (<[c := Some conn']> (connections s) !! c') =
    told c' x ++ (if decide (c' = c) then
                    if existsb is_on_closed es then [Closed c] else [] else [])).
  { intros c'. rewrite Ht. destruct (decide (c' = c)) as [->|Hne].
    - rewrite list_lookup_insert_eq by (by eapply lookup_lt_Some). rewrite Ec, Hcl. cbn.
      destruct (closed_ conn) eqn:E1; [by rewrite Hst|]. by destruct (closed_ conn').
    - rewrite list_lookup_insert_ne by done. by rewrite app_nil_r. }
  destruct (existsb is_on_closed es) eqn:Eb.
  - pose proof (notify_closed_observer c s1 p) as Ho.
    destruct (notify_closed_rest c s1) as [E1 E2]. subst s1.
    destruct s as [cs subs ob]. cbn in Hx, Hp. rewrite decide_True in Ho by done.
    cbn in Ho. rewrite Hx in Ho. cbn in E1, E2, Hlast, Hgood, Hexp.
    split; [done| |done|done]. exists (x ++ [Closed c]). split; [done|].
    intros c'. cbn [snd]. rewrite told_snoc. cbn. rewrite Hexp. f_equal.
    repeat case_decide; cbn; try done; by repeat case_bool_decide.
  - subst s1. destruct s as [cs subs ob]. cbn in *. split; cbn; [done| |done|done].
    exists x. split; [done|]. intros c'. rewrite Hexp. case_decide; by rewrite app_nil_r.
Qed.

(** Events that keep [p] subscribed. *)
Definition keeps (p : nat) (e : event) : Prop :=
  match e with
  | Unsubscribe q => q <> p
  | OnConnection _ e => event_ok e
  | _ => True
  end.

Lemma live_exec p e s : keeps p e -> live p s -> live p (exec d0 e s).2.
Proof.
  intros Hk Hl. destruct e as [q|q|error|c e]; cbn [exec].
  - destruct Hl as [Hp Ho Hg Hl], s. cbn in *. split; [set_solver|done..].
  - destruct Hl as [Hp Ho Hg Hl], s. cbn in *. split; [set_solver|done..].
  - destruct (connections s) eqn:Ec; [done|]. rewrite <- Ec. by apply live_accept.
  - pose proof (live_connection p c e s Hk Hl). by destruct (on_connection c e s).
Qed.

Lemma live_run p evs s : Forall (keeps p) evs -> live p s -> live p (run (exec d0) evs s).2.
Proof.
  intros He. revert s. induction He as [|e evs He _ IH]; intros s Hs; [done|].
  rewrite run_cons. cbn [snd]. apply IH. by apply live_exec.
Qed.
End lifecycle.

Module ServerProperties.
Import recorder.

(** C18. The life of a connection, as its observers see it.  In every
    interleaving of accepts (failed ones too), reads, writes, sends and stops
    of all connections, a subscriber is told of a connection nothing before it
    is accepted, that it was created when it is, and that it was closed, once,
    when it has been closed; and the server keeps one accept outstanding. *)
Theorem connection_lifecycle {D} `{message_dispatcher_interface D} (d0 : D) p ps obs evs :
  p ∈ ps -> obs !! p = Some [] -> Forall (keeps p) evs ->
  let s := (run (exec d0) evs (server_start obs ps)).2 in
  (exists x, observers s !! p = Some x /\
     forall c, told c x = match connections s !! c with
                          | Some (Some conn) =>
                              Created c :: if closed_ conn then [Closed c] else []
                          | _ => []
                          end) /\
  last (connections s) = Some None.
Proof.
  intros Hp Ho He. cbn zeta.
  destruct (live_run d0 p evs _ He (live_start p ps obs Hp Ho)) as [_ Ht _ Hl]. auto.
Qed.

(** Two clients; the accept of a third fails; the first one disconnects. *)
Definition two_clients : list event :=
  [AcceptDone false; AcceptDone false; AcceptDone true;
   OnConnection 0 (RunTask false); OnConnection 0 (ReadDone eof [] 0 false)].

Lemma connection_lifecycle_witness :
  let s := (run (exec ([] : log)) two_clients (server_start {[7%nat := []]} [7%nat])).2 in
  observers s !! 7%nat = Some [Created 0; Created 1; Closed 0] /\
  last (connections s) = Some None.
Proof.
  split; [vm_compute; reflexivity|].
  refine (proj2 (connection_lifecycle ([] : log) 7 [7%nat] {[7%nat := []]} two_clients _ _ _)).
  - constructor.
  - reflexivity.
  - repeat constructor.
Defined.
End ServerProperties.
