(* ===== verification/Sessions.v ===== *)
(** * Sessions: the User server between its clients and the Room server

    Models [rsp-svr/user]: [session/session.hpp] with [src/session/session.cpp],
    [session/session_manager.hpp], the nine jobs of [job/], the request path of
    [intranet/room_channel.hpp] and [server/acceptor.hpp].  Sessions and jobs
    are shared pointers: the heaps [heap_] and [jobs_] hold the objects.

    What a session does happens in handlers of its strand, one at a time and in
    the order they were posted; a handler is one step.  A job that completes
    inside [run] makes the scheduler run the next one before [run] returns:
    [work] is that chain of calls, driven by the effects of the scheduler.
    Handlers of different sessions, the channel thread and the timer thread
    interleave freely, so an execution is a list of [event]s. *)

From S2P Require Import Prelude Scheduler Pending.
From coqutil Require Import Datatypes.RecordSetters.
Import TriangleBracketNotations.
#[local] Arguments constant {_} _ _ /.

Notation session_ptr := nat (only parsing).
Notation job_ptr := nat (only parsing).
Notation connection_ptr := nat (only parsing).

(** Messages to the client, to the Room server, and responses of the latter. *)
Inductive client_message :=
  | ResLogin (u : string) (success is_attached : bool) (room_id : Z)
  | ResLogout (u : string)
  | ResCreateRoom (request_id : Z) (success : bool) (room_id : Z)
  | ResJoinRoom (request_id : Z) (success : bool) (room_id : Z)
  | ResLeaveRoom (request_id : Z) (success : bool)
  | FwdClient (u sender_uid : string) (sender_type : Z) (msg : string)
  | NtfLeaveRoom (reason : Z)
  | Pong.

Inductive room_message :=
  | User2RoomReqCreateRoom (request_id : Z) (u : string)
  | User2RoomReqJoinRoom (request_id : Z) (u : string) (room_id : Z)
  | User2RoomReqLeaveRoom (request_id : Z) (u : string)
  | User2RoomFwdRoom (u msg : string)
  | User2RoomCancelRequest (request_id : Z).

Inductive room_response :=
  | User2RoomResCreateRoom (success : bool) (room_id : Z)
  | User2RoomResJoinRoom (success : bool) (room_id : Z)
  | User2RoomResLeaveRoom (success : bool).

(** The job classes, with the request each one holds. *)
Inductive job_kind :=
  | job_login (u : string)
  | job_logout
  | job_stop (force_close : bool)
  | job_create_room (request_id : Z)
  | job_join_room (request_id room_id : Z)
  | job_leave_room (request_id : Z)
  | job_forward_message (msg : string)
  | job_cli_forward_message (u sender_uid : string) (sender_type : Z) (msg : string)
  | job_ntf_leave_room_message (reason : Z).

Record job := Job {
  kind : job_kind;
  session_ : session_ptr;
  done_ : option nat;            (** the completion closure of the scheduler *)
  room_request_id_ : Z;
  finished_ : bool;
}.

(** Handlers posted to the strand of a session. *)
Inductive task :=
  | TPush (j : job_ptr)
  | TResponse (j : job_ptr) (r : room_response)
  | TTimeout (j : job_ptr)
  | TDisconnected.

Record session := Session {
  conn_ : connection_ptr;
  uid_ : string;
  room_id_ : Z;
  stop_ : bool;
  scheduler_ : job_scheduler nat;
  strand_ : list task;
}.

(** The constructor; the strand and the scheduler are empty. *)
Definition new_session (conn : connection_ptr) : session :=
  Session conn "" 0 false scheduler_empty [].

Definition set_user (uid : string) (x : session) : session := x <| uid_ := uid |>.
Definition set_enter_room (room_id : Z) (x : session) : session := x <| room_id_ := room_id |>.
Definition set_leave_room (x : session) : session := x <| room_id_ := 0 |>.

Record user_server := UserServer {
  heap_ : list session;
  jobs_ : list job;
  sessions_ : gmap nat session_ptr;
  uid_sessions_ : gmap string session_ptr;
  next_request_id_ : Z;
  requests_ : pending_requests nat (nat * Z);
}.

Definition server_start : user_server :=
  UserServer [] [] ∅ ∅ 1 (PendingRequests ∅ true true).

(** What the server does to the outside.  [by] is the job that sent the message. *)
Inductive effect :=
  | ToClient (by_job : option job_ptr) (conn : connection_ptr) (m : client_message)
  | ToRoom (m : room_message)
  | StopConnection (conn : connection_ptr) (force : bool)
  | Crash
  | OutOfFuel.

Definition set_session (i : session_ptr) (x : session) (s : user_server) : user_server :=
  s <| heap_ := <[i := x]> (heap_ s) |>.
Definition set_job (j : job_ptr) (x : job) (s : user_server) : user_server :=
  s <| jobs_ := <[j := x]> (jobs_ s) |>.

(** [post_to_serial_context]. *)
Definition post (i : session_ptr) (t : task) (s : user_server) : user_server :=
  match heap_ s !! i with
  | None => s
  | Some x => set_session i (x <| strand_ := strand_ x ++ [t] |>) s
  end.

(** A job is made and enqueued ([std::make_shared<job>] and [enqueue_job]). *)
Definition enqueue_job (i : session_ptr) (k : job_kind) (s : user_server) : user_server :=
  let j := length (jobs_ s) in
  post i (TPush j) (s <| jobs_ := jobs_ s ++ [Job k i None 0 false] |>).

Definition enqueue_stop (i : session_ptr) (force : bool) (s : user_server) : user_server :=
  enqueue_job i (job_stop force) s.

(** ** session_manager *)

Module session_manager.
Definition add_session (i : session_ptr) (s : user_server) : user_server :=
  match heap_ s !! i with
  | None => s
  | Some x =>
      let s := s <| sessions_ := <[conn_ x := i]> (sessions_ s) |> in
      if decide (uid_ x = "") then s
      else s <| uid_sessions_ := <[uid_ x := i]> (uid_sessions_ s) |>
  end.

Definition add_connection (conn : connection_ptr) (s : user_server) : user_server :=
  match sessions_ s !! conn with
  | Some _ => s
  | None =>
      let i := length (heap_ s) in
      s <| heap_ := heap_ s ++ [new_session conn] |>
        <| sessions_ := <[conn := i]> (sessions_ s) |>
  end.

Definition remove_session (conn : connection_ptr) (s : user_server)
    : option session_ptr * user_server :=
  match sessions_ s !! conn with
  | None => (None, s)
  | Some removed =>
      let u := from_option uid_ "" (heap_ s !! removed) in
      let uids :=
        if decide (u <> "" /\ uid_sessions_ s !! u = Some removed)
        then delete u (uid_sessions_ s) else uid_sessions_ s in
      (Some removed, s <| uid_sessions_ := uids |>
                       <| sessions_ := delete conn (sessions_ s) |>)
  end.

Definition find_session (u : string) (s : user_server) : option session_ptr :=
  uid_sessions_ s !! u.
End session_manager.

(** ** room_channel *)

Module room_channel.
Definition kTimeout : Z := 5000000000.

(** [send_request]: the id, the pending entry and the message. *)
Definition send_request (j : job_ptr) (make : Z -> room_message) (now : Z)
    (s : user_server) : Z * list effect * user_server :=
  let id := next_request_id_ s in
  (id, [ToRoom (make id)],
   s <| next_request_id_ := uint 64 (id + 1) |>
     <| requests_ := Pending.add id j (j, id) (now + kTimeout) (requests_ s) |>).

Definition cancel_request (id : Z) (s : user_server) : list effect * user_server :=
  let '(removed, p) := Pending.cancel id (requests_ s) in
  (if removed then [ToRoom (User2RoomCancelRequest id)] else [],
   s <| requests_ := p |>).

(** Invoking the callbacks [send_request] registered: the response handler
    posts to the session; the timeout handler cancels and posts. *)
Definition invoke (s : user_server) (c : call room_response nat (nat * Z)) : list effect * user_server :=
  match c with
  | ResponseCall j r =>
      match jobs_ s !! j with
      | Some x => ([], post (session_ x) (TResponse j r) s)
      | None => ([], s)
      end
  | TimeoutCall (j, id) =>
      match jobs_ s !! j with
      | Some x => ([ToRoom (User2RoomCancelRequest id)], post (session_ x) (TTimeout j) s)
      | None => ([], s)
      end
  end.

Fixpoint invoke_all (cs : list (call room_response nat (nat * Z))) (s : user_server) : list effect * user_server :=
  match cs with
  | [] => ([], s)
  | c :: cs =>
      let '(es, s) := invoke s c in
      let '(es', s) := invoke_all cs s in (es ++ es', s)
  end.

(** [on_recv] of a response: [send_to_waiter]. *)
Definition send_to_waiter (id : Z) (r : room_response) (now : Z) (s : user_server)
    : list effect * user_server :=
  let '(cs, p) := Pending.complete id r now (requests_ s) in
  invoke_all cs (s <| requests_ := p |>).

(** A tick of the timer thread. *)
Definition expire (now : Z) (s : user_server) : list effect * user_server :=
  let '(cs, p) := Pending.timer_tick now (requests_ s) in
  invoke_all cs (s <| requests_ := p |>).

(** [start] and [stop] of the channel, after those of its socket: the timer of
    the pending requests runs in between, and what still waits is dropped. *)
Definition start (spawn_ok : bool) (s : user_server) : outcome unit * user_server :=
  let '(o, p) := Pending.start spawn_ok (requests_ s) in (o, s <| requests_ := p |>).

Definition stop (s : user_server) : user_server :=
  s <| requests_ := Pending.clear (Pending.stop (requests_ s)) |>.

(** [pass_to_session]: the job made by [session::on_recv] of the message. *)
Definition pass_to_session (u : string) (k : job_kind) (s : user_server) : user_server :=
  match session_manager.find_session u s with
  | None => s
  | Some i => enqueue_job i k s
  end.
End room_channel.
Import room_channel.

(** ** Jobs *)

(** What running a step of a job yields: effects, calls the scheduler makes in
    turn, and the state. *)
Notation outcome_of := (list effect * list (Scheduler.effect nat) * user_server)%type.

(** Calling the completion closure [k] of session [i]'s scheduler. *)
Definition call_done (i : session_ptr) (k : nat) (s : user_server)
    : list (Scheduler.effect nat) * user_server :=
  match heap_ s !! i with
  | None => ([], s)
  | Some x =>
      let '(ws, sch) := completion k (scheduler_ x) in
      (ws, set_session i (x <| scheduler_ := sch |>) s)
  end.

(** [finish] of the three room jobs. *)
Definition finish (j : job_ptr) (s : user_server)
    : list (Scheduler.effect nat) * user_server :=
  match jobs_ s !! j with
  | None => ([], s)
  | Some x =>
      if finished_ x then ([], s)
      else
        let s := set_job j (x <| finished_ := true |> <| done_ := None |>) s in
        match done_ x with
        | Some k => call_done (session_ x) k s
        | None => ([], s)
        end
  end.

(** [send_timeout_response] of the three room jobs. *)
Definition create_room_timeout_response (request_id : Z) : client_message :=
  ResCreateRoom request_id false 0.
Definition join_room_timeout_response (request_id room_id : Z) : client_message :=
  ResJoinRoom request_id false room_id.
Definition leave_room_timeout_response (request_id : Z) : client_message :=
  ResLeaveRoom request_id false.

Definition timeout_response (k : job_kind) : list client_message :=
  match k with
  | job_create_room rid => [create_room_timeout_response rid]
  | job_join_room rid room => [join_room_timeout_response rid room]
  | job_leave_room rid => [leave_room_timeout_response rid]
  | _ => []
  end.

(** [cancel]; the other jobs inherit the empty one. *)
Definition job_cancel (j : job_ptr) (reason : cancel_reason) (s : user_server)
    : outcome_of :=
  match jobs_ s !! j with
  | None => ([], [], s)
  | Some x =>
      match kind x with
      | job_create_room _ | job_join_room _ _ | job_leave_room _ =>
          if finished_ x then ([], [], s)
          else
            let '(es, s) := cancel_request (room_request_id_ x) s in
            let conn := from_option conn_ 0%nat (heap_ s !! session_ x) in
            let es' := match reason with
                       | Scheduler.kTimeout =>
                           ToClient (Some j) conn <$> timeout_response (kind x)
                       | kShutdown => []
                       end in
            let '(ws, s) := finish j s in
            (es ++ es', ws, s)
      | _ => ([], [], s)
      end
  end.

(** The end of a response handler: the session's room, the message to the
    client, [finish]. *)
Definition reply (j : job_ptr) (x : job) (y : session) (room : Z) (m : client_message)
    (s : user_server) : outcome_of :=
  let s := set_session (session_ x) (set_enter_room room y) s in
  let '(ws, s) := finish j s in
  ([ToClient (Some j) (conn_ y) m], ws, s).

(** The response handlers; a response of another type is a null
    [dynamic_pointer_cast]. *)
Definition handle_res_create_room (j : job_ptr) (x : job) (y : session) (request_id : Z)
    (msg : room_response) (s : user_server) : outcome_of :=
  match msg with
  | User2RoomResCreateRoom success room_id =>
      reply j x y room_id (ResCreateRoom request_id success room_id) s
  | _ => ([Crash], [], s)
  end.

Definition handle_res_join_room (j : job_ptr) (x : job) (y : session) (request_id : Z)
    (msg : room_response) (s : user_server) : outcome_of :=
  match msg with
  | User2RoomResJoinRoom success room_id =>
      reply j x y (if success then room_id else room_id_ y)
        (ResJoinRoom request_id success room_id) s
  | _ => ([Crash], [], s)
  end.

Definition handle_res_leave_room (j : job_ptr) (x : job) (y : session) (request_id : Z)
    (msg : room_response) (s : user_server) : outcome_of :=
  match msg with
  | User2RoomResLeaveRoom success => reply j x y 0 (ResLeaveRoom request_id success) s
  | _ => ([Crash], [], s)
  end.

(** The handler of the job's class, guarded by [finished_]. *)
Definition handle_response (j : job_ptr) (r : room_response) (s : user_server)
    : outcome_of :=
  match jobs_ s !! j with
  | None => ([], [], s)
  | Some x =>
      if finished_ x then ([], [], s)
      else
        match heap_ s !! session_ x with
        | None => ([], [], s)
        | Some y =>
            match kind x with
            | job_create_room rid => handle_res_create_room j x y rid r s
            | job_join_room rid _ => handle_res_join_room j x y rid r s
            | job_leave_room rid => handle_res_leave_room j x y rid r s
            | _ => ([Crash], [], s)
            end
        end
  end.

(** [send_request] with the job's closures, [done_] and [room_request_id_] set. *)
Definition run_room_job (j : job_ptr) (k : nat) (make : Z -> room_message) (now : Z)
    (x : job) (s : user_server) : outcome_of :=
  let '(id, es, s) := send_request j make now s in
  (es, [], set_job j (x <| done_ := Some k |> <| room_request_id_ := id |>) s).

(** The [run] of the classes that wait for the Room server. *)
Definition run_create_room (j : job_ptr) (k : nat) (now : Z) (x : job) (y : session)
    (s : user_server) : outcome_of :=
  run_room_job j k (fun id => User2RoomReqCreateRoom id (uid_ y)) now x s.

Definition run_join_room (j : job_ptr) (k : nat) (room_id now : Z) (x : job) (y : session)
    (s : user_server) : outcome_of :=
  run_room_job j k (fun id => User2RoomReqJoinRoom id (uid_ y) room_id) now x s.

Definition run_leave_room (j : job_ptr) (k : nat) (now : Z) (x : job) (y : session)
    (s : user_server) : outcome_of :=
  run_room_job j k (fun id => User2RoomReqLeaveRoom id (uid_ y)) now x s.

(** [done()] at the end of the other classes' [run]. *)
Definition finish_with (i : session_ptr) (k : nat) (es : list effect) (s : user_server)
    : outcome_of :=
  let '(ws, s) := call_done i k s in (es, ws, s).

(** [session::stop]: the flag, and [link::stop]. *)
Definition session_stop (force_close : bool) (x : session) : effect * session :=
  (StopConnection (conn_ x) force_close, x <| stop_ := true |>).

Definition run_login (j : job_ptr) (k : nat) (u : string) (i : session_ptr) (y : session)
    (s : user_server) : outcome_of :=
  finish_with i k
    [ToClient (Some j) (conn_ y)
       (ResLogin u true (bool_decide (room_id_ y <> 0)) (room_id_ y))]
    (session_manager.add_session i (set_session i (set_user u y) s)).

Definition run_logout (j : job_ptr) (k : nat) (i : session_ptr) (y : session)
    (s : user_server) : outcome_of :=
  finish_with i k [ToClient (Some j) (conn_ y) (ResLogout (uid_ y))]
    (enqueue_stop i false s).

Definition run_stop (k : nat) (force : bool) (i : session_ptr) (y : session)
    (s : user_server) : outcome_of :=
  finish_with i k [(session_stop force y).1] (set_session i (session_stop force y).2 s).

Definition run_forward_message (k : nat) (msg : string) (i : session_ptr) (y : session)
    (s : user_server) : outcome_of :=
  finish_with i k [ToRoom (User2RoomFwdRoom (uid_ y) msg)] s.

Definition run_cli_forward_message (j : job_ptr) (k : nat) (u sender_uid : string)
    (sender_type : Z) (msg : string) (i : session_ptr) (y : session)
    (s : user_server) : outcome_of :=
  finish_with i k [ToClient (Some j) (conn_ y) (FwdClient u sender_uid sender_type msg)] s.

Definition run_ntf_leave_room_message (j : job_ptr) (k : nat) (reason : Z)
    (i : session_ptr) (y : session) (s : user_server) : outcome_of :=
  finish_with i k [ToClient (Some j) (conn_ y) (NtfLeaveRoom reason)]
    (set_session i (set_leave_room y) s).

(** [job::run]; [k] is the completion closure. *)
Definition job_run (j : job_ptr) (k : nat) (now : Z) (s : user_server) : outcome_of :=
  match jobs_ s !! j with
  | None => ([], [], s)
  | Some x =>
      let i := session_ x in
      match heap_ s !! i with
      | None => ([], [], s)
      | Some y =>
          match kind x with
          | job_login u => run_login j k u i y s
          | job_logout => run_logout j k i y s
          | job_stop force => run_stop k force i y s
          | job_create_room _ => run_create_room j k now x y s
          | job_join_room _ room => run_join_room j k room now x y s
          | job_leave_room _ => run_leave_room j k now x y s
          | job_forward_message msg => run_forward_message k msg i y s
          | job_cli_forward_message u su st msg =>
              run_cli_forward_message j k u su st msg i y s
          | job_ntf_leave_room_message reason =>
              run_ntf_leave_room_message j k reason i y s
          end
      end
  end.

(** The bodies of the job classes, opened. *)
Ltac open_job_run :=
  unfold job_run, run_login, run_logout, run_stop, run_create_room, run_join_room,
    run_leave_room, run_forward_message, run_cli_forward_message,
    run_ntf_leave_room_message, finish_with.
Ltac open_handle_response :=
  unfold handle_response, handle_res_create_room, handle_res_join_room,
    handle_res_leave_room, reply.

(** The calls the scheduler makes on jobs, and those their completions make. *)
Fixpoint work (fuel : nat) (now : Z) (ws : list (Scheduler.effect nat))
    (s : user_server) : list effect * user_server :=
  match ws with
  | [] => ([], s)
  | w :: ws =>
      match fuel with
      | O => ([OutOfFuel], s)
      | S fuel =>
          let '(es, ws', s) :=
            match w with
            | Run j k => job_run j k now s
            | CancelJob j reason => job_cancel j reason s
            end in
          let '(es', s) := work fuel now (ws' ++ ws) s in
          (es ++ es', s)
      end
  end.

(** Jobs queued in the schedulers. *)
Definition queued (s : user_server) : nat :=
  sum_list_with (fun x => length (q_ (scheduler_ x))) (heap_ s).

(** Each call leaves the list, and a job leaves a queue for each new call. *)
Definition drain (now : Z) (ws : list (Scheduler.effect nat)) (s : user_server)
    : list effect * user_server := work (length ws + queued s) now ws s.

(** A handler of session [i]'s strand. *)
Definition run_task (now : Z) (i : session_ptr) (t : task) (s : user_server)
    : list effect * user_server :=
  match heap_ s !! i with
  | None => ([], s)
  | Some x =>
      match t with
      | TPush j =>
          let '(ws, sch) := push_and_run j (scheduler_ x) in
          drain now ws (set_session i (x <| scheduler_ := sch |>) s)
      | TResponse j r =>
          let '(es, ws, s) := handle_response j r s in
          let '(es', s) := drain now ws s in (es ++ es', s)
      | TTimeout j =>
          let '(es, ws, s) := job_cancel j Scheduler.kTimeout s in
          let '(es', s) := drain now ws s in (es ++ es', s)
      | TDisconnected =>
          let '(ws, sch) := shutdown (scheduler_ x) in
          drain now ws (set_session i (x <| stop_ := true |> <| scheduler_ := sch |>) s)
      end
  end.

(** ** Events *)

(** The messages of a client for which [session::on_recv] makes a job, and that
    job. *)
Inductive job_request :=
  | ReqLogin (u : string)
  | ReqLogout
  | ReqCreateRoom (request_id : Z)
  | ReqJoinRoom (request_id room_id : Z)
  | ReqLeaveRoom (request_id : Z)
  | FwdRoom (msg : string).

Definition job_of (m : job_request) : job_kind :=
  match m with
  | ReqLogin u => job_login u
  | ReqLogout => job_logout
  | ReqCreateRoom id => job_create_room id
  | ReqJoinRoom id room_id => job_join_room id room_id
  | ReqLeaveRoom id => job_leave_room id
  | FwdRoom msg => job_forward_message msg
  end.

(** Messages of a client, as [session::on_recv] handles them. *)
Inductive client_request :=
  | RPing
  | RPong
  | RJob (m : job_request)
  | RUnknown.

(** The notifications of the Room server, but for the user they are for, and the
    job [session::on_recv] makes of them. *)
Inductive room_notification :=
  | User2RoomFwdClient (sender_uid : string) (sender_type : Z) (msg : string)
  | User2RoomNtfLeaveRoom (reason : Z).

Definition notification_job (u : string) (n : room_notification) : job_kind :=
  match n with
  | User2RoomFwdClient sender type msg => job_cli_forward_message u sender type msg
  | User2RoomNtfLeaveRoom reason => job_ntf_leave_room_message reason
  end.

Inductive event :=
  | Accepted (conn : connection_ptr)
  | Closed (conn : connection_ptr)
  | Received (i : session_ptr) (m : client_request)
  | RunStrand (i : session_ptr) (now : Z)
  | RoomResponse (id : Z) (r : room_response) (now : Z)
  | RoomNotification (u : string) (n : room_notification)
  | Tick (now : Z).

(** [acceptor::on_conn_closed] and [session::on_disconnected]. *)
Definition on_conn_closed (conn : connection_ptr) (s : user_server) : user_server :=
  match session_manager.remove_session conn s with
  | (Some i, s) => post i TDisconnected s
  | (None, s) => s
  end.

(** A message that cannot be understood stops the session. *)
Definition on_recv_unknown (i : session_ptr) (s : user_server) : user_server :=
  enqueue_stop i false s.

Definition on_recv (i : session_ptr) (m : client_request) (s : user_server)
    : list effect * user_server :=
  match heap_ s !! i with
  | None => ([], s)
  | Some x =>
      match m with
      | RPing => ([ToClient None (conn_ x) Pong], s)
      | RPong => ([], s)
      | RJob m => ([], enqueue_job i (job_of m) s)
      | RUnknown => ([], on_recv_unknown i s)
      end
  end.

Definition exec (e : event) (s : user_server) : list effect * user_server :=
  match e with
  | Accepted conn => ([], session_manager.add_connection conn s)
  | Closed conn => ([], on_conn_closed conn s)
  | Received i m => on_recv i m s
  | RunStrand i now =>
      match heap_ s !! i with
      | Some x =>
          match strand_ x with
          | t :: ts => run_task now i t (set_session i (x <| strand_ := ts |>) s)
          | [] => ([], s)
          end
      | None => ([], s)
      end
  | RoomResponse id r now => send_to_waiter id r now s
  | RoomNotification u n => ([], pass_to_session u (notification_job u n) s)
  | Tick now => expire now s
  end.

(** ** Replies of the room jobs *)

Definition room_job (k : job_kind) : bool :=
  match k with
  | job_create_room _ | job_join_room _ _ | job_leave_room _ => true
  | _ => false
  end.

(** How many messages job [j] sent to its client. *)
Definition by_job (j : job_ptr) (e : effect) : bool :=
  match e with ToClient (Some j') _ _ => bool_decide (j' = j) | _ => false end.
Definition sent (j : job_ptr) (es : list effect) : Z :=
  sumz (fun e => Z.b2z (by_job j e)) es.

Lemma sent_app j es es' : sent j (es ++ es') = sent j es + sent j es'.
Proof. apply sumz_app. Qed.

Lemma sent_nonneg j es : 0 <= sent j es.
Proof. apply sumz_nonneg. intros e _. destruct (by_job j e); cbn; lia. Qed.

Record job_step (j : job_ptr) (es : list effect) (x x' : job) : Prop := {
  js_kind : kind x' = kind x;
  js_session : session_ x' = session_ x;
  js_finished : finished_ x = true -> finished_ x' = true;
  js_silent : room_job (kind x) = true -> finished_ x = true -> sent j es = 0;
  js_once : room_job (kind x) = true -> sent j es <= 1;
  js_last : room_job (kind x) = true -> sent j es = 1 -> finished_ x' = true;
}.

(** What steps do to the jobs that exist and to those they make. *)
Record steps (s : user_server) (es : list effect) (s' : user_server) : Prop := {
  st_jobs j x : jobs_ s !! j = Some x ->
    exists x', jobs_ s' !! j = Some x' /\ job_step j es x x';
  st_new j x' : jobs_ s !! j = None -> jobs_ s' !! j = Some x' ->
    room_job (kind x') = true ->
    sent j es <= 1 /\ (sent j es = 1 -> finished_ x' = true);
  st_none j : jobs_ s' !! j = None -> sent j es = 0;
}.

Lemma job_step_refl j es x : sent j es = 0 -> job_step j es x x.
Proof. intros E. split; auto; lia. Qed.

Lemma job_step_trans j es es' x y z :
  job_step j es x y -> job_step j es' y z -> job_step j (es ++ es') x z.
Proof.
  intros [K1 S1 F1 Q1 O1 L1] [K2 S2 F2 Q2 O2 L2]. rewrite K1 in *.
  pose proof (sent_nonneg j es). pose proof (sent_nonneg j es').
  split; try congruence; auto; rewrite sent_app.
  - intros Hr Hf. rewrite Q1, Q2 by auto. done.
  - intros Hr. specialize (O1 Hr). specialize (O2 Hr).
    destruct (decide (sent j es = 1)); [|lia]. rewrite (Q2 Hr) by auto. lia.
  - intros Hr E. specialize (O1 Hr). destruct (decide (sent j es = 1)); [by auto|].
    apply L2; [done|lia].
Qed.

Lemma steps_trans s es s' es' s'' :
  steps s es s' -> steps s' es' s'' -> steps s (es ++ es') s''.
Proof.
  intros [H1 H2 H3] [G1 G2 G3]. split.
  - intros j x Hx. destruct (H1 _ _ Hx) as (y&Hy&Sy). destruct (G1 _ _ Hy) as (z&Hz&Sz).
    exists z. split; [done|]. by eapply job_step_trans.
  - intros j z Hj Hz Hr. rewrite sent_app. destruct (jobs_ s' !! j) as [y|] eqn:Hy.
    + destruct (G1 _ _ Hy) as (z'&Hz'&[K S F Q O L]). simplify_eq. rewrite K in Hr.
      destruct (H2 _ _ Hj Hy Hr) as [Ho Hl]. specialize (O Hr).
      pose proof (sent_nonneg j es). pose proof (sent_nonneg j es').
      destruct (decide (sent j es = 1)) as [E|].
      * rewrite (Q Hr) by auto. split; [lia|]. auto.
      * split; [lia|]. intros E. apply L; [done|lia].
    + rewrite (H3 _ Hy). cbn. by apply G2.
  - intros j Hj. rewrite sent_app. rewrite (G3 _ Hj).
    destruct (jobs_ s' !! j) as [y|] eqn:Hy; [|by rewrite H3].
    destruct (G1 _ _ Hy) as (z&Hz&_). congruence.
Qed.

Lemma steps_quiet s es s' :
  jobs_ s' = jobs_ s ->
  (forall j, sent j es <> 0 -> exists x, jobs_ s !! j = Some x /\ room_job (kind x) = false) ->
  steps s es s'.
Proof.
  intros E Hs. split; rewrite E.
  - intros j x Hx. exists x. split; [done|]. destruct (decide (sent j es = 0)).
    + by apply job_step_refl.
    + destruct (Hs j) as (y&Hy&Hr); [done|]. simplify_eq. split; auto; congruence.
  - intros. congruence.
  - intros j Hj. destruct (decide (sent j es = 0)); [done|].
    destruct (Hs j) as (y&Hy&_); [done|]. congruence.
Qed.

Lemma steps_silent s es s' :
  jobs_ s' = jobs_ s -> (forall j, sent j es = 0) -> steps s es s'.
Proof. intros E Hs. apply steps_quiet; [done|]. intros j Hj. by destruct Hj. Qed.

Lemma steps_add s s' k i :
  jobs_ s' = jobs_ s ++ [Job k i None 0 false] -> steps s [] s'.
Proof.
  intros E. split; rewrite E; [|by split|done].
  intros j x Hx. exists x. split; [by apply lookup_app_l_Some|]. by apply job_step_refl.
Qed.

Lemma steps_set s es s' j x x' :
  jobs_ s !! j = Some x -> jobs_ s' = <[j := x']> (jobs_ s) -> job_step j es x x' ->
  (forall j', j' <> j -> sent j' es = 0) -> steps s es s'.
Proof.
  intros Hx E Hj Ho. pose proof (lookup_lt_Some _ _ _ Hx) as Hl. split; rewrite E.
  - intros j' y Hy. destruct (decide (j' = j)) as [->|Hne].
    + exists x'. rewrite list_lookup_insert_eq by done. by simplify_eq.
    + exists y. rewrite list_lookup_insert_ne by done. split; [done|].
      by apply job_step_refl, Ho.
  - intros j' y Hn. destruct (decide (j' = j)) as [->|Hne]; [congruence|].
    rewrite list_lookup_insert_ne by done. congruence.
  - intros j'. destruct (decide (j' = j)) as [->|Hne]; [|intros _; by apply Ho].
    by rewrite list_lookup_insert_eq.
Qed.

Lemma jobs_post i t s : jobs_ (post i t s) = jobs_ s.
Proof. unfold post. destruct (heap_ s !! i); by destruct s. Qed.

Lemma jobs_call_done i k s : jobs_ (call_done i k s).2 = jobs_ s.
Proof.
  unfold call_done. destruct (heap_ s !! i); [|done]. destruct (completion _ _). by destruct s.
Qed.

Lemma steps_enqueue i k s : steps s [] (enqueue_job i k s).
Proof.
  apply (steps_add _ _ k i). unfold enqueue_job. rewrite jobs_post. by destruct s.
Qed.

Lemma jobs_cancel_request id s :
  jobs_ (cancel_request id s).2 = jobs_ s /\ forall j, sent j (cancel_request id s).1 = 0.
Proof.
  unfold cancel_request. destruct (Pending.cancel _ _) as [b p]. split; [by destruct s|].
  intros j. by destruct b.
Qed.

(** [finish] on a job that is not finished. *)
Lemma jobs_finish j x s :
  jobs_ s !! j = Some x -> finished_ x = false ->
  jobs_ (finish j s).2 = <[j := x <| finished_ := true |> <| done_ := None |>]> (jobs_ s).
Proof.
  intros Hx Hf. unfold finish. rewrite Hx, Hf. destruct (done_ x); [rewrite jobs_call_done|];
    by destruct s.
Qed.

Lemma sent_singleton j j' c m : sent j' [ToClient (Some j) c m] = Z.b2z (bool_decide (j = j')).
Proof. unfold sent. rewrite sumz_cons, sumz_nil. cbn. lia. Qed.

Lemma job_step_reply j es x :
  sent j es <= 1 -> finished_ x = false ->
  job_step j es x (x <| finished_ := true |> <| done_ := None |>).
Proof. intros Hs Hf. destruct x. cbn in *. subst. by split. Qed.

Lemma steps_job_cancel j reason s :
  steps s (job_cancel j reason s).1.1 (job_cancel j reason s).2.
Proof.
  assert (Hnone : steps s [] s) by (by apply steps_silent).
  unfold job_cancel. destruct (jobs_ s !! j) as [x|] eqn:Hx; [|done].
  assert (Hgo : forall msgs, length msgs = 1%nat \/ msgs = [] -> finished_ x = false ->
    let '(es, s1) := cancel_request (room_request_id_ x) s in
    let '(ws, s2) := finish j s1 in
    forall c, steps s (es ++ (ToClient (Some j) c <$> msgs)) s2).
  { intros msgs Hm Hf. destruct (jobs_cancel_request (room_request_id_ x) s) as [E Hs].
    destruct (cancel_request _ s) as [es s1]. cbn [fst snd] in *. rewrite <- E in Hx.
    pose proof (jobs_finish j x s1 Hx Hf) as Ef. destruct (finish j s1) as [ws s2].
    cbn [snd] in Ef. rewrite E in Hx, Ef. intros c.
    assert (Hsent : forall j', sent j' (es ++ (ToClient (Some j) c <$> msgs))
      = if decide (j' = j) then Z.of_nat (length msgs) else 0).
    { intros j'. rewrite sent_app, Hs. destruct Hm as [Hm| ->];
        [destruct msgs as [|m []]; try done; cbn; rewrite sent_singleton|];
        case_decide as Hd; cbn; try done; [by rewrite bool_decide_true|by rewrite bool_decide_false]. }
    eapply steps_set; [done|done| |].
    - apply job_step_reply; [|done]. rewrite Hsent, decide_True by done.
      destruct Hm as [->| ->]; cbn; lia.
    - intros j' Hne. by rewrite Hsent, decide_False. }
  destruct (kind x) eqn:Ek; try exact Hnone; (destruct (finished_ x) eqn:Hf; [exact Hnone|]);
    destruct reason;
    match goal with |- context [ToClient (Some j) _ <$> ?m] =>
      specialize (Hgo m (or_introl eq_refl) eq_refl) | _ =>
      specialize (Hgo [] (or_intror eq_refl) eq_refl) end;
    destruct (cancel_request _ s) as [es s1]; destruct (finish j s1) as [ws s2];
    cbn [fst snd]; first [apply (Hgo 0%nat)|apply Hgo].
Qed.

Lemma steps_handle_response j r s :
  steps s (handle_response j r s).1.1 (handle_response j r s).2.
Proof.
  assert (Hnone : forall es, (forall j', sent j' es = 0) -> steps s es s)
    by (intros; by apply steps_silent).
  open_handle_response. destruct (jobs_ s !! j) as [x|] eqn:Hx; [|by apply Hnone].
  destruct (finished_ x) eqn:Hf; [by apply Hnone|].
  destruct (heap_ s !! session_ x) as [y|]; [|by apply Hnone].
  assert (Hgo : forall y' c m,
    let '(ws, s2) := finish j (set_session (session_ x) y' s) in
    steps s [ToClient (Some j) c m] s2).
  { intros y' c m.
    assert (Hx' : jobs_ (set_session (session_ x) y' s) !! j = Some x) by (by destruct s).
    pose proof (jobs_finish j x _ Hx' Hf) as Ef. destruct (finish j _) as [ws s2].
    cbn [snd] in Ef. eapply steps_set; [done|rewrite Ef; by destruct s| |].
    - apply job_step_reply; [|done]. rewrite sent_singleton, bool_decide_true by done. done.
    - intros j' Hne. by rewrite sent_singleton, bool_decide_false. }
  destruct (kind x) eqn:Ek, r; try (by apply Hnone);
    match goal with |- context [finish j (set_session _ ?y' s)] =>
      specialize (Hgo y') end;
    destruct (finish j _) as [ws s2]; apply Hgo.
Qed.

Lemma steps_job_run j k now s : steps s (job_run j k now s).1.1 (job_run j k now s).2.
Proof.
  assert (Hnone : steps s [] s) by (by apply steps_silent).
  open_job_run. destruct (jobs_ s !! j) as [x|] eqn:Hx; [|done].
  destruct (heap_ s !! session_ x) as [y|]; [|done].
  assert (Hroom : forall make, room_job (kind x) = true ->
    steps s (run_room_job j k make now x s).1.1 (run_room_job j k make now x s).2).
  { intros make Hr. cbn. eapply (steps_set _ _ _ j x); [done|by destruct s| |done].
    destruct x. by split. }
  assert (Hsync : forall es s1, steps s es s1 ->
    let '(ws, s2) := call_done (session_ x) k s1 in steps s es s2).
  { intros es s1 H1. pose proof (jobs_call_done (session_ x) k s1) as E.
    destruct (call_done _ _ _) as [ws s2]. rewrite <- (app_nil_r es).
    eapply steps_trans; [done|]. by apply steps_silent. }
  assert (Hmine : forall c m s1, room_job (kind x) = false -> jobs_ s1 = jobs_ s ->
    steps s [ToClient (Some j) c m] s1).
  { intros c m s1 Hr E. apply steps_quiet; [done|]. intros j' Hs. exists x.
    rewrite sent_singleton in Hs. destruct (decide (j = j')) as [<-|]; [done|].
    by rewrite bool_decide_false in Hs. }
  destruct (kind x) eqn:Ek; try (by apply Hroom);
    match goal with |- context [call_done _ k ?s1] =>
      match goal with |- context [?es] =>
        match type of es with list effect => specialize (Hsync es s1) end end end;
    destruct (call_done _ _ _) as [ws s2]; apply Hsync.
  - apply Hmine; [done|]. unfold session_manager.add_session.
    repeat case_match; by destruct s.
  - replace [ToClient (Some j) (conn_ y) (ResLogout (uid_ y))]
      with ([] ++ [ToClient (Some j) (conn_ y) (ResLogout (uid_ y))]) by done.
    eapply steps_trans; [apply steps_enqueue|]. apply steps_quiet; [done|].
    intros j' Hs. exists x. rewrite sent_singleton in Hs.
    destruct (decide (j = j')) as [<-|]; [|by rewrite bool_decide_false in Hs].
    unfold enqueue_job. rewrite jobs_post, Ek. split; [|done].
    destruct s. by apply lookup_app_l_Some.
  - apply steps_silent; [by destruct s|done].
  - by apply steps_silent.
  - by apply Hmine.
  - apply Hmine; [done|by destruct s].
Qed.

Lemma steps_work fuel now ws s : steps s (work fuel now ws s).1 (work fuel now ws s).2.
Proof.
  revert ws s. induction fuel as [|fuel IH]; intros [|w ws] s; cbn [work];
    try (by apply steps_silent).
  assert (Hw : let '(es, ws', s1) := match w with
    | Run j k => job_run j k now s
    | CancelJob j reason => job_cancel j reason s end in steps s es s1).
  { destruct w as [j k|j r];
      [pose proof (steps_job_run j k now s) as H1|pose proof (steps_job_cancel j r s) as H1].
    - by destruct (job_run j k now s) as [[? ?] ?].
    - by destruct (job_cancel j r s) as [[? ?] ?]. }
  destruct (match w with Run j k => _ | CancelJob j r => _ end) as [[es ws'] s1].
  specialize (IH (ws' ++ ws) s1). destruct (work fuel now (ws' ++ ws) s1) as [es' s2].
  by eapply steps_trans.
Qed.

Lemma steps_session i x s : steps s [] (set_session i x s).
Proof. apply steps_silent; [by destruct s|done]. Qed.

Lemma steps_run_task now i t s : steps s (run_task now i t s).1 (run_task now i t s).2.
Proof.
  unfold run_task. destruct (heap_ s !! i) as [x|]; [|by apply steps_silent].
  destruct t as [j|j r|j|].
  - destruct (push_and_run j (scheduler_ x)) as [ws sch].
    apply (steps_trans _ [] _ _ _ (steps_session _ _ _) (steps_work _ _ _ _)).
  - pose proof (steps_handle_response j r s) as Hr.
    destruct (handle_response j r s) as [[es ws] s1]. unfold drain.
    pose proof (steps_work (length ws + queued s1) now ws s1) as Hw.
    destruct (work _ now ws s1) as [es' s2]. by eapply steps_trans.
  - pose proof (steps_job_cancel j Scheduler.kTimeout s) as Hr.
    destruct (job_cancel j Scheduler.kTimeout s) as [[es ws] s1]. unfold drain.
    pose proof (steps_work (length ws + queued s1) now ws s1) as Hw.
    destruct (work _ now ws s1) as [es' s2]. by eapply steps_trans.
  - destruct (shutdown (scheduler_ x)) as [ws sch].
    apply (steps_trans _ [] _ _ _ (steps_session _ _ _) (steps_work _ _ _ _)).
Qed.

Lemma steps_invoke_all cs s : steps s (invoke_all cs s).1 (invoke_all cs s).2.
Proof.
  revert s. induction cs as [|c cs IH]; intros s; cbn [invoke_all]; [by apply steps_silent|].
  assert (Hc : steps s (invoke s c).1 (invoke s c).2).
  { destruct c as [j r|[j id]]; cbn; (destruct (jobs_ s !! j); [|by apply steps_silent]);
      apply steps_silent; done || by apply jobs_post. }
  destruct (invoke s c) as [es s1]. specialize (IH s1).
  destruct (invoke_all cs s1) as [es' s2]. by eapply steps_trans.
Qed.

Lemma steps_exec e s : steps s (exec e s).1 (exec e s).2.
Proof.
  assert (Hid : steps s [] s) by (by apply steps_silent).
  destruct e as [conn|conn|i m|i now|id r now|u k|now]; cbn [exec].
  - apply steps_silent; [|done]. unfold session_manager.add_connection. cbn.
    destruct (sessions_ s !! conn); by destruct s.
  - apply steps_silent; [|done]. cbn. unfold on_conn_closed, session_manager.remove_session.
    destruct (sessions_ s !! conn); [|done]. rewrite jobs_post. by destruct s.
  - unfold on_recv. destruct (heap_ s !! i); [|done].
    destruct m; [by apply steps_silent|done|apply steps_enqueue|apply steps_enqueue].
  - destruct (heap_ s !! i) as [x|]; [|done]. destruct (strand_ x) as [|t ts]; [done|].
    apply (steps_trans _ [] _ _ _ (steps_session _ _ _) (steps_run_task _ _ _ _)).
  - unfold send_to_waiter. destruct (Pending.complete _ _ _ _) as [cs p].
    eapply (steps_trans _ []); [|apply steps_invoke_all]. apply steps_silent; [by destruct s|done].
  - unfold pass_to_session. destruct (session_manager.find_session u s); [|done].
    apply steps_enqueue.
  - unfold expire. destruct (timer_tick _ _) as [cs p].
    eapply (steps_trans _ []); [|apply steps_invoke_all]. apply steps_silent; [by destruct s|done].
Qed.

Lemma steps_run evs s : steps s (mjoin (run exec evs s).1) (run exec evs s).2.
Proof.
  revert s. induction evs as [|e evs IH]; intros s; [by apply steps_silent|].
  rewrite run_cons. cbn [fst snd]. rewrite mjoin_cons.
  eapply steps_trans; [apply steps_exec|apply IH].
Qed.

(** ** The chain of completions terminates *)

Definition qlen (x : session) : nat := length (q_ (scheduler_ x)).

Lemma queued_insert h i x x' :
  h !! i = Some x ->
  (sum_list_with qlen (<[i := x']> h) + qlen x = sum_list_with qlen h + qlen x')%nat.
Proof.
  revert i. induction h as [|y h IH]; intros [|i] Hx; simplify_eq/=; [lia|].
  specialize (IH i Hx). lia.
Qed.

Lemma queued_set_session i x x' s :
  heap_ s !! i = Some x -> (queued (set_session i x' s) + qlen x = queued s + qlen x')%nat.
Proof. intros Hx. unfold queued. destruct s. by apply queued_insert. Qed.

Lemma queued_set_same i x x' s :
  heap_ s !! i = Some x -> scheduler_ x' = scheduler_ x ->
  queued (set_session i x' s) = queued s.
Proof.
  intros Hx E. pose proof (queued_set_session i x x' s Hx) as H.
  unfold qlen in H. rewrite E in H. lia.
Qed.

Lemma queued_heap s s' : heap_ s' = heap_ s -> queued s' = queued s.
Proof. unfold queued. by intros ->. Qed.

Lemma completion_queue k (sch : job_scheduler nat) :
  (length (completion k sch).1 + length (q_ (completion k sch).2) <= length (q_ sch))%nat.
Proof.
  unfold completion. destruct (completed_ sch !! k) as [[]|]; cbn; [lia| |lia].
  unfold complete_current. destruct sch as [[|j [|j' q]] r st c]; cbn; lia.
Qed.

Lemma queued_call_done i k s :
  (length (call_done i k s).1 + queued (call_done i k s).2 <= queued s)%nat.
Proof.
  unfold call_done. destruct (heap_ s !! i) as [x|] eqn:Hx; [|cbn; lia].
  pose proof (completion_queue k (scheduler_ x)) as Hc.
  destruct (completion _ _) as [ws sch]. cbn [fst snd] in *.
  pose proof (queued_set_session i x (x <| scheduler_ := sch |>) s Hx) as Hq.
  assert (E : qlen (x <| scheduler_ := sch |>) = length (q_ sch)) by (by destruct x).
  rewrite E in Hq. unfold qlen in Hq. lia.
Qed.

Lemma queued_finish j s : (length (finish j s).1 + queued (finish j s).2 <= queued s)%nat.
Proof.
  unfold finish. destruct (jobs_ s !! j) as [x|]; [|cbn; lia].
  destruct (finished_ x); [cbn; lia|].
  assert (E : queued (set_job j (x <| finished_ := true |> <| done_ := None |>) s) = queued s)
    by (apply queued_heap; by destruct s).
  destruct (done_ x) as [k|]; [|cbn [fst snd length]; lia].
  rewrite <- E. apply queued_call_done.
Qed.

Lemma queued_job_cancel j reason s :
  (length (job_cancel j reason s).1.2 + queued (job_cancel j reason s).2 <= queued s)%nat.
Proof.
  unfold job_cancel. destruct (jobs_ s !! j) as [x|]; [|cbn; lia].
  assert (Hc : queued (cancel_request (room_request_id_ x) s).2 = queued s).
  { apply queued_heap. unfold cancel_request. destruct (Pending.cancel _ _). by destruct s. }
  destruct (cancel_request (room_request_id_ x) s) as [es s1]. cbn [snd] in Hc.
  pose proof (queued_finish j s1) as Hf. rewrite Hc in Hf.
  destruct (finish j s1) as [ws s2]. destruct (kind x); destruct (finished_ x); cbn in *; lia.
Qed.

Lemma queued_enqueue i k s : queued (enqueue_job i k s) = queued s.
Proof.
  unfold enqueue_job, post. set (s1 := s <| jobs_ := _ |>).
  assert (E : heap_ s1 = heap_ s) by (by destruct s). rewrite E.
  destruct (heap_ s !! i) as [x|] eqn:Hx; [|by apply queued_heap].
  rewrite <- (queued_heap _ _ E). apply (queued_set_same _ x); [by rewrite E|by destruct x].
Qed.

Lemma queued_handle_response j r s :
  (length (handle_response j r s).1.2 + queued (handle_response j r s).2 <= queued s)%nat.
Proof.
  open_handle_response. destruct (jobs_ s !! j) as [x|]; [|cbn; lia].
  destruct (finished_ x); [cbn; lia|].
  destruct (heap_ s !! session_ x) as [y|] eqn:Hy; [|cbn; lia].
  assert (Hgo : forall room, let '(ws, s2) :=
    finish j (set_session (session_ x) (set_enter_room room y) s) in
    (length ws + queued s2 <= queued s)%nat).
  { intros room. pose proof (queued_finish j
      (set_session (session_ x) (set_enter_room room y) s)) as Hf.
    rewrite (queued_set_same _ y) in Hf by (done || by destruct y).
    by destruct (finish _ _). }
  destruct (kind x), r; try (cbn; lia);
    match goal with |- context [set_session _ (set_enter_room ?room y) s] =>
      specialize (Hgo room) end; by destruct (finish j _).
Qed.

Lemma queued_job_run j k now s :
  (length (job_run j k now s).1.2 + queued (job_run j k now s).2 <= queued s)%nat.
Proof.
  open_job_run. destruct (jobs_ s !! j) as [x|]; [|cbn; lia].
  destruct (heap_ s !! session_ x) as [y|] eqn:Hy; [|cbn; lia].
  assert (Hsync : forall s1, queued s1 = queued s ->
    let '(ws, s2) := call_done (session_ x) k s1 in (length ws + queued s2 <= queued s)%nat).
  { intros s1 E. pose proof (queued_call_done (session_ x) k s1) as Hq. rewrite E in Hq.
    by destruct (call_done _ _ _). }
  assert (Hroom : forall make,
    (length (run_room_job j k make now x s).1.2
     + queued (run_room_job j k make now x s).2 <= queued s)%nat).
  { intros make. rewrite (queued_heap s (run_room_job j k make now x s).2) by (by destruct s).
    cbn. lia. }
  destruct (kind x); try apply Hroom;
    match goal with |- context [call_done _ k ?s1] => specialize (Hsync s1) end;
    (destruct (call_done _ _ _) as [ws s2]; apply Hsync).
  - unfold session_manager.add_session.
    assert (E : queued (set_session (session_ x) (set_user u y) s) = queued s)
      by (apply (queued_set_same _ y); [done|by destruct y]).
    rewrite <- E. set (s1 := set_session _ _ s). destruct (heap_ s1 !! session_ x); [|done].
    case_decide; apply queued_heap; by destruct s1.
  - apply queued_enqueue.
  - apply (queued_set_same _ y); [done|by destruct y].
  - done.
  - done.
  - apply (queued_set_same _ y); [done|by destruct y].
Qed.

Lemma no_fuel_cancel j reason s : OutOfFuel ∉ (job_cancel j reason s).1.1.
Proof.
  unfold job_cancel. destruct (jobs_ s !! j) as [x|]; [|apply not_elem_of_nil].
  assert (Hc : OutOfFuel ∉ (cancel_request (room_request_id_ x) s).1).
  { unfold cancel_request. destruct (Pending.cancel _ _) as [[] p]; cbn; set_solver. }
  destruct (cancel_request _ s) as [es s1]. destruct (finish j s1) as [ws s2].
  destruct (kind x), (finished_ x), reason; cbn in *; set_solver.
Qed.

Lemma no_fuel_response j r s : OutOfFuel ∉ (handle_response j r s).1.1.
Proof.
  open_handle_response. destruct (jobs_ s !! j) as [x|]; [|apply not_elem_of_nil].
  destruct (finished_ x); [apply not_elem_of_nil|].
  destruct (heap_ s !! session_ x) as [y|]; [|apply not_elem_of_nil].
  destruct (kind x), r; try destruct (finish _ _); cbn; set_solver.
Qed.

Lemma no_fuel_run j k now s : OutOfFuel ∉ (job_run j k now s).1.1.
Proof.
  open_job_run. destruct (jobs_ s !! j) as [x|]; [|apply not_elem_of_nil].
  destruct (heap_ s !! session_ x) as [y|]; [|apply not_elem_of_nil].
  destruct (kind x); try destruct (call_done _ _ _); cbn; set_solver.
Qed.

Lemma work_total fuel now ws s :
  (length ws + queued s <= fuel)%nat -> OutOfFuel ∉ (work fuel now ws s).1.
Proof.
  revert ws s. induction fuel as [|fuel IH]; intros [|w ws] s Hf; cbn [work length] in *;
    try apply not_elem_of_nil; [lia|].
  assert (Hw : let '(es, ws', s1) := match w with
    | Run j k => job_run j k now s
    | CancelJob j reason => job_cancel j reason s end in
    OutOfFuel ∉ es /\ (length ws' + queued s1 <= queued s)%nat).
  { destruct w as [j k|j r];
      [pose proof (queued_job_run j k now s) as H1; pose proof (no_fuel_run j k now s) as H2
      |pose proof (queued_job_cancel j r s) as H1; pose proof (no_fuel_cancel j r s) as H2].
    - by destruct (job_run j k now s) as [[? ?] ?].
    - by destruct (job_cancel j r s) as [[? ?] ?]. }
  destruct (match w with Run j k => _ | CancelJob j r => _ end) as [[es ws'] s1].
  destruct Hw as [Hn Hq]. specialize (IH (ws' ++ ws) s1).
  destruct (work fuel now (ws' ++ ws) s1) as [es' s2]. cbn in *.
  rewrite length_app in IH. rewrite not_elem_of_app. split; [done|]. apply IH. lia.
Qed.

Lemma run_task_total now i t s : OutOfFuel ∉ (run_task now i t s).1.
Proof.
  unfold run_task, drain. destruct (heap_ s !! i) as [x|]; [|apply not_elem_of_nil].
  destruct t as [j|j r|j|].
  - destruct (push_and_run j (scheduler_ x)) as [ws sch]. by apply work_total.
  - pose proof (no_fuel_response j r s) as Hr. destruct (handle_response j r s) as [[es ws] s1].
    pose proof (work_total (length ws + queued s1) now ws s1 ltac:(lia)) as Hw.
    destruct (work _ now ws s1) as [es' s2]. cbn in *. by rewrite not_elem_of_app.
  - pose proof (no_fuel_cancel j Scheduler.kTimeout s) as Hr.
    destruct (job_cancel j Scheduler.kTimeout s) as [[es ws] s1].
    pose proof (work_total (length ws + queued s1) now ws s1 ltac:(lia)) as Hw.
    destruct (work _ now ws s1) as [es' s2]. cbn in *. by rewrite not_elem_of_app.
  - destruct (shutdown (scheduler_ x)) as [ws sch]. by apply work_total.
Qed.

Lemma invoke_all_total cs s : OutOfFuel ∉ (invoke_all cs s).1.
Proof.
  revert s. induction cs as [|c cs IH]; intros s; cbn [invoke_all]; [apply not_elem_of_nil|].
  assert (Hc : OutOfFuel ∉ (invoke s c).1).
  { destruct c as [j r|[j id]]; cbn; destruct (jobs_ s !! j); cbn; set_solver. }
  destruct (invoke s c) as [es s1]. specialize (IH s1).
  destruct (invoke_all cs s1) as [es' s2]. cbn in *. by rewrite not_elem_of_app.
Qed.

Lemma exec_total e s : OutOfFuel ∉ (exec e s).1.
Proof.
  destruct e as [conn|conn|i m|i now|id r now|u k|now]; cbn [exec fst];
    try apply not_elem_of_nil.
  - unfold on_recv. destruct (heap_ s !! i); [|apply not_elem_of_nil].
    destruct m; cbn; set_solver.
  - destruct (heap_ s !! i) as [x|]; [|apply not_elem_of_nil].
    destruct (strand_ x) as [|t ts]; [apply not_elem_of_nil|]. apply run_task_total.
  - unfold send_to_waiter. destruct (Pending.complete _ _ _ _). apply invoke_all_total.
  - unfold expire. destruct (timer_tick _ _). apply invoke_all_total.
Qed.

(** ** Request ids *)

Definition request_id_of (e : effect) : option Z :=
  match e with
  | ToRoom (User2RoomReqCreateRoom id _) | ToRoom (User2RoomReqJoinRoom id _ _)
  | ToRoom (User2RoomReqLeaveRoom id _) => Some id
  | _ => None
  end.
Definition request_ids (es : list effect) : list Z := omap request_id_of es.

(** The [n] ids from [next] on. *)
Definition ids_from (next : Z) (n : nat) : list Z :=
  (fun i => uint 64 (next + Z.of_nat i)) <$> seq 0 n.

(** Steps that take the next ids, one per request sent. *)
Definition takes (s : user_server) (es : list effect) (s' : user_server) : Prop :=
  exists n, request_ids es = ids_from (next_request_id_ s) n /\
    next_request_id_ s' = uint 64 (next_request_id_ s + Z.of_nat n).

Definition wf_next (s : user_server) : Prop := 0 <= next_request_id_ s < 2 ^ 64.

Lemma ids_from_app next n m :
  ids_from next (n + m) = ids_from next n ++ ids_from (uint 64 (next + Z.of_nat n)) m.
Proof.
  unfold ids_from. rewrite seq_app, fmap_app. f_equal. cbn.
  rewrite <- (Nat.add_0_r n) at 1. rewrite <- fmap_add_seq, <- list_fmap_compose.
  apply list_fmap_ext. intros i x _. cbn. unfold uint. rewrite Zplus_mod_idemp_l. f_equal. lia.
Qed.

Lemma length_ids_from next n : length (ids_from next n) = n.
Proof. unfold ids_from. by rewrite length_fmap, length_seq. Qed.

Lemma ids_from_NoDup next n : Z.of_nat n <= 2 ^ 64 -> NoDup (ids_from next n).
Proof.
  intros Hn. unfold ids_from. apply NoDup_fmap_2_strong; [|apply NoDup_seq].
  intros i i' Hi%elem_of_seq Hi'%elem_of_seq Eq. unfold uint in Eq.
  assert (Hm : (next + Z.of_nat i - (next + Z.of_nat i')) mod 2 ^ 64 = 0).
  { rewrite Zminus_mod, Eq, Z.sub_diag. done. }
  apply Z.mod_divide in Hm as [c Hc]; [|lia]. assert (c = 0) by nia. lia.
Qed.

Lemma takes_trans s es s' es' s'' :
  takes s es s' -> takes s' es' s'' -> takes s (es ++ es') s''.
Proof.
  intros (n&E1&E2) (m&G1&G2). exists (n + m)%nat. unfold request_ids in *.
  rewrite omap_app, E1, G1, E2, G2, ids_from_app. split; [done|]. rewrite E2. unfold uint.
  rewrite Zplus_mod_idemp_l. f_equal. lia.
Qed.

Lemma takes_none s es s' :
  wf_next s -> request_ids es = [] -> next_request_id_ s' = next_request_id_ s ->
  takes s es s'.
Proof.
  intros Hw He En. exists 0%nat. split; [done|]. rewrite En, Z.add_0_r, uint_small; done.
Qed.

Lemma takes_wf s es s' : takes s es s' -> wf_next s'.
Proof. intros (n&_&E). unfold wf_next. rewrite E. apply uint_range. lia. Qed.

Lemma next_post i t s : next_request_id_ (post i t s) = next_request_id_ s.
Proof. unfold post. destruct (heap_ s !! i); by destruct s. Qed.

Lemma next_call_done i k s : next_request_id_ (call_done i k s).2 = next_request_id_ s.
Proof.
  unfold call_done. destruct (heap_ s !! i); [|done]. destruct (completion _ _). by destruct s.
Qed.

Lemma next_finish j s : next_request_id_ (finish j s).2 = next_request_id_ s.
Proof.
  unfold finish. destruct (jobs_ s !! j) as [x|]; [|done]. destruct (finished_ x); [done|].
  destruct (done_ x); [rewrite next_call_done|]; by destruct s.
Qed.

Lemma next_enqueue i k s : next_request_id_ (enqueue_job i k s) = next_request_id_ s.
Proof. unfold enqueue_job. rewrite next_post. by destruct s. Qed.

Lemma takes_job_cancel j reason s :
  wf_next s -> takes s (job_cancel j reason s).1.1 (job_cancel j reason s).2.
Proof.
  intros Hw. unfold job_cancel. destruct (jobs_ s !! j) as [x|]; [|by apply takes_none].
  assert (Hc : request_ids (cancel_request (room_request_id_ x) s).1 = [] /\
    next_request_id_ (cancel_request (room_request_id_ x) s).2 = next_request_id_ s).
  { unfold cancel_request. destruct (Pending.cancel _ _) as [[] p]; by destruct s. }
  destruct (cancel_request (room_request_id_ x) s) as [es s1]. destruct Hc as [Hc1 Hc2].
  pose proof (next_finish j s1) as Hf. destruct (finish j s1) as [ws s2].
  cbn [fst snd] in *. unfold request_ids in *.
  destruct (kind x), (finished_ x), reason; cbn [fst snd]; apply takes_none;
    try done; try congruence; unfold request_ids; by rewrite omap_app, Hc1.
Qed.

Lemma takes_response j r s :
  wf_next s -> takes s (handle_response j r s).1.1 (handle_response j r s).2.
Proof.
  intros Hw. open_handle_response. destruct (jobs_ s !! j) as [x|]; [|by apply takes_none].
  destruct (finished_ x); [by apply takes_none|].
  destruct (heap_ s !! session_ x) as [y|]; [|by apply takes_none].
  destruct (kind x), r; try (by apply takes_none);
    match goal with |- context [finish j ?s1] =>
      pose proof (next_finish j s1) as Hf; destruct (finish j s1) as [ws s2] end;
    apply takes_none; try done; rewrite Hf; by destruct s.
Qed.

Lemma takes_job_run j k now s :
  wf_next s -> takes s (job_run j k now s).1.1 (job_run j k now s).2.
Proof.
  intros Hw. open_job_run. destruct (jobs_ s !! j) as [x|]; [|by apply takes_none].
  destruct (heap_ s !! session_ x) as [y|]; [|by apply takes_none].
  assert (Hroom : forall make, (forall id, request_id_of (ToRoom (make id)) = Some id) ->
    takes s (run_room_job j k make now x s).1.1 (run_room_job j k make now x s).2).
  { intros make Hm. exists 1%nat. split; [|by destruct s].
    cbn -[request_id_of]. rewrite Hm. unfold ids_from. cbn.
    by rewrite Z.add_0_r, uint_small. }
  destruct (kind x); try (by apply Hroom);
    match goal with |- context [call_done ?i k ?s1] =>
      pose proof (next_call_done i k s1) as Hf; destruct (call_done i k s1) as [ws s2] end;
    apply takes_none; try done; cbn [snd] in *; rewrite Hf; try (by destruct s).
  - unfold session_manager.add_session. repeat case_match; by destruct s.
  - apply next_enqueue.
Qed.

Lemma takes_work fuel now ws s :
  wf_next s -> takes s (work fuel now ws s).1 (work fuel now ws s).2.
Proof.
  revert ws s. induction fuel as [|fuel IH]; intros [|w ws] s Hw; cbn [work];
    try (by apply takes_none).
  assert (H1 : let '(es, ws', s1) := match w with
    | Run j k => job_run j k now s
    | CancelJob j reason => job_cancel j reason s end in takes s es s1).
  { destruct w as [j k|j r];
      [pose proof (takes_job_run j k now s Hw)|pose proof (takes_job_cancel j r s Hw)].
    - by destruct (job_run j k now s) as [[? ?] ?].
    - by destruct (job_cancel j r s) as [[? ?] ?]. }
  destruct (match w with Run j k => _ | CancelJob j r => _ end) as [[es ws'] s1].
  specialize (IH (ws' ++ ws) s1 (takes_wf _ _ _ H1)).
  destruct (work fuel now (ws' ++ ws) s1) as [es' s2]. by eapply takes_trans.
Qed.

Lemma takes_session i x s : wf_next s -> takes s [] (set_session i x s).
Proof. intros Hw. apply takes_none; [done|done|by destruct s]. Qed.

Lemma takes_run_task now i t s :
  wf_next s -> takes s (run_task now i t s).1 (run_task now i t s).2.
Proof.
  intros Hw. unfold run_task, drain. destruct (heap_ s !! i) as [x|]; [|by apply takes_none].
  destruct t as [j|j r|j|].
  - destruct (push_and_run j (scheduler_ x)) as [ws sch].
    eapply (takes_trans _ []); [by apply takes_session|]. apply takes_work.
    by eapply takes_wf, takes_session.
  - pose proof (takes_response j r s Hw) as Hr. destruct (handle_response j r s) as [[es ws] s1].
    pose proof (takes_work (length ws + queued s1) now ws s1 (takes_wf _ _ _ Hr)) as H1.
    destruct (work _ now ws s1) as [es' s2]. by eapply takes_trans.
  - pose proof (takes_job_cancel j Scheduler.kTimeout s Hw) as Hr.
    destruct (job_cancel j Scheduler.kTimeout s) as [[es ws] s1].
    pose proof (takes_work (length ws + queued s1) now ws s1 (takes_wf _ _ _ Hr)) as H1.
    destruct (work _ now ws s1) as [es' s2]. by eapply takes_trans.
  - destruct (shutdown (scheduler_ x)) as [ws sch].
    eapply (takes_trans _ []); [by apply takes_session|]. apply takes_work.
    by eapply takes_wf, takes_session.
Qed.

Lemma takes_invoke_all cs s :
  request_ids (invoke_all cs s).1 = [] /\
  next_request_id_ (invoke_all cs s).2 = next_request_id_ s.
Proof.
  revert s. induction cs as [|c cs IH]; intros s; cbn [invoke_all]; [done|].
  assert (Hc : request_ids (invoke s c).1 = [] /\
    next_request_id_ (invoke s c).2 = next_request_id_ s).
  { destruct c as [j r|[j id]]; cbn; destruct (jobs_ s !! j); cbn; by rewrite ?next_post. }
  destruct (invoke s c) as [es s1]. specialize (IH s1).
  destruct (invoke_all cs s1) as [es' s2]. unfold request_ids in *. cbn in *.
  rewrite omap_app. destruct Hc as [-> <-]. by destruct IH as [-> ->].
Qed.

Lemma takes_exec e s : wf_next s -> takes s (exec e s).1 (exec e s).2.
Proof.
  intros Hw. destruct e as [conn|conn|i m|i now|id r now|u k|now]; cbn [exec].
  - apply takes_none; [done|done|]. cbn. unfold session_manager.add_connection.
    destruct (sessions_ s !! conn); by destruct s.
  - apply takes_none; [done|done|]. cbn. unfold on_conn_closed, session_manager.remove_session.
    destruct (sessions_ s !! conn); [|done]. rewrite next_post. by destruct s.
  - unfold on_recv. destruct (heap_ s !! i); [|by apply takes_none].
    destruct m; apply takes_none; try done; apply next_enqueue.
  - destruct (heap_ s !! i) as [x|]; [|by apply takes_none].
    destruct (strand_ x) as [|t ts]; [by apply takes_none|].
    eapply (takes_trans _ []); [by apply takes_session|]. apply takes_run_task.
    by eapply takes_wf, takes_session.
  - unfold send_to_waiter. destruct (Pending.complete _ _ _ _) as [cs p].
    destruct (takes_invoke_all cs (s <| requests_ := p |>)) as [E1 E2].
    apply takes_none; [done|done|]. rewrite E2. by destruct s.
  - apply takes_none; [done|done|]. cbn. unfold pass_to_session.
    destruct (session_manager.find_session u s); [apply next_enqueue|done].
  - unfold expire. destruct (timer_tick _ _) as [cs p].
    destruct (takes_invoke_all cs (s <| requests_ := p |>)) as [E1 E2].
    apply takes_none; [done|done|]. rewrite E2. by destruct s.
Qed.

Lemma takes_run evs s : wf_next s -> takes s (mjoin (run exec evs s).1) (run exec evs s).2.
Proof.
  revert s. induction evs as [|e evs IH]; intros s Hw; [by apply takes_none|].
  rewrite run_cons. cbn [fst snd]. rewrite mjoin_cons.
  eapply takes_trans; [by apply takes_exec|]. apply IH. by eapply takes_wf, takes_exec.
Qed.

Module SessionsProperties.

(** The server starts with its channel. *)
Lemma server_start_channel :
  room_channel.start true (UserServer [] [] ∅ ∅ 1 pending_empty) = (Ret tt, server_start).
Proof. reflexivity. Qed.

(** When the channel is stopped no callback is invoked any more: a response finds
    no request and the timer thread has ended. *)
Lemma stopped_channel_silent s id r now :
  (send_to_waiter id r now (room_channel.stop s)).1 = [] /\
  (expire now (room_channel.stop s)).1 = [].
Proof. destruct s as [h js ss us nx [m run tm]]. done. Qed.

(** A client connects, logs in and creates a room; the Room server answers in
    time, and its answer is handled. *)
Definition create_room_events : list event :=
  [Accepted 7; Received 0 (RJob (ReqLogin "al")); Received 0 (RJob (ReqCreateRoom 5));
   RunStrand 0 0; RunStrand 0 0; RoomResponse 1 (User2RoomResCreateRoom true 12345) 1;
   RunStrand 0 1].

Lemma create_room_history :
  mjoin (run exec create_room_events server_start).1
  = [ToClient (Some 0%nat) 7 (ResLogin "al" true false 0);
     ToRoom (User2RoomReqCreateRoom 1 "al");
     ToClient (Some 1%nat) 7 (ResCreateRoom 5 true 12345)].
Proof. vm_compute. reflexivity. Qed.

(** A room request of a client is answered at most once.  In every
    interleaving of the Room server's responses, timeouts, disconnections and
    other sessions, a create, join or leave job sends at most one response to
    its client, and once it is finished it sends nothing more. *)
Theorem room_job_replies_once evs evs' j x :
  let s := (run exec evs server_start).2 in
  jobs_ s !! j = Some x -> room_job (kind x) = true ->
  sent j (mjoin (run exec evs server_start).1) <= 1 /\
  sent j (mjoin (run exec evs server_start).1 ++ mjoin (run exec evs' s).1) <= 1 /\
  (finished_ x = true -> sent j (mjoin (run exec evs' s).1) = 0).
Proof.
  cbn zeta. intros Hx Hr. pose proof (steps_run evs server_start) as H1.
  pose proof (steps_run evs' (run exec evs server_start).2) as H2.
  pose proof (steps_trans _ _ _ _ _ H1 H2) as H12.
  destruct (st_jobs _ _ _ H2 _ _ Hx) as (y&Hy&[K S F Q O L]).
  destruct (st_new _ _ _ H1 j x) as [Ho _]; [done..|].
  destruct (st_new _ _ _ H12 j y) as [Ho' _]; [done|done|by rewrite K|]. auto.
Qed.

Lemma room_job_replies_once_witness :
  sent 1 (mjoin (run exec create_room_events server_start).1) <= 1 /\
  sent 1 (mjoin (run exec [RoomResponse 1 (User2RoomResCreateRoom true 12345) 2; Tick 10;
    RunStrand 0 10] (run exec create_room_events server_start).2).1) = 0.
Proof.
  destruct (room_job_replies_once create_room_events
    [RoomResponse 1 (User2RoomResCreateRoom true 12345) 2; Tick 10; RunStrand 0 10] 1
    (Job (job_create_room 5) 0 None 1 true) ltac:(vm_compute; reflexivity)
    ltac:(vm_compute; reflexivity)) as (H1&_&H2).
  split; [exact H1|exact (H2 eq_refl)].
Defined.

(** C34. A handler of a session always returns.  The chain of synchronous
    completions, in which a job that finishes inside [run] makes the scheduler
    run the next job, and the cancellation of all queued jobs at a disconnect,
    terminate: the number of calls is bounded by the calls at hand and the
    jobs in the queues. *)
Theorem session_handlers_total evs :
  OutOfFuel ∉ mjoin (run exec evs server_start).1.
Proof.
  assert (Hg : forall s, OutOfFuel ∉ mjoin (run exec evs s).1); [|apply Hg].
  induction evs as [|e evs IH]; intros s; [apply not_elem_of_nil|].
  rewrite run_cons. cbn [fst]. rewrite mjoin_cons, not_elem_of_app.
  split; [apply exec_total|apply IH].
Qed.

(** Requests to the Room server carry consecutive ids from 1 on, in the
    order they are sent, across all sessions, so no id is reused before the
    64-bit counter wraps. *)
Theorem room_request_ids_fresh evs :
  let ids := request_ids (mjoin (run exec evs server_start).1) in
  ids = ids_from 1 (length ids) /\ (Z.of_nat (length ids) <= 2 ^ 64 -> NoDup ids).
Proof.
  cbn zeta. destruct (takes_run evs server_start) as (n&E&_); [done|].
  rewrite E, length_ids_from. split; [done|]. cbn [next_request_id_ server_start].
  intros Hn. by apply ids_from_NoDup.
Qed.
End SessionsProperties.
