(* ===== verification/Order.v ===== *)
(** * Order: a client hears of its jobs in their order

    The jobs of a session are made in the order its messages arrive, wait in
    the strand and in the scheduler's queue in that order, and only the job at
    the head of the queue can send.  This file proves the invariant behind it:
    for every session, the jobs that have sent, followed by the jobs in the
    queue and in the strand, are strictly increasing. *)

From S2P Require Import Prelude Wire Scheduler Pending Sessions.
From coqutil Require Import Datatypes.RecordSetters.
Import TriangleBracketNotations.
Import room_channel.
#[local] Arguments constant {_} _ _ /.

Notation calls := (list (Scheduler.effect nat)) (only parsing).

(** The job that sent a message to its client. *)
Definition sender (e : effect) : option nat :=
  match e with ToClient (Some j) _ _ => Some j | _ => None end.

(** ** What of the state matters *)

Definition seen : Type := job_scheduler nat * list task.
Definition view (s : user_server) (i : nat) : option seen :=
  (fun y => (scheduler_ y, strand_ y)) <$> heap_ s !! i.

Definition fupd (i : nat) (v : seen) (vw : nat -> option seen) (i' : nat) : option seen :=
  if decide (i' = i) then Some v else vw i'.

Definition pushed (t : task) : option nat := match t with TPush j => Some j | _ => None end.
Definition mentions (t : task) (j : nat) : Prop :=
  match t with TResponse j' _ | TTimeout j' => j' = j | _ => False end.

(** The jobs of a session that have not run to their end. *)
Definition line (v : seen) : list nat := q_ v.1 ++ omap pushed v.2.

Definition owns (js : list job) (i j : nat) : Prop := session_ <$> js !! j = Some i.
#[export] Instance owns_dec js i j : Decision (owns js i j) := decide_rel (=) _ _.

(** A job that was run. *)
Definition started (js : list job) (j : nat) : Prop :=
  exists x, js !! j = Some x /\ (finished_ x = true \/ is_Some (done_ x)).

Notation pending := (gmap Z (request nat (nat * Z))) (only parsing).

Definition awaited (p : pending) (j : nat) : Prop :=
  exists id q, p !! id = Some q /\ (on_response q = j \/ (on_timeout q).1 = j).

(** A job that sent belongs to a session. *)
Definition logged (js : list job) (vw : nat -> option seen) (j : nat) : Prop :=
  exists x, js !! j = Some x /\ is_Some (vw (session_ x)).

Lemma logged_lookup js vw j : logged js vw j -> is_Some (js !! j).
Proof. intros (x&Hx&_). by exists x. Qed.

Lemma logged_fupd js vw i v j : logged js vw j -> logged js (fupd i v vw) j.
Proof. intros (x&Hx&Hv). exists x. split; [done|]. unfold fupd. by case_decide. Qed.

Lemma logged_app js js' vw j : logged js vw j -> logged (js ++ js') vw j.
Proof. intros (x&Hx&Hv). exists x. by rewrite lookup_app_l_Some with (x := x). Qed.

Lemma logged_insert js vw j x x' j' :
  js !! j = Some x -> session_ x' = session_ x -> logged js vw j' ->
  logged (<[j := x']> js) vw j'.
Proof.
  intros Hx Es (y&Hy&Hv). destruct (decide (j' = j)) as [->|Hne].
  - exists x'. rewrite list_lookup_insert_eq by (by eapply lookup_lt_Some). by simplify_eq; rewrite Es.
  - exists y. by rewrite list_lookup_insert_ne.
Qed.

(** The calls the scheduler of a session is making. *)
Inductive calling (js : list job) (vw : nat -> option seen) : calls -> Prop :=
  | calling_none : calling js vw []
  | calling_run v j k x :
      js !! j = Some x -> vw (session_ x) = Some v -> head (q_ v.1) = Some j ->
      completed_ v.1 !! k = Some false -> done_ x = None -> calling js vw [Run j k]
  | calling_cancel i v ws :
      vw i = Some v -> stopped_ v.1 = true ->
      Forall (fun w => exists j x, w = CancelJob j kShutdown /\ js !! j = Some x /\
                session_ x = i /\ j ∉ line v) ws -> calling js vw ws.

Record ord (L : list nat) (ws : calls) (js : list job) (vw : nat -> option seen)
    (p : pending) : Prop := {
  or_sorted i v : vw i = Some v ->
    StronglySorted lt (filter (owns js i) L ++ line v);
  or_line i v j : vw i = Some v -> j ∈ line v ->
    exists x, js !! j = Some x /\ session_ x = i /\ finished_ x = false;
  or_log j : j ∈ L -> logged js vw j;
  or_flags i v : vw i = Some v ->
    (Scheduler.running_ v.1 = true <-> q_ v.1 <> []) /\ (stopped_ v.1 = true -> q_ v.1 = []);
  or_done j x k : js !! j = Some x -> done_ x = Some k ->
    finished_ x = false /\ room_job (kind x) = true /\
    exists v, vw (session_ x) = Some v /\
      ((head (q_ v.1) = Some j /\ completed_ v.1 !! k = Some false) \/
       (stopped_ v.1 = true /\ CancelJob j kShutdown ∈ ws));
  or_strand i v t j : vw i = Some v -> t ∈ v.2 -> mentions t j -> started js j;
  or_awaited j : awaited p j -> started js j;
  or_calling : calling js vw ws;
}.

(** The invariant of a state, with the senders so far. *)
Definition ordered (L : list nat) (ws : calls) (s : user_server) : Prop :=
  ord L ws (jobs_ s) (view s) (Pending.requests_ (requests_ s)).

Lemma calling_ext js vw vw' ws :
  (forall i, vw' i = vw i) -> calling js vw ws -> calling js vw' ws.
Proof.
  intros E []; [constructor|..].
  - eapply calling_run; rewrite ?E; done.
  - eapply calling_cancel; rewrite ?E; done.
Qed.

Lemma ord_ext L ws js vw vw' p p' :
  (forall i, vw' i = vw i) -> p' ⊆ p -> ord L ws js vw p -> ord L ws js vw' p'.
Proof.
  intros E Hp [A B C D F G H I]. split.
  - intros i v. rewrite E. apply A.
  - intros i v j. rewrite E. apply B.
  - intros j (x&?&Hv)%C. exists x. by rewrite E.
  - intros i v. rewrite E. apply D.
  - intros j x k Hx Hd. destruct (F j x k Hx Hd) as (?&?&v&?&?). split_and!; try done.
    exists v. by rewrite E.
  - intros i v t j. rewrite E. apply G.
  - intros j (id&q&Hq&Hj). apply H. exists id, q. split; [by eapply lookup_weaken|done].
  - by eapply calling_ext.
Qed.

(** Two jobs cannot be at the head of one queue. *)
Lemma or_done_head L ws js vw p v j x k :
  ord L ws js vw p -> js !! j = Some x -> done_ x = Some k -> vw (session_ x) = Some v ->
  CancelJob j kShutdown ∉ ws -> head (q_ v.1) = Some j /\ completed_ v.1 !! k = Some false.
Proof.
  intros O Hx Hd Hv Hc. destruct (or_done _ _ _ _ _ O j x k Hx Hd) as (_&_&v'&Hv'&[?|[_ ?]]); [|done].
  by simplify_eq.
Qed.

(** ** A job is made *)

Lemma filter_owns_app js js' i (L : list nat) :
  (forall j, j ∈ L -> is_Some (js !! j)) -> filter (owns (js ++ js') i) L = filter (owns js i) L.
Proof.
  intros HL. induction L as [|j L IH]; [done|]. destruct (HL j) as [x Hx]; [set_solver|].
  assert (E : owns (js ++ js') i j <-> owns js i j).
  { unfold owns. by rewrite lookup_app_l_Some with (x := x), Hx. }
  destruct (decide (owns js i j)).
  - rewrite !filter_cons_True by (by rewrite ?E). f_equal. apply IH. set_solver.
  - rewrite !filter_cons_False by (by rewrite ?E). apply IH. set_solver.
Qed.

Lemma started_app js js' j : started js j -> started (js ++ js') j.
Proof. intros (x&Hx&Hs). exists x. by rewrite lookup_app_l_Some with (x := x). Qed.

Lemma calling_enqueue js vw ws i v x :
  calling js vw ws -> vw i = Some v ->
  calling (js ++ [x]) (fupd i (v.1, v.2 ++ [TPush (length js)]) vw) ws.
Proof.
  intros I Hv. unfold fupd.
  assert (Hold : forall j' y, js !! j' = Some y -> (js ++ [x]) !! j' = Some y)
    by (intros; by apply lookup_app_l_Some).
  destruct I as [|w j' k y Hy Hw Hh Hk Hd|i' w ws Hw Hs Hall]; [constructor|..].
  - destruct (decide (session_ y = i)) as [E|E].
    + rewrite E in Hw. assert (w = v) as -> by congruence. eapply (calling_run _ _ (v.1, _)); [by apply Hold|by rewrite decide_True|done..].
    + eapply (calling_run _ _ w); [by apply Hold|by rewrite decide_False|done..].
  - destruct (decide (i' = i)) as [->|E]; [assert (w = v) as -> by congruence|].
    2: { eapply (calling_cancel _ _ i' w); [by rewrite decide_False|done|].
         eapply Forall_impl; [exact Hall|]. intros c (j'&y&->&Hy&?). exists j', y. by auto. }
    eapply (calling_cancel _ _ i (v.1, _)); [by rewrite decide_True|done|].
    eapply Forall_impl; [exact Hall|]. intros c (j'&y&->&Hy&Hsy&Hn). exists j', y. split_and!; [done|by apply Hold|done|].
    unfold line in *. cbn [fst snd]. rewrite omap_app, (assoc_L (++)), not_elem_of_app. split; [done|].
    cbn. intros ->%list_elem_of_singleton. apply lookup_lt_Some in Hy. lia.
Qed.

Lemma ord_enqueue L ws js vw p i v x :
  ord L ws js vw p -> vw i = Some v -> session_ x = i -> finished_ x = false -> done_ x = None ->
  ord L ws (js ++ [x]) (fupd i (v.1, v.2 ++ [TPush (length js)]) vw) p.
Proof.
  intros [A B C D F G H I] Hv Es Ef Ed. set (j := length js). set (v' := (v.1, v.2 ++ [TPush j])).
  assert (Hold : forall j' y, js !! j' = Some y -> (js ++ [x]) !! j' = Some y).
  { intros j' y Hy. by apply lookup_app_l_Some. }
  assert (El : line v' = line v ++ [j]).
  { unfold line, v'. cbn [fst snd]. rewrite omap_app. cbn. by rewrite app_assoc. }
  assert (Hlt : forall j' y, js !! j' = Some y -> (j' < j)%nat) by (intros; by eapply lookup_lt_Some).
  unfold fupd. split.
  - intros i' w Hw. rewrite filter_owns_app by (intros; by eapply logged_lookup, C). case_decide as Hd; [subst i'|by apply A].
    injection Hw as <-. rewrite El, (assoc_L (++)). apply StronglySorted_app_2; [|by apply A|by repeat constructor].
    intros a b Ha Hb. apply list_elem_of_singleton in Hb as ->.
    apply elem_of_app in Ha as [Ha|Ha].
    + apply list_elem_of_filter in Ha as [_ Ha]. destruct (C a Ha) as (y&Hy&_). by eapply Hlt.
    + destruct (B i v a Hv Ha) as (y&Hy&_). by eapply Hlt.
  - intros i' w j' Hw Hj'. case_decide as Hd.
    + subst i'. injection Hw as <-. rewrite El in Hj'. apply elem_of_app in Hj' as [Hj'|Hj'].
      * destruct (B i v j' Hv Hj') as (y&Hy&?&?). exists y. auto.
      * apply list_elem_of_singleton in Hj' as ->. exists x. unfold j.
        rewrite list_lookup_middle by done. auto.
    + destruct (B i' w j' Hw Hj') as (y&Hy&?&?). exists y. auto.
  - intros j' Hj'. by apply logged_fupd, logged_app, C.
  - intros i' w Hw. case_decide; [|by apply (D i')]. injection Hw as <-. exact (D i v Hv).
  - intros j' y k Hy Hk. apply lookup_app_Some in Hy as [Hy|[_ Hy]].
    2: { apply list_lookup_singleton_Some in Hy as [_ <-]. congruence. }
    destruct (F j' y k Hy Hk) as (?&?&w&Hw&Hc). split_and!; try done.
    case_decide as Hd; [|by exists w]. exists v'. split; [done|]. rewrite Hd in Hw. by simplify_eq.
  - intros i' w t j' Hw Ht Hm. apply started_app. case_decide as Hd; [|by eapply (G i' w t)].
    injection Hw as <-. apply elem_of_app in Ht as [Ht|Ht]; [by eapply (G i v t)|].
    by apply list_elem_of_singleton in Ht as ->.
  - intros j' Hj'. apply started_app. auto.
  - by apply calling_enqueue.
Qed.

(** ** Tasks that push no job *)

Lemma calling_same_line js vw ws i v v' :
  vw i = Some v -> q_ v'.1 = q_ v.1 -> completed_ v'.1 = completed_ v.1 ->
  stopped_ v'.1 = stopped_ v.1 -> line v' = line v ->
  calling js vw ws -> calling js (fupd i v' vw) ws.
Proof.
  intros Hv Eq Ec Es El []; [constructor|..]; unfold fupd.
  - eapply (calling_run _ _ (if decide (session_ x = i) then v' else v0)); try done;
      case_decide as E; try done; rewrite E in *; simplify_eq; congruence.
  - eapply (calling_cancel _ _ i0 (if decide (i0 = i) then v' else v0)); try (by case_decide).
    + case_decide as E; [|done]. subst i0. simplify_eq. congruence.
    + case_decide as E; [|done]. subst i0. assert (v0 = v) as -> by congruence. by rewrite El.
Qed.

Lemma ord_same_line L ws js vw p i v st :
  ord L ws js vw p -> vw i = Some v -> omap pushed st = omap pushed v.2 ->
  (forall t j, t ∈ st -> mentions t j -> started js j) ->
  ord L ws js (fupd i (v.1, st) vw) p.
Proof.
  intros [A B C D F G H I] Hv Ep Hm.
  assert (El : line (v.1, st) = line v) by (unfold line; cbn; by rewrite Ep).
  split; try done.
  - intros i' w. unfold fupd. case_decide; [|apply A]. intros [= <-]. subst. rewrite El. by apply A.
  - intros i' w j. unfold fupd. case_decide; [|apply B]. intros [= <-]. subst. rewrite El. by apply B.
  - intros j Hj. by apply logged_fupd, C.
  - intros i' w. unfold fupd. case_decide; [|apply D]. intros [= <-]. exact (D i v Hv).
  - intros j x k Hx Hd. destruct (F j x k Hx Hd) as (?&?&w&Hw&Hc). split_and!; try done.
    unfold fupd. case_decide as E; [|by exists w]. exists (v.1, st). split; [done|].
    rewrite E in Hw. by simplify_eq.
  - intros i' w t j. unfold fupd. case_decide; [|apply G]. intros [= <-]. apply Hm.
  - by eapply calling_same_line.
Qed.

(** ** The head of the queue ends *)

Lemma filter_owns_insert js i j x x' (L : list nat) :
  js !! j = Some x -> session_ x' = session_ x ->
  filter (owns (<[j := x']> js) i) L = filter (owns js i) L.
Proof.
  intros Hx Es. apply list_filter_iff. intros j'. unfold owns.
  destruct (decide (j' = j)) as [->|Hne].
  - rewrite list_lookup_insert_eq by (by eapply lookup_lt_Some). rewrite Hx. cbn. by rewrite Es.
  - by rewrite list_lookup_insert_ne.
Qed.

Lemma lookup_set {A} (l : list A) j x x' j' y :
  l !! j = Some x -> <[j := x']> l !! j' = Some y ->
  (j' = j /\ y = x') \/ (j' <> j /\ l !! j' = Some y).
Proof. intros Hx [(->&->&_)|[? ?]]%list_lookup_insert_Some; auto. Qed.

Lemma started_insert js j x x' j' :
  js !! j = Some x -> (started js j -> finished_ x' = true \/ is_Some (done_ x')) ->
  started js j' -> started (<[j := x']> js) j'.
Proof.
  intros Hx Hs Hj. destruct (decide (j' = j)) as [->|Hne].
  - exists x'. rewrite list_lookup_insert_eq by (by eapply lookup_lt_Some). auto.
  - destruct Hj as (y&Hy&?). exists y. by rewrite list_lookup_insert_ne.
Qed.

(** What the scheduler does when the job at the head of its queue completes. *)
Lemma completion_head k (j : nat) rest cs :
  cs !! k = Some false ->
  let r := completion k (JobScheduler (j :: rest) true false cs) in
  q_ r.2 = rest /\ stopped_ r.2 = false /\ (Scheduler.running_ r.2 = true <-> rest <> []) /\
  match rest with
  | [] => r.1 = []
  | next :: _ => r.1 = [Run next (length cs)] /\ completed_ r.2 !! length cs = Some false
  end.
Proof.
  intros Hk. cbn zeta. unfold completion. cbn [completed_]. rewrite Hk. cbn.
  destruct rest as [|n rest]; cbn; [by split_and!|].
  rewrite !length_insert. split_and!; try done.
  rewrite list_lookup_middle; [done|by rewrite length_insert].
Qed.

(** The head of a sorted line is in front of the rest. *)
Lemma sorted_head (L0 : list nat) (j : nat) l : StronglySorted lt (L0 ++ j :: l) -> j ∉ l.
Proof.
  intros Hs. apply StronglySorted_app_1_r in Hs. apply StronglySorted_cons in Hs as [Hs _].
  intros Hin. rewrite Forall_forall in Hs. specialize (Hs j Hin). lia.
Qed.

(** It leaves the line, perhaps into the log. *)
Lemma sorted_leave js i (L L' : list nat) (j : nat) l :
  StronglySorted lt (filter (owns js i) L ++ j :: l) -> owns js i j ->
  L' = L \/ L' = L ++ [j] -> StronglySorted lt (filter (owns js i) L' ++ l).
Proof.
  intros Hs Hj [-> | ->].
  - apply StronglySorted_app in Hs as (H1&H2&H3). apply StronglySorted_cons in H3 as [_ H3].
    apply StronglySorted_app_2; [|done|done]. intros a b Ha Hb. apply H1; [done|set_solver].
  - rewrite filter_app, (filter_cons_True _ j) by done. cbn. by rewrite <- app_assoc.
Qed.

(** The completion of the current job: it leaves the queue, perhaps after it
    sent, and the next one is run. *)
(** While a queue has a head, the scheduler runs and no other job of the
    session waits for a completion. *)
Lemma or_head L ws js vw p i v j :
  ord L ws js vw p -> (forall j', CancelJob j' kShutdown ∉ ws) -> vw i = Some v -> head (q_ v.1) = Some j ->
  Scheduler.running_ v.1 = true /\ stopped_ v.1 = false /\
  (forall j' y k, j' <> j -> js !! j' = Some y -> done_ y = Some k -> session_ y <> i).
Proof.
  intros O Hnc Hv Hh. destruct (or_flags _ _ _ _ _ O i _ Hv) as [Hr Hst].
  assert (Hq : q_ v.1 <> []) by (by intros E; rewrite E in Hh). split_and!; [by apply Hr|..].
  - destruct (stopped_ v.1); [by specialize (Hst eq_refl)|done].
  - intros j' y k Hne Hy Hd Hi. subst i.
    destruct (or_done_head _ _ _ _ _ v _ _ _ O Hy Hd Hv (Hnc j')) as [Hh' _]. congruence.
Qed.

Lemma logged_pop L L' js vw j x x' v w j' :
  js !! j = Some x -> session_ x' = session_ x -> vw (session_ x) = Some v ->
  L' = L \/ L' = L ++ [j] -> (forall j', j' ∈ L -> logged js vw j') -> j' ∈ L' ->
  logged (<[j := x']> js) (fupd (session_ x) w vw) j'.
Proof.
  intros Hx Es Hv HL Hlog Hj'. apply logged_fupd. destruct (decide (j' = j)) as [->|Hne].
  - exists x'. rewrite Es. split; [|by exists v]. apply list_lookup_insert_eq. by eapply lookup_lt_Some.
  - apply (logged_insert js vw j x x'), Hlog; [done|done|]. destruct HL as [-> | ->]; set_solver.
Qed.

Lemma ord_pop L L' ws js vw p v j k x x' :
  ord L ws js vw p -> ws = [] \/ ws = [Run j k] ->
  js !! j = Some x -> vw (session_ x) = Some v ->
  head (q_ v.1) = Some j -> completed_ v.1 !! k = Some false ->
  session_ x' = session_ x -> done_ x' = None -> finished_ x' = true \/ x' = x ->
  L' = L \/ L' = L ++ [j] ->
  ord L' (completion k v.1).1 (<[j := x']> js)
    (fupd (session_ x) ((completion k v.1).2, v.2) vw) p.
Proof.
  intros O Hws Hx Hv Hh Hk Es Ed Ef HL. set (i := session_ x) in *.
  assert (Hnc : forall j', CancelJob j' kShutdown ∉ ws) by (destruct Hws as [-> | ->]; set_solver).
  destruct (or_head _ _ _ _ _ _ _ _ O Hnc Hv Hh) as (Er&Estop&Hothers).
  destruct v as [[q run stop cs] st]. cbn [fst snd q_ completed_ Scheduler.running_ stopped_] in *. subst run stop.
  destruct q as [|j0 rest]; [done|]. injection Hh as ->.
  pose proof (or_sorted _ _ _ _ _ O i _ Hv) as Hs. unfold line in Hs. cbn in Hs.
  pose proof (sorted_head _ _ _ Hs) as Hrest.
  pose proof (completion_head k j rest cs Hk) as Hr2. set (r := completion k _) in *. cbn zeta in Hr2.
  clearbody r. destruct r as [ws' sch]. cbn [fst snd] in *. destruct Hr2 as (Eq&Estop&Erun&Hnext).
  assert (El : line (sch, st) = rest ++ omap pushed st) by (unfold line; cbn; by rewrite Eq).
  assert (Hj : owns js i j) by (unfold owns; by rewrite Hx).
  pose proof (sorted_leave js i L L' j _ Hs Hj HL) as HsL.
  assert (Hold : forall j' y, j' <> j -> js !! j' = Some y -> <[j := x']> js !! j' = Some y)
    by (intros; by rewrite list_lookup_insert_ne).
  assert (Hstart : forall j', started js j' -> started (<[j := x']> js) j').
  { intros j'. apply (started_insert js j x x' j' Hx). intros (y&Hy&Hc).
    destruct Ef as [Ef| ->]; [by left|]. simplify_eq. done. }
  unfold fupd. split.
  - intros i' w Hw. rewrite (filter_owns_insert js i' j x x') by done.
    case_decide as Hd; [subst i'; injection Hw as <-; by rewrite El|].
    pose proof (or_sorted _ _ _ _ _ O i' w Hw) as Hs'. destruct HL as [-> | ->]; [done|].
    rewrite filter_app, (filter_cons_False _ j); [by rewrite app_nil_r|].
    unfold owns in *. congruence.
  - intros i' w j' Hw Hj'. case_decide as Hd.
    + subst i'. injection Hw as <-. rewrite El in Hj'.
      destruct (or_line _ _ _ _ _ O i _ j' Hv) as (y&Hy&?&?); [unfold line; cbn; set_solver|].
      exists y. split_and!; try done. apply Hold; [|done]. intros ->. done.
    + destruct (or_line _ _ _ _ _ O i' w j' Hw Hj') as (y&Hy&Hyi&?). exists y.
      split_and!; try done. apply Hold; [|done]. intros ->. simplify_eq.
  - intros j'. eapply (logged_pop L L'); [done|done|exact Hv|done|exact (or_log _ _ _ _ _ O)].
  - intros i' w Hw. case_decide; [|by apply (or_flags _ _ _ _ _ O i')]. injection Hw as <-.
    cbn [fst]. rewrite Eq, Estop. split; [done|done].
  - intros j' y k' Hy Hd. destruct (lookup_set _ _ _ _ _ _ Hx Hy) as [[-> ->]|[Hne Hy']]; [congruence|].
    clear Hy. rename Hy' into Hy.
    destruct (or_done _ _ _ _ _ O j' y k' Hy Hd) as (?&?&w&Hw&Hc). split_and!; try done.
    exists w. rewrite decide_False by (by eapply Hothers). split; [done|].
    destruct Hc as [Hc|[_ Hc]]; [by left|by apply Hnc in Hc].
  - intros i' w t j' Hw Ht Hm. apply Hstart. case_decide as Hd.
    + injection Hw as <-. by eapply (or_strand _ _ _ _ _ O i _ t).
    + by eapply (or_strand _ _ _ _ _ O i' w t).
  - intros j' Hj'. apply Hstart. by apply (or_awaited _ _ _ _ _ O).
  - destruct rest as [|next rest]; [subst ws'; constructor|]. destruct Hnext as [-> Hc].
    destruct (or_line _ _ _ _ _ O i _ next Hv) as (y&Hy&Hyi&_); [unfold line; cbn; set_solver|].
    assert (Hne : next <> j) by set_solver.
    eapply (calling_run _ _ (sch, st) next _ y); [by apply Hold|by rewrite decide_True|cbn; by rewrite Eq|done|].
    destruct (done_ y) as [k'|] eqn:Edy; [|done]. by destruct (Hothers next y k' Hne Hy Edy).
Qed.

(** ** A room job is run *)

Lemma ord_start L js vw p p' j k x x' :
  ord L [Run j k] js vw p -> js !! j = Some x ->
  session_ x' = session_ x -> kind x' = kind x -> finished_ x' = finished_ x ->
  done_ x' = Some k -> room_job (kind x) = true ->
  (forall j', awaited p' j' -> awaited p j' \/ j' = j) ->
  ord L [] (<[j := x']> js) vw p'.
Proof.
  intros O Hx Es Ek Ef Ed Hroom Hp. destruct O as [A B C D F G H I]. inversion I as [|v j0 k0 x0 Hx0 Hv Hh Hk Hd0|]; simplify_eq.
  2: { match goal with Hc : Forall _ [Run _ _] |- _ =>
         apply Forall_cons_1 in Hc as [(?&?&?&_) _]; done end. }
  assert (Hlt := lookup_lt_Some _ _ _ Hx).
  assert (Hself : <[j := x']> js !! j = Some x') by (by apply list_lookup_insert_eq).
  assert (Hline : exists y, js !! j = Some y /\ session_ y = session_ x /\ finished_ y = false).
  { eapply B; [done|]. unfold line. destruct (q_ v.1) as [|j0 q]; [done|]. simplify_eq/=. set_solver. }
  destruct Hline as (y&Hy&_&Hfy). assert (y = x) as -> by congruence. clear Hy.
  assert (Hold : forall j' y, js !! j' = Some y ->
    exists y', <[j := x']> js !! j' = Some y' /\ session_ y' = session_ y /\ finished_ y' = finished_ y).
  { intros j' y Hy'. destruct (decide (j' = j)) as [->|Hne].
    - exists x'. simplify_eq. auto.
    - exists y. by rewrite list_lookup_insert_ne. }
  assert (Hstart : forall j', started js j' -> started (<[j := x']> js) j').
  { intros j'. apply (started_insert js j _ x' j' Hx). intros _. right. by exists k. }
  split; try done.
  - intros i v' Hv'. rewrite (filter_owns_insert js i j x x') by done. by apply A.
  - intros i v' j' Hv' Hj'. destruct (B i v' j' Hv' Hj') as (z&Hz&?&?).
    destruct (Hold j' z Hz) as (z'&?&?&?). exists z'. split_and!; congruence.
  - intros j' Hj'. by apply (logged_insert js vw j x x'), C.
  - intros j' z k' Hz Hd. destruct (lookup_set _ _ _ _ _ _ Hx Hz) as [[-> ->]|[Hne Hz']].
    + simplify_eq. split_and!; [congruence|congruence|]. exists v. rewrite Es. auto.
    + destruct (F j' z k' Hz' Hd) as (?&?&w&Hw&Hc). split_and!; try done. exists w.
      split; [done|]. destruct Hc as [Hc|[_ Hc]]; [by left|]. apply list_elem_of_singleton in Hc. done.
  - intros i v' t j' Hv' Ht Hm. apply Hstart. by eapply G.
  - intros j' Hj'. destruct (Hp j' Hj') as [Ha| ->]; [by apply Hstart, H|].
    exists x'. split; [done|]. right. by exists k.
  - constructor.
Qed.

(** ** A cancelled job *)

Lemma ord_cancel_noop L j ws js vw p x :
  ord L (CancelJob j kShutdown :: ws) js vw p -> js !! j = Some x ->
  finished_ x = true \/ room_job (kind x) = false -> ord L ws js vw p.
Proof.
  intros [A B C D F G H I] Hx Hno. split; try done.
  - intros j' y k Hy Hd. destruct (F j' y k Hy Hd) as (Hf&Hr&w&Hw&Hc). split_and!; try done.
    exists w. split; [done|]. destruct Hc as [Hc|[Hs Hc]]; [by left|right]. split; [done|].
    apply elem_of_cons in Hc as [Hc|Hc]; [|done]. simplify_eq. destruct Hno; congruence.
  - inversion I; simplify_eq. eapply calling_cancel; [done|done|]. by eapply Forall_cons_1.
Qed.

Lemma calling_cancelled js vw ws j x v :
  calling js vw (CancelJob j kShutdown :: ws) -> js !! j = Some x -> vw (session_ x) = Some v ->
  stopped_ v.1 = true /\ j ∉ line v /\
  Forall (fun w => exists j y, w = CancelJob j kShutdown /\ js !! j = Some y /\
            session_ y = session_ x /\ j ∉ line v) ws.
Proof.
  intros I Hx Hv. inversion I as [| |i' w ws' Hw Hs Hall Ews]. subst ws'.
  apply Forall_cons_1 in Hall as [(j1&x1&Ej&Hx1&Hs1&Hn1) Hall]. injection Ej as <-.
  assert (i' = session_ x) as -> by congruence. assert (w = v) as -> by congruence. done.
Qed.

Lemma ord_cancel L j ws js vw p x x' v cs :
  ord L (CancelJob j kShutdown :: ws) js vw p -> js !! j = Some x ->
  vw (session_ x) = Some v ->
  session_ x' = session_ x -> finished_ x' = true -> done_ x' = None ->
  ord L ws (<[j := x']> js)
    (fupd (session_ x) (JobScheduler (q_ v.1) (Scheduler.running_ v.1) (stopped_ v.1) cs, v.2) vw) p.
Proof.
  intros [A B C D F G H I] Hx Hv Es Ef Ed. set (i := session_ x) in *.
  set (v' := (_, _)). assert (El : line v' = line v) by done.
  destruct (calling_cancelled _ _ _ _ _ _ I Hx Hv) as (Hst&Hnl&Hall).
  assert (Hold : forall j' y, j' <> j -> js !! j' = Some y -> <[j := x']> js !! j' = Some y)
    by (intros; by rewrite list_lookup_insert_ne).
  assert (Hstart : forall j', started js j' -> started (<[j := x']> js) j').
  { intros j'. apply (started_insert js j x x' j' Hx). auto. }
  assert (Hown : forall i' w j', vw i' = Some w -> j' ∈ line w -> j' <> j).
  { intros i' w j' Hw Hj' ->. destruct (B i' w j Hw Hj') as (y&Hy&Hyi&_).
    assert (y = x) as -> by congruence. assert (i' = i) as -> by (unfold i; congruence).
    assert (w = v) as -> by congruence. done. }
  split.
  - intros i' w. rewrite (filter_owns_insert js i' j x x') by done. unfold fupd.
    case_decide; [|apply A]. intros [= <-]. subst. rewrite El. by apply A.
  - intros i' w j' Hw Hj'. unfold fupd in Hw. case_decide as E.
    + subst i'. injection Hw as <-. rewrite El in Hj'. destruct (B i v j' Hv Hj') as (y&Hy&?&?).
      exists y. split_and!; try done. apply Hold; [by eapply Hown|done].
    + destruct (B i' w j' Hw Hj') as (y&Hy&?&?). exists y. split_and!; try done.
      apply Hold; [by eapply Hown|done].
  - intros j' Hj'. by apply logged_fupd, (logged_insert js vw j x x'), C.
  - intros i' w. unfold fupd. case_decide; [|apply D]. intros [= <-]. exact (D i v Hv).
  - intros j' y k Hy Hd. destruct (lookup_set _ _ _ _ _ _ Hx Hy) as [[-> ->]|[Hne Hy']]; [congruence|].
    destruct (F j' y k Hy' Hd) as (?&?&w&Hw&Hc). split_and!; try done. unfold fupd.
    case_decide as E.
    + exists v'. split; [done|]. rewrite E in Hw. assert (w = v) as -> by congruence. right. split; [done|].
      destruct Hc as [[Hc _]|[_ Hc]].
      * destruct (D i v Hv) as [_ Dq]. by rewrite (Dq Hst) in Hc.
      * apply elem_of_cons in Hc as [Hc|Hc]; [by simplify_eq|done].
    + exists w. split; [done|]. destruct Hc as [Hc|[Hs Hc]]; [by left|right]. split; [done|].
      apply elem_of_cons in Hc as [Hc|Hc]; [by simplify_eq|done].
  - intros i' w t j' Hw Ht Hm. apply Hstart. unfold fupd in Hw. case_decide.
    + injection Hw as <-. by eapply (G i v t).
    + by eapply (G i' w t).
  - intros j' Hj'. auto.
  - eapply (calling_cancel _ _ i v'); [unfold fupd; by rewrite decide_True|done|].
    eapply Forall_impl; [exact Hall|]. intros w (j'&y&->&Hy&Hys&Hn).
    destruct (decide (j' = j)) as [->|Hne].
    + exists j, x'. split_and!; [done| |congruence|done]. apply list_lookup_insert_eq. by eapply lookup_lt_Some.
    + exists j', y. split_and!; try done. by apply Hold.
Qed.

(** ** A job is pushed; the scheduler is shut down *)

Lemma push_cases (j : nat) q run stop cs :
  (run = true <-> q <> []) ->
  let r := push_and_run j (JobScheduler q run stop cs) in
  (stop = true /\ r = ([CancelJob j kShutdown], JobScheduler q run stop cs)) \/
  (stop = false /\ q_ r.2 = q ++ [j] /\ stopped_ r.2 = false /\ Scheduler.running_ r.2 = true /\
   ((q <> [] /\ r.1 = [] /\ completed_ r.2 = cs) \/
    (q = [] /\ r.1 = [Run j (length cs)] /\ completed_ r.2 = cs ++ [false]))).
Proof.
  intros Hr. unfold push_and_run. cbn. destruct stop; [by left|right]. split; [done|]. destruct run.
  - split_and!; try done. left. split_and!; try done. by apply Hr.
  - destruct q as [|a q]; [|exfalso; assert (false = true) by (by apply Hr); done].
    cbn. split_and!; try done. right. by split_and!.
Qed.

Lemma sorted_skip (l1 l2 l3 : list nat) j :
  StronglySorted lt (l1 ++ l2 ++ j :: l3) -> StronglySorted lt (l1 ++ l2 ++ l3).
Proof. apply sorted_sublist. apply sublist_app; [done|]. apply sublist_app; [done|]. by apply sublist_cons. Qed.

Lemma calling_push js vw i j q run stop cs ts ws sch x :
  js !! j = Some x -> session_ x = i -> (stop = true -> q = []) -> j ∉ omap pushed ts ->
  (forall k, done_ x = Some k -> head q = Some j) ->
  (stop = true /\ (ws, sch) = ([CancelJob j kShutdown], JobScheduler q run stop cs)) \/
  (stop = false /\ q_ sch = q ++ [j] /\ stopped_ sch = false /\ Scheduler.running_ sch = true /\
   ((q <> [] /\ ws = [] /\ completed_ sch = cs) \/
    (q = [] /\ ws = [Run j (length cs)] /\ completed_ sch = cs ++ [false]))) ->
  calling js (fupd i (sch, ts) vw) ws.
Proof.
  intros Hx Hi Hst Hj Hd Hr. assert (Hv : fupd i (sch, ts) vw i = Some (sch, ts)) by (unfold fupd; by rewrite decide_True).
  destruct Hr as [[-> [= -> ->]]|(_&Eq&_&_&[(_&->&_)|(->&->&Ec)])]; [|constructor|].
  - eapply calling_cancel; [exact Hv|done|]. constructor; [|constructor]. exists j, x. split_and!; try done.
    unfold line. cbn. by rewrite (Hst eq_refl).
  - eapply (calling_run _ _ (sch, ts) j _ x); [done|by rewrite Hi|cbn; by rewrite Eq|cbn; rewrite Ec; by rewrite list_lookup_middle|].
    destruct (done_ x) as [k|]; [|done]. by specialize (Hd k eq_refl).
Qed.

Lemma ord_push L js vw p i v j ts :
  ord L [] js vw p -> vw i = Some v -> v.2 = TPush j :: ts ->
  ord L (push_and_run j v.1).1 js (fupd i ((push_and_run j v.1).2, ts) vw) p.
Proof.
  intros O Hv Et. destruct v as [[q run stop cs] st]. cbn [fst snd] in *. subst st.
  destruct O as [A B C D F G H I].
  pose proof (A i _ Hv) as Hs. unfold line in Hs. cbn in Hs. destruct (D i _ Hv) as [Hr Hst]. cbn in Hr, Hst.
  destruct (B i _ j Hv) as (x&Hx&Hxi&Hxf); [unfold line; cbn; set_solver|].
  pose proof (push_cases j q run stop cs Hr) as Hr2. set (r := push_and_run j _) in *. cbn zeta in Hr2.
  clearbody r. destruct r as [ws sch]. cbn [fst snd] in Hr2.
  assert (Hline : exists l, line (sch, ts) = l /\ (l = q ++ j :: omap pushed ts \/
    (l = q ++ omap pushed ts /\ stop = true))).
  { eexists. split; [done|]. unfold line. cbn [fst snd].
    destruct Hr2 as [[-> [= -> ->]]|(_&->&_)]; [by right|left]. by rewrite <- app_assoc. }
  destruct Hline as (l&El&Hl).
  assert (Hsub : forall j', j' ∈ l -> j' ∈ q ++ j :: omap pushed ts)
    by (destruct Hl as [-> |[-> _]]; set_solver).
  unfold fupd. split; try done.
  - intros i' w. case_decide; [|apply A]. intros [= <-]. subst i'. rewrite El.
    destruct Hl as [-> |[-> _]]; [done|by eapply sorted_skip].
  - intros i' w j'. case_decide; [|apply B]. intros [= <-] Hj'. subst i'. apply (B i _ j' Hv).
    unfold line. cbn. apply Hsub. by rewrite <- El.
  - intros j' Hj'. by apply logged_fupd, C.
  - intros i' w. case_decide; [|apply D]. intros [= <-]. cbn [fst].
    destruct Hr2 as [[-> [= -> ->]]|(_&->&->&->&_)]; [by split|]. split; [|done].
    split; [|done]. intros _. by destruct q.
  - intros j' y k Hy Hd. destruct (F j' y k Hy Hd) as (?&?&w&Hw&Hc). split_and!; try done.
    destruct Hc as [Hc|[_ Hc]]; [|by apply elem_of_nil in Hc].
    case_decide as E; [|exists w; by auto]. exists (sch, ts). split; [done|]. left.
    rewrite E, Hv in Hw. injection Hw as <-. cbn [fst q_ completed_] in *.
    destruct Hc as [Hh Hk]. destruct q as [|a q]; [done|].
    destruct Hr2 as [[-> [= -> ->]]|(_&->&_&_&[(_&_&->)|[? _]])]; done.
  - intros i' w t j'. case_decide; [|apply G]. intros [= <-] Ht Hm.
    eapply (G i _ t j' Hv); [|done]. cbn. set_solver.
  - eapply calling_push; [done|done|done| | |exact Hr2].
    + apply StronglySorted_app in Hs as (_&_&Hs). apply StronglySorted_app in Hs as (_&_&Hs).
      intros Hj. apply StronglySorted_cons in Hs as [Hs _]. rewrite Forall_forall in Hs. specialize (Hs j Hj). lia.
    + intros k Hd. destruct (F j x k Hx Hd) as (_&_&w&Hw&[[Hh _]|[_ Hc]]); [|by apply elem_of_nil in Hc].
      rewrite Hxi, Hv in Hw. by injection Hw as <-.
Qed.

Lemma ord_shutdown L js vw p i v :
  ord L [] js vw p -> vw i = Some v ->
  ord L (shutdown v.1).1 js (fupd i ((shutdown v.1).2, v.2) vw) p.
Proof.
  intros O Hv. destruct v as [[q run stop cs] st]. cbn [fst snd] in *.
  unfold shutdown. cbn. destruct stop; cbn [fst snd].
  { eapply (ord_ext _ _ _ vw); [|done|done]. intros i'. unfold fupd. case_decide; congruence. }
  destruct O as [A B C D F G H I].
  pose proof (A i _ Hv) as Hs. unfold line in Hs. cbn in Hs.
  unfold fupd. split; try done.
  - intros i' w. case_decide; [|apply A]. intros [= <-]. subst i'. unfold line. cbn.
    apply StronglySorted_app in Hs as (H1&H2&H3). apply StronglySorted_app in H3 as (H4&H5&H6).
    apply StronglySorted_app_2; [|done|done]. set_solver.
  - intros i' w j'. case_decide; [|apply B]. intros [= <-] Hj'. subst i'. apply (B i _ j' Hv).
    unfold line in *. cbn in *. set_solver.
  - intros j' Hj'. by apply logged_fupd, C.
  - intros i' w. case_decide; [|apply D]. intros [= <-]. by split.
  - intros j' y k Hy Hd. destruct (F j' y k Hy Hd) as (?&?&w&Hw&Hc). split_and!; try done.
    destruct Hc as [Hc|[_ Hc]]; [|by apply elem_of_nil in Hc].
    case_decide as E; [|exists w; by auto]. eexists. split; [done|]. right. split; [done|].
    rewrite E, Hv in Hw. injection Hw as <-. cbn in Hc. destruct Hc as [Hh _].
    apply list_elem_of_fmap. exists j'. split; [done|]. destruct q; simplify_eq/=. set_solver.
  - intros i' w t j'. case_decide; [|apply G]. intros [= <-] Ht Hm. by eapply (G i _ t j' Hv).
  - eapply (calling_cancel _ _ i (JobScheduler [] false true cs, st)); [by rewrite decide_True|done|].
    apply Forall_fmap, Forall_forall. intros j Hj. cbn.
    destruct (B i _ j Hv) as (x&Hx&Hxi&_); [unfold line; cbn; set_solver|]. exists j, x.
    split_and!; try done. unfold line. cbn.
    apply StronglySorted_app in Hs as (_&_&Hs). apply StronglySorted_app in Hs as (Hd&_&_).
    intros Hin. specialize (Hd j j Hj Hin). lia.
Qed.

(** ** The operations of the server *)

Lemma ord_make L ws js vw p i x :
  ord L ws js vw p -> vw i = None -> session_ x = i -> done_ x = None ->
  ord L ws (js ++ [x]) vw p.
Proof.
  intros [A B C D F G H I] Hv Es Ed.
  assert (Hold : forall j' y, js !! j' = Some y -> (js ++ [x]) !! j' = Some y).
  { intros j' y Hy. by apply lookup_app_l_Some. }
  split; try done.
  - intros i' w Hw. rewrite filter_owns_app by (intros; by eapply logged_lookup, C). by apply A.
  - intros i' w j Hw Hj. destruct (B i' w j Hw Hj) as (y&?&?&?). exists y. auto.
  - intros j Hj. by apply logged_app, C.
  - intros j y k Hy Hk. apply lookup_app_Some in Hy as [Hy|[_ Hy]]; [by eapply F|].
    apply list_lookup_singleton_Some in Hy as [_ <-]. congruence.
  - intros i' w t j Hw Ht Hm. by eapply started_app, G.
  - intros j Hj. by apply started_app, H.
  - destruct I as [| |i' w ws Hw Hs Hall]; [constructor|by eapply calling_run; eauto|].
    eapply calling_cancel; [done|done|]. eapply Forall_impl; [exact Hall|].
    intros c (j&y&?&?&?&?). exists j, y. auto.
Qed.

Lemma view_heap i y s s' i' :
  heap_ s' = <[i := y]> (heap_ s) -> is_Some (heap_ s !! i) ->
  view s' i' = fupd i (scheduler_ y, strand_ y) (view s) i'.
Proof.
  intros E [y0 Hy]. unfold view, fupd. rewrite E. case_decide as Ei.
  - subst i'. by rewrite list_lookup_insert_eq by (by eapply lookup_lt_Some).
  - by rewrite list_lookup_insert_ne by done.
Qed.

Lemma view_session i y s i' :
  is_Some (heap_ s !! i) ->
  view (set_session i y s) i' = fupd i (scheduler_ y, strand_ y) (view s) i'.
Proof. apply view_heap. by destruct s. Qed.

Lemma view_lookup i y s : heap_ s !! i = Some y -> view s i = Some (scheduler_ y, strand_ y).
Proof. intros Hy. unfold view. by rewrite Hy. Qed.

Lemma view_inv i v s :
  view s i = Some v -> exists y, heap_ s !! i = Some y /\ v = (scheduler_ y, strand_ y).
Proof. unfold view. intros (y&Hy&Ev)%fmap_Some. eauto. Qed.

Lemma ordered_ext L ws s s' :
  jobs_ s' = jobs_ s -> (forall i, view s' i = view s i) ->
  Pending.requests_ (requests_ s') ⊆ Pending.requests_ (requests_ s) ->
  ordered L ws s -> ordered L ws s'.
Proof. unfold ordered. intros -> Hv Hp. by apply ord_ext. Qed.

(** Fields of a session other than its scheduler and its strand. *)
Lemma ordered_session L ws i y y' s :
  heap_ s !! i = Some y -> scheduler_ y' = scheduler_ y -> strand_ y' = strand_ y ->
  ordered L ws s -> ordered L ws (set_session i y' s).
Proof.
  intros Hy E1 E2. apply ordered_ext; [by destruct s| |by destruct s].
  intros i'. rewrite view_session by eauto. unfold fupd. case_decide; [|done].
  subst i'. by rewrite (view_lookup i y), E1, E2.
Qed.

Lemma ordered_post L ws i t s :
  ordered L ws s -> pushed t = None -> (forall j, mentions t j -> started (jobs_ s) j) ->
  ordered L ws (post i t s).
Proof.
  intros O Hp Hm. unfold post. destruct (heap_ s !! i) as [y|] eqn:Hy; [|done].
  eapply ord_ext; [intros i'; by apply view_session; eauto|by destruct s|].
  replace (jobs_ _) with (jobs_ s) by (by destruct s). destruct y as [c u r b sch st]. cbn.
  apply (ord_same_line L ws _ (view s) _ i (sch, st)); [done|by rewrite (view_lookup _ _ _ Hy)|..].
  - rewrite omap_app. cbn. by rewrite Hp, app_nil_r.
  - intros t' j Ht Hj. apply elem_of_app in Ht as [Ht|Ht].
    + eapply (or_strand _ _ _ _ _ O i _ t' j (view_lookup _ _ _ Hy)); done.
    + apply list_elem_of_singleton in Ht as ->. auto.
Qed.

Lemma ordered_enqueue L ws i k s : ordered L ws s -> ordered L ws (enqueue_job i k s).
Proof.
  intros O. unfold enqueue_job, post. destruct s as [h js ss us nx rq]. cbn.
  destruct (h !! i) as [y|] eqn:Hy.
  - eapply (ord_ext _ _ _ (fupd i (scheduler_ y, strand_ y ++ [TPush (length js)]) (view
      (UserServer h js ss us nx rq))) _ (Pending.requests_ rq)); [|done|].
    + intros i'. destruct y as [c u r b sch st]. cbn.
      by apply (view_heap i (Session c u r b sch (st ++ [TPush (length js)]))); [|eexists].
    + apply (ord_enqueue L ws js _ _ i (scheduler_ y, strand_ y)); try done.
      unfold view. cbn. by rewrite Hy.
  - eapply (ord_make L ws js _ _ i); try done. unfold view. cbn. by rewrite Hy.
Qed.

(** ** Jobs *)

Lemma ordered_running L j k s :
  ordered L [Run j k] s -> exists x y,
    jobs_ s !! j = Some x /\ heap_ s !! session_ x = Some y /\ done_ x = None /\
    head (q_ (scheduler_ y)) = Some j /\ completed_ (scheduler_ y) !! k = Some false.
Proof.
  intros O. pose proof (or_calling _ _ _ _ _ O) as I.
  inversion I as [|v j0 k0 x Hx Hv Hh Hk Hd E|i v ws Hv Hs Hall E]; subst.
  - destruct (view_inv _ _ _ Hv) as (y&Hy&->). by exists x, y.
  - apply Forall_cons_1 in Hall as [(?&?&?&_) _]. done.
Qed.

Lemma ordered_awaiting L j x k s :
  ordered L [] s -> jobs_ s !! j = Some x -> done_ x = Some k -> exists y,
    heap_ s !! session_ x = Some y /\ room_job (kind x) = true /\
    head (q_ (scheduler_ y)) = Some j /\ completed_ (scheduler_ y) !! k = Some false.
Proof.
  intros O Hx Hd. destruct (or_done _ _ _ _ _ O j x k Hx Hd) as (_&Hr&v&Hv&[[??]|[_ Hc]]).
  - destruct (view_inv _ _ _ Hv) as (y&Hy&->). by exists y.
  - by apply elem_of_nil in Hc.
Qed.

(** The completion closure of the job at the head of its queue. *)
Lemma ordered_done L L' ws j k x x' y s :
  ordered L ws s -> ws = [] \/ ws = [Run j k] ->
  jobs_ s !! j = Some x -> heap_ s !! session_ x = Some y ->
  head (q_ (scheduler_ y)) = Some j -> completed_ (scheduler_ y) !! k = Some false ->
  session_ x' = session_ x -> done_ x' = None -> finished_ x' = true \/ x' = x ->
  L' = L \/ L' = L ++ [j] ->
  let r := call_done (session_ x) k (set_job j x' s) in ordered L' r.1 r.2.
Proof.
  intros O Hws Hx Hy Hh Hk Es Ed Ef HL. cbn zeta.
  pose proof (view_lookup _ _ _ Hy) as Hv. destruct s as [h js ss us nx rq].
  unfold call_done. cbn in Hx, Hy |- *. rewrite Hy.
  pose proof (ord_pop L L' ws js _ _ (scheduler_ y, strand_ y) j k x x' O Hws Hx
    Hv Hh Hk Es Ed Ef HL) as P.
  cbn [fst snd] in P. destruct (completion k (scheduler_ y)) as [ws' sch].
  eapply ord_ext; [|done|exact P]. intros i'. destruct y as [c u r b sch0 st]. cbn.
  by apply (view_heap (session_ x) (Session c u r b sch st)); [|eexists].
Qed.

Lemma set_job_same j x s : jobs_ s !! j = Some x -> set_job j x s = s.
Proof. intros Hx. destruct s. unfold set_job. cbn in *. by rewrite list_insert_id. Qed.

(** A job that ends inside [run]. *)
Lemma ordered_finish_with L j k x es s :
  ordered L [Run j k] s -> jobs_ s !! j = Some x ->
  omap sender es = [] \/ omap sender es = [j] ->
  let r := finish_with (session_ x) k es s in ordered (L ++ omap sender r.1.1) r.1.2 r.2.
Proof.
  intros O Hx Hes. destruct (ordered_running L j k s O) as (x0&y&Hx0&Hy&Hd&Hh&Hk).
  assert (x0 = x) as -> by congruence.
  pose proof (ordered_done L (L ++ omap sender es) [Run j k] j k x x y s O) as P.
  rewrite (set_job_same j x s Hx) in P. unfold finish_with. cbn zeta in *.
  destruct (call_done (session_ x) k s) as [ws' s']. apply P; auto.
  destruct Hes as [-> | ->]; [left; apply app_nil_r|by right].
Qed.

Lemma awaited_add id j j0 dl p j' :
  awaited (Pending.requests_ (Pending.add id j (j, j0) dl p)) j' ->
  awaited (Pending.requests_ p) j' \/ j' = j.
Proof.
  unfold Pending.add. destruct (Pending.requests_ p !! id); [by left|].
  intros (i&q&Hq&Hj). cbn in Hq. apply lookup_insert_Some in Hq as [[<- <-]|[_ Hq]].
  - right. cbn in Hj. naive_solver.
  - left. by exists i, q.
Qed.

Lemma ordered_run_room L j k make now x s :
  ordered L [Run j k] s -> jobs_ s !! j = Some x -> room_job (kind x) = true ->
  (forall id, sender (ToRoom (make id)) = None) ->
  let r := run_room_job j k make now x s in ordered (L ++ omap sender r.1.1) r.1.2 r.2.
Proof.
  intros O Hx Hr Hm. destruct s as [h js ss us nx rq]. destruct x as [kd i d rid f].
  cbn in Hx, Hr |- *. rewrite app_nil_r.
  eapply (ord_start L js (view (UserServer h js ss us nx rq))); [exact O|exact Hx|done..|].
  intros j'. cbn. apply awaited_add.
Qed.

Lemma ordered_run L j k now s :
  ordered L [Run j k] s ->
  let r := job_run j k now s in ordered (L ++ omap sender r.1.1) r.1.2 r.2.
Proof.
  intros O. destruct (ordered_running L j k s O) as (x&y&Hx&Hy&_).
  unfold job_run. rewrite Hx, Hy. cbn zeta.
  assert (Hs : forall y', scheduler_ y' = scheduler_ y -> strand_ y' = strand_ y ->
    ordered L [Run j k] (set_session (session_ x) y' s)) by (intros; by eapply ordered_session).
  assert (Hjs : forall y', jobs_ (set_session (session_ x) y' s) !! j = Some x) by (by destruct s).
  destruct (kind x) eqn:Ek; try (apply ordered_run_room; by rewrite ?Ek);
    unfold run_login, run_logout, run_stop, run_forward_message, run_cli_forward_message,
      run_ntf_leave_room_message; apply (ordered_finish_with L j k x); auto.
  - eapply (ordered_ext _ _ (set_session (session_ x) (set_user u y) s)).
    + unfold session_manager.add_session. repeat case_match; by destruct s.
    + intros i. unfold session_manager.add_session. repeat case_match; by destruct s.
    + unfold session_manager.add_session. repeat case_match; by destruct s.
    + apply Hs; by destruct y.
  - unfold session_manager.add_session. repeat case_match; by destruct s.
  - by apply ordered_enqueue.
  - unfold enqueue_stop, enqueue_job, post. case_match; destruct s; by apply lookup_app_l_Some.
Qed.

Lemma cancel_request_ordered L ws id s :
  ordered L ws s ->
  omap sender (cancel_request id s).1 = [] /\ ordered L ws (cancel_request id s).2 /\
  jobs_ (cancel_request id s).2 = jobs_ s /\ heap_ (cancel_request id s).2 = heap_ s.
Proof.
  intros O. unfold cancel_request, Pending.cancel, take_request.
  destruct s as [h js ss us nx rq]. cbn.
  destruct (Pending.requests_ rq !! id) eqn:E; cbn; split_and!; try done.
  eapply ordered_ext; [| |exact (delete_subseteq _ id)|exact O]; done.
Qed.

(** The end of a job that waits for the Room server. *)
Lemma ordered_finish L L' j x k s :
  ordered L [] s -> jobs_ s !! j = Some x -> finished_ x = false -> done_ x = Some k ->
  L' = L \/ L' = L ++ [j] -> ordered L' (finish j s).1 (finish j s).2.
Proof.
  intros O Hx Hf Hd HL. unfold finish. rewrite Hx, Hf, Hd.
  destruct (ordered_awaiting L j x k s O Hx Hd) as (y'&Hy&_&Hh&Hk).
  eapply (ordered_done L L' [] j k x _ y' s); auto; by destruct x.
Qed.

Lemma started_done j x s :
  started (jobs_ s) j -> jobs_ s !! j = Some x -> finished_ x = false ->
  exists k, done_ x = Some k.
Proof. intros (x'&Hx'&[?|[k ?]]) Hx Hf; [congruence|]. exists k. congruence. Qed.

Lemma ordered_response L j r s :
  ordered L [] s -> started (jobs_ s) j ->
  let o := handle_response j r s in ordered (L ++ omap sender o.1.1) o.1.2 o.2.
Proof.
  intros O Hst. cbn zeta. open_handle_response.
  destruct (jobs_ s !! j) as [x|] eqn:Hx; [|by rewrite app_nil_r].
  destruct (finished_ x) eqn:Hf; [by rewrite app_nil_r|].
  destruct (started_done j x s Hst Hx Hf) as [k Hd].
  destruct (ordered_awaiting L j x k s O Hx Hd) as (y&Hy&Hr&_). rewrite Hy.
  destruct (kind x); try done; destruct r; cbn; try (by rewrite app_nil_r);
    match goal with |- context [finish j ?s1] =>
      assert (O1 : ordered L [] s1) by (eapply ordered_session; [done|by destruct y|by destruct y|done]);
      pose proof (ordered_finish L (L ++ [j]) j x k s1 O1 ltac:(by destruct s) Hf Hd (or_intror eq_refl)) as P;
      by destruct (finish j s1) end.
Qed.

Lemma ordered_timeout L j s :
  ordered L [] s -> started (jobs_ s) j ->
  let o := job_cancel j Scheduler.kTimeout s in ordered (L ++ omap sender o.1.1) o.1.2 o.2.
Proof.
  intros O Hst. cbn zeta. unfold job_cancel.
  destruct (jobs_ s !! j) as [x|] eqn:Hx; [|by rewrite app_nil_r].
  destruct (cancel_request_ordered L [] (room_request_id_ x) s O) as (Hes&O1&Ej&Eh).
  destruct (cancel_request (room_request_id_ x) s) as [es s1]. cbn [fst snd] in Hes, O1, Ej, Eh.
  destruct (finished_ x) eqn:Hf; [destruct (kind x); by rewrite app_nil_r|].
  destruct (started_done j x s Hst Hx Hf) as [k Hd].
  pose proof (ordered_finish L (L ++ [j]) j x k s1 O1 ltac:(by rewrite Ej) Hf Hd
    (or_intror eq_refl)) as P. destruct (finish j s1) as [ws s2]. cbn [fst snd] in P.
  destruct (kind x); cbn [fst snd]; rewrite ?omap_app, ?Hes; try done; by rewrite app_nil_r.
Qed.

(** A job cancelled by the shutdown sends nothing, and makes the scheduler run
    nothing. *)
Lemma completion_stopped k (sch : job_scheduler nat) :
  stopped_ sch = true -> q_ sch = [] ->
  exists cs, completion k sch = ([], JobScheduler (q_ sch) (Scheduler.running_ sch) (stopped_ sch) cs).
Proof.
  intros Hs Hq. unfold completion, complete_current. destruct sch as [q run stop cs].
  cbn in *. subst q. destruct (cs !! k) as [[]|]; eauto.
Qed.

Lemma ordered_finish_shut L j ws x y s :
  ordered L (CancelJob j kShutdown :: ws) s -> jobs_ s !! j = Some x -> finished_ x = false ->
  heap_ s !! session_ x = Some y -> stopped_ (scheduler_ y) = true -> q_ (scheduler_ y) = [] ->
  (finish j s).1 = [] /\ ordered L ws (finish j s).2.
Proof.
  intros O Hx Hf Hy Hs Hq. unfold finish. rewrite Hx, Hf.
  set (x' := x <| finished_ := true |> <| done_ := None |>).
  assert (P : forall cs, ord L ws (<[j := x']> (jobs_ s)) (fupd (session_ x)
    (JobScheduler (q_ (scheduler_ y)) (Scheduler.running_ (scheduler_ y)) (stopped_ (scheduler_ y)) cs,
     strand_ y) (view s)) (Pending.requests_ (requests_ s))).
  { intros cs. apply (ord_cancel L j ws _ _ _ x x' _ cs O Hx (view_lookup _ _ _ Hy)); by destruct x. }
  destruct s as [h js ss us nx rq]. cbn in Hy, Hx. destruct (done_ x) as [k|].
  - unfold call_done. cbn. rewrite Hy. destruct (completion_stopped k (scheduler_ y) Hs Hq) as [cs ->].
    cbn [fst snd]. split; [done|]. eapply ord_ext; [|done|exact (P cs)]. intros i'.
    destruct y as [c u r b [q run stop cs0] st]. cbn.
    by apply (view_heap (session_ x) (Session c u r b (JobScheduler q run stop cs) st)); [|eexists].
  - split; [done|]. eapply ord_ext; [|done|exact (P (completed_ (scheduler_ y)))]. intros i'.
    unfold fupd. case_decide as E; [|done]. subst i'. unfold view. cbn. rewrite Hy. cbn.
    by destruct (scheduler_ y).
Qed.

Lemma ordered_shut L j ws s :
  ordered L (CancelJob j kShutdown :: ws) s ->
  let o := job_cancel j kShutdown s in
  omap sender o.1.1 = [] /\ o.1.2 = [] /\ ordered L ws o.2.
Proof.
  intros O. pose proof (or_calling _ _ _ _ _ O) as I. cbn zeta.
  inversion I as [| |i v ws0 Hv Hs Hall E]. subst ws0.
  apply Forall_cons_1 in Hall as [(j0&x&Ej0&Hx&Hxi&_) _]. injection Ej0 as <-. subst i.
  destruct (or_flags _ _ _ _ _ O _ _ Hv) as [_ Hq]. specialize (Hq Hs).
  destruct (view_inv _ _ _ Hv) as (y&Hy&->). cbn [fst snd] in *.
  unfold job_cancel. rewrite Hx.
  destruct (decide (finished_ x = true \/ room_job (kind x) = false)) as [Hno|Hyes].
  { pose proof (ord_cancel_noop _ _ _ _ _ _ _ O Hx Hno) as P.
    destruct Hno as [Hf|Hr]; [rewrite Hf; by destruct (kind x)|]. by destruct (kind x). }
  apply Decidable.not_or in Hyes as [Hf Hr].
  apply not_true_is_false in Hf. apply not_false_is_true in Hr.
  destruct (cancel_request_ordered L _ (room_request_id_ x) s O) as (Hes&O1&Ej&Eh).
  destruct (cancel_request (room_request_id_ x) s) as [es s1]. cbn [fst snd] in *.
  rewrite <- Eh in Hy. rewrite <- Ej in Hx.
  pose proof (ordered_finish_shut L j ws x y s1 O1 Hx Hf Hy Hs Hq) as P.
  destruct (finish j s1) as [ws' s2]. cbn [fst snd] in P. destruct P as [-> P].
  destruct (kind x); try done; rewrite Hf; cbn [fst snd]; rewrite app_nil_r; done.
Qed.

(** ** Chains of calls, tasks and events *)

Lemma ordered_work fuel now L ws s :
  ordered L ws s -> OutOfFuel ∉ (work fuel now ws s).1 ->
  ordered (L ++ omap sender (work fuel now ws s).1) [] (work fuel now ws s).2.
Proof.
  revert L ws s. induction fuel as [|fuel IH]; intros L [|w ws] s O Hf; cbn [work] in *;
    try (cbn; by rewrite app_nil_r); [cbn in Hf; set_solver|].
  pose proof (or_calling _ _ _ _ _ O) as I.
  inversion I as [|v j k x _ _ _ _ _ E|i v ws0 _ _ Hall E]; subst.
  - pose proof (ordered_run L j k now s O) as P. cbn zeta in P.
    destruct (job_run j k now s) as [[es ws'] s1]. cbn [fst snd] in P. rewrite app_nil_r in *.
    specialize (IH _ ws' s1 P). destruct (work fuel now ws' s1) as [es' s2]. cbn [fst snd] in *.
    rewrite omap_app, (assoc_L (++)). apply IH. set_solver.
  - apply Forall_cons_1 in Hall as [(j&x&->&_) _].
    destruct (ordered_shut L j ws s O) as (Hes&Hws&P).
    destruct (job_cancel j kShutdown s) as [[es ws'] s1]. cbn [fst snd] in *. subst ws'. cbn [app] in *.
    specialize (IH _ ws s1 P). destruct (work fuel now ws s1) as [es' s2]. cbn [fst snd] in *.
    rewrite omap_app, Hes. apply IH. set_solver.
Qed.

Lemma ordered_drain now L ws s :
  ordered L ws s -> ordered (L ++ omap sender (drain now ws s).1) [] (drain now ws s).2.
Proof. intros O. apply ordered_work; [done|]. by apply work_total. Qed.

(** A handler that pushes no job leaves the strand. *)
Lemma ordered_unstrand L i y t ts s :
  ordered L [] s -> heap_ s !! i = Some y -> strand_ y = t :: ts -> pushed t = None ->
  ordered L [] (set_session i (y <| strand_ := ts |>) s).
Proof.
  intros O Hy Et Hp.
  eapply ord_ext; [intros i'; by apply view_session; eauto|by destruct s|].
  replace (jobs_ _) with (jobs_ s) by (by destruct s).
  replace (scheduler_ _, strand_ _) with (scheduler_ y, ts) by (by destruct y).
  apply (ord_same_line L [] _ (view s) _ i (scheduler_ y, strand_ y)); [done|by apply view_lookup|..].
  - cbn [snd]. rewrite Et. cbn. by rewrite Hp.
  - intros t' j Ht Hj. eapply (or_strand _ _ _ _ _ O i _ t' j (view_lookup _ _ _ Hy)); [|done].
    cbn [snd]. rewrite Et. by right.
Qed.

(** The scheduler of a session is called. *)
Lemma ordered_scheduler L ws i y y' s :
  ord L ws (jobs_ s) (fupd i (scheduler_ y', strand_ y') (view s)) (Pending.requests_ (requests_ s)) ->
  heap_ s !! i = Some y -> ordered L ws (set_session i y' s).
Proof.
  intros P Hy. eapply ord_ext; [intros i'; by apply view_session; eauto|by destruct s|].
  by replace (jobs_ _) with (jobs_ s) by (by destruct s).
Qed.

Lemma set_session_twice i y y' s : set_session i y (set_session i y' s) = set_session i y s.
Proof. destruct s. unfold set_session. cbn. by rewrite list_insert_insert_eq. Qed.

Lemma ordered_strand L i now s :
  ordered L [] s ->
  let r := exec (RunStrand i now) s in ordered (L ++ omap sender r.1) [] r.2.
Proof.
  intros O. cbn [exec]. destruct (heap_ s !! i) as [y|] eqn:Hy; [|cbn; by rewrite app_nil_r].
  destruct (strand_ y) as [|t ts] eqn:Et; [cbn; by rewrite app_nil_r|]. cbn zeta.
  set (y1 := y <| strand_ := ts |>). set (s1 := set_session i y1 s).
  assert (Hy1 : heap_ s1 !! i = Some y1).
  { unfold s1. destruct s. cbn. apply list_lookup_insert_eq. by eapply lookup_lt_Some. }
  assert (E1 : scheduler_ y1 = scheduler_ y /\ strand_ y1 = ts) by (by destruct y).
  destruct E1 as [E1 E1'].
  assert (Hst : forall j, mentions t j -> started (jobs_ s1) j).
  { intros j Hj. replace (jobs_ s1) with (jobs_ s) by (by destruct s).
    eapply (or_strand _ _ _ _ _ O i _ t j (view_lookup _ _ _ Hy)); [|done]. cbn. rewrite Et. by left. }
  assert (O1 : pushed t = None -> ordered L [] s1).
  { intros Hp. by apply (ordered_unstrand L i y t ts). }
  unfold run_task. rewrite Hy1. destruct t as [j|j r|j|]; cbn [pushed mentions] in *.
  - pose proof (ord_push L _ _ _ i _ j ts O (view_lookup _ _ _ Hy) Et) as P. cbn [fst] in P.
    rewrite E1. destruct (push_and_run j (scheduler_ y)) as [ws sch]. apply ordered_drain.
    unfold s1. rewrite set_session_twice. apply (ordered_scheduler _ _ _ y); [|done].
    subst y1. by destruct y.
  - pose proof (ordered_response L j r s1 (O1 eq_refl) (Hst j eq_refl)) as P. cbn zeta in P.
    destruct (handle_response j r s1) as [[es ws] s2]. apply (ordered_drain now) in P.
    cbn [fst snd] in P. destruct (drain now ws s2). cbn [fst snd] in *. by rewrite omap_app, (assoc_L (++)).
  - pose proof (ordered_timeout L j s1 (O1 eq_refl) (Hst j eq_refl)) as P. cbn zeta in P.
    destruct (job_cancel j Scheduler.kTimeout s1) as [[es ws] s2]. apply (ordered_drain now) in P.
    cbn [fst snd] in P. destruct (drain now ws s2). cbn [fst snd] in *. by rewrite omap_app, (assoc_L (++)).
  - pose proof (ord_shutdown L _ _ _ i _ (O1 eq_refl) (view_lookup _ _ _ Hy1)) as P. cbn [fst snd] in P.
    destruct (shutdown (scheduler_ y1)) as [ws sch]. apply ordered_drain.
    apply (ordered_scheduler _ _ _ y1); [|done]. clearbody s1. subst y1. by destruct y.
Qed.

(** The job a callback of [pending_requests] belongs to. *)
Definition call_job (c : call room_response nat (nat * Z)) : nat :=
  match c with ResponseCall j _ => j | TimeoutCall h => h.1 end.

Lemma complete_awaited id r now p :
  Forall (fun c => awaited (Pending.requests_ p) (call_job c)) (Pending.complete id r now p).1 /\
  Pending.requests_ (Pending.complete id r now p).2 ⊆ Pending.requests_ p.
Proof.
  unfold Pending.complete, take_request. destruct (Pending.requests_ p !! id) as [q|] eqn:Hq; [|done].
  destruct (deadline q <=? now); cbn; (split; [|apply delete_subseteq]);
    constructor; [|done| |done]; exists id, q; cbn; auto.
Qed.

Lemma tick_awaited now (p : pending_requests nat (nat * Z)) :
  Forall (fun c => awaited (Pending.requests_ p) (call_job c)) (timer_tick now p).1 /\
  Pending.requests_ (timer_tick (Response := room_response) now p).2 ⊆ Pending.requests_ p.
Proof.
  unfold timer_tick. destruct (timer_ p && Pending.running_ p); [|done]. split.
  - rewrite expire_calls. apply Forall_fmap, Forall_forall. intros [id q] Hq.
    apply list_elem_of_filter in Hq as [_ Hq%elem_of_map_entries]. exists id, q. cbn. auto.
  - apply map_subseteq_spec. intros id q. rewrite expire_lookup.
    destruct (Pending.requests_ p !! id); [|done]. by case_match.
Qed.

Lemma ordered_invoke_all L cs s :
  ordered L [] s -> Forall (fun c => started (jobs_ s) (call_job c)) cs ->
  omap sender (invoke_all cs s).1 = [] /\ ordered L [] (invoke_all cs s).2.
Proof.
  revert s. induction cs as [|c cs IH]; intros s O Hc; cbn [invoke_all]; [done|].
  apply Forall_cons_1 in Hc as [Hc Hcs].
  assert (P : omap sender (invoke s c).1 = [] /\ ordered L [] (invoke s c).2 /\
    jobs_ (invoke s c).2 = jobs_ s).
  { destruct c as [j r|[j id]]; cbn in *; destruct (jobs_ s !! j) as [x|]; cbn; split_and!; try done;
      try (apply ordered_post; [done|done|]; by intros ? ->);
      unfold post; case_match; by destruct s. }
  destruct (invoke s c) as [es s1]. cbn [fst snd] in P. destruct P as (Hes&O1&Ej).
  rewrite <- Ej in Hcs. specialize (IH s1 O1 Hcs). destruct (invoke_all cs s1) as [es' s2].
  cbn [fst snd] in *. by rewrite omap_app, Hes.
Qed.

Lemma ordered_callbacks L cs p s :
  ordered L [] s -> Forall (fun c => awaited (Pending.requests_ (requests_ s)) (call_job c)) cs ->
  Pending.requests_ p ⊆ Pending.requests_ (requests_ s) ->
  let r := invoke_all cs (s <| requests_ := p |>) in ordered (L ++ omap sender r.1) [] r.2.
Proof.
  intros O Hc Hp. destruct (ordered_invoke_all L cs (s <| requests_ := p |>)) as [E P].
  - eapply ordered_ext; [| | |exact O]; by destruct s.
  - eapply Forall_impl; [exact Hc|]. intros c Ha.
    replace (jobs_ _) with (jobs_ s) by (by destruct s). by apply (or_awaited _ _ _ _ _ O).
  - cbn zeta. by rewrite E, app_nil_r.
Qed.

(** A session is made. *)
Lemma fupd_new {vw : nat -> option seen} {i v i' w} :
  vw i = None -> vw i' = Some w -> fupd i v vw i' = Some w.
Proof. intros Hi Hw. unfold fupd. case_decide; [congruence|done]. Qed.

Lemma logged_unseen (L : list nat) js vw i :
  vw i = None -> (forall j, j ∈ L -> logged js vw j) -> filter (owns js i) L = [].
Proof.
  intros Hi C. apply elem_of_nil_inv. intros j [Ho Hj]%list_elem_of_filter.
  destruct (C j Hj) as (x&Hx&[w Hw]). unfold owns in Ho. rewrite Hx in Ho. cbn in Ho. congruence.
Qed.

Lemma ord_view_new L js vw p i :
  vw i = None -> ord L [] js vw p -> ord L [] js (fupd i (scheduler_empty, []) vw) p.
Proof.
  intros Hi [A B C D F G H I].
  pose proof (logged_unseen L js vw i Hi C) as El.
  split; try done; unfold fupd.
  - intros i' w. case_decide; [|apply A]. intros [= <-]. subst. rewrite El. constructor.
  - intros i' w j. case_decide; [|apply B]. intros [= <-] Hj. by apply elem_of_nil in Hj.
  - intros j Hj. by apply logged_fupd, C.
  - intros i' w. case_decide; [|apply D]. by intros [= <-].
  - intros j x k Hx Hd. destruct (F j x k Hx Hd) as (?&?&w&Hw&?). split_and!; try done.
    exists w. split; [by apply (fupd_new Hi)|done].
  - intros i' w t j. case_decide; [|apply G]. intros [= <-] Ht. by apply elem_of_nil in Ht.
  - constructor.
Qed.

Lemma ordered_accept L conn s :
  ordered L [] s -> ordered L [] (session_manager.add_connection conn s).
Proof.
  intros O. unfold session_manager.add_connection.
  destruct (sessions_ s !! conn); [done|]. destruct s as [h js ss us nx rq].
  eapply (ord_ext L [] js (fupd (length h) (scheduler_empty, []) (view (UserServer h js ss us nx rq))));
    [|reflexivity|apply ord_view_new; [|exact O]]; unfold view, fupd; cbn.
  - intros i. case_decide as E; [subst i; by rewrite list_lookup_middle|].
    destruct (decide (i < length h)%nat); [by rewrite lookup_app_l|].
    rewrite !lookup_ge_None_2; [done|lia|rewrite length_app; cbn; lia].
  - by rewrite lookup_ge_None_2.
Qed.

Lemma ordered_quiet L es s :
  ordered L [] s -> omap sender es = [] -> ordered (L ++ omap sender es) [] s.
Proof. intros O ->. by rewrite app_nil_r. Qed.

Lemma ordered_exec L e s :
  ordered L [] s -> ordered (L ++ omap sender (exec e s).1) [] (exec e s).2.
Proof.
  intros O. destruct e as [conn|conn|i m|i now|id r now|u k|now].
  - apply (ordered_quiet _ []); [by apply ordered_accept|done].
  - apply (ordered_quiet _ []); [|done]. cbn. unfold on_conn_closed, session_manager.remove_session.
    destruct (sessions_ s !! conn) as [i|]; [|done]. apply ordered_post; [|done|done].
    eapply ordered_ext; [| | |exact O]; by destruct s.
  - cbn [exec]. unfold on_recv. destruct (heap_ s !! i); [|by apply ordered_quiet].
    destruct m; apply ordered_quiet; try done; by apply ordered_enqueue.
  - by apply ordered_strand.
  - cbn [exec]. unfold send_to_waiter. destruct (complete_awaited id r now (requests_ s)) as [Ha Hp].
    destruct (Pending.complete _ _ _ _). by apply ordered_callbacks.
  - apply (ordered_quiet _ []); [|done]. cbn. unfold pass_to_session.
    destruct (session_manager.find_session u s); [by apply ordered_enqueue|done].
  - cbn [exec]. unfold expire. destruct (tick_awaited now (requests_ s)) as [Ha Hp].
    destruct (timer_tick _ _). by apply ordered_callbacks.
Qed.

Lemma ordered_start : ordered [] [] server_start.
Proof.
  split; try done.
  - intros j Hj. by apply elem_of_nil in Hj.
  - intros j (id&q&Hq&_). done.
  - constructor.
Qed.

Lemma ordered_run_all evs :
  ordered (omap sender (mjoin (run exec evs server_start).1)) [] (run exec evs server_start).2.
Proof.
  induction evs as [|e evs IH] using rev_ind; [apply ordered_start|].
  rewrite run_snoc. cbn [fst snd]. rewrite mjoin_app, omap_app.
  cbn [mjoin list_join]. rewrite app_nil_r. by apply ordered_exec.
Qed.

Lemma senders_sorted evs i :
  let r := run exec evs server_start in
  StronglySorted lt (filter (owns (jobs_ r.2) i) (omap sender (mjoin r.1))).
Proof.
  cbn zeta. pose proof (ordered_run_all evs) as [A _ C _ _ _ _ _].
  destruct (view (run exec evs server_start).2 i) as [v|] eqn:Hv.
  - by apply A, StronglySorted_app_1_l in Hv.
  - rewrite (logged_unseen _ _ _ i Hv C). constructor.
Qed.

Module OrderProperties.

(** C7. A client hears of its jobs in the order they were made.  In every
    interleaving of messages, responses, timeouts, disconnections and other
    sessions, the jobs of a session that sent a message to its client did so
    in the order in which the session made them, and none twice: a fast job
    never overtakes a slow one made before it. *)
Theorem replies_in_order evs i :
  let r := run exec evs server_start in
  StronglySorted lt (filter (owns (jobs_ r.2) i) (omap sender (mjoin r.1))).
Proof.
  apply senders_sorted.
Qed.
End OrderProperties.
