(* ===== verification/Logins.v ===== *)
(** * Logins: which session a user's messages go to

    Facts about [session_manager] of the User server over the histories of
    [Sessions]: sessions keep their connection, and the table [uid_sessions_]
    that [room_channel::pass_to_session] looks a user up in names the session of
    the latest login. *)

From S2P Require Import Prelude Scheduler Pending Sessions.
From coqutil Require Import Datatypes.RecordSetters.
Import TriangleBracketNotations.
Import room_channel.
#[local] Arguments constant {_} _ _ /.

(** ** Sessions keep their connection *)

Definition session_conn (s : user_server) (i : nat) : option nat := conn_ <$> heap_ s !! i.

(** Steps that make no session and remove none. *)
Record cframe (s s' : user_server) : Prop := {
  cf_heap i : session_conn s' i = session_conn s i;
  cf_sessions c i : sessions_ s' !! c = Some i ->
    sessions_ s !! c = Some i \/ session_conn s i = Some c;
  cf_kept c : is_Some (sessions_ s !! c) -> is_Some (sessions_ s' !! c);
}.

#[export] Instance cframe_preorder : PreOrder cframe.
Proof.
  split; [split; auto|]. intros s1 s2 s3 [A1 B1 C1] [A2 B2 C2]. split.
  - intros i. by rewrite A2.
  - intros c i [Hc|Hc]%B2; [auto|]. right. by rewrite <- A1.
  - auto.
Qed.

Lemma cframe_same s s' :
  heap_ s' = heap_ s -> sessions_ s' = sessions_ s -> cframe s s'.
Proof. intros E1 E2. unfold session_conn. split; unfold session_conn; rewrite ?E1, ?E2; auto. Qed.

Lemma cframe_session i x x' s :
  heap_ s !! i = Some x -> conn_ x' = conn_ x -> cframe s (set_session i x' s).
Proof.
  intros Hx E. destruct s as [h js ss us n rq]. cbn in *. split; unfold session_conn; cbn; auto.
  intros i'. destruct (decide (i' = i)) as [->|Hne].
  - rewrite list_lookup_insert_eq by (by eapply lookup_lt_Some). rewrite Hx. cbn. congruence.
  - by rewrite list_lookup_insert_ne.
Qed.

Lemma cframe_post i t s : cframe s (post i t s).
Proof.
  unfold post. destruct (heap_ s !! i) as [x|] eqn:Hx; [|done].
  eapply cframe_session; [done|by destruct x].
Qed.

Lemma cframe_enqueue i k s : cframe s (enqueue_job i k s).
Proof. unfold enqueue_job. etrans; [|apply cframe_post]. by apply cframe_same; destruct s. Qed.

Lemma cframe_call_done i k s : cframe s (call_done i k s).2.
Proof.
  unfold call_done. destruct (heap_ s !! i) as [x|] eqn:Hx; [|done].
  destruct (completion k (scheduler_ x)). cbn [snd]. eapply cframe_session; [done|by destruct x].
Qed.

Lemma cframe_finish j s : cframe s (finish j s).2.
Proof.
  unfold finish. destruct (jobs_ s !! j) as [x|]; [|done]. destruct (finished_ x); [done|].
  cbn zeta. assert (Hf : forall x', cframe s (set_job j x' s))
    by (intros x'; by apply cframe_same; destruct s).
  destruct (done_ x); [|apply Hf]. etrans; [apply Hf|apply cframe_call_done].
Qed.

Lemma cframe_job_cancel j reason s : cframe s (job_cancel j reason s).2.
Proof.
  unfold job_cancel, cancel_request. destruct (jobs_ s !! j) as [x|]; [|done].
  destruct (Pending.cancel _ _) as [b p].
  pose proof (cframe_finish j (s <| requests_ := p |>)) as Hf.
  destruct (finish j _) as [ws s1]. cbn [snd] in Hf.
  assert (Hp : cframe s (s <| requests_ := p |>)) by (by apply cframe_same; destruct s).
  destruct (kind x), (finished_ x); cbn [snd]; try done; by etrans.
Qed.

Lemma cframe_handle_response j r s : cframe s (handle_response j r s).2.
Proof.
  open_handle_response. destruct (jobs_ s !! j) as [x|]; [|done]. destruct (finished_ x); [done|].
  destruct (heap_ s !! session_ x) as [y|] eqn:Hy; [|done].
  assert (Hr : forall room, cframe s (finish j
    (set_session (session_ x) (set_enter_room room y) s)).2).
  { intros room. etrans; [|apply cframe_finish]. eapply cframe_session; [done|by destruct y]. }
  destruct (kind x), r; try done;
    match goal with |- context [set_session _ (set_enter_room ?room y) s] =>
      specialize (Hr room) end; by destruct (finish j _).
Qed.

Lemma cframe_add_session i s : cframe s (session_manager.add_session i s).
Proof.
  unfold session_manager.add_session. destruct (heap_ s !! i) as [x|] eqn:Hx; [|done].
  destruct s as [h js ss us n rq]. cbn in *.
  assert (Hc : forall c j, <[conn_ x := i]> ss !! c = Some j ->
    ss !! c = Some j \/ conn_ <$> h !! j = Some c).
  { intros c j. rewrite lookup_insert_Some. intros [[<- <-]|[_ Hc]]; [right|by left].
    by rewrite Hx. }
  assert (Hk : forall c, is_Some (ss !! c) -> is_Some (<[conn_ x := i]> ss !! c)).
  { intros c. rewrite lookup_insert_is_Some'. auto. }
  case_decide; by split.
Qed.

Lemma cframe_job_run j k now s : cframe s (job_run j k now s).2.
Proof.
  open_job_run. destruct (jobs_ s !! j) as [x|]; [|done].
  destruct (heap_ s !! session_ x) as [y|] eqn:Hy; [|done].
  assert (Hr : forall make, cframe s (run_room_job j k make now x s).2).
  { intros make. by apply cframe_same; destruct s. }
  assert (Hd : forall s1, cframe s s1 -> cframe s (call_done (session_ x) k s1).2).
  { intros s1 H1. etrans; [exact H1|apply cframe_call_done]. }
  assert (Hs : forall y', conn_ y' = conn_ y -> cframe s (set_session (session_ x) y' s)).
  { intros y' E. by eapply cframe_session. }
  destruct (kind x); try apply Hr;
    match goal with |- context [call_done ?i k ?s1] =>
      cut (cframe s s1); [intros H1%Hd; by destruct (call_done i k s1)|] end;
    try done; try (by apply Hs; destruct y).
  - etrans; [|apply cframe_add_session]. by apply Hs; destruct y.
  - apply cframe_enqueue.
Qed.

Lemma cframe_work fuel now ws s : cframe s (work fuel now ws s).2.
Proof.
  revert ws s. induction fuel as [|fuel IH]; intros [|w ws] s; cbn [work]; try done.
  assert (H1 : cframe s (match w with
    | Run j k => job_run j k now s
    | CancelJob j reason => job_cancel j reason s end).2)
    by (destruct w; [apply cframe_job_run|apply cframe_job_cancel]).
  destruct (match w with Run j k => _ | CancelJob j r => _ end) as [[es ws'] s1].
  specialize (IH (ws' ++ ws) s1). destruct (work fuel now (ws' ++ ws) s1).
  cbn in *. by etrans.
Qed.

Lemma cframe_run_task now i t s : cframe s (run_task now i t s).2.
Proof.
  unfold run_task, drain. destruct (heap_ s !! i) as [x|] eqn:Hx; [|done].
  assert (Hs : forall x', conn_ x' = conn_ x -> cframe s (set_session i x' s)).
  { intros x' E. by eapply cframe_session. }
  destruct t as [j|j r|j|].
  - destruct (push_and_run j (scheduler_ x)) as [ws sch].
    etrans; [|apply cframe_work]. by apply Hs; destruct x.
  - pose proof (cframe_handle_response j r s) as H1. destruct (handle_response j r s) as [[es ws] s1].
    pose proof (cframe_work (length ws + queued s1) now ws s1). destruct (work _ now ws s1).
    cbn in *. by etrans.
  - pose proof (cframe_job_cancel j Scheduler.kTimeout s) as H1.
    destruct (job_cancel j Scheduler.kTimeout s) as [[es ws] s1].
    pose proof (cframe_work (length ws + queued s1) now ws s1). destruct (work _ now ws s1).
    cbn in *. by etrans.
  - destruct (shutdown (scheduler_ x)) as [ws sch].
    etrans; [|apply cframe_work]. by apply Hs; destruct x.
Qed.

Lemma cframe_invoke_all cs s : cframe s (invoke_all cs s).2.
Proof.
  revert s. induction cs as [|c cs IH]; intros s; cbn [invoke_all]; [done|].
  assert (H1 : cframe s (invoke s c).2).
  { destruct c as [j r|[j id]]; cbn; destruct (jobs_ s !! j); try done; apply cframe_post. }
  destruct (invoke s c) as [es s1]. specialize (IH s1). destruct (invoke_all cs s1).
  cbn in *. by etrans.
Qed.

(** A new session is the last one, and the others keep their connection. *)
Lemma add_connection_conn c s i :
  sessions_ s !! c = None ->
  session_conn (session_manager.add_connection c s) i =
    if decide (i = length (heap_ s)) then Some c else session_conn s i.
Proof.
  intros Hn. unfold session_manager.add_connection, session_conn. rewrite Hn. destruct s as [h js ss us n rq].
  cbn. case_decide as E; [subst i; by rewrite list_lookup_middle|].
  destruct (decide (i < length h)%nat); [by rewrite lookup_app_l|].
  rewrite !lookup_ge_None_2; [done|lia|rewrite length_app; cbn; lia].
Qed.

(** Events other than those of the acceptor. *)
Definition internal (e : event) : bool :=
  match e with Accepted _ | Closed _ => false | _ => true end.

Lemma cframe_exec e s : internal e = true -> cframe s (exec e s).2.
Proof.
  intros Hi. destruct e as [conn|conn|i m|i now|id r now|u k|now]; try done; cbn [exec].
  - unfold on_recv. destruct (heap_ s !! i); [|done]. destruct m; try done; apply cframe_enqueue.
  - destruct (heap_ s !! i) as [x|] eqn:Hx; [|done]. destruct (strand_ x) as [|t ts]; [done|].
    etrans; [|apply cframe_run_task]. eapply cframe_session; [done|by destruct x].
  - unfold send_to_waiter. destruct (Pending.complete _ _ _ _) as [cs p].
    etrans; [|apply cframe_invoke_all]. by apply cframe_same; destruct s.
  - unfold pass_to_session. case_match; [apply cframe_enqueue|done].
  - unfold expire. destruct (timer_tick _ _) as [cs p].
    etrans; [|apply cframe_invoke_all]. by apply cframe_same; destruct s.
Qed.

(** ** Logins *)

(** The connections that were told of a login as [u]. *)
Definition login_of (u : string) (e : effect) : option nat :=
  match e with
  | ToClient _ c (ResLogin u' true _ _) => if decide (u' = u) then Some c else None
  | _ => None
  end.
Definition logins (u : string) (es : list effect) : list nat := omap (login_of u) es.

Lemma logins_app u es es' : logins u (es ++ es') = logins u es ++ logins u es'.
Proof. apply omap_app. Qed.

(** What steps do to the table: an entry is of the last login of the steps, or
    it was there and nobody logged in. *)
Record lstep (s : user_server) (es : list effect) (s' : user_server) : Prop := {
  ls_conn i c : session_conn s i = Some c -> session_conn s' i = Some c;
  ls_uids u i : u <> "" -> uid_sessions_ s' !! u = Some i ->
    (exists c, session_conn s' i = Some c /\ last (logins u es) = Some c) \/
    (uid_sessions_ s !! u = Some i /\ logins u es = []);
  ls_empty : uid_sessions_ s !! "" = None -> uid_sessions_ s' !! "" = None;
}.

Lemma lstep_trans s es s' es' s'' :
  lstep s es s' -> lstep s' es' s'' -> lstep s (es ++ es') s''.
Proof.
  intros [A1 B1 C1] [A2 B2 C2]. split; [auto| |auto]. intros u i Hu [(c&Hc&Hl)|[H1 H2]]%B2; [| |done].
  - left. exists c. by rewrite logins_app, last_app, Hl.
  - rewrite logins_app, H2, app_nil_r. destruct (B1 u i Hu H1) as [(c&Hc&Hl)|?]; [|by right].
    left. eauto.
Qed.

Lemma lstep_quiet s es s' :
  (forall i c, session_conn s i = Some c -> session_conn s' i = Some c) ->
  uid_sessions_ s' ⊆ uid_sessions_ s -> (forall u, logins u es = []) -> lstep s es s'.
Proof. 
  intros Hc Hu He. split; [done| |].
  - intros u i _ Hi. right. split; [by eapply lookup_weaken|done].
  - intros Hn. by eapply lookup_weaken_None.
Qed.

Lemma lstep_frame s es s' :
  cframe s s' -> uid_sessions_ s' = uid_sessions_ s -> (forall u, logins u es = []) -> lstep s es s'.
Proof. intros [A _ _] E He. apply lstep_quiet; [|by rewrite E|done]. intros i c. by rewrite A. Qed.

Lemma uids_post i t s : uid_sessions_ (post i t s) = uid_sessions_ s.
Proof. unfold post. destruct (heap_ s !! i); by destruct s. Qed.

Lemma uids_enqueue i k s : uid_sessions_ (enqueue_job i k s) = uid_sessions_ s.
Proof. unfold enqueue_job. rewrite uids_post. by destruct s. Qed.

Lemma uids_call_done i k s : uid_sessions_ (call_done i k s).2 = uid_sessions_ s.
Proof.
  unfold call_done. destruct (heap_ s !! i); [|done]. destruct (completion _ _). by destruct s.
Qed.

Lemma uids_finish j s : uid_sessions_ (finish j s).2 = uid_sessions_ s.
Proof.
  unfold finish. destruct (jobs_ s !! j) as [x|]; [|done]. destruct (finished_ x); [done|].
  destruct (done_ x); [rewrite uids_call_done|]; by destruct s.
Qed.

Lemma lstep_job_cancel j reason s : lstep s (job_cancel j reason s).1.1 (job_cancel j reason s).2.
Proof.
  apply lstep_frame; [apply cframe_job_cancel|..]; unfold job_cancel;
    (destruct (jobs_ s !! j) as [x|]; [|done]).
  - assert (Hc : uid_sessions_ (cancel_request (room_request_id_ x) s).2 = uid_sessions_ s).
    { unfold cancel_request. destruct (Pending.cancel _ _). by destruct s. }
    destruct (cancel_request _ s) as [es s1]. pose proof (uids_finish j s1) as Hf.
    destruct (finish j s1) as [ws s2]. cbn [snd] in *. destruct (kind x), (finished_ x); cbn; congruence.
  - intros u. assert (Hc : logins u (cancel_request (room_request_id_ x) s).1 = []).
    { unfold cancel_request. by destruct (Pending.cancel _ _) as [[] ?]. }
    destruct (cancel_request _ s) as [es s1]. destruct (finish j s1) as [ws s2]. cbn [fst] in *.
    destruct (kind x), (finished_ x), reason; cbn [fst]; rewrite ?logins_app, ?Hc; done.
Qed.

Lemma lstep_response j r s : lstep s (handle_response j r s).1.1 (handle_response j r s).2.
Proof.
  apply lstep_frame; [apply cframe_handle_response|..]; open_handle_response;
    (destruct (jobs_ s !! j) as [x|]; [|done]); (destruct (finished_ x); [done|]);
    (destruct (heap_ s !! session_ x) as [y|]; [|done]); destruct (kind x), r; try done;
    match goal with |- context [finish j ?s1] =>
      pose proof (uids_finish j s1) as Hf; destruct (finish j s1) as [ws s2] end;
    try done; cbn [snd] in *; rewrite Hf; by destruct s.
Qed.

(** The one job that changes the table. *)
Lemma lstep_run_login j k u i y s :
  heap_ s !! i = Some y -> lstep s (run_login j k u i y s).1.1 (run_login j k u i y s).2.
Proof.
  intros Hy. unfold run_login, finish_with.
  set (s1 := set_session i _ s). set (s2 := session_manager.add_session i s1).
  assert (H1 : cframe s s1) by (eapply cframe_session; [done|by destruct y]).
  assert (H2 : cframe s1 s2) by apply cframe_add_session.
  pose proof (cframe_call_done i k s2) as H3. pose proof (uids_call_done i k s2) as Eu.
  destruct (call_done i k s2) as [ws s3]. cbn [fst snd] in *.
  assert (Hc : forall i', session_conn s3 i' = session_conn s i').
  { intros i'. by rewrite (cf_heap _ _ H3), (cf_heap _ _ H2), (cf_heap _ _ H1). }
  assert (E2 : uid_sessions_ s2 = if decide (u = "") then uid_sessions_ s
    else <[u := i]> (uid_sessions_ s)).
  { unfold s2, s1, session_manager.add_session. destruct s as [h js ss us nx rq]. cbn in *.
    rewrite list_lookup_insert_eq by (by eapply lookup_lt_Some). cbn. by case_decide. }
  split; [intros i' c; by rewrite Hc| |]; rewrite Eu, E2.
  - intros u' i' Hu Hi. cbn. destruct (decide (u = u')) as [->|Hne].
    + rewrite decide_False, lookup_insert_eq in Hi by done. simplify_eq. left. exists (conn_ y).
      split; [|done]. rewrite Hc. unfold session_conn. by rewrite Hy.
    + right. split; [|done]. case_decide; [done|]. by rewrite lookup_insert_ne in Hi.
  - case_decide; [done|]. by rewrite lookup_insert_ne.
Qed.

Lemma lstep_job_run j k now s : lstep s (job_run j k now s).1.1 (job_run j k now s).2.
Proof.
  pose proof (cframe_job_run j k now s) as Hf. unfold job_run in *.
  destruct (jobs_ s !! j) as [x|]; [|by apply lstep_frame].
  destruct (heap_ s !! session_ x) as [y|] eqn:Hy; [|by apply lstep_frame].
  destruct (kind x) as [u| | | | | | | |] eqn:Ek; [by apply lstep_run_login|..];
    (apply lstep_frame; [exact Hf| |]); clear Hf;
    unfold run_logout, run_stop, run_create_room, run_join_room, run_leave_room,
      run_forward_message, run_cli_forward_message, run_ntf_leave_room_message, finish_with;
    try (by destruct s);
    match goal with |- context [call_done ?i k ?s1] =>
      pose proof (uids_call_done i k s1) as Eu; destruct (call_done i k s1) end;
    try done; cbn [snd] in *; rewrite Eu; try (by destruct s). apply uids_enqueue.
Qed.

Lemma lstep_work fuel now ws s : lstep s (work fuel now ws s).1 (work fuel now ws s).2.
Proof.
  revert ws s. induction fuel as [|fuel IH]; intros [|w ws] s; cbn [work]; try (by apply lstep_frame).
  assert (H1 : let r := match w with
    | Run j k => job_run j k now s
    | CancelJob j reason => job_cancel j reason s end in lstep s r.1.1 r.2)
    by (destruct w; [apply lstep_job_run|apply lstep_job_cancel]).
  destruct (match w with Run j k => _ | CancelJob j r => _ end) as [[es ws'] s1].
  specialize (IH (ws' ++ ws) s1). destruct (work fuel now (ws' ++ ws) s1).
  cbn in *. by eapply lstep_trans.
Qed.

Lemma lstep_session i x x' s :
  heap_ s !! i = Some x -> conn_ x' = conn_ x -> lstep s [] (set_session i x' s).
Proof. intros Hx E. apply lstep_frame; [by eapply cframe_session|by destruct s|done]. Qed.

Lemma lstep_run_task now i t s : lstep s (run_task now i t s).1 (run_task now i t s).2.
Proof.
  unfold run_task, drain. destruct (heap_ s !! i) as [x|] eqn:Hx; [|by apply lstep_frame].
  destruct t as [j|j r|j|].
  - destruct (push_and_run j (scheduler_ x)) as [ws sch].
    eapply (lstep_trans _ []); [|apply lstep_work]. eapply lstep_session; [done|by destruct x].
  - pose proof (lstep_response j r s) as H1. destruct (handle_response j r s) as [[es ws] s1].
    pose proof (lstep_work (length ws + queued s1) now ws s1). destruct (work _ now ws s1).
    cbn in *. by eapply lstep_trans.
  - pose proof (lstep_job_cancel j Scheduler.kTimeout s) as H1.
    destruct (job_cancel j Scheduler.kTimeout s) as [[es ws] s1].
    pose proof (lstep_work (length ws + queued s1) now ws s1). destruct (work _ now ws s1).
    cbn in *. by eapply lstep_trans.
  - destruct (shutdown (scheduler_ x)) as [ws sch].
    eapply (lstep_trans _ []); [|apply lstep_work]. eapply lstep_session; [done|by destruct x].
Qed.

Lemma quiet_invoke_all cs s :
  uid_sessions_ (invoke_all cs s).2 = uid_sessions_ s /\ forall u, logins u (invoke_all cs s).1 = [].
Proof.
  revert s. induction cs as [|c cs IH]; intros s; cbn [invoke_all]; [done|].
  assert (H1 : uid_sessions_ (invoke s c).2 = uid_sessions_ s /\ forall u, logins u (invoke s c).1 = []).
  { destruct c as [j r|[j id]]; cbn; destruct (jobs_ s !! j); cbn; by rewrite ?uids_post. }
  destruct (invoke s c) as [es s1]. destruct (IH s1) as [E1 E2], H1 as [G1 G2].
  destruct (invoke_all cs s1). cbn [fst snd] in *. split; [congruence|].
  intros u'. by rewrite logins_app, G2, E2.
Qed.

Lemma lstep_callbacks cs p s :
  let r := invoke_all cs (s <| requests_ := p |>) in lstep s r.1 r.2.
Proof.
  cbn zeta. destruct (quiet_invoke_all cs (s <| requests_ := p |>)) as [E1 E2].
  apply lstep_frame; [|rewrite E1; by destruct s|done].
  etrans; [|apply cframe_invoke_all]. by apply cframe_same; destruct s.
Qed.

Lemma lstep_acceptor e s : internal e = false -> lstep s (exec e s).1 (exec e s).2.
Proof.
  intros He. destruct e as [conn|conn| | | | |]; try done; cbn [exec fst snd].
  - unfold session_manager.add_connection. destruct (sessions_ s !! conn); [by apply lstep_frame|].
    apply lstep_quiet; [|by destruct s|done]. unfold session_conn. destruct s. cbn.
    intros i c (x&Hx&Ec)%fmap_Some. rewrite lookup_app_l_Some with (x := x); [by subst|done].
  - unfold on_conn_closed, session_manager.remove_session.
    destruct (sessions_ s !! conn) as [i|]; [|by apply lstep_frame].
    apply lstep_quiet; [| |done].
    + intros i' c Hc. rewrite (cf_heap _ _ (cframe_post _ _ _)). by destruct s.
    + rewrite uids_post. destruct s. cbn. case_decide; [apply delete_subseteq|done].
Qed.

Lemma lstep_exec e s : lstep s (exec e s).1 (exec e s).2.
Proof.
  destruct (internal e) eqn:He; [|by apply lstep_acceptor]. pose proof (cframe_exec e s He) as Hf.
  destruct e as [conn|conn|i m|i now|id r now|u k|now]; try done; cbn [exec] in *.
  - apply lstep_frame; [exact Hf|..]; unfold on_recv; (destruct (heap_ s !! i); [|done]);
      destruct m; try done; apply uids_enqueue.
  - destruct (heap_ s !! i) as [x|] eqn:Hx; [|by apply lstep_frame].
    destruct (strand_ x) as [|t ts]; [by apply lstep_frame|].
    eapply (lstep_trans _ []); [|apply lstep_run_task]. eapply lstep_session; [done|by destruct x].
  - unfold send_to_waiter. destruct (Pending.complete _ _ _ _). apply lstep_callbacks.
  - apply lstep_frame; [exact Hf| |done]. cbn. unfold pass_to_session.
    case_match; [apply uids_enqueue|done].
  - unfold expire. destruct (timer_tick _ _). apply lstep_callbacks.
Qed.

Lemma lstep_run evs s : lstep s (mjoin (run exec evs s).1) (run exec evs s).2.
Proof.
  revert s. induction evs as [|e evs IH]; intros s; [by apply lstep_frame|].
  rewrite run_cons. cbn [fst snd]. rewrite mjoin_cons. eapply lstep_trans; [apply lstep_exec|apply IH].
Qed.

Module LoginsProperties.


(** Two clients log in under one name; what the room sends goes to the second. *)
Lemma second_login_receives :
  mjoin (run exec [Accepted 7; Accepted 8; Received 0 (RJob (ReqLogin "al"));
    Received 1 (RJob (ReqLogin "al")); RunStrand 0 0; RunStrand 1 0;
    RoomNotification "al" (User2RoomNtfLeaveRoom 2); RunStrand 1 1] server_start).1
  = [ToClient (Some 0%nat) 7 (ResLogin "al" true false 0);
     ToClient (Some 1%nat) 8 (ResLogin "al" true false 0);
     ToClient (Some 2%nat) 8 (NtfLeaveRoom 2)].
Proof. vm_compute. reflexivity. Qed.

(** A login that is still in the strand when its connection closes registers
    the session again after it was removed: it stays in both tables. *)
Lemma login_after_close_stays :
  let s := (run exec [Accepted 7; Received 0 (RJob (ReqLogin "al")); Closed 7;
    RunStrand 0 0; RunStrand 0 0] server_start).2 in
  sessions_ s !! 7%nat = Some 0%nat /\ uid_sessions_ s !! "al" = Some 0%nat /\
  (stop_ <$> heap_ s !! 0%nat) = Some true /\ (strand_ <$> heap_ s !! 0%nat) = Some [].
Proof. vm_compute. by split_and!. Qed.

(** A session that logs in under another name keeps its first name in the
    table, also after it is removed. *)
Lemma relogin_keeps_first_name :
  let s := (run exec [Accepted 7; Received 0 (RJob (ReqLogin "al"));
    Received 0 (RJob (ReqLogin "bo")); RunStrand 0 0; RunStrand 0 0; Closed 7] server_start).2 in
  uid_sessions_ s !! "al" = Some 0%nat /\ uid_sessions_ s !! "bo" = None.
Proof. vm_compute. by split. Qed.
End LoginsProperties.
