(* ===== verification/Heartbeat.v ===== *)
(** * Heartbeat: the ping loop of a session

    Models the coroutine [session::send_heartbeats] of
    [rsp-svr/user/include/user/session/session.hpp] (its [co_spawn] in [start]
    is commented out).  A [turn] is one round of its loop: what it reads of the
    session before and after it has slept [kPingPeriod] seconds. *)

From S2P Require Import Prelude.

Definition kPingPeriod : Z := 5.
Definition kMaxFailedCount : Z := 3.

Record turn := Turn {
  stop_before : bool;     (** [stop_] at the loop test *)
  stop_after : bool;      (** [stop_] after the timer *)
  last_received : Z;
  now : Z;
}.

Inductive effect := SendPing | EnqueueStop (force : bool).

(** The effects of the given rounds, and whether the coroutine has ended. *)
Fixpoint send_heartbeats (failed_count : Z) (ts : list turn) : list effect * bool :=
  match ts with
  | [] => ([], false)
  | t :: ts =>
      if stop_before t then ([], true)
      else if stop_after t then ([], true)
      else if now t <? last_received t + kPingPeriod then send_heartbeats failed_count ts
      else if kMaxFailedCount <=? failed_count + 1 then ([EnqueueStop true], true)
      else
        let '(es, ended) := send_heartbeats (failed_count + 1) ts in (SendPing :: es, ended)
  end.

(** A round in which the client has been silent. *)
Definition silent (t : turn) : bool := negb (now t <? last_received t + kPingPeriod).

Definition stopped (t : turn) : bool := stop_before t || stop_after t.

Lemma heartbeats_spec ts failed :
  0 <= failed < kMaxFailedCount -> Forall (fun t => stopped t = false) ts ->
  let n := failed + count silent ts in
  send_heartbeats failed ts =
    (repeat SendPing (Z.to_nat (Z.min n 2 - failed)) ++
       (if kMaxFailedCount <=? n then [EnqueueStop true] else []),
     kMaxFailedCount <=? n).
Proof.
  cbn zeta. unfold kMaxFailedCount. intros Hf Ht. revert failed Hf.
  induction Ht as [|t ts Ht _ IH]; intros failed Hf; cbn [send_heartbeats].
  { cbn. rewrite Z.add_0_r. destruct (Z.leb_spec 3 failed); [lia|].
    replace (Z.to_nat (Z.min failed 2 - failed)) with 0%nat by lia. done. }
  unfold stopped in Ht. apply orb_false_iff in Ht as [-> ->].
  unfold count in *. rewrite sumz_cons.
  pose proof (count_nonneg silent ts) as Hn. unfold count in Hn.
  assert (Es : (now t <? last_received t + kPingPeriod) = negb (silent t))
    by (unfold silent; by rewrite negb_involutive).
  rewrite Es. destruct (silent t); cbn [negb Z.b2z].
  - unfold kMaxFailedCount. destruct (Z.leb_spec 3 (failed + 1)) as [H3|H3].
    + replace (Z.to_nat (Z.min (failed + (1 + sumz (fun x => Z.b2z (silent x)) ts)) 2 - failed))
        with 0%nat by lia.
      destruct (Z.leb_spec 3 (failed + (1 + sumz (fun x => Z.b2z (silent x)) ts))); [done|lia].
    + rewrite IH by lia. rewrite Z.add_assoc. cbn [app].
      replace (Z.to_nat (Z.min (failed + 1 + sumz (fun x => Z.b2z (silent x)) ts) 2 - failed))
        with (S (Z.to_nat (Z.min (failed + 1 + sumz (fun x => Z.b2z (silent x)) ts) 2 - (failed + 1))))
        by lia. done.
  - rewrite IH by lia. by rewrite Z.add_0_l.
Qed.

Module HeartbeatProperties.

(** The heartbeats of a session that is not stopped: one ping for each of
    the first two rounds in which the client was silent for the ping period,
    and at the third, and no earlier, the connection is closed by force and
    the loop ends.  The rounds need not be consecutive: a message of the client
    does not reset the count. *)
Theorem heartbeats_exact ts :
  Forall (fun t => stopped t = false) ts ->
  send_heartbeats 0 ts =
    (repeat SendPing (Z.to_nat (Z.min (count silent ts) 2)) ++
       (if kMaxFailedCount <=? count silent ts then [EnqueueStop true] else []),
     kMaxFailedCount <=? count silent ts).
Proof.
  intros Ht. pose proof (heartbeats_spec ts 0 ltac:(unfold kMaxFailedCount; lia) Ht) as E.
  cbn zeta in E. by rewrite Z.add_0_l, Z.sub_0_r in E.
Qed.

Lemma heartbeats_exact_witness :
  send_heartbeats 0 [Turn false false 0 5; Turn false false 9 10; Turn false false 9 15;
                     Turn false false 19 20; Turn false false 19 25]
  = ([SendPing; SendPing; EnqueueStop true], true).
Proof.
  rewrite heartbeats_exact by (repeat constructor). vm_compute. reflexivity.
Defined.
End HeartbeatProperties.
