(* ===== verification/Replies.v ===== *)
(** * Replies: the responses a job receives

    The part of the User server's correctness that depends on its peer: a job
    that waits for a response casts it to the response class of its request
    ([std::dynamic_pointer_cast] in [job_create_room.hpp], [job_join_room.hpp]
    and [job_leave_room.hpp]).  This file states what the server needs of the
    messages it receives, and that it then never meets another class and never
    reports a success the Room server did not send.  [System] discharges the
    assumption. *)

From S2P Require Import Prelude Wire Scheduler Pending Sessions.
From coqutil Require Import Datatypes.RecordSetters.
Import TriangleBracketNotations.
Import MessageTypes room_channel.
#[local] Arguments constant {_} _ _ /.

(** The class of a response, and the class a job waits for. *)
Definition response_type (r : room_response) : MessageType :=
  match r with
  | User2RoomResCreateRoom _ _ => kUser2RoomResCreateRoom
  | User2RoomResJoinRoom _ _ => kUser2RoomResJoinRoom
  | User2RoomResLeaveRoom _ => kUser2RoomResLeaveRoom
  end.

Definition expects (k : job_kind) : option MessageType :=
  match k with
  | job_create_room _ => Some kUser2RoomResCreateRoom
  | job_join_room _ _ => Some kUser2RoomResJoinRoom
  | job_leave_room _ => Some kUser2RoomResLeaveRoom
  | _ => None
  end.

(** The requests sent, with the class of response each one asks for. *)
Definition asks (e : effect) : option (Z * MessageType) :=
  match e with
  | ToRoom (User2RoomReqCreateRoom id _) => Some (id, kUser2RoomResCreateRoom)
  | ToRoom (User2RoomReqJoinRoom id _ _) => Some (id, kUser2RoomResJoinRoom)
  | ToRoom (User2RoomReqLeaveRoom id _) => Some (id, kUser2RoomResLeaveRoom)
  | _ => None
  end.

Section replies.
(** [I id t]: a request [id] was sent that asks for class [t].
    [L r]: the Room server sent response [r]. *)
Context (I : Z -> MessageType -> Prop) (L : room_response -> Prop).

(** A success reported to a client is one of the Room server. *)
Definition genuine (m : client_message) : Prop :=
  match m with
  | ResCreateRoom _ true room => L (User2RoomResCreateRoom true room)
  | ResJoinRoom _ true room => L (User2RoomResJoinRoom true room)
  | ResLeaveRoom _ true => L (User2RoomResLeaveRoom true)
  | _ => True
  end.

Definition fair (e : effect) : Prop :=
  match e with
  | Crash => False
  | ToClient _ _ m => genuine m
  | _ => True
  end.

Definition waits (s : user_server) (j : nat) (t : MessageType) : Prop :=
  exists x, jobs_ s !! j = Some x /\ expects (kind x) = Some t.

Record typed (s : user_server) : Prop := {
  ty_pending id q : Pending.requests_ (requests_ s) !! id = Some q ->
    exists t, I id t /\ waits s (on_response q) t;
  ty_strand i y j r : heap_ s !! i = Some y -> TResponse j r ∈ strand_ y ->
    L r /\ waits s j (response_type r);
}.

(** ** Steps that bring no response and no request *)

Record tframe (s s' : user_server) : Prop := {
  tf_jobs j t : waits s j t -> waits s' j t;
  tf_pending id q : Pending.requests_ (requests_ s') !! id = Some q ->
    Pending.requests_ (requests_ s) !! id = Some q;
  tf_strand i y j r : heap_ s' !! i = Some y -> TResponse j r ∈ strand_ y ->
    exists i' y', heap_ s !! i' = Some y' /\ TResponse j r ∈ strand_ y';
}.

#[local] Instance tframe_preorder : PreOrder tframe.
Proof.
  split; [intros s; split; eauto|]. intros s1 s2 s3 [A1 B1 C1] [A2 B2 C2]. split; [auto..|].
  intros i y j r Hy Hr. destruct (C2 _ _ _ _ Hy Hr) as (i'&y'&Hy'&Hr'). eauto.
Qed.

Lemma typed_tframe s s' : tframe s s' -> typed s -> typed s'.
Proof.
  intros [A B C] [P S]. split.
  - intros id q Hq. destruct (P id q (B _ _ Hq)) as (t&Ht&Hw). eauto.
  - intros i y j r Hy Hr. destruct (C _ _ _ _ Hy Hr) as (i'&y'&Hy'&Hr').
    destruct (S _ _ _ _ Hy' Hr'). auto.
Qed.

Lemma tframe_same s s' :
  jobs_ s' = jobs_ s -> requests_ s' = requests_ s -> heap_ s' = heap_ s -> tframe s s'.
Proof. intros E1 E2 E3. split; unfold waits; rewrite ?E1, ?E2, ?E3; eauto. Qed.

Lemma tframe_set_session i x x' s :
  heap_ s !! i = Some x -> (forall j r, TResponse j r ∈ strand_ x' -> TResponse j r ∈ strand_ x) ->
  tframe s (set_session i x' s).
Proof.
  intros Hx Hs. destruct s as [h js ss us n rq]. cbn in *. split; cbn; [done..|].
  intros i' y j r Hy Hr. destruct (decide (i' = i)) as [->|Hne].
  - rewrite list_lookup_insert_eq in Hy by (by eapply lookup_lt_Some). simplify_eq. eauto.
  - rewrite list_lookup_insert_ne in Hy by done. eauto.
Qed.

(** A change of a session other than of its strand. *)
Lemma tframe_session i x x' s :
  heap_ s !! i = Some x -> strand_ x' = strand_ x -> tframe s (set_session i x' s).
Proof. intros Hx E. eapply tframe_set_session; [done|]. by rewrite E. Qed.

Lemma tframe_post i t s :
  (forall j r, t <> TResponse j r) -> tframe s (post i t s).
Proof.
  intros Ht. unfold post. destruct (heap_ s !! i) as [x|] eqn:Hx; [|done].
  eapply tframe_set_session; [done|]. intros j r. destruct x; cbn.
  rewrite elem_of_app, list_elem_of_singleton. intros [?|E]; [done|]. by destruct (Ht j r).
Qed.

Lemma waits_set_job j x x' s j' t :
  jobs_ s !! j = Some x -> kind x' = kind x -> waits s j' t -> waits (set_job j x' s) j' t.
Proof.
  intros Hx E (y&Hy&Ht). destruct s as [h js ss us n rq]. cbn in *.
  destruct (decide (j' = j)) as [->|Hne].
  - exists x'. simplify_eq. cbn. rewrite list_lookup_insert_eq by (by eapply lookup_lt_Some).
    by rewrite E.
  - exists y. cbn. by rewrite list_lookup_insert_ne.
Qed.

Lemma tframe_set_job j x x' s :
  jobs_ s !! j = Some x -> kind x' = kind x -> tframe s (set_job j x' s).
Proof.
  intros Hx E. split; [intros; by eapply waits_set_job|by destruct s|].
  destruct s; cbn. eauto.
Qed.

Lemma tframe_enqueue i k s : tframe s (enqueue_job i k s).
Proof.
  unfold enqueue_job. etrans; [|by apply tframe_post]. destruct s as [h js ss us n rq].
  split; cbn; [|done|eauto]. intros j t (x&Hx&Ht). exists x. cbn in *.
  by rewrite lookup_app_l_Some with (x := x).
Qed.

Lemma tframe_call_done i k s : tframe s (call_done i k s).2.
Proof.
  unfold call_done. destruct (heap_ s !! i) as [x|] eqn:Hx; [|done].
  destruct (completion k (scheduler_ x)). cbn [snd].
  eapply tframe_session; [done|by destruct x].
Qed.

Lemma tframe_finish j s : tframe s (finish j s).2.
Proof.
  unfold finish. destruct (jobs_ s !! j) as [x|] eqn:Hx; [|done].
  destruct (finished_ x); [done|]. cbn zeta. set (s1 := set_job j _ s).
  assert (Hf : tframe s s1) by (eapply tframe_set_job; [done|by destruct x]).
  destruct (done_ x); [|done]. etrans; [exact Hf|apply tframe_call_done].
Qed.

Lemma tframe_requests p s :
  Pending.requests_ p ⊆ Pending.requests_ (requests_ s) -> tframe s (s <| requests_ := p |>).
Proof.
  intros Hp. destruct s as [h js ss us n rq]. cbn in *. split; cbn; [done| |eauto].
  intros id q Hq. by eapply lookup_weaken.
Qed.

Lemma tframe_cancel_request id s :
  tframe s (cancel_request id s).2 /\ Forall fair (cancel_request id s).1.
Proof.
  unfold cancel_request, Pending.cancel, take_request.
  destruct (Pending.requests_ (requests_ s) !! id); cbn; split; try by repeat constructor.
  - apply tframe_requests. apply delete_subseteq.
  - by apply tframe_requests.
Qed.

(** ** Handlers *)

(** The requests a step sends are recorded. *)
Definition recorded (es : list effect) : Prop :=
  forall id t, (id, t) ∈ omap asks es -> I id t.

Lemma recorded_app es es' : recorded (es ++ es') <-> recorded es /\ recorded es'.
Proof. unfold recorded. setoid_rewrite omap_app. set_solver. Qed.

(** A step that keeps [typed] if its requests are recorded. *)
Definition sound (s : user_server) (es : list effect) (s' : user_server) : Prop :=
  typed s -> recorded es -> typed s' /\ Forall fair es.

Lemma sound_trans s es s' es' s'' :
  sound s es s' -> sound s' es' s'' -> sound s (es ++ es') s''.
Proof.
  intros H1 H2 Ht [R1 R2]%recorded_app. destruct (H1 Ht R1) as [T1 F1].
  destruct (H2 T1 R2) as [T2 F2]. split; [done|]. by apply Forall_app.
Qed.

Lemma sound_frame s es s' : tframe s s' -> Forall fair es -> sound s es s'.
Proof. intros Hf He Ht _. split; [by eapply typed_tframe|done]. Qed.

Lemma sound_job_cancel j reason s :
  sound s (job_cancel j reason s).1.1 (job_cancel j reason s).2.
Proof.
  unfold job_cancel. destruct (jobs_ s !! j) as [x|]; [|by apply sound_frame].
  destruct (tframe_cancel_request (room_request_id_ x) s) as [Hf He].
  destruct (cancel_request (room_request_id_ x) s) as [es s1].
  pose proof (tframe_finish j s1) as Hf'. destruct (finish j s1) as [ws s2]. cbn in *.
  destruct (kind x); try (by apply sound_frame);
    (destruct (finished_ x); [by apply sound_frame|]);
    (apply sound_frame; [by etrans|]); apply Forall_app; split; try done;
    destruct reason; by repeat constructor.
Qed.

Lemma fair_reply j x y room m s :
  genuine m -> heap_ s !! session_ x = Some y ->
  sound s (reply j x y room m s).1.1 (reply j x y room m s).2.
Proof.
  intros Hm Hy. unfold reply. pose proof (tframe_finish j
    (set_session (session_ x) (set_enter_room room y) s)) as Hf.
  destruct (finish j _) as [ws s1]. cbn in *. apply sound_frame; [|by repeat constructor].
  etrans; [|exact Hf]. eapply tframe_session; [done|by destruct y].
Qed.

Lemma sound_handle_response j r s :
  L r -> waits s j (response_type r) ->
  sound s (handle_response j r s).1.1 (handle_response j r s).2.
Proof.
  intros Hr (x&Hx&Ht). unfold handle_response. rewrite Hx.
  destruct (finished_ x); [by apply sound_frame|].
  destruct (heap_ s !! session_ x) as [y|] eqn:Hy; [|by apply sound_frame].
  destruct (kind x), r; simplify_eq/=; apply fair_reply; try done; by destruct success.
Qed.

Lemma typed_add j t now s :
  typed s -> I (next_request_id_ s) t -> waits s j t ->
  typed (send_request j (fun _ => User2RoomCancelRequest 0) now s).2.
Proof.
  intros [P S] Hi Hw. unfold send_request. cbn [snd].
  destruct s as [h js ss us n rq]. cbn in *. split; cbn; [|eauto].
  intros id q. unfold Pending.add. destruct (Pending.requests_ rq !! n) eqn:E; [by apply P|].
  cbn. rewrite lookup_insert_Some. intros [[<- <-]|[_ Hq]]; [|by apply P]. cbn. eauto.
Qed.

Lemma sound_run_room_job j k make now x s t :
  jobs_ s !! j = Some x -> expects (kind x) = Some t ->
  (forall id, asks (ToRoom (make id)) = Some (id, t)) ->
  sound s (run_room_job j k make now x s).1.1 (run_room_job j k make now x s).2.
Proof.
  intros Hx He Hm Ht Hr. unfold run_room_job in *. cbn [send_request fst snd] in *.
  split; [|by repeat constructor].
  assert (Hi : I (next_request_id_ s) t).
  { apply Hr. cbn [omap list_omap]. rewrite Hm. set_solver. }
  eapply typed_tframe; [|apply (typed_add j t now s Ht Hi); by exists x].
  eapply tframe_set_job; [by destruct s|by destruct x].
Qed.

Lemma sound_finish_with i k es s s1 :
  tframe s s1 -> Forall fair es ->
  sound s (finish_with i k es s1).1.1 (finish_with i k es s1).2.
Proof.
  intros Hf He. unfold finish_with. pose proof (tframe_call_done i k s1).
  destruct (call_done i k s1) as [ws s2]. apply sound_frame; [by etrans|done].
Qed.

Lemma tframe_add_session i s : tframe s (session_manager.add_session i s).
Proof.
  unfold session_manager.add_session. destruct (heap_ s !! i); [|done].
  case_decide; by apply tframe_same; destruct s.
Qed.

Lemma sound_job_run j k now s : sound s (job_run j k now s).1.1 (job_run j k now s).2.
Proof.
  unfold job_run. destruct (jobs_ s !! j) as [x|] eqn:Hx; [|by apply sound_frame].
  cbn zeta. destruct (heap_ s !! session_ x) as [y|] eqn:Hy; [|by apply sound_frame].
  assert (Hs : forall y', strand_ y' = strand_ y -> tframe s (set_session (session_ x) y' s)).
  { intros y' E. by eapply tframe_session. }
  destruct (kind x) eqn:Ek;
    try (eapply sound_run_room_job; [done|by rewrite Ek|done]);
    apply sound_finish_with; try (by repeat constructor); try done;
    try (apply Hs; by destruct y).
  - etrans; [|apply tframe_add_session]. apply Hs. by destruct y.
  - apply tframe_enqueue.
Qed.

Lemma sound_work fuel now ws s : sound s (work fuel now ws s).1 (work fuel now ws s).2.
Proof.
  revert ws s. induction fuel as [|fuel IH]; intros [|w ws] s; cbn [work];
    try (apply sound_frame; [done|by repeat constructor]).
  assert (H1 : let '(es, ws', s1) := match w with
    | Run j k => job_run j k now s
    | CancelJob j reason => job_cancel j reason s end in sound s es s1).
  { destruct w as [j k|j r];
      [pose proof (sound_job_run j k now s)|pose proof (sound_job_cancel j r s)].
    - by destruct (job_run j k now s) as [[? ?] ?].
    - by destruct (job_cancel j r s) as [[? ?] ?]. }
  destruct (match w with Run j k => _ | CancelJob j r => _ end) as [[es ws'] s1].
  specialize (IH (ws' ++ ws) s1). destruct (work fuel now (ws' ++ ws) s1) as [es' s2].
  by eapply sound_trans.
Qed.

Definition task_legit (s : user_server) (t : task) : Prop :=
  match t with
  | TResponse j r => L r /\ waits s j (response_type r)
  | _ => True
  end.

Lemma sound_run_task now i t s :
  task_legit s t -> sound s (run_task now i t s).1 (run_task now i t s).2.
Proof.
  intros Hl. unfold run_task, drain.
  destruct (heap_ s !! i) as [x|] eqn:Hx; [|by apply sound_frame].
  assert (Hw : forall ws x', strand_ x' = strand_ x ->
    let s1 := set_session i x' s in
    sound s (work (length ws + queued s1) now ws s1).1
            (work (length ws + queued s1) now ws s1).2).
  { intros ws x' E s1. apply (sound_trans _ [] s1); [|apply sound_work].
    apply sound_frame; [by eapply tframe_session|done]. }
  destruct t as [j|j r|j|].
  - destruct (push_and_run j (scheduler_ x)) as [ws sch]. apply Hw. by destruct x.
  - destruct Hl as [Hr Hj]. pose proof (sound_handle_response j r s Hr Hj) as H1.
    destruct (handle_response j r s) as [[es ws] s1].
    pose proof (sound_work (length ws + queued s1) now ws s1) as H2.
    destruct (work _ now ws s1) as [es' s2]. by eapply sound_trans.
  - pose proof (sound_job_cancel j Scheduler.kTimeout s) as H1.
    destruct (job_cancel j Scheduler.kTimeout s) as [[es ws] s1].
    pose proof (sound_work (length ws + queued s1) now ws s1) as H2.
    destruct (work _ now ws s1) as [es' s2]. by eapply sound_trans.
  - destruct (shutdown (scheduler_ x)) as [ws sch]. apply Hw. by destruct x.
Qed.

(** ** Messages of the Room server *)

Definition call_legit (s : user_server) (c : call room_response nat (nat * Z)) : Prop :=
  match c with
  | ResponseCall j r => L r /\ waits s j (response_type r)
  | TimeoutCall _ => True
  end.

Lemma typed_post_response i j r s :
  L r -> waits s j (response_type r) -> typed s -> typed (post i (TResponse j r) s).
Proof.
  intros Hr Hw [P S]. unfold post. destruct (heap_ s !! i) as [x|] eqn:Hx; [|done].
  destruct s as [h js ss us n rq]. cbn in *. split; cbn; [by apply P|].
  intros i' y j' r' Hy Ht. destruct (decide (i' = i)) as [->|Hne].
  - rewrite list_lookup_insert_eq in Hy by (by eapply lookup_lt_Some). simplify_eq.
    destruct x; cbn in *. rewrite elem_of_app, list_elem_of_singleton in Ht.
    destruct Ht as [Ht|[= -> ->]]; [by eapply S|done].
  - rewrite list_lookup_insert_ne in Hy by done. by eapply S.
Qed.

Lemma waits_post i t s j ty : waits (post i t s) j ty <-> waits s j ty.
Proof. unfold waits. by rewrite jobs_post. Qed.

Lemma sound_invoke c s : call_legit s c -> sound s (invoke s c).1 (invoke s c).2.
Proof.
  intros Hc. destruct c as [j r|[j id]]; cbn.
  - destruct Hc as [Hr Hw]. destruct (jobs_ s !! j); [|by apply sound_frame].
    intros Ht _. split; [by apply typed_post_response|constructor].
  - destruct (jobs_ s !! j); [|by apply sound_frame].
    apply sound_frame; [by apply tframe_post|by repeat constructor].
Qed.

Lemma sound_invoke_all cs s :
  Forall (call_legit s) cs -> sound s (invoke_all cs s).1 (invoke_all cs s).2.
Proof.
  intros Hc. revert s Hc. induction cs as [|c cs IH]; intros s Hc; cbn [invoke_all];
    [by apply sound_frame|]. apply Forall_cons_1 in Hc as [Hc Hcs].
  pose proof (sound_invoke c s Hc) as H1.
  assert (Hj : forall j t, waits s j t -> waits (invoke s c).2 j t).
  { intros j t. destruct c as [j' r|[j' id]]; cbn; destruct (jobs_ s !! j'); cbn;
      by rewrite ?waits_post. }
  destruct (invoke s c) as [es s1]. cbn in *.
  specialize (IH s1). destruct (invoke_all cs s1) as [es' s2]. eapply sound_trans; [done|].
  apply IH. eapply Forall_impl; [done|]. intros [j r|[j id]]; cbn; naive_solver.
Qed.

(** What the server needs of the messages it receives. *)
Definition event_legit (e : event) : Prop :=
  match e with
  | RoomResponse id r _ => L r /\ forall t, I id t -> t = response_type r
  | _ => True
  end.

Lemma sound_send_to_waiter id r now s :
  L r -> (forall t, I id t -> t = response_type r) -> typed s ->
  sound s (send_to_waiter id r now s).1 (send_to_waiter id r now s).2.
Proof.
  intros Hr Hi Ht. unfold send_to_waiter, Pending.complete, take_request.
  destruct (Pending.requests_ (requests_ s) !! id) as [q|] eqn:Hq; cbn.
  2: { apply sound_frame; [by apply tframe_requests|done]. }
  destruct (ty_pending s Ht id q Hq) as (t&Hit&Hw). rewrite (Hi _ Hit) in Hw.
  set (p := set_requests _ _).
  assert (Hf : tframe s (s <| requests_ := p |>)).
  { apply tframe_requests. apply delete_subseteq. }
  assert (Hw' : waits (s <| requests_ := p |>) (on_response q) (response_type r))
    by (by apply (tf_jobs _ _ Hf)).
  destruct (deadline q <=? now);
    (apply (sound_trans _ [] (s <| requests_ := p |>));
       [by apply sound_frame|apply sound_invoke_all; by repeat constructor]).
Qed.

Lemma sound_expire now s : sound s (expire now s).1 (expire now s).2.
Proof.
  unfold expire. destruct (timer_tick now (requests_ s)) as [cs p] eqn:E.
  assert (Hp : Pending.requests_ p ⊆ Pending.requests_ (requests_ s) /\
               Forall (fun c => match c with TimeoutCall _ => True | _ => False end) cs).
  { unfold timer_tick in E. case_match; simplify_eq; [|by split].
    pose proof (expire_lookup (Response := room_response) now (requests_ s)) as Hl.
    pose proof (expire_calls (Response := room_response) now (requests_ s)) as Hc.
    rewrite E in Hl, Hc. cbn in Hl, Hc. split.
    - apply map_subseteq_spec. intros id q Hq. rewrite Hl in Hq. by repeat case_match.
    - rewrite Hc. apply Forall_fmap, Forall_true. done. }
  destruct Hp as [Hp Hc]. apply (sound_trans _ [] (s <| requests_ := p |>)).
  - apply sound_frame; [by apply tframe_requests|done].
  - apply sound_invoke_all. eapply Forall_impl; [done|]. by intros [].
Qed.

Lemma tframe_add_connection conn s : tframe s (session_manager.add_connection conn s).
Proof.
  unfold session_manager.add_connection. destruct (sessions_ s !! conn); [done|].
  destruct s as [h js ss us n rq]. split; cbn; [done|done|].
  intros i y j r [Hy|[_ Hy]]%lookup_app_Some Hr; [eauto|].
  apply list_lookup_singleton_Some in Hy as [_ <-]. cbn in Hr. set_solver.
Qed.

Lemma tframe_on_conn_closed conn s : tframe s (on_conn_closed conn s).
Proof.
  unfold on_conn_closed, session_manager.remove_session.
  destruct (sessions_ s !! conn); [|done]. etrans; [|by apply tframe_post].
  by apply tframe_same; destruct s.
Qed.

Lemma sound_exec e s :
  event_legit e -> typed s -> sound s (exec e s).1 (exec e s).2.
Proof.
  intros He Ht. destruct e as [conn|conn|i m|i now|id r now|u k|now]; cbn [exec fst snd].
  - apply sound_frame; [apply tframe_add_connection|done].
  - apply sound_frame; [apply tframe_on_conn_closed|done].
  - unfold on_recv. destruct (heap_ s !! i); [|by apply sound_frame].
    destruct m; apply sound_frame; try (by repeat constructor); try done;
      apply tframe_enqueue.
  - destruct (heap_ s !! i) as [x|] eqn:Hx; [|by apply sound_frame].
    destruct (strand_ x) as [|t ts] eqn:Es; [by apply sound_frame|].
    set (s1 := set_session i _ s).
    assert (Hf : tframe s s1).
    { eapply tframe_set_session; [done|]. destruct x; cbn in *. rewrite Es. set_solver. }
    apply (sound_trans _ [] s1); [by apply sound_frame|]. apply sound_run_task.
    destruct t as [j|j r|j|]; try done.
    destruct (ty_strand s Ht i x j r Hx) as [Hl Hw]; [rewrite Es; set_solver|].
    split; [done|]. by apply (tf_jobs _ _ Hf).
  - destruct He. by apply sound_send_to_waiter.
  - unfold pass_to_session. case_match; apply sound_frame; try done. apply tframe_enqueue.
  - apply sound_expire.
Qed.
End replies.

Lemma typed_mono (I I' : Z -> MessageType -> Prop) (L L' : room_response -> Prop) s :
  (forall id t, I id t -> I' id t) -> (forall r, L r -> L' r) ->
  typed I L s -> typed I' L' s.
Proof.
  intros HI HL [P S]. split.
  - intros id q Hq. destruct (P id q Hq) as (t&?&?). eauto.
  - intros i y j r Hy Hr. destruct (S i y j r Hy Hr). auto.
Qed.

Lemma typed_start I L : typed I L server_start.
Proof. split; cbn; intros; [by rewrite lookup_empty in *|done]. Qed.
