(* ===== verification/Handles.v ===== *)
(** * Handles: no dangling pointer in the User server

    Sessions, jobs and completion closures of [Sessions] are handles into
    heaps, as the shared pointers of the source are addresses.  This file shows
    the typing of the state: every handle a table, a queue, a strand or a
    pending request holds names an object, and one of the right owner, so the
    branches of the model for a handle without an object are never taken.  Its
    frame [hframe] also says what a chain of calls may do to the queues and
    strands. *)

From S2P Require Import Prelude Wire Scheduler Pending Sessions Order Logins.
From coqutil Require Import Datatypes.RecordSetters.
Import TriangleBracketNotations.
Import room_channel.
#[local] Arguments constant {_} _ _ /.

(** ** What a chain of calls does *)

(** A handler that pushes a job made since there were [n] jobs. *)
Definition fresh (n : nat) (t : task) : Prop := exists j, t = TPush j /\ (n <= j)%nat.

(** The entry a room job makes: both callbacks name the job, and the timeout
    its id. *)
Definition well_pending (js : list job) (id : Z) (q : request nat (nat * Z)) : Prop :=
  on_timeout q = (on_response q, id) /\ is_Some (js !! on_response q).

(** The timer thread of the pending requests runs. *)
Definition timing (s : user_server) : bool :=
  timer_ (requests_ s) && Pending.running_ (requests_ s).

Record hframe (s s' : user_server) : Prop := {
  hf_heap : length (heap_ s') = length (heap_ s);
  hf_len : (length (jobs_ s) <= length (jobs_ s'))%nat;
  hf_job j x' : jobs_ s' !! j = Some x' ->
    (exists x, jobs_ s !! j = Some x /\ session_ x = session_ x') \/
    ((length (jobs_ s) <= j)%nat /\ is_Some (heap_ s !! session_ x'));
  hf_session i y' : heap_ s' !! i = Some y' ->
    exists y new, heap_ s !! i = Some y /\ strand_ y' = strand_ y ++ new /\
      Forall (fresh (length (jobs_ s))) new /\ q_ (scheduler_ y') ⊆ q_ (scheduler_ y);
  hf_pending id q : Pending.requests_ (requests_ s') !! id = Some q ->
    Pending.requests_ (requests_ s) !! id = Some q \/ well_pending (jobs_ s') id q;
  hf_timer : timing s' = timing s;
}.

Lemma fresh_le n m t : (n <= m)%nat -> fresh m t -> fresh n t.
Proof. intros Hn (j&->&Hj). exists j. split; [done|lia]. Qed.

#[export] Instance hframe_preorder : PreOrder hframe.
Proof.
  split.
  - intros s. split; [done|done|eauto| |eauto|done]. intros i y Hy. exists y, []. by rewrite app_nil_r.
  - intros s1 s2 s3 [H1 A1 B1 C1 D1 E1] [H2 A2 B2 C2 D2 E2]. split; [congruence|..|congruence].
    + lia.
    + intros j x [(x2&Hx2&Ex2)|[Hl [y Hy]]]%B2.
      * rewrite <- Ex2. by apply B1.
      * right. split; [lia|]. destruct (C1 _ _ Hy) as (y1&?&Hy1&_). by exists y1.
    + intros i y (y2&n2&Hy2&Es2&F2&Q2)%C2. destruct (C1 _ _ Hy2) as (y1&n1&Hy1&Es1&F1&Q1).
      exists y1, (n1 ++ n2). split_and!; [done|by rewrite Es2, Es1, app_assoc| |set_solver].
      apply Forall_app. split; [done|]. eapply Forall_impl; [exact F2|]. intros t. by apply fresh_le.
    + intros id q [Hq|?]%D2; [|by right]. apply D1 in Hq as [?|[E [x Hx]]]; [by left|right].
      split; [done|]. apply lookup_lt_is_Some_2. apply lookup_lt_Some in Hx. lia.
Qed.

Lemma hframe_same s s' :
  jobs_ s' = jobs_ s -> heap_ s' = heap_ s ->
  Pending.requests_ (requests_ s') ⊆ Pending.requests_ (requests_ s) -> timing s' = timing s ->
  hframe s s'.
Proof.
  intros E1 E2 Hp Et. split; rewrite ?E1, ?E2; [done|done|eauto| | |done].
  - intros i y Hy. exists y, []. by rewrite app_nil_r.
  - intros id q Hq. left. by eapply lookup_weaken.
Qed.

Lemma hframe_set_session i x x' new s :
  heap_ s !! i = Some x -> strand_ x' = strand_ x ++ new -> Forall (fresh (length (jobs_ s))) new ->
  q_ (scheduler_ x') ⊆ q_ (scheduler_ x) -> hframe s (set_session i x' s).
Proof.
  intros Hx Es Hn Hq. destruct s as [h js ss us nx rq]. cbn in *.
  split; cbn; [apply length_insert|done|eauto| |eauto|done].
  intros i' y Hy. destruct (lookup_set _ _ _ _ _ _ Hx Hy) as [[-> ->]|[_ Hy']].
  - by exists x, new.
  - exists y, []. by rewrite app_nil_r.
Qed.

(** A change of a session other than of its strand and its queue. *)
Lemma hframe_session i x x' s :
  heap_ s !! i = Some x -> strand_ x' = strand_ x -> q_ (scheduler_ x') ⊆ q_ (scheduler_ x) ->
  hframe s (set_session i x' s).
Proof. intros Hx Es Hq. apply (hframe_set_session i x x' []); [done|by rewrite app_nil_r|done|done]. Qed.

Lemma hframe_set_job j x x' s :
  jobs_ s !! j = Some x -> session_ x' = session_ x -> hframe s (set_job j x' s).
Proof.
  intros Hx Es. destruct s as [h js ss us nx rq]. cbn in *.
  split; cbn; [done|by rewrite length_insert| | |eauto|done].
  - intros j' y Hy. left. destruct (lookup_set _ _ _ _ _ _ Hx Hy) as [[-> ->]|[_ Hy']]; eauto.
  - intros i y Hy. exists y, []. by rewrite app_nil_r.
Qed.

Lemma hframe_enqueue i k s : is_Some (heap_ s !! i) -> hframe s (enqueue_job i k s).
Proof.
  intros [x Hx]. unfold enqueue_job, post. destruct s as [h js ss us nx rq]. cbn in *. rewrite Hx.
  split; cbn; [apply length_insert|rewrite length_app; lia| | |eauto|done].
  - intros j y [Hy|[Hl Hy]]%lookup_app_Some; [by left; eauto|right].
    apply list_lookup_singleton_Some in Hy as [_ <-]. split; [lia|]. cbn. eauto.
  - intros i' y Hy. destruct (lookup_set _ _ _ _ _ _ Hx Hy) as [[-> ->]|[_ Hy']].
    + exists x, [TPush (length js)]. destruct x. split_and!; try done.
      constructor; [|done]. by exists (length js).
    + exists y, []. by rewrite app_nil_r.
Qed.

Lemma completion_tail k (sch : job_scheduler nat) : q_ (completion k sch).2 ⊆ q_ sch.
Proof.
  unfold completion. destruct (completed_ sch !! k) as [[]|]; cbn; try done.
  unfold complete_current. destruct sch as [[|j [|j' q]] r st c]; cbn; set_solver.
Qed.

Lemma hframe_call_done i k s : hframe s (call_done i k s).2.
Proof.
  unfold call_done. destruct (heap_ s !! i) as [x|] eqn:Hx; [|done].
  pose proof (completion_tail k (scheduler_ x)) as Hq. destruct (completion k (scheduler_ x)).
  cbn [snd] in *. eapply hframe_session; [done|by destruct x..].
Qed.

Lemma hframe_finish j s : hframe s (finish j s).2.
Proof.
  unfold finish. destruct (jobs_ s !! j) as [x|] eqn:Hx; [|done]. destruct (finished_ x); [done|].
  cbn zeta. set (s1 := set_job j _ s).
  assert (Hf : hframe s s1) by (eapply hframe_set_job; [done|by destruct x]).
  destruct (done_ x); [|done]. etrans; [exact Hf|apply hframe_call_done].
Qed.

Lemma hframe_job_cancel j reason s : hframe s (job_cancel j reason s).2.
Proof.
  unfold job_cancel, cancel_request. destruct (jobs_ s !! j) as [x|]; [|done].
  assert (Hp : hframe s (s <| requests_ := (Pending.cancel (room_request_id_ x) (requests_ s)).2 |>)).
  { apply hframe_same; [by destruct s..| |]; unfold timing, Pending.cancel, take_request;
      destruct s as [h js ss us nx rq]; cbn; destruct (Pending.requests_ rq !! _); cbn; try done.
    apply delete_subseteq. }
  destruct (Pending.cancel _ _) as [b p]. cbn [snd] in Hp.
  pose proof (hframe_finish j (s <| requests_ := p |>)) as Hf.
  destruct (finish j _) as [ws s1]. cbn [snd] in Hf.
  destruct (kind x), (finished_ x); cbn [snd]; try done; by etrans.
Qed.

Lemma hframe_handle_response j r s : hframe s (handle_response j r s).2.
Proof.
  open_handle_response. destruct (jobs_ s !! j) as [x|]; [|done]. destruct (finished_ x); [done|].
  destruct (heap_ s !! session_ x) as [y|] eqn:Hy; [|done].
  assert (Hr : forall room, hframe s (finish j
    (set_session (session_ x) (set_enter_room room y) s)).2).
  { intros room. etrans; [|apply hframe_finish]. eapply hframe_session; [done|by destruct y..]. }
  destruct (kind x), r; try done;
    match goal with |- context [set_session _ (set_enter_room ?room y) s] =>
      specialize (Hr room) end; by destruct (finish j _).
Qed.

Lemma hframe_run_room j k make now x s :
  jobs_ s !! j = Some x -> hframe s (run_room_job j k make now x s).2.
Proof.
  intros Hx. unfold run_room_job, send_request. cbn [snd].
  set (s1 := _ <| requests_ := _ |>). assert (Ej : jobs_ s1 = jobs_ s) by (by destruct s).
  etrans; [|eapply (hframe_set_job j x); [by rewrite Ej|by destruct x]].
  destruct s as [h js ss us nx rq]. subst s1. cbn in *. split; cbn; [done|done|eauto| | |].
  - intros i y Hy. exists y, []. by rewrite app_nil_r.
  - intros id q. unfold Pending.add. destruct (Pending.requests_ rq !! nx); [by left|]. cbn.
    intros [[<- <-]|[_ ?]]%lookup_insert_Some; [right|by left]. split; [done|]. cbn. eauto.
  - unfold timing, Pending.add. cbn. by destruct (Pending.requests_ rq !! nx).
Qed.

Lemma hframe_job_run j k now s : hframe s (job_run j k now s).2.
Proof.
  open_job_run. destruct (jobs_ s !! j) as [x|] eqn:Hx; [|done].
  destruct (heap_ s !! session_ x) as [y|] eqn:Hy; [|done].
  assert (Hd : forall s1, hframe s s1 -> hframe s (call_done (session_ x) k s1).2).
  { intros s1 H1. etrans; [exact H1|apply hframe_call_done]. }
  assert (Hs : forall y', strand_ y' = strand_ y -> scheduler_ y' = scheduler_ y ->
    hframe s (set_session (session_ x) y' s)).
  { intros y' E1 E2. eapply hframe_session; [done|done|by rewrite E2]. }
  destruct (kind x); try (by apply hframe_run_room);
    match goal with |- context [call_done ?i k ?s1] =>
      cut (hframe s s1); [intros H1%Hd; by destruct (call_done i k s1)|] end;
    try done; try (by apply Hs; destruct y).
  - etrans; [apply (Hs (set_user u y)); by destruct y|].
    apply hframe_same; unfold session_manager.add_session; repeat case_match; by destruct s.
  - apply hframe_enqueue. eauto.
Qed.

Lemma hframe_work fuel now ws s : hframe s (work fuel now ws s).2.
Proof.
  revert ws s. induction fuel as [|fuel IH]; intros [|w ws] s; cbn [work]; try done.
  assert (H1 : hframe s (match w with
    | Run j k => job_run j k now s
    | CancelJob j reason => job_cancel j reason s end).2)
    by (destruct w; [apply hframe_job_run|apply hframe_job_cancel]).
  destruct (match w with Run j k => _ | CancelJob j r => _ end) as [[es ws'] s1].
  specialize (IH (ws' ++ ws) s1). destruct (work fuel now (ws' ++ ws) s1).
  cbn in *. by etrans.
Qed.

(** ** Handlers *)

(** A handler: the job it pushes may be queued, then a chain of calls. *)
Lemma run_task_frame now i t s y :
  heap_ s !! i = Some y -> exists y1, strand_ y1 = strand_ y /\
    q_ (scheduler_ y1) ⊆ q_ (scheduler_ y) ++ option_list (pushed t) /\
    hframe (set_session i y1 s) (run_task now i t s).2.
Proof.
  intros Hy. assert (Es : set_session i y s = s).
  { destruct s. unfold set_session. cbn in *. by rewrite list_insert_id. }
  unfold run_task, drain. rewrite Hy. destruct t as [j|j r|j|]; cbn [pushed option_list].
  - assert (Hq : q_ (push_and_run j (scheduler_ y)).2 ⊆ q_ (scheduler_ y) ++ [j]).
    { unfold push_and_run. destruct (scheduler_ y) as [q run stop cs]. cbn.
      destruct stop, run, q; cbn; set_solver. }
    destruct (push_and_run j (scheduler_ y)) as [ws sch]. cbn [snd] in Hq.
    exists (y <| scheduler_ := sch |>). destruct y. split_and!; [done|done|apply hframe_work].
  - exists y. rewrite Es. split_and!; [done|set_solver|].
    pose proof (hframe_handle_response j r s) as H1. destruct (handle_response j r s) as [[es ws] s1].
    pose proof (hframe_work (length ws + queued s1) now ws s1). destruct (work _ now ws s1).
    cbn in *. by etrans.
  - exists y. rewrite Es. split_and!; [done|set_solver|].
    pose proof (hframe_job_cancel j Scheduler.kTimeout s) as H1.
    destruct (job_cancel j Scheduler.kTimeout s) as [[es ws] s1].
    pose proof (hframe_work (length ws + queued s1) now ws s1). destruct (work _ now ws s1).
    cbn in *. by etrans.
  - assert (Hq : q_ (shutdown (scheduler_ y)).2 ⊆ q_ (scheduler_ y) ++ []).
    { unfold shutdown. destruct (scheduler_ y) as [q run stop cs]. cbn. destruct stop; cbn; set_solver. }
    destruct (shutdown (scheduler_ y)) as [ws sch]. cbn [snd] in Hq.
    exists (y <| stop_ := true |> <| scheduler_ := sch |>). destruct y.
    split_and!; [done|done|apply hframe_work].
Qed.

(** A turn of a strand. *)
Lemma strand_frame i now s y t ts :
  heap_ s !! i = Some y -> strand_ y = t :: ts -> exists y1, strand_ y1 = ts /\
    q_ (scheduler_ y1) ⊆ q_ (scheduler_ y) ++ option_list (pushed t) /\
    hframe (set_session i y1 s) (exec (RunStrand i now) s).2.
Proof.
  intros Hy Et. cbn [exec]. rewrite Hy, Et. set (s1 := set_session i _ s).
  destruct (run_task_frame now i t s1 (y <| strand_ := ts |>)) as (y1&E1&E2&Hf).
  { unfold s1. destruct s. cbn. apply list_lookup_insert_eq. by eapply lookup_lt_Some. }
  exists y1. unfold s1 in Hf. rewrite set_session_twice in Hf. destruct y. by split_and!.
Qed.

(** ** The typing of the state *)

Record held (s : user_server) : Prop := {
  hd_job j x : jobs_ s !! j = Some x -> is_Some (heap_ s !! session_ x);
  hd_strand i y t j : heap_ s !! i = Some y -> t ∈ strand_ y -> mentions t j -> owns (jobs_ s) i j;
  hd_pending id q : Pending.requests_ (requests_ s) !! id = Some q -> well_pending (jobs_ s) id q;
  hd_timer : timing s = true;
}.

Lemma hf_owns s s' i j : hframe s s' -> owns (jobs_ s) i j -> owns (jobs_ s') i j.
Proof.
  intros [_ A B _ _ _]. unfold owns. intros (x&Hx&Ei)%fmap_Some.
  pose proof (lookup_lt_Some _ _ _ Hx) as Hl.
  destruct (lookup_lt_is_Some_2 (jobs_ s') j) as [x' Hx']; [lia|].
  destruct (B j x' Hx') as [(x0&Hx0&E)|[? _]]; [|lia]. rewrite Hx'. cbn. congruence.
Qed.

Lemma heap_is_Some s s' i :
  length (heap_ s') = length (heap_ s) -> is_Some (heap_ s' !! i) <-> is_Some (heap_ s !! i).
Proof. intros E. by rewrite !lookup_lt_is_Some, E. Qed.

Lemma held_frame s s' : hframe s s' -> held s -> held s'.
Proof.
  intros F [A B C D]. split.
  - intros j x Hx. apply (heap_is_Some s s'); [apply F|].
    destruct (hf_job _ _ F j x Hx) as [(x0&Hx0&<-)|[_ ?]]; [by eapply A|done].
  - intros i y t j Hy Ht Hm. destruct (hf_session _ _ F i y Hy) as (y0&new&Hy0&Es&Hn&_).
    rewrite Es in Ht. apply elem_of_app in Ht as [Ht|Ht]; [by eapply hf_owns, B|].
    rewrite Forall_forall in Hn. by destruct (Hn t Ht) as (j'&->&_).
  - intros id q [Hq|?]%(hf_pending _ _ F); [|done]. destruct (C id q Hq) as [E [x Hx]].
    split; [done|]. apply lookup_lt_is_Some_2. apply lookup_lt_Some in Hx.
    pose proof (hf_len _ _ F). lia.
  - by rewrite (hf_timer _ _ F).
Qed.

(** Handlers leave a strand, or one is posted to the owner of its job. *)
Lemma held_set_session i y y' s :
  heap_ s !! i = Some y ->
  (forall t j, t ∈ strand_ y' -> mentions t j -> t ∈ strand_ y \/ owns (jobs_ s) i j) ->
  held s -> held (set_session i y' s).
Proof.
  intros Hy Hs [A B C D]. destruct s as [h js ss us nx rq]. cbn in *. split; cbn; [| |done|done].
  - intros j x Hx. apply lookup_lt_is_Some. rewrite length_insert. apply lookup_lt_is_Some. by eapply A.
  - intros i' z t j Hz Ht Hm. destruct (lookup_set _ _ _ _ _ _ Hy Hz) as [[-> ->]|[_ Hz']].
    + destruct (Hs t j Ht Hm); [by eapply B|done].
    + by eapply B.
Qed.

Lemma held_post i t s :
  (forall j, mentions t j -> owns (jobs_ s) i j) -> held s -> held (post i t s).
Proof.
  intros Hm Hh. unfold post. destruct (heap_ s !! i) as [y|] eqn:Hy; [|done].
  apply (held_set_session i y); [done| |done]. intros t' j Ht Hj. destruct y; cbn in *.
  apply elem_of_app in Ht as [?|Ht]; [by left|]. apply list_elem_of_singleton in Ht as ->. auto.
Qed.

Lemma held_invoke_all cs s : held s -> held (invoke_all cs s).2.
Proof.
  revert s. induction cs as [|c cs IH]; intros s Hh; cbn [invoke_all]; [done|].
  assert (H1 : held (invoke s c).2).
  { destruct c as [j r|[j id]]; cbn; (destruct (jobs_ s !! j) as [x|] eqn:Hx; [|done]); cbn;
      apply held_post; try done; intros j' <-; unfold owns; by rewrite Hx. }
  destruct (invoke s c) as [es s1]. specialize (IH s1 H1). by destruct (invoke_all cs s1).
Qed.

(** The tables of [session_manager]. *)
Record registered (s : user_server) : Prop := {
  rg_sessions c i : sessions_ s !! c = Some i -> session_conn s i = Some c;
  rg_uids u i : uid_sessions_ s !! u = Some i -> u <> "" /\ is_Some (session_conn s i);
}.

Lemma registered_exec e s : registered s -> registered (exec e s).2.
Proof.
  intros [A B]. pose proof (lstep_exec e s) as [Lc Lu Le]. split.
  - intros c i Hc. destruct (internal e) eqn:He.
    { pose proof (cframe_exec e s He) as [F1 F2 _]. rewrite F1. apply F2 in Hc as [?|?]; auto. }
    destruct e as [conn|conn| | | | |]; try done; cbn [exec snd] in *.
    + unfold session_manager.add_connection in Hc.
      destruct (sessions_ s !! conn) as [i0|] eqn:Hn; [by apply Lc, A|].
      destruct s as [h js ss us nx rq]. cbn in Hc.
      apply lookup_insert_Some in Hc as [[<- <-]|[_ Hc]]; [|by apply Lc, A].
      rewrite (add_connection_conn conn _ _ Hn). by rewrite decide_True.
    + unfold on_conn_closed, session_manager.remove_session in Hc.
      destruct (sessions_ s !! conn) as [i0|] eqn:Hn; [|by apply Lc, A].
      apply Lc, A. assert (E : forall i t s1, sessions_ (post i t s1) = sessions_ s1).
      { intros i1 t s1. unfold post. destruct (heap_ s1 !! i1); by destruct s1. }
      rewrite E in Hc. destruct s as [h js ss us nx rq]. cbn in Hc.
      by apply lookup_delete_Some in Hc as [_ Hc].
  - intros u i Hu. destruct (decide (u = "")) as [->|Hne].
    + rewrite Le in Hu; [done|]. destruct (uid_sessions_ s !! "") as [i0|] eqn:E; [|done].
      by destruct (B _ _ E).
    + split; [done|]. destruct (Lu u i Hne Hu) as [(c&Hc&_)|[H0 _]]; [by exists c|].
      destruct (B u i H0) as [_ [c Hc]]. exists c. auto.
Qed.

Lemma held_requests p s :
  Pending.requests_ p ⊆ Pending.requests_ (requests_ s) ->
  timer_ p && Pending.running_ p = timing s -> held s -> held (s <| requests_ := p |>).
Proof. intros Hp Et. apply held_frame, hframe_same; by destruct s. Qed.

Lemma complete_timing id (r : room_response) now (p : pending_requests nat (nat * Z)) :
  let p' := (Pending.complete id r now p).2 in
  timer_ p' && Pending.running_ p' = timer_ p && Pending.running_ p.
Proof.
  unfold Pending.complete, take_request. destruct (Pending.requests_ p !! id); [|done].
  by destruct (deadline r0 <=? now).
Qed.

Lemma tick_timing now (p : pending_requests nat (nat * Z)) :
  let p' := (timer_tick (Response := room_response) now p).2 in
  timer_ p' && Pending.running_ p' = timer_ p && Pending.running_ p.
Proof.
  unfold timer_tick. destruct (timer_ p && Pending.running_ p) eqn:E; cbn; [|done].
  unfold Pending.expire. by destruct (expire_loop _ _ _ _).
Qed.

Lemma held_step e s : registered s -> held s -> held (exec e s).2.
Proof.
  intros R Hh. destruct e as [conn|conn|i m|i now|id r now|u k|now]; cbn [exec].
  - cbn. unfold session_manager.add_connection. destruct (sessions_ s !! conn); [done|].
    destruct Hh as [A B C D]. destruct s as [h js ss us nx rq]. cbn in *. split; cbn; [| |done|done].
    + intros j x [y Hy]%A. exists y. by apply lookup_app_l_Some.
    + intros i y t j [Hy|[_ Hy]]%lookup_app_Some Ht Hm; [by eapply B|].
      apply list_lookup_singleton_Some in Hy as [_ <-]. by apply elem_of_nil in Ht.
  - cbn. unfold on_conn_closed, session_manager.remove_session.
    destruct (sessions_ s !! conn); [|done]. apply held_post; [done|].
    eapply held_frame; [|exact Hh]. apply hframe_same; by destruct s.
  - unfold on_recv. destruct (heap_ s !! i) as [y|] eqn:Hy; [|done].
    destruct m; cbn; try done; (eapply held_frame; [|exact Hh]); apply hframe_enqueue; eauto.
  - destruct (heap_ s !! i) as [y|] eqn:Hy; [|done]. destruct (strand_ y) as [|t ts] eqn:Et; [done|].
    destruct (strand_frame i now s y t ts Hy Et) as (y1&Es&_&F). cbn [exec] in F. rewrite Hy, Et in F.
    eapply held_frame; [exact F|]. apply (held_set_session i y); [done| |done].
    intros t' j Ht _. left. rewrite Et. rewrite Es in Ht. by right.
  - unfold send_to_waiter. destruct (complete_awaited id r now (requests_ s)) as [_ Hp].
    pose proof (complete_timing id r now (requests_ s)). destruct (Pending.complete _ _ _ _).
    by apply held_invoke_all, held_requests.
  - cbn. unfold pass_to_session, session_manager.find_session.
    destruct (uid_sessions_ s !! u) as [i|] eqn:Hu; [|done].
    eapply held_frame; [|exact Hh]. apply hframe_enqueue.
    destruct (rg_uids _ R u i Hu) as [_ [c Hc]]. unfold session_conn in Hc.
    apply fmap_Some in Hc as (y&Hy&_). eauto.
  - unfold expire. destruct (tick_awaited now (requests_ s)) as [_ Hp].
    pose proof (tick_timing now (requests_ s)). destruct (timer_tick _ _).
    by apply held_invoke_all, held_requests.
Qed.

Lemma handles_start : registered server_start /\ held server_start.
Proof. split; split; cbn; intros *; by rewrite ?lookup_empty. Qed.

Lemma handles_exec e s : registered s /\ held s -> registered (exec e s).2 /\ held (exec e s).2.
Proof. intros [R H]. split; [by apply registered_exec|by apply held_step]. Qed.

Module HandlesProperties.

End HandlesProperties.
