(* ===== verification/Addresses.v ===== *)
(** * Addresses: a job answers on the connection of its session

    Whatever a job sends to a client goes to the connection its session was
    made for; a session keeps its connection, and a job its session. *)

From S2P Require Import Prelude Wire Scheduler Pending Sessions Order Logins Handles.
From coqutil Require Import Datatypes.RecordSetters.
Import TriangleBracketNotations.
Import room_channel.
#[local] Arguments constant {_} _ _ /.

(** The connection of a job's session. *)
Definition job_conn (s : user_server) (j : nat) : option nat :=
  x ← jobs_ s !! j; session_conn s (session_ x).

Definition addressed (s : user_server) (es : list effect) : Prop :=
  forall j c m, ToClient (Some j) c m ∈ es -> job_conn s j = Some c.

(** Every job has a session. *)
Definition placed (s : user_server) : Prop :=
  forall j x, jobs_ s !! j = Some x -> is_Some (heap_ s !! session_ x).

(** Jobs keep their connection. *)
Definition remembers (s s' : user_server) : Prop :=
  forall j c, job_conn s j = Some c -> job_conn s' j = Some c.

#[export] Instance remembers_preorder : PreOrder remembers.
Proof. split; [by intros s j c|]. intros s1 s2 s3 H1 H2 j c Hj. auto. Qed.

Lemma addressed_app s es es' : addressed s es -> addressed s es' -> addressed s (es ++ es').
Proof. intros H1 H2 j c m [Hm|Hm]%elem_of_app; [by eapply H1|by eapply H2]. Qed.

Lemma addressed_remembers s s' es : remembers s s' -> addressed s es -> addressed s' es.
Proof. intros Hr Ha j c m Hm. by eapply Hr, Ha. Qed.

Lemma addressed_quiet s es : omap sender es = [] -> addressed s es.
Proof.
  intros E j c m Hm. exfalso. apply (not_elem_of_nil j). rewrite <- E. apply list_elem_of_omap.
  by exists (ToClient (Some j) c m).
Qed.

Lemma remembers_jobs s es s' :
  steps s es s' -> (forall i c, session_conn s i = Some c -> session_conn s' i = Some c) -> remembers s s'.
Proof.
  intros S Hc j c. unfold job_conn. intros (x&Hx&Hs)%bind_Some.
  destruct (st_jobs _ _ _ S j x Hx) as (x'&Hx'&Hj). rewrite Hx'. cbn.
  rewrite (js_session _ _ _ _ Hj). auto.
Qed.

Lemma remembers_frame s s' : cframe s s' -> hframe s s' -> remembers s s'.
Proof.
  intros Fc Fh j c. unfold job_conn. intros (x&Hx&Hs)%bind_Some.
  pose proof (hf_owns s s' (session_ x) j Fh) as Ho. unfold owns in Ho. rewrite Hx in Ho.
  destruct (fmap_Some_1 _ _ _ (Ho eq_refl)) as (x'&Hx'&E). rewrite Hx'. cbn. rewrite <- E.
  by rewrite (cf_heap _ _ Fc).
Qed.

Lemma placed_frame s s' : hframe s s' -> placed s -> placed s'.
Proof.
  intros F P j x Hx. rewrite lookup_lt_is_Some, (hf_heap _ _ F), <- lookup_lt_is_Some.
  destruct (hf_job _ _ F j x Hx) as [(x0&Hx0&<-)|[_ ?]]; [by eapply P|done].
Qed.

(** ** The jobs *)

(** A message of job [j] to the connection of its session. *)
Lemma addressed_own s j x y es :
  jobs_ s !! j = Some x -> heap_ s !! session_ x = Some y ->
  (forall j' c m, ToClient (Some j') c m ∈ es -> j' = j /\ c = conn_ y) -> addressed s es.
Proof.
  intros Hx Hy He j' c m Hm. destruct (He _ _ _ Hm) as [-> ->].
  unfold job_conn, session_conn. rewrite Hx. cbn. by rewrite Hy.
Qed.

Lemma addressed_job_run j k now s : addressed s (job_run j k now s).1.1.
Proof.
  open_job_run. destruct (jobs_ s !! j) as [x|] eqn:Hx; [|by apply addressed_quiet].
  destruct (heap_ s !! session_ x) as [y|] eqn:Hy; [|by apply addressed_quiet].
  destruct (kind x); try (unfold run_room_job, send_request; cbn; by apply addressed_quiet);
    match goal with |- context [call_done ?i k ?s1] => destruct (call_done i k s1) as [ws s2] end; cbn [fst];
    try (by apply addressed_quiet);
    apply (addressed_own s j x y); try done; intros j' c m Hm%list_elem_of_singleton; by simplify_eq.
Qed.

Lemma addressed_job_cancel j reason s : placed s -> addressed s (job_cancel j reason s).1.1.
Proof.
  intros P. unfold job_cancel. destruct (jobs_ s !! j) as [x|] eqn:Hx; [|by apply addressed_quiet].
  destruct (P j x Hx) as [y Hy].
  assert (Hc : omap sender (cancel_request (room_request_id_ x) s).1 = [] /\
    heap_ (cancel_request (room_request_id_ x) s).2 = heap_ s).
  { unfold cancel_request. destruct (Pending.cancel _ _) as [b q]. split; [by destruct b|by destruct s]. }
  destruct (cancel_request (room_request_id_ x) s) as [es s1]. cbn [fst snd] in Hc. destruct Hc as [Hq Eh].
  rewrite Eh, Hy. cbn [from_option].
  assert (Ha : forall rs, addressed s (es ++ match reason with
    | Scheduler.kTimeout => ToClient (Some j) (conn_ y) <$> rs | kShutdown => [] end)).
  { intros rs. apply addressed_app; [by apply addressed_quiet|]. destruct reason; [|by apply addressed_quiet].
    apply (addressed_own s j x y); [done|done|]. intros j' c m (m'&[= -> -> ->]&_)%list_elem_of_fmap. done. }
  destruct (finish j s1) as [ws s2].
  destruct (kind x); try (by apply addressed_quiet); destruct (finished_ x); try (by apply addressed_quiet); apply Ha.
Qed.

Lemma addressed_handle_response j r s : addressed s (handle_response j r s).1.1.
Proof.
  open_handle_response. destruct (jobs_ s !! j) as [x|] eqn:Hx; [|by apply addressed_quiet].
  destruct (finished_ x); [by apply addressed_quiet|].
  destruct (heap_ s !! session_ x) as [y|] eqn:Hy; [|by apply addressed_quiet].
  destruct (kind x); try (by apply addressed_quiet); destruct r; try (by apply addressed_quiet);
    match goal with |- context [finish j ?s1] => destruct (finish j s1) as [ws s2] end; cbn [fst];
    apply (addressed_own s j x y); try done; intros j' c m Hm%list_elem_of_singleton; by simplify_eq.
Qed.

(** ** Chains of calls, tasks and events *)

Lemma addressed_work fuel now ws s : placed s -> addressed (work fuel now ws s).2 (work fuel now ws s).1.
Proof.
  revert ws s. induction fuel as [|fuel IH]; intros [|w ws] s P; cbn [work]; try (by apply addressed_quiet).
  set (o := match w with Run j k => job_run j k now s | CancelJob j reason => job_cancel j reason s end).
  assert (H1 : addressed s o.1.1 /\ hframe s o.2).
  { subst o. destruct w; [split; [apply addressed_job_run|apply hframe_job_run]|].
    split; [by apply addressed_job_cancel|apply hframe_job_cancel]. }
  assert (H2 : cframe s o.2) by (subst o; destruct w; [apply cframe_job_run|apply cframe_job_cancel]).
  destruct o as [[es ws'] s1]. cbn [fst snd] in *. destruct H1 as [A1 F1].
  specialize (IH (ws' ++ ws) s1 (placed_frame _ _ F1 P)).
  pose proof (remembers_frame _ _ (cframe_work fuel now (ws' ++ ws) s1) (hframe_work fuel now (ws' ++ ws) s1)) as R.
  destruct (work fuel now (ws' ++ ws) s1) as [es' s2]. cbn [fst snd] in *. apply addressed_app; [|done].
  eapply addressed_remembers; [|exact A1]. etrans; [by apply remembers_frame|done].
Qed.

(** A call of a job, and the chain of calls it makes. *)
Lemma addressed_drain now s (o : outcome_of) :
  placed s -> addressed s o.1.1 -> cframe s o.2 -> hframe s o.2 ->
  let r := drain now o.1.2 o.2 in addressed r.2 (o.1.1 ++ r.1).
Proof.
  intros P A Fc Fh. cbn zeta. destruct o as [[es ws] s1]. cbn [fst snd] in *. unfold drain.
  apply addressed_app; [|by apply addressed_work, (placed_frame s)].
  eapply addressed_remembers; [|exact A]. etrans; [by apply remembers_frame|].
  apply remembers_frame; [apply cframe_work|apply hframe_work].
Qed.

Lemma placed_set_session i y y' s : heap_ s !! i = Some y -> placed s -> placed (set_session i y' s).
Proof.
  intros Hy P j x Hx. destruct s as [h js ss us nx rq]. cbn in *.
  rewrite lookup_lt_is_Some, length_insert, <- lookup_lt_is_Some. by eapply P.
Qed.

Lemma addressed_run_task now i t s : placed s -> addressed (run_task now i t s).2 (run_task now i t s).1.
Proof.
  intros P. unfold run_task. destruct (heap_ s !! i) as [y|] eqn:Hy; [|by apply addressed_quiet].
  destruct t as [j|j r|j|].
  - destruct (push_and_run j (scheduler_ y)) as [ws sch]. by eapply addressed_work, placed_set_session.
  - pose proof (addressed_drain now s (handle_response j r s) P (addressed_handle_response j r s)
      (cframe_handle_response j r s) (hframe_handle_response j r s)) as A. cbn zeta in A.
    destruct (handle_response j r s) as [[es ws] s1]. cbn [fst snd] in A. by destruct (drain now ws s1).
  - pose proof (addressed_drain now s (job_cancel j Scheduler.kTimeout s) P (addressed_job_cancel j _ s P)
      (cframe_job_cancel j _ s) (hframe_job_cancel j _ s)) as A. cbn zeta in A.
    destruct (job_cancel j Scheduler.kTimeout s) as [[es ws] s1]. cbn [fst snd] in A. by destruct (drain now ws s1).
  - destruct (shutdown (scheduler_ y)) as [ws sch]. by eapply addressed_work, placed_set_session.
Qed.

Lemma sender_invoke_all cs s : omap sender (invoke_all cs s).1 = [].
Proof.
  revert s. induction cs as [|c cs IH]; intros s; cbn [invoke_all]; [done|].
  assert (H1 : omap sender (invoke s c).1 = []) by (destruct c as [j r|[j id]]; cbn; by destruct (jobs_ s !! j)).
  destruct (invoke s c) as [es s1]. specialize (IH s1). destruct (invoke_all cs s1) as [es' s2].
  cbn [fst] in *. by rewrite omap_app, H1, IH.
Qed.

Lemma addressed_exec e s : placed s -> addressed (exec e s).2 (exec e s).1.
Proof.
  intros P. destruct e as [conn|conn|i m|i now|id r now|u k|now]; cbn [exec]; try (by apply addressed_quiet).
  - unfold on_recv. destruct (heap_ s !! i); [|by apply addressed_quiet]. destruct m; by apply addressed_quiet.
  - destruct (heap_ s !! i) as [y|] eqn:Hy; [|by apply addressed_quiet].
    destruct (strand_ y) as [|t ts]; [by apply addressed_quiet|].
    by eapply addressed_run_task, placed_set_session.
  - unfold send_to_waiter. destruct (Pending.complete _ _ _ _) as [cs p]. apply addressed_quiet, sender_invoke_all.
  - unfold expire. destruct (timer_tick _ _) as [cs p]. apply addressed_quiet, sender_invoke_all.
Qed.

Lemma session_conn_exec e s i c : session_conn s i = Some c -> session_conn (exec e s).2 i = Some c.
Proof.
  intros Hc. destruct (internal e) eqn:He; [by rewrite (cf_heap _ _ (cframe_exec e s He))|].
  destruct e as [conn|conn| | | | |]; try done; cbn [exec snd].
  - unfold session_manager.add_connection, session_conn in *. destruct (sessions_ s !! conn); [done|].
    destruct s as [h js ss us nx rq]. cbn in *. destruct (h !! i) as [y|] eqn:Hy; [|done].
    by rewrite (lookup_app_l_Some _ _ _ _ Hy).
  - unfold on_conn_closed, session_manager.remove_session. destruct (sessions_ s !! conn) as [i0|]; [|done].
    rewrite (cf_heap _ _ (cframe_post i0 TDisconnected _)). by destruct s.
Qed.

Lemma remembers_exec e s : remembers s (exec e s).2.
Proof. eapply remembers_jobs; [apply steps_exec|]. intros i c. apply session_conn_exec. Qed.

Lemma addressed_run evs s :
  registered s -> held s -> addressed (run exec evs s).2 (mjoin (run exec evs s).1).
Proof.
  assert (Hm : forall evs s, remembers s (run exec evs s).2).
  { clear. induction evs as [|e evs IH]; intros s; [done|]. rewrite run_cons. cbn [snd].
    etrans; [apply remembers_exec|apply IH]. }
  revert s. induction evs as [|e evs IH]; intros s R Hh; [by apply addressed_quiet|].
  rewrite run_cons. cbn [fst snd]. rewrite mjoin_cons. apply addressed_app.
  - eapply addressed_remembers; [apply Hm|]. apply addressed_exec. intros j x. apply (hd_job _ Hh).
  - apply IH; [by apply registered_exec|by apply held_step].
Qed.

(** ** Messages that are not of a job *)

(** They are answers to pings. *)
Definition pongs (es : list effect) : Prop := forall c m, ToClient None c m ∈ es -> m = Pong.

Lemma pongs_app es es' : pongs es -> pongs es' -> pongs (es ++ es').
Proof. intros H1 H2 c m [Hm|Hm]%elem_of_app; eauto. Qed.

Ltac no_pong := let c := fresh "c" in let m := fresh "m" in intros c m; cbn; rewrite ?elem_of_cons, ?elem_of_nil; naive_solver.

Lemma pongs_job_run j k now s : pongs (job_run j k now s).1.1.
Proof.
  open_job_run. destruct (jobs_ s !! j) as [x|]; [|no_pong].
  destruct (heap_ s !! session_ x) as [y|]; [|no_pong].
  destruct (kind x); try (unfold run_room_job, send_request; no_pong);
    match goal with |- context [call_done ?i k ?s1] => destruct (call_done i k s1) as [ws s2] end; no_pong.
Qed.

Lemma pongs_job_cancel j reason s : pongs (job_cancel j reason s).1.1.
Proof.
  unfold job_cancel. destruct (jobs_ s !! j) as [x|]; [|no_pong].
  assert (Hc : pongs (cancel_request (room_request_id_ x) s).1).
  { unfold cancel_request. destruct (Pending.cancel _ _) as [[] q]; no_pong. }
  destruct (cancel_request (room_request_id_ x) s) as [es s1]. cbn [fst] in Hc.
  assert (Ha : forall conn rs, pongs (es ++ match reason with
    | Scheduler.kTimeout => ToClient (Some j) conn <$> rs | kShutdown => [] end)).
  { intros conn rs. apply pongs_app; [done|]. destruct reason; [|no_pong].
    intros c m (m'&?&_)%list_elem_of_fmap. done. }
  destruct (finish j s1) as [ws s2].
  destruct (kind x); try no_pong; destruct (finished_ x); try no_pong; apply Ha.
Qed.

Lemma pongs_handle_response j r s : pongs (handle_response j r s).1.1.
Proof.
  open_handle_response. destruct (jobs_ s !! j) as [x|]; [|no_pong]. destruct (finished_ x); [no_pong|].
  destruct (heap_ s !! session_ x) as [y|]; [|no_pong].
  destruct (kind x); try no_pong; destruct r; try no_pong;
    match goal with |- context [finish j ?s1] => destruct (finish j s1) as [ws s2] end; no_pong.
Qed.

Lemma pongs_work fuel now ws s : pongs (work fuel now ws s).1.
Proof.
  revert ws s. induction fuel as [|fuel IH]; intros [|w ws] s; cbn [work]; try no_pong.
  set (o := match w with Run j k => job_run j k now s | CancelJob j reason => job_cancel j reason s end).
  assert (H1 : pongs o.1.1) by (subst o; destruct w; [apply pongs_job_run|apply pongs_job_cancel]).
  destruct o as [[es ws'] s1]. specialize (IH (ws' ++ ws) s1). destruct (work fuel now (ws' ++ ws) s1).
  by apply pongs_app.
Qed.

Lemma pongs_run_task now i t s : pongs (run_task now i t s).1.
Proof.
  unfold run_task, drain. destruct (heap_ s !! i) as [y|]; [|no_pong]. destruct t as [j|j r|j|].
  - destruct (push_and_run j (scheduler_ y)) as [ws sch]. apply pongs_work.
  - pose proof (pongs_handle_response j r s) as P1. destruct (handle_response j r s) as [[es ws] s1].
    pose proof (pongs_work (length ws + queued s1) now ws s1) as P2. destruct (work _ now ws s1).
    by apply pongs_app.
  - pose proof (pongs_job_cancel j Scheduler.kTimeout s) as P1.
    destruct (job_cancel j Scheduler.kTimeout s) as [[es ws] s1].
    pose proof (pongs_work (length ws + queued s1) now ws s1) as P2. destruct (work _ now ws s1).
    by apply pongs_app.
  - destruct (shutdown (scheduler_ y)) as [ws sch]. apply pongs_work.
Qed.

Lemma pongs_invoke_all cs s : pongs (invoke_all cs s).1.
Proof.
  revert s. induction cs as [|c cs IH]; intros s; cbn [invoke_all]; [no_pong|].
  assert (H1 : pongs (invoke s c).1) by (destruct c as [j r|[j id]]; cbn; destruct (jobs_ s !! j); no_pong).
  destruct (invoke s c) as [es s1]. specialize (IH s1). destruct (invoke_all cs s1). by apply pongs_app.
Qed.

Lemma pongs_exec e s : pongs (exec e s).1.
Proof.
  destruct e as [conn|conn|i m|i now|id r now|u k|now]; cbn [exec]; try no_pong.
  - unfold on_recv. destruct (heap_ s !! i); [|no_pong]. destruct m; no_pong.
  - destruct (heap_ s !! i) as [y|]; [|no_pong]. destruct (strand_ y) as [|t ts]; [no_pong|].
    apply pongs_run_task.
  - unfold send_to_waiter. destruct (Pending.complete _ _ _ _). apply pongs_invoke_all.
  - unfold expire. destruct (timer_tick _ _). apply pongs_invoke_all.
Qed.

Lemma pongs_run evs s : pongs (mjoin (run exec evs s).1).
Proof.
  revert s. induction evs as [|e evs IH]; intros s; [no_pong|]. rewrite run_cons. cbn [fst].
  rewrite mjoin_cons. apply pongs_app; [apply pongs_exec|apply IH].
Qed.
