(* ===== verification/Voices.v ===== *)
(** * Voices: a job says nothing but its own message

    Whatever a job sends to a client is the message of its class, with what its
    request holds; the jobs that carry messages of the Room server are made by
    the notifications of the Room server and by nothing else. *)

From S2P Require Import Prelude Wire Scheduler Pending Sessions Order.
From coqutil Require Import Datatypes.RecordSetters.
Import TriangleBracketNotations.
Import room_channel.
#[local] Arguments constant {_} _ _ /.

(** ** What a job may say *)

Definition says (k : job_kind) (m : client_message) : Prop :=
  match k, m with
  | job_login u, ResLogin u' success _ _ => u' = u /\ success = true
  | job_logout, ResLogout _ => True
  | job_create_room id, ResCreateRoom id' _ _ => id' = id
  | job_join_room id _, ResJoinRoom id' _ _ => id' = id
  | job_leave_room id, ResLeaveRoom id' _ => id' = id
  | job_cli_forward_message u su st msg, FwdClient u' su' st' msg' =>
      u' = u /\ su' = su /\ st' = st /\ msg' = msg
  | job_ntf_leave_room_message reason, NtfLeaveRoom reason' => reason' = reason
  | _, _ => False
  end.

(** The message of the Room server a job carries. *)
Definition announced (k : job_kind) : option client_message :=
  match k with
  | job_cli_forward_message u su st msg => Some (FwdClient u su st msg)
  | job_ntf_leave_room_message reason => Some (NtfLeaveRoom reason)
  | _ => None
  end.

Definition is_announcement (m : client_message) : bool :=
  match m with FwdClient _ _ _ _ | NtfLeaveRoom _ => true | _ => false end.

Lemma says_announced k m : says k m -> is_announcement m = true -> announced k = Some m.
Proof. by destruct k, m; cbn; intros; destruct_and?; subst. Qed.

Lemma says_announcement k m cm : says k m -> announced k = Some cm -> m = cm.
Proof. destruct k, m; cbn; intros; destruct_and?; by simplify_eq. Qed.

Definition kinds (s : user_server) : list job_kind := kind <$> jobs_ s.

Definition speaks (s : user_server) (es : list effect) : Prop :=
  forall j c m, ToClient (Some j) c m ∈ es -> exists k, kinds s !! j = Some k /\ says k m.

(** Steps that keep the jobs, may make jobs of other classes, and in which jobs
    say their own messages. *)
Record voiced (s : user_server) (es : list effect) (s' : user_server) : Prop := {
  vc_kinds : kinds s `prefix_of` kinds s';
  vc_announced : omap announced (kinds s') = omap announced (kinds s);
  vc_speaks : speaks s' es;
}.

Lemma speaks_app s es es' : speaks s es -> speaks s es' -> speaks s (es ++ es').
Proof. intros H1 H2 j c m [Hm|Hm]%elem_of_app; eauto. Qed.

Lemma speaks_quiet s es : omap sender es = [] -> speaks s es.
Proof.
  intros E j c m Hm. exfalso. apply (not_elem_of_nil j). rewrite <- E. apply list_elem_of_omap.
  by exists (ToClient (Some j) c m).
Qed.

Lemma speaks_prefix s s' es : kinds s `prefix_of` kinds s' -> speaks s es -> speaks s' es.
Proof.
  intros Hp Hs j c m Hm. destruct (Hs j c m Hm) as (k&Hk&Hs'). exists k.
  split; [by eapply prefix_lookup_Some|done].
Qed.

Lemma voiced_trans s1 es s2 es' s3 : voiced s1 es s2 -> voiced s2 es' s3 -> voiced s1 (es ++ es') s3.
Proof.
  intros [K1 A1 S1] [K2 A2 S2]. split; [by etrans|congruence|].
  apply speaks_app; [by eapply speaks_prefix|done].
Qed.

Lemma voiced_same s es s' : kinds s' = kinds s -> speaks s es -> voiced s es s'.
Proof. intros E S. split; [by rewrite E|by rewrite E|]. apply (speaks_prefix s); [by rewrite E|done]. Qed.

(** ** Elementary changes *)

Lemma kinds_jobs s s' : jobs_ s' = jobs_ s -> kinds s' = kinds s.
Proof. unfold kinds. by intros ->. Qed.

Lemma kinds_set_job j x x' s : jobs_ s !! j = Some x -> kind x' = kind x -> kinds (set_job j x' s) = kinds s.
Proof.
  intros Hx E. unfold kinds. destruct s. cbn in *. rewrite list_fmap_insert, E.
  apply list_insert_id. by rewrite list_lookup_fmap, Hx.
Qed.

Lemma kinds_enqueue i k s : kinds (enqueue_job i k s) = kinds s ++ [k].
Proof.
  unfold enqueue_job, post. destruct (heap_ _ !! i); unfold kinds; destruct s; cbn; by rewrite fmap_app.
Qed.

Lemma kinds_post i t s : kinds (post i t s) = kinds s.
Proof. apply kinds_jobs. unfold post. destruct (heap_ s !! i); by destruct s. Qed.

Lemma kinds_call_done i k s : kinds (call_done i k s).2 = kinds s.
Proof.
  apply kinds_jobs. unfold call_done. destruct (heap_ s !! i); [|done].
  destruct (completion _ _). by destruct s.
Qed.

Lemma kinds_finish j s : kinds (finish j s).2 = kinds s.
Proof.
  unfold finish. destruct (jobs_ s !! j) as [x|] eqn:Hx; [|done]. destruct (finished_ x); [done|].
  assert (E : kinds (set_job j (x <| finished_ := true |> <| done_ := None |>) s) = kinds s)
    by (eapply kinds_set_job; [done|by destruct x]).
  destruct (done_ x); [|done]. by rewrite kinds_call_done.
Qed.

Lemma kinds_cancel_request id s : kinds (cancel_request id s).2 = kinds s.
Proof. apply kinds_jobs. unfold cancel_request. destruct (Pending.cancel _ _). by destruct s. Qed.

(** ** Jobs *)

(** The messages of a job that sends its own. *)
Lemma speaks_own s j x es :
  jobs_ s !! j = Some x ->
  (forall j' c m, ToClient (Some j') c m ∈ es -> j' = j /\ says (kind x) m) -> speaks s es.
Proof.
  intros Hx He j' c m Hm. destruct (He _ _ _ Hm) as [-> ?]. exists (kind x). split; [|done].
  unfold kinds. by rewrite list_lookup_fmap, Hx.
Qed.

Lemma voiced_run_room j k make now x s :
  jobs_ s !! j = Some x ->
  voiced s (run_room_job j k make now x s).1.1 (run_room_job j k make now x s).2.
Proof.
  intros Hx. unfold run_room_job, send_request. cbn [fst snd]. apply voiced_same; [|by apply speaks_quiet].
  rewrite (kinds_set_job j x); [by apply kinds_jobs; destruct s|by destruct s|by destruct x].
Qed.

Lemma voiced_job_run j k now s : voiced s (job_run j k now s).1.1 (job_run j k now s).2.
Proof.
  unfold job_run. destruct (jobs_ s !! j) as [x|] eqn:Hx; [|by apply voiced_same, speaks_quiet].
  destruct (heap_ s !! session_ x) as [y|]; [|by apply voiced_same, speaks_quiet].
  assert (Hd : forall es s1, kinds s1 = kinds s ->
    (forall j' c m, ToClient (Some j') c m ∈ es -> j' = j /\ says (kind x) m) ->
    voiced s (finish_with (session_ x) k es s1).1.1 (finish_with (session_ x) k es s1).2).
  { intros es s1 E He. unfold finish_with. pose proof (kinds_call_done (session_ x) k s1) as Ek.
    destruct (call_done (session_ x) k s1) as [ws s2]. cbn [fst snd] in *.
    apply voiced_same; [congruence|]. by eapply speaks_own. }
  destruct (kind x) eqn:Ex; try (by apply voiced_run_room).
  - apply Hd; [|intros j' c m Hm%list_elem_of_singleton; by simplify_eq].
    apply kinds_jobs. unfold session_manager.add_session. repeat case_match; by destruct s.
  - unfold run_logout, finish_with. pose proof (kinds_call_done (session_ x) k (enqueue_stop (session_ x) false s)) as Ek.
    unfold enqueue_stop in *. rewrite kinds_enqueue in Ek. destruct (call_done _ _ _) as [ws s2].
    cbn [fst snd] in *. split; [rewrite Ek; by eexists|by rewrite Ek, omap_app, app_nil_r|].
    eapply (speaks_prefix s); [rewrite Ek; by eexists|]. eapply speaks_own; [done|].
    intros j' c m Hm%list_elem_of_singleton. rewrite Ex. by simplify_eq.
  - apply Hd; [by apply kinds_jobs; destruct s|intros j' c m Hm%list_elem_of_singleton; by simplify_eq].
  - apply Hd; [done|intros j' c m Hm%list_elem_of_singleton; by simplify_eq].
  - apply Hd; [done|intros j' c m Hm%list_elem_of_singleton; by simplify_eq].
  - apply Hd; [by apply kinds_jobs; destruct s|intros j' c m Hm%list_elem_of_singleton; by simplify_eq].
Qed.

Lemma voiced_job_cancel j reason s : voiced s (job_cancel j reason s).1.1 (job_cancel j reason s).2.
Proof.
  unfold job_cancel. destruct (jobs_ s !! j) as [x|] eqn:Hx; [|by apply voiced_same, speaks_quiet].
  assert (Hc : omap sender (cancel_request (room_request_id_ x) s).1 = []).
  { unfold cancel_request. by destruct (Pending.cancel _ _) as [[] q]. }
  pose proof (kinds_cancel_request (room_request_id_ x) s) as Ek.
  destruct (cancel_request (room_request_id_ x) s) as [es s1]. cbn [fst snd] in *.
  pose proof (kinds_finish j s1) as Ef. destruct (finish j s1) as [ws s2]. cbn [snd] in Ef.
  assert (Ha : forall conn rs, Forall (says (kind x)) rs ->
    voiced s (es ++ match reason with
      | Scheduler.kTimeout => ToClient (Some j) conn <$> rs | kShutdown => [] end) s2).
  { intros conn rs Hr. apply voiced_same; [congruence|]. apply speaks_app; [by apply speaks_quiet|].
    destruct reason; [|by apply speaks_quiet]. eapply speaks_own; [done|].
    intros j' c m (m'&[= -> -> ->]&Hm)%list_elem_of_fmap. split; [done|]. by eapply Forall_forall in Hm. }
  destruct (kind x); try (by apply voiced_same, speaks_quiet);
    (destruct (finished_ x); [by apply voiced_same, speaks_quiet|]); cbn [fst snd]; apply Ha; by repeat constructor.
Qed.

Lemma voiced_handle_response j r s : voiced s (handle_response j r s).1.1 (handle_response j r s).2.
Proof.
  unfold handle_response. destruct (jobs_ s !! j) as [x|] eqn:Hx; [|by apply voiced_same, speaks_quiet].
  destruct (finished_ x); [by apply voiced_same, speaks_quiet|].
  destruct (heap_ s !! session_ x) as [y|]; [|by apply voiced_same, speaks_quiet].
  assert (Hr : forall room m, says (kind x) m ->
    voiced s (reply j x y room m s).1.1 (reply j x y room m s).2).
  { intros room m Hm. unfold reply.
    pose proof (kinds_finish j (set_session (session_ x) (set_enter_room room y) s)) as Ef.
    destruct (finish _ _) as [ws s2]. cbn [fst snd] in *. apply voiced_same; [rewrite Ef; by apply kinds_jobs; destruct s|].
    eapply speaks_own; [done|]. intros j' c m' Hm'%list_elem_of_singleton. by simplify_eq. }
  destruct (kind x) eqn:Ex; try (by apply voiced_same, speaks_quiet);
    destruct r; try (by apply voiced_same, speaks_quiet); by apply Hr.
Qed.

(** ** Chains of calls, tasks and events *)

Lemma voiced_work fuel now ws s : voiced s (work fuel now ws s).1 (work fuel now ws s).2.
Proof.
  revert ws s. induction fuel as [|fuel IH]; intros [|w ws] s; cbn [work]; try (by apply voiced_same, speaks_quiet).
  set (o := match w with Run j k => job_run j k now s | CancelJob j reason => job_cancel j reason s end).
  assert (H1 : voiced s o.1.1 o.2) by (subst o; destruct w; [apply voiced_job_run|apply voiced_job_cancel]).
  destruct o as [[es ws'] s1]. specialize (IH (ws' ++ ws) s1). destruct (work fuel now (ws' ++ ws) s1).
  by eapply voiced_trans.
Qed.

Lemma voiced_session i x s es s' : voiced (set_session i x s) es s' -> voiced s es s'.
Proof. intros [K A S]. by split; destruct s. Qed.

Lemma voiced_drain now s (o : outcome_of) :
  voiced s o.1.1 o.2 -> voiced s (o.1.1 ++ (drain now o.1.2 o.2).1) (drain now o.1.2 o.2).2.
Proof. intros V. eapply voiced_trans; [exact V|]. apply voiced_work. Qed.

Lemma voiced_run_task now i t s : voiced s (run_task now i t s).1 (run_task now i t s).2.
Proof.
  unfold run_task. destruct (heap_ s !! i) as [y|]; [|by apply voiced_same, speaks_quiet].
  destruct t as [j|j r|j|].
  - destruct (push_and_run j (scheduler_ y)) as [ws sch]. eapply voiced_session, voiced_work.
  - pose proof (voiced_drain now s _ (voiced_handle_response j r s)) as V.
    destruct (handle_response j r s) as [[es ws] s1]. cbn [fst snd] in V. by destruct (drain now ws s1).
  - pose proof (voiced_drain now s _ (voiced_job_cancel j Scheduler.kTimeout s)) as V.
    destruct (job_cancel j Scheduler.kTimeout s) as [[es ws] s1]. cbn [fst snd] in V. by destruct (drain now ws s1).
  - destruct (shutdown (scheduler_ y)) as [ws sch]. eapply voiced_session, voiced_work.
Qed.

Lemma voiced_invoke_all cs s : voiced s (invoke_all cs s).1 (invoke_all cs s).2.
Proof.
  revert s. induction cs as [|c cs IH]; intros s; cbn [invoke_all]; [by apply voiced_same, speaks_quiet|].
  assert (H1 : voiced s (invoke s c).1 (invoke s c).2).
  { apply voiced_same; [|apply speaks_quiet]; destruct c as [j r|[j id]]; cbn; destruct (jobs_ s !! j); try done;
      apply kinds_post. }
  destruct (invoke s c) as [es s1]. specialize (IH s1). destruct (invoke_all cs s1).
  by eapply voiced_trans.
Qed.

Lemma voiced_pending p cs s :
  voiced s (invoke_all cs (s <| requests_ := p |>)).1 (invoke_all cs (s <| requests_ := p |>)).2.
Proof. destruct (voiced_invoke_all cs (s <| requests_ := p |>)) as [K A S]. by split; destruct s. Qed.

Definition notification (e : event) : option job_kind :=
  match e with RoomNotification u n => Some (notification_job u n) | _ => None end.

Lemma voiced_exec e s : notification e = None -> voiced s (exec e s).1 (exec e s).2.
Proof.
  intros He. destruct e as [conn|conn|i m|i now|id r now|u n|now]; try done; cbn [exec].
  - apply voiced_same; [|by apply speaks_quiet]. apply kinds_jobs.
    unfold session_manager.add_connection. destruct (sessions_ s !! conn); by destruct s.
  - apply voiced_same; [|by apply speaks_quiet]. unfold on_conn_closed, session_manager.remove_session.
    destruct (sessions_ s !! conn); cbv beta iota zeta; [|done]. cbn [snd]. rewrite kinds_post. by apply kinds_jobs; destruct s.
  - unfold on_recv. destruct (heap_ s !! i); [|by apply voiced_same, speaks_quiet].
    destruct m as [| |m|]; try (by apply voiced_same, speaks_quiet); cbn [fst snd];
      unfold on_recv_unknown, enqueue_stop; split; rewrite ?kinds_enqueue;
      try (by eexists); try (by apply speaks_quiet); rewrite omap_app; cbn; try destruct m; by rewrite app_nil_r.
  - destruct (heap_ s !! i) as [y|]; [|by apply voiced_same, speaks_quiet].
    destruct (strand_ y) as [|t ts]; [by apply voiced_same, speaks_quiet|].
    eapply voiced_session, voiced_run_task.
  - unfold send_to_waiter. destruct (Pending.complete _ _ _ _) as [cs p]. apply voiced_pending.
  - unfold expire. destruct (timer_tick _ _) as [cs p]. apply voiced_pending.
Qed.

(** A notification makes its job, or is dropped. *)
Lemma notification_exec e k s :
  notification e = Some k ->
  (exec e s).1 = [] /\ (kinds (exec e s).2 = kinds s \/ kinds (exec e s).2 = kinds s ++ [k]).
Proof.
  destruct e as [| | | | |u n|]; try done. cbn. intros [= <-]. unfold pass_to_session.
  destruct (session_manager.find_session u s); [|by split; [|left]]. split; [done|right]. apply kinds_enqueue.
Qed.

Lemma prefix_exec e s : kinds s `prefix_of` kinds (exec e s).2.
Proof.
  destruct (notification e) as [k|] eqn:He; [|by apply voiced_exec].
  destruct (notification_exec e k s He) as [_ [-> | ->]]; [done|by eexists].
Qed.

Lemma prefix_run evs s : kinds s `prefix_of` kinds (run exec evs s).2.
Proof.
  revert s. induction evs as [|e evs IH]; intros s; [done|]. rewrite run_cons. cbn [snd].
  etrans; [apply prefix_exec|apply IH].
Qed.

Lemma speaks_run evs s : speaks (run exec evs s).2 (mjoin (run exec evs s).1).
Proof.
  revert s. induction evs as [|e evs IH]; intros s; [by apply speaks_quiet|]. rewrite run_cons.
  cbn [fst snd]. rewrite mjoin_cons. apply speaks_app; [|apply IH].
  eapply speaks_prefix; [apply prefix_run|]. destruct (notification e) as [k|] eqn:He; [|by apply voiced_exec].
  destruct (notification_exec e k s He) as [-> _]. by apply speaks_quiet.
Qed.

(** ** The announcements a session's client is sent *)

Definition announces (e : effect) : option (nat * client_message) :=
  match e with
  | ToClient (Some j) _ m => if is_announcement m then Some (j, m) else None
  | _ => None
  end.

(** The announcements are those of their jobs. *)
Definition of_job (s : user_server) (p : nat * client_message) : Prop :=
  kinds s !! p.1 ≫= announced = Some p.2.

Lemma announces_of_job s es : speaks s es -> Forall (of_job s) (omap announces es).
Proof.
  intros Hs. apply Forall_forall. intros [j m] (e&He&Ha)%list_elem_of_omap.
  destruct e as [[j'|] c m'| | | |]; try done. cbn in Ha. destruct (is_announcement m') eqn:Hm; simplify_eq.
  destruct (Hs j c m He) as (k&Hk&Hsay). unfold of_job. cbn. rewrite Hk. by apply says_announced.
Qed.

Lemma of_job_messages s l :
  Forall (of_job s) l -> l.*2 = omap (fun j => kinds s !! j ≫= announced) l.*1.
Proof.
  induction 1 as [|[j m] l Hj _ IH]; [done|]. rewrite !fmap_cons. unfold of_job in Hj.
  cbn [fst snd omap list_omap] in *. rewrite Hj. f_equal. exact IH.
Qed.

Lemma announces_senders es : (omap announces es).*1 `sublist_of` omap sender es.
Proof.
  induction es as [|e es IH]; [done|]. cbn [omap list_omap].
  destruct e as [[j|] c m| | | |]; cbn [announces sender]; try done.
  destruct (is_announcement m); cbn; [by apply sublist_skip|by apply sublist_cons].
Qed.

Lemma filter_owns_fst js i (l : list (nat * client_message)) :
  (filter (fun p => owns js i p.1) l).*1 = filter (owns js i) l.*1.
Proof.
  induction l as [|p l IH]; [done|]. rewrite fmap_cons, !filter_cons. case_decide; [|done].
  rewrite fmap_cons. by rewrite IH.
Qed.

(** The announcements of a session's jobs, in the order they were sent. *)
Definition heard (i : nat) (s : user_server) (es : list effect) : list client_message :=
  (filter (fun p => owns (jobs_ s) i p.1) (omap announces es)).*2.

Lemma senders_owned evs j :
  let r := run exec evs server_start in
  j ∈ omap sender (mjoin r.1) -> exists i, owns (jobs_ r.2) i j.
Proof.
  cbn zeta. pose proof (ordered_run_all evs) as [_ _ C _ _ _ _ _]. intros Hj.
  destruct (C j Hj) as (x&Hx&_). exists (session_ x). unfold owns. by rewrite Hx.
Qed.

Lemma owned_bound js i j : owns js i j -> (j < length js)%nat.
Proof. unfold owns. intros (x&Hx&_)%fmap_Some. by eapply lookup_lt_Some. Qed.

(** The positions of jobs, each at most once, give announcements that were made
    jobs, each at most once; positions in order, in order. *)
Lemma positions_sublist s (L : list nat) :
  StronglySorted lt L -> Forall (fun j => (j < length (kinds s))%nat) L ->
  omap (fun j => kinds s !! j ≫= announced) L `sublist_of` omap announced (kinds s).
Proof.
  intros Hs Hb. rewrite <- (omap_lookup_seq announced (kinds s)). apply sublist_omap.
  apply sorted_sublist_seq; [done|]. eapply Forall_impl; [exact Hb|]. cbn. lia.
Qed.

Lemma positions_submseteq s (L : list nat) :
  NoDup L -> Forall (fun j => (j < length (kinds s))%nat) L ->
  omap (fun j => kinds s !! j ≫= announced) L ⊆+ omap announced (kinds s).
Proof.
  intros Hn Hb. rewrite <- (omap_lookup_seq announced (kinds s)). apply submseteq_omap, NoDup_submseteq; [done|].
  intros j Hj. rewrite Forall_forall in Hb. specialize (Hb j Hj). rewrite elem_of_seq. lia.
Qed.

Lemma heard_sublist evs i :
  let r := run exec evs server_start in
  heard i r.2 (mjoin r.1) `sublist_of` omap announced (kinds r.2).
Proof.
  cbn zeta. pose proof (senders_sorted evs i) as Hsort. pose proof (speaks_run evs server_start) as Hs.
  destruct (run exec evs server_start) as [rs s]. cbn [fst snd] in *. unfold heard.
  assert (Hf : Forall (of_job s) (filter (fun p => owns (jobs_ s) i p.1) (omap announces (mjoin rs)))).
  { pose proof (announces_of_job s _ Hs) as Ha. rewrite Forall_forall in *.
    intros p [_ Hp]%list_elem_of_filter. by apply Ha. }
  rewrite (of_job_messages s _ Hf).
  rewrite filter_owns_fst. apply positions_sublist.
  - eapply sorted_sublist; [|exact Hsort]. apply filter_sublist, announces_senders.
  - apply Forall_forall. intros j [Hj _]%list_elem_of_filter. unfold kinds. rewrite length_fmap.
    by eapply owned_bound.
Qed.

Lemma all_heard evs :
  let r := run exec evs server_start in
  (omap announces (mjoin r.1)).*2 ⊆+ omap announced (kinds r.2).
Proof.
  cbn zeta. pose proof (senders_sorted evs) as Hsort. pose proof (senders_owned evs) as Ho.
  pose proof (speaks_run evs server_start) as Hs.
  destruct (run exec evs server_start) as [rs s]. cbn [fst snd] in *.
  pose proof (announces_senders (mjoin rs)) as Hsub.
  rewrite (of_job_messages s) by (apply announces_of_job, Hs). apply positions_submseteq.
  - eapply sublist_NoDup; [|exact Hsub]. apply (NoDup_classes (owns (jobs_ s))); [exact Ho|].
    intros i. by apply StronglySorted_NoDup.
  - apply Forall_forall. intros j Hj. destruct (Ho j) as [i Hi]; [by eapply elem_of_sublist|].
    unfold kinds. rewrite length_fmap. by eapply owned_bound.
Qed.
