(* ===== verification/Progress.v ===== *)
(** * Progress: every request of a client is answered

    The liveness of the User server, on top of the invariant of [Order].  A job
    that waits for the Room server has an entry in the table of pending
    requests or a handler in the strand of its session, so it is woken by the
    response or by the timer; the job at the head of a queue is such a job; and
    a job leaves the line of its session only after it has sent its client what it
    has for it, or when its session is shut down.  So
    whatever happened before, the passing of time and the session's own
    handlers bring all its jobs to their end. *)

From S2P Require Import Prelude Wire Scheduler Pending Sessions Order Replies.
From coqutil Require Import Datatypes.RecordSetters.
Import TriangleBracketNotations.
Import room_channel.
#[local] Arguments constant {_} _ _ /.

Notation pending := (gmap Z (request nat (nat * Z))) (only parsing).

(** ** Request ids *)

Definition assigned (x : job) : bool := bool_decide (room_request_id_ x <> 0).
Definition is_room (x : job) : bool := room_job (kind x).

(** Fewer room requests than a 64-bit counter can number. *)
Definition capacity (js : list job) : Prop := count is_room js < 2 ^ 64 - 1.

(** Every id that was given out belongs to one job. *)
Record ids (js : list job) (p : pending) (nx : Z) : Prop := {
  id_range j x : js !! j = Some x -> 0 <= room_request_id_ x < nx;
  id_pending id q : p !! id = Some q -> 0 < id < nx;
  id_unique j j' x x' : js !! j = Some x -> js !! j' = Some x' ->
    room_request_id_ x = room_request_id_ x' -> room_request_id_ x <> 0 -> j = j';
  id_unrun j x : js !! j = Some x -> done_ x = None -> finished_ x = false ->
    room_request_id_ x = 0;
  id_room j x : js !! j = Some x -> assigned x = true -> is_room x = true;
  id_count : nx = 1 + count assigned js;
}.

Lemma ids_pending js p p' nx : p' ⊆ p -> ids js p nx -> ids js p' nx.
Proof.
  intros Hp [A B C D E F]. split; try done. intros id q Hq. by eapply B, lookup_weaken.
Qed.

Lemma ids_make js p nx x :
  room_request_id_ x = 0 -> ids js p nx -> ids (js ++ [x]) p nx.
Proof.
  intros Hx [A B C D E F].
  assert (Hn : 0 < nx) by (rewrite F; pose proof (count_nonneg assigned js); lia).
  assert (L : forall j y, (js ++ [x]) !! j = Some y -> js !! j = Some y \/ room_request_id_ y = 0).
  { intros j y [Hy|[_ Hy]]%lookup_app_Some; [by left|right].
    by apply list_lookup_singleton_Some in Hy as [_ <-]. }
  split; try done.
  - intros j y [Hy|Hy]%L; [by eapply A|lia].
  - intros j j' y y' [Hy|Hy]%L [Hy'|Hy']%L; try (by eapply C); congruence.
  - intros j y [Hy|Hy]%L; [by eapply D|done].
  - intros j y [Hy|Hy]%L; [by eapply E|]. unfold assigned. rewrite Hy. done.
  - assert (Ha : assigned x = false) by (unfold assigned; by rewrite Hx).
    rewrite count_app, F. unfold count. rewrite sumz_cons, sumz_nil, Ha. cbn. lia.
Qed.

(** A job changes, but not its id; an unfinished one is not un-run. *)
Lemma ids_set js p nx j x x' :
  js !! j = Some x -> kind x' = kind x -> room_request_id_ x' = room_request_id_ x ->
  (done_ x' = None -> finished_ x' = false -> room_request_id_ x = 0) ->
  ids js p nx -> ids (<[j := x']> js) p nx.
Proof.
  intros Hx Ek Ei Hr [A B C D E F].
  assert (L : forall j' y, <[j := x']> js !! j' = Some y ->
    exists y0, js !! j' = Some y0 /\ room_request_id_ y = room_request_id_ y0 /\ kind y = kind y0 /\
      (done_ y = None -> finished_ y = false -> room_request_id_ y0 = 0)).
  { intros j' y Hy. destruct (lookup_set _ _ _ _ _ _ Hx Hy) as [[-> ->]|[_ Hy']]; eauto 10. }
  split; try done.
  - intros j' y (y0&Hy&->&_)%L. by eapply A.
  - intros j1 j2 y1 y2 (z1&Hz1&->&_)%L (z2&Hz2&->&_)%L. by eapply C.
  - intros j' y (y0&Hy&->&_&Hd)%L. auto.
  - intros j' y (y0&Hy&E1&E2&_)%L. unfold assigned, is_room. rewrite E1, E2. by eapply E.
  - rewrite F. unfold count. rewrite (sumz_insert _ _ _ x) by done. unfold assigned. rewrite Ei. lia.
Qed.

Lemma count_le {A} (f g : A -> bool) l :
  (forall x, x ∈ l -> f x = true -> g x = true) -> count f l <= count g l.
Proof.
  induction l as [|x l IH]; intros Hl; [done|]. unfold count in *. rewrite !sumz_cons.
  assert (Hx : f x = true -> g x = true) by (apply Hl; left).
  assert (H1 : sumz (fun x => Z.b2z (f x)) l <= sumz (fun x => Z.b2z (g x)) l)
    by (apply IH; intros y Hy; apply Hl; by right).
  destruct (f x), (g x); cbn; lia.
Qed.

Lemma ids_start js p nx j x x' q :
  js !! j = Some x -> kind x' = kind x -> room_request_id_ x' = nx -> is_Some (done_ x') ->
  room_request_id_ x = 0 -> is_room x = true -> capacity js -> ids js p nx ->
  nx + 1 < 2 ^ 64 /\ p !! nx = None /\ ids (<[j := x']> js) (<[nx := q]> p) (nx + 1).
Proof.
  intros Hx Ek Ei [k Ed] Hz Hroom Hcap [A B C D E F].
  assert (Hn : 0 < nx) by (rewrite F; pose proof (count_nonneg assigned js); lia).
  assert (Ha : assigned x = false) by (unfold assigned; by rewrite Hz).
  assert (Ha' : assigned x' = true) by (unfold assigned; rewrite Ei; apply bool_decide_eq_true; lia).
  assert (Hc : count assigned js + 1 <= count is_room js).
  { assert (Hle : count assigned (<[j := x']> js) <= count is_room (<[j := x']> js)).
    { apply count_le. intros y Hy. apply list_elem_of_lookup in Hy as [j' Hy].
      destruct (lookup_set _ _ _ _ _ _ Hx Hy) as [[-> ->]|[_ Hy']]; [|by eapply E].
      unfold is_room. by rewrite Ek. }
    unfold count in *. rewrite !(sumz_insert _ _ _ x) in Hle by done.
    unfold is_room in *. rewrite Ek, Ha, Ha' in Hle. cbn in Hle. lia. }
  unfold capacity in Hcap. split; [lia|].
  assert (Hp : p !! nx = None).
  { destruct (p !! nx) as [q'|] eqn:Eq; [|done]. apply B in Eq. lia. }
  split; [done|].
  assert (L : forall j' y, <[j := x']> js !! j' = Some y ->
    (j' = j /\ y = x') \/ (j' <> j /\ js !! j' = Some y)) by (intros; by eapply lookup_set).
  split.
  - intros j' y [[-> ->]|[_ Hy]]%L; [lia|]. apply A in Hy. lia.
  - intros id q' [[<- <-]|[_ Hq]]%lookup_insert_Some; [lia|]. apply B in Hq. lia.
  - intros j1 j2 y1 y2 [[-> ->]|[_ H1]]%L [[-> ->]|[_ H2]]%L Eid Hne; try done.
    + apply A in H2. lia.
    + apply A in H1. lia.
    + by eapply (C j1 j2).
  - intros j' y [[-> ->]|[_ Hy]]%L; [congruence|]. by eapply D.
  - intros j' y [[-> ->]|[_ Hy]]%L; [|by eapply E]. unfold is_room in *. by rewrite Ek.
  - unfold count in *. rewrite (sumz_insert _ _ _ x) by done. rewrite Ha, Ha'. cbn. lia.
Qed.

(** ** What will wake a job *)

Definition asleep (p : pending) (j : nat) (x : job) : Prop :=
  exists q, p !! room_request_id_ x = Some q /\ on_response q = j /\ (on_timeout q).1 = j.

Definition woken (vw : nat -> option seen) (j : nat) (x : job) : Prop :=
  exists v t, vw (session_ x) = Some v /\ t ∈ v.2 /\ mentions t j.

(** The classes that send their client a message. *)
Definition talks (k : job_kind) : bool :=
  match k with job_stop _ | job_forward_message _ => false | _ => true end.

Lemma room_talks k : room_job k = true -> talks k = true.
Proof. by destruct k. Qed.

(** The invariant; the jobs of [X] are being woken. *)
Record prog (X : nat -> Prop) (L : list nat) (ws : calls) (js : list job)
    (vw : nat -> option seen) (p : pending) : Prop := {
  pg_wake j x k : js !! j = Some x -> done_ x = Some k ->
    X j \/ CancelJob j kShutdown ∈ ws \/ asleep p j x \/ woken vw j x;
  pg_busy i v j : vw i = Some v -> head (q_ v.1) = Some j ->
    (exists x k, js !! j = Some x /\ done_ x = Some k) \/ (exists k, ws = [Run j k]);
  pg_line j x v : js !! j = Some x -> is_room x = true -> finished_ x = false ->
    vw (session_ x) = Some v -> j ∈ line v \/ CancelJob j kShutdown ∈ ws;
  pg_told j x v : js !! j = Some x -> talks (kind x) = true -> vw (session_ x) = Some v ->
    j ∈ line v \/ j ∈ L \/ stopped_ v.1 = true;
}.

Notation none := (fun _ : nat => False) (only parsing).

Lemma prog_ext X X' L ws js vw vw' p :
  (forall i, vw' i = vw i) -> (forall j, X j -> X' j) ->
  prog X L ws js vw p -> prog X' L ws js vw' p.
Proof.
  intros E HX [A B C D]. split.
  - intros j x k Hx Hd. destruct (A j x k Hx Hd) as [?|[?|[?|(v&t&?)]]]; auto.
    do 3 right. exists v, t. by rewrite E.
  - intros i v j. rewrite E. apply B.
  - intros j x v. rewrite E. apply C.
  - intros j x v. rewrite E. apply D.
Qed.

(** Entries of the table are taken, and the jobs they belong to are being woken. *)
Lemma prog_taken X X' L ws js vw p p' :
  (forall j, X j -> X' j) ->
  (forall j x k q, js !! j = Some x -> done_ x = Some k -> p !! room_request_id_ x = Some q ->
     on_response q = j -> p' !! room_request_id_ x = Some q \/ X' j) ->
  prog X L ws js vw p -> prog X' L ws js vw p'.
Proof.
  intros HX Hp [A B C D]. split; try done. intros j x k Hx Hd.
  destruct (A j x k Hx Hd) as [?|[?|[(q&Hq&Hj&Ht)|?]]]; auto.
  destruct (Hp j x k q Hx Hd Hq Hj) as [Hq'|?]; [|by left]. do 2 right. left. by exists q.
Qed.

Lemma woken_fupd vw i v v' j x :
  vw i = Some v -> (forall t, t ∈ v.2 -> mentions t j -> t ∈ v'.2) ->
  woken vw j x -> woken (fupd i v' vw) j x.
Proof.
  intros Hv Hs (w&t&Hw&Ht&Hm). unfold woken, fupd. destruct (decide (session_ x = i)) as [Ei|Hne].
  - rewrite Ei, Hv in Hw. injection Hw as <-. exists v', t. auto.
  - by exists w, t.
Qed.

(** Only the strand of a session changes, and the jobs it pushes are the same. *)
Lemma prog_strand X X' L ws js vw p i v st :
  vw i = Some v -> omap pushed st = omap pushed v.2 ->
  (forall j x, js !! j = Some x -> X j ->
     X' j \/ exists t, session_ x = i /\ t ∈ st /\ mentions t j) ->
  (forall t j, t ∈ v.2 -> mentions t j -> X' j \/ t ∈ st) ->
  prog X L ws js vw p -> prog X' L ws js (fupd i (v.1, st) vw) p.
Proof.
  intros Hv Ep HX HS [A B C D].
  assert (El : line (v.1, st) = line v) by (unfold line; cbn; by rewrite Ep).
  split.
  - intros j x k Hx Hd. destruct (A j x k Hx Hd) as [Hj|[?|[?|(w&t&Hw&Ht&Hm)]]]; auto.
    + destruct (HX j x Hx Hj) as [?|(t&Hi&Ht&Hm)]; [by left|].
      do 3 right. exists (v.1, st), t. unfold fupd. by rewrite decide_True.
    + unfold woken, fupd. destruct (decide (session_ x = i)) as [Ei|Hne].
      * rewrite Ei, Hv in Hw. injection Hw as <-. destruct (HS t j Ht Hm) as [?|Ht']; [by left|].
        do 3 right. exists (v.1, st), t. auto.
      * do 3 right. by exists w, t.
  - intros i' w j. unfold fupd. case_decide; [|apply B]. intros [= <-]. exact (B i v j Hv).
  - intros j x w Hx Hr Hf. unfold fupd. case_decide as E; [|by apply C]. intros [= <-].
    rewrite El. eapply C; [done..|by rewrite E].
  - intros j x w Hx Hr. unfold fupd. case_decide as E; [|by apply D]. intros [= <-].
    rewrite El. cbn [fst]. eapply D; [done..|by rewrite E].
Qed.

(** ** A job is made *)

Lemma prog_enqueue X L ws js vw p i v x :
  prog X L ws js vw p -> ord L ws js vw p -> vw i = Some v -> session_ x = i ->
  finished_ x = false -> done_ x = None ->
  prog X L ws (js ++ [x]) (fupd i (v.1, v.2 ++ [TPush (length js)]) vw) p.
Proof.
  intros P O Hv Es Ef Ed. set (v' := (v.1, v.2 ++ [TPush (length js)])).
  assert (El : line v' = line v ++ [length js]).
  { unfold line, v'. cbn [fst snd]. rewrite omap_app. cbn. by rewrite app_assoc. }
  assert (Lk : forall j y, (js ++ [x]) !! j = Some y -> js !! j = Some y \/ (j = length js /\ y = x)).
  { intros j y [Hy|[Hl Hy]]%lookup_app_Some; [by left|right].
    apply list_lookup_singleton_Some in Hy as [Hj <-]. split; [lia|done]. }
  destruct P as [A B C D]. split.
  - intros j y k [Hy|[-> ->]]%Lk Hd; [|congruence].
    destruct (A j y k Hy Hd) as [?|[?|[?|?]]]; auto. do 3 right.
    eapply woken_fupd; [done| |done]. intros t Ht _. cbn. set_solver.
  - intros i' w j. assert (Hb : forall j', (exists y k, js !! j' = Some y /\ done_ y = Some k) ->
      exists y k, (js ++ [x]) !! j' = Some y /\ done_ y = Some k).
    { intros j' (y&k&Hy&Hd). exists y, k. split; [by apply lookup_app_l_Some|done]. }
    unfold fupd. case_decide; intros Hw Hh.
    + injection Hw as <-. destruct (B i v j Hv Hh); auto.
    + destruct (B i' w j Hw Hh); auto.
  - intros j y w [Hy|[-> ->]]%Lk Hr Hf; unfold fupd.
    + case_decide as E; intros Hw; [|by eapply C]. injection Hw as <-. rewrite El, elem_of_app.
      destruct (C j y v Hy Hr Hf); [by rewrite E|auto..].
    + rewrite decide_True by done. intros [= <-]. left. rewrite El. set_solver.
  - intros j y w [Hy|[-> ->]]%Lk Hr; unfold fupd.
    + case_decide as E; intros Hw; [|by eapply D]. injection Hw as <-. rewrite El, elem_of_app.
      destruct (D j y v Hy Hr) as [?|?]; [by rewrite E|auto..].
    + rewrite decide_True by done. intros [= <-]. left. rewrite El. set_solver.
Qed.

Lemma prog_make X L ws js vw p i x :
  prog X L ws js vw p -> vw i = None -> session_ x = i -> done_ x = None ->
  prog X L ws (js ++ [x]) vw p.
Proof.
  intros [A B C D] Hv Es Ed.
  assert (Lk : forall j y, (js ++ [x]) !! j = Some y -> js !! j = Some y \/ y = x).
  { intros j y [Hy|[_ Hy]]%lookup_app_Some; [by left|right].
    by apply list_lookup_singleton_Some in Hy as [_ <-]. }
  split.
  - intros j y k [Hy| ->]%Lk Hd; [by eapply A|congruence].
  - intros i' w j Hw Hh. destruct (B i' w j Hw Hh) as [(y&k&Hy&Hd)|?]; [|by right].
    left. exists y, k. split; [by apply lookup_app_l_Some|done].
  - intros j y w [Hy| ->]%Lk Hr Hf Hw; [by eapply C|congruence].
  - intros j y w [Hy| ->]%Lk Hr Hw; [by eapply D|congruence].
Qed.

(** ** A job ends *)

(** Jobs other than [j] are as they were. *)
Lemma prog_pop X L L' ws js vw p v j k x x' :
  prog X L ws js vw p -> ord L ws js vw p -> ws = [] \/ ws = [Run j k] ->
  js !! j = Some x -> vw (session_ x) = Some v ->
  head (q_ v.1) = Some j -> completed_ v.1 !! k = Some false ->
  session_ x' = session_ x -> kind x' = kind x -> done_ x' = None ->
  (is_room x = true -> finished_ x' = true) -> (talks (kind x) = true -> j ∈ L') -> L ⊆ L' ->
  prog (fun j' => X j' /\ j' <> j) L' (completion k v.1).1 (<[j := x']> js)
    (fupd (session_ x) ((completion k v.1).2, v.2) vw) p.
Proof.
  intros [A B C D] O Hws Hx Hv Hh Hk Es Ek Ed Hfin Htold HL. set (i := session_ x) in *.
  destruct v as [[q run stop cs] st]. cbn [fst snd q_ completed_] in *.
  destruct q as [|j0 rest]; [done|]. injection Hh as ->.
  assert (Hnc : forall j', CancelJob j' kShutdown ∉ ws) by (destruct Hws as [-> | ->]; set_solver).
  destruct (or_flags _ _ _ _ _ O i _ Hv) as [Hr Hst]. cbn in Hr, Hst.
  assert (run = true) as -> by (by apply Hr).
  assert (stop = false) as -> by (destruct stop; [by specialize (Hst eq_refl)|done]).
  pose proof (completion_head k j rest cs Hk) as Hr2. set (r := completion k _) in *. cbn zeta in Hr2.
  clearbody r. destruct r as [ws' sch]. cbn [fst snd] in *. destruct Hr2 as (Eq&Estop&_&Hnext).
  assert (Lk : forall j' y, <[j := x']> js !! j' = Some y ->
    (j' = j /\ y = x') \/ (j' <> j /\ js !! j' = Some y)) by (intros; by eapply lookup_set).
  split.
  - intros j' y k' [[-> ->]|[Hne Hy]]%Lk Hd; [congruence|].
    destruct (A j' y k' Hy Hd) as [?|[Hc|[?|?]]]; auto; [by apply Hnc in Hc|].
    do 3 right. eapply woken_fupd; [done| |done]. auto.
  - intros i' w j' Hw Hh. unfold fupd in Hw. case_decide as E.
    + injection Hw as <-. cbn [fst] in Hh. rewrite Eq in Hh. right.
      destruct rest as [|n rest]; [done|]. injection Hh as <-. destruct Hnext as [-> _]. eauto.
    + left. destruct (or_line _ _ _ _ _ O i' w j' Hw) as (y&Hy&Hyi&_).
      { unfold line. destruct (q_ w.1); [done|]. injection Hh as ->. set_solver. }
      assert (Hne : j' <> j) by (intros ->; simplify_eq).
      destruct (B i' w j' Hw Hh) as [(z&k'&Hz&Hd)|[k' Hws']].
      * exists z, k'. by rewrite list_lookup_insert_ne.
      * destruct Hws as [-> | ->]; simplify_eq.
  - intros j' y w [[-> ->]|[Hne Hy]]%Lk Hroom Hf.
    { rewrite Hfin in Hf; [done|]. unfold is_room in *. by rewrite <- Ek. }
    unfold fupd. case_decide as E; intros Hw; left.
    + injection Hw as <-. destruct (C j' y (JobScheduler (j :: rest) true false cs, st) Hy Hroom Hf)
        as [Hl|Hc]; [by rewrite E| |by apply Hnc in Hc].
      unfold line in *. cbn in *. rewrite Eq. set_solver.
    + destruct (C j' y w Hy Hroom Hf Hw) as [Hl|Hc]; [done|by apply Hnc in Hc].
  - intros j' y w [[-> ->]|[Hne Hy]]%Lk Ht Hw.
    { right. left. apply Htold. by rewrite <- Ek. }
    unfold fupd in Hw. case_decide as E.
    + injection Hw as <-. destruct (D j' y (JobScheduler (j :: rest) true false cs, st) Hy Ht) as [Hl|[Hl|Hs]];
        [by rewrite E| |auto|done].
      left. unfold line in *. cbn in *. rewrite Eq. set_solver.
    + destruct (D j' y w Hy Ht Hw) as [?|[?|?]]; auto.
Qed.

(** ** A room job is run *)

Lemma prog_start X L js vw p j k x x' dl nx :
  prog X L [Run j k] js vw p -> ord L [Run j k] js vw p -> js !! j = Some x ->
  session_ x' = session_ x -> kind x' = kind x -> finished_ x' = finished_ x ->
  done_ x' = Some k -> room_request_id_ x' = nx -> p !! nx = None ->
  prog X L [] (<[j := x']> js) vw (<[nx := Request dl j (j, nx)]> p).
Proof.
  intros [A B C D] O Hx Es Ek Ef Ed Ei Hp.
  assert (Lk : forall j' y, <[j := x']> js !! j' = Some y ->
    (j' = j /\ y = x') \/ (j' <> j /\ js !! j' = Some y)) by (intros; by eapply lookup_set).
  split.
  - intros j' y k' [[-> ->]|[Hne Hy]]%Lk Hd.
    + do 2 right. left. eexists. by rewrite Ei, lookup_insert_eq.
    + destruct (A j' y k' Hy Hd) as [?|[Hc|[(q&Hq&Hq')|?]]]; auto; [set_solver|].
      do 2 right. left. exists q. rewrite lookup_insert_ne; [done|congruence].
  - intros i v j' Hv Hh. left. destruct (B i v j' Hv Hh) as [(y&k'&Hy&Hd)|[k' Hw]].
    + destruct (decide (j' = j)) as [->|Hne].
      * exists x', k. by rewrite list_lookup_insert_eq by (by eapply lookup_lt_Some).
      * exists y, k'. by rewrite list_lookup_insert_ne.
    + injection Hw as <- <-. exists x', k.
      by rewrite list_lookup_insert_eq by (by eapply lookup_lt_Some).
  - intros j' y v [[-> ->]|[Hne Hy]]%Lk Hroom Hf Hv; left.
    + rewrite Ef in Hf. rewrite Es in Hv. unfold is_room in *. rewrite Ek in Hroom.
      destruct (C j x v Hx Hroom Hf Hv); [done|set_solver].
    + destruct (C j' y v Hy Hroom Hf Hv); [done|set_solver].
  - intros j' y v [[-> ->]|[Hne Hy]]%Lk Ht Hv; [|by eapply D].
    rewrite Es in Hv. rewrite Ek in Ht. by eapply D.
Qed.

(** ** The shutdown *)

Lemma prog_cancel_noop X L j ws js vw p x :
  prog X L (CancelJob j kShutdown :: ws) js vw p -> js !! j = Some x ->
  finished_ x = true \/ is_room x = false -> (forall k, done_ x <> Some k) -> prog X L ws js vw p.
Proof.
  intros [A B C D] Hx Hno Hd0. split; try done.
  - intros j' y k Hy Hd. destruct (A j' y k Hy Hd) as [?|[Hc|?]]; auto.
    apply elem_of_cons in Hc as [Hc|Hc]; [|auto]. simplify_eq. by destruct (Hd0 k).
  - intros i v j' Hv Hh. destruct (B i v j' Hv Hh) as [?|[k Hw]]; [by left|done].
  - intros j' y v Hy Hr Hf Hv. destruct (C j' y v Hy Hr Hf Hv) as [?|Hc]; [by left|].
    apply elem_of_cons in Hc as [Hc|Hc]; [|by right]. simplify_eq. destruct Hno; congruence.
Qed.

Lemma prog_cancel X L j ws js vw p x x' v cs :
  prog X L (CancelJob j kShutdown :: ws) js vw p ->
  ord L (CancelJob j kShutdown :: ws) js vw p -> js !! j = Some x ->
  vw (session_ x) = Some v -> stopped_ v.1 = true ->
  session_ x' = session_ x -> finished_ x' = true -> done_ x' = None ->
  prog (fun j' => X j' /\ j' <> j) L ws (<[j := x']> js)
    (fupd (session_ x) (JobScheduler (q_ v.1) (Scheduler.running_ v.1) (stopped_ v.1) cs, v.2) vw) p.
Proof.
  intros [A B C D] O Hx Hv Hst Es Ef Ed.
  assert (Lk : forall j' y, <[j := x']> js !! j' = Some y ->
    (j' = j /\ y = x') \/ (j' <> j /\ js !! j' = Some y)) by (intros; by eapply lookup_set).
  assert (Hcons : forall j', j' <> j -> CancelJob j' kShutdown ∈ CancelJob j kShutdown :: ws ->
    CancelJob j' kShutdown ∈ ws) by (intros j' Hne [?|?]%elem_of_cons; [congruence|done]).
  split.
  - intros j' y k [[-> ->]|[Hne Hy]]%Lk Hd; [congruence|].
    destruct (A j' y k Hy Hd) as [?|[?|[?|?]]]; auto. do 3 right. eapply woken_fupd; [done| |done]. auto.
  - intros i w j' Hw Hh.
    assert (Hb : exists v0, vw i = Some v0 /\ q_ w.1 = q_ v0.1).
    { unfold fupd in Hw. case_decide; [|by exists w]. subst i. injection Hw as <-. by exists v. }
    destruct Hb as (v0&Hv0&Eq). rewrite Eq in Hh.
    destruct (B i v0 j' Hv0 Hh) as [(y&k&Hy&Hd)|[k ?]]; [|done]. left. exists y, k.
    split; [|done]. rewrite list_lookup_insert_ne; [done|]. intros <-.
    assert (Hq : q_ v.1 = []) by (by apply (or_flags _ _ _ _ _ O _ _ Hv)).
    destruct (or_line _ _ _ _ _ O i v0 j Hv0) as (z&Hz&Hzi&_).
    { unfold line. destruct (q_ v0.1); [done|]. injection Hh as ->. set_solver. }
    simplify_eq. by rewrite Hq in Hh.
  - intros j' y w [[-> ->]|[Hne Hy]]%Lk Hroom Hf; [congruence|]. unfold fupd.
    case_decide as E; intros Hw.
    + injection Hw as <-. destruct (C j' y v Hy Hroom Hf) as [Hl|Hc]; [by rewrite E|by left|right; auto].
    + destruct (C j' y w Hy Hroom Hf Hw) as [Hl|Hc]; [by left|right; auto].
  - intros j' y w [[-> ->]|[Hne Hy]]%Lk Ht; unfold fupd.
    + rewrite decide_True by done. intros [= <-]. by do 2 right.
    + case_decide as E; intros Hw; [|by eapply D]. injection Hw as <-. by do 2 right.
Qed.

(** ** A job is pushed; the scheduler is shut down *)

Lemma prog_push L js vw p i v j ts :
  prog none L [] js vw p -> ord L [] js vw p -> vw i = Some v -> v.2 = TPush j :: ts ->
  prog none L (push_and_run j v.1).1 js (fupd i ((push_and_run j v.1).2, ts) vw) p.
Proof.
  intros [A B C D] O Hv Et. destruct v as [[q run stop cs] st]. cbn [fst snd] in *. subst st.
  destruct (or_flags _ _ _ _ _ O i _ Hv) as [Hr Hst]. cbn in Hr, Hst.
  pose proof (push_cases j q run stop cs Hr) as Hr2. set (r := push_and_run j _) in *. cbn zeta in Hr2.
  clearbody r. destruct r as [ws sch]. cbn [fst snd] in Hr2.
  split.
  - intros j' x k Hx Hd. destruct (A j' x k Hx Hd) as [?|[?|[?|?]]]; auto; [set_solver|].
    do 3 right. eapply woken_fupd; [done| |done]. intros t Ht Hm. cbn in *.
    apply elem_of_cons in Ht as [->|Ht]; done.
  - intros i' w j' Hw Hh. unfold fupd in Hw. case_decide as E.
    + injection Hw as <-. cbn [fst] in Hh.
      destruct Hr2 as [[-> [= -> ->]]|(_&Eq&_&_&[(Hq&->&_)|(->&->&_)])].
      * cbn in Hh. by rewrite (Hst eq_refl) in Hh.
      * left. rewrite Eq in Hh. destruct q as [|a q]; [done|].
        destruct (B i _ j' Hv Hh) as [?|[k ?]]; [done|done].
      * rewrite Eq in Hh. injection Hh as <-. right. eauto.
    + left. destruct (B i' w j' Hw Hh) as [?|[k ?]]; done.
  - intros j' x w Hx Hroom Hf. unfold fupd. case_decide as E; intros Hw.
    + injection Hw as <-. rewrite <- E in Hv. destruct (C j' x _ Hx Hroom Hf Hv) as [Hl|Hc]; [|set_solver].
      unfold line in *. cbn in *.
      destruct Hr2 as [[-> [= -> ->]]|(_&Eq&_)]; [|rewrite Eq; set_solver].
      cbn. rewrite (Hst eq_refl) in *. set_solver.
    + destruct (C j' x w Hx Hroom Hf Hw) as [Hl|Hc]; [by left|set_solver].
  - intros j' x w Hx Ht. unfold fupd. case_decide as E; intros Hw; [|by eapply D].
    injection Hw as <-. rewrite <- E in Hv.
    destruct Hr2 as [[-> [= -> ->]]|(Hs0&Eq&_)]; [by do 2 right|].
    destruct (D j' x _ Hx Ht Hv) as [Hl|[Hl|Hs]]; [left|auto|cbn in Hs; congruence].
    unfold line in *. cbn in *. rewrite Eq. set_solver.
Qed.

Lemma prog_shutdown L js vw p i v :
  prog none L [] js vw p -> ord L [] js vw p -> vw i = Some v ->
  prog none L (shutdown v.1).1 js (fupd i ((shutdown v.1).2, v.2) vw) p.
Proof.
  intros P O Hv. destruct v as [[q run stop cs] st]. cbn [fst snd] in *.
  unfold shutdown. cbn. destruct stop; cbn [fst snd].
  { eapply (prog_ext none none _ _ _ vw); [|done|done]. intros i'. unfold fupd. case_decide; congruence. }
  destruct P as [A B C D].
  assert (Hin : forall j, j ∈ q -> CancelJob j kShutdown ∈ (fun j => CancelJob j kShutdown) <$> q)
    by (intros; apply list_elem_of_fmap; eauto).
  split.
  - intros j x k Hx Hd. destruct (A j x k Hx Hd) as [?|[?|[?|?]]]; auto; [set_solver|].
    do 3 right. eapply woken_fupd; [done| |done]. auto.
  - intros i' w j Hw Hh. unfold fupd in Hw. case_decide; [by injection Hw as <-|].
    left. destruct (B i' w j Hw Hh) as [?|[k ?]]; done.
  - intros j x w Hx Hroom Hf. unfold fupd. case_decide as E; intros Hw.
    + injection Hw as <-. rewrite <- E in Hv. destruct (C j x _ Hx Hroom Hf Hv) as [Hl|Hc]; [|set_solver].
      unfold line in *. cbn in *. apply elem_of_app in Hl as [Hl|Hl]; [right; auto|by left].
    + destruct (C j x w Hx Hroom Hf Hw) as [Hl|Hc]; [by left|set_solver].
  - intros j x w Hx Ht. unfold fupd. case_decide as E; intros Hw; [|by eapply D].
    injection Hw as <-. by do 2 right.
Qed.
