(* ===== verification/Liveness.v ===== *)
(** * Liveness: the operations of the User server keep every job on its way

    [Progress] on the states of the server: the record [alive] and its
    preservation by the operations of [Sessions], in the order in which [Order]
    treats them; then the schedule that brings the jobs of a session to their
    end. *)

From S2P Require Import Prelude Wire Scheduler Pending Sessions Order Logins Replies Handles Progress.
From coqutil Require Import Datatypes.RecordSetters.
Import TriangleBracketNotations.
Import room_channel.
#[local] Arguments constant {_} _ _ /.

Notation none := (fun _ : nat => False) (only parsing).
Notation only j := (fun j' : nat => j' = j) (only parsing).

(** ** The invariant on states *)

Record alive (X : nat -> Prop) (L : list nat) (ws : calls) (s : user_server) : Prop := {
  al_prog : prog X L ws (jobs_ s) (view s) (Pending.requests_ (requests_ s));
  al_ids : Progress.ids (jobs_ s) (Pending.requests_ (requests_ s)) (next_request_id_ s);
  al_cap : capacity (jobs_ s);
}.

Lemma alive_ext X X' L ws s s' :
  jobs_ s' = jobs_ s -> (forall i, view s' i = view s i) -> requests_ s' = requests_ s ->
  next_request_id_ s' = next_request_id_ s -> (forall j, X j -> X' j) ->
  alive X L ws s -> alive X' L ws s'.
Proof.
  intros Ej Ev Er En HX [A B C]. split; rewrite ?Ej, ?Er, ?En; try done.
  eapply prog_ext; [done..|exact A].
Qed.

(** A session changes; the caller gives its new view. *)
Lemma alive_set_session X L ws i y y' s :
  heap_ s !! i = Some y ->
  prog X L ws (jobs_ s) (fupd i (scheduler_ y', strand_ y') (view s)) (Pending.requests_ (requests_ s)) ->
  Progress.ids (jobs_ s) (Pending.requests_ (requests_ s)) (next_request_id_ s) -> capacity (jobs_ s) ->
  alive X L ws (set_session i y' s).
Proof.
  intros Hy P I C. pose proof (fun i' => view_session i y' s i' ltac:(eauto)) as Ev.
  destruct s as [h js ss us nx rq]. split; try done.
  eapply prog_ext; [exact Ev| |exact P]. done.
Qed.

(** Fields of a session other than its scheduler and its strand. *)
Lemma alive_session X L ws i y y' s :
  heap_ s !! i = Some y -> scheduler_ y' = scheduler_ y -> strand_ y' = strand_ y ->
  alive X L ws s -> alive X L ws (set_session i y' s).
Proof.
  intros Hy E1 E2 [A B C]. eapply alive_set_session; [done| |done|done].
  eapply prog_ext; [|done|exact A]. intros i'. unfold fupd. case_decide as E; [|done].
  by rewrite E, (view_lookup i y), E1, E2.
Qed.

(** A handler is posted; it wakes the job it mentions. *)
Lemma alive_post X X' L ws i t s :
  ordered L ws s -> alive X L ws s -> pushed t = None ->
  (forall j x, X j -> jobs_ s !! j = Some x -> X' j \/ (session_ x = i /\ mentions t j)) ->
  alive X' L ws (post i t s).
Proof.
  intros O [A B C] Hp HX. unfold post. destruct (heap_ s !! i) as [y|] eqn:Hy.
  - eapply alive_set_session; [done| |done|done]. destruct y as [c u r b sch st]. cbn.
    apply (prog_strand X X' L ws _ (view s) _ i (sch, st)); [by rewrite (view_lookup _ _ _ Hy)|..|done].
    + cbn. rewrite omap_app. cbn. by rewrite Hp, app_nil_r.
    + intros j x Hx Hj. destruct (HX j x Hj Hx) as [?|[Es Hm]]; [by left|right]. exists t. set_solver.
    + intros t' j Ht _. right. cbn in Ht. set_solver.
  - split; try done. destruct A as [A1 A2 A3 A4]. split; try done. intros j x k Hx Hd.
    destruct (A1 j x k Hx Hd) as [Hj|?]; [|by right]. destruct (HX j x Hj Hx) as [?|[Es _]]; [by left|].
    destruct (or_done _ _ _ _ _ O j x k Hx Hd) as (_&_&v&Hv&_).
    unfold view in Hv. by rewrite Es, Hy in Hv.
Qed.

(** A job is made. *)
Lemma capacity_app js x : is_room x = false -> capacity js -> capacity (js ++ [x]).
Proof.
  intros Hx C. unfold capacity in *. rewrite count_app. unfold count at 2.
  rewrite sumz_cons, sumz_nil, Hx. cbn. lia.
Qed.

Lemma alive_enqueue X L ws i k s :
  ordered L ws s -> alive X L ws s -> capacity (jobs_ (enqueue_job i k s)) ->
  alive X L ws (enqueue_job i k s).
Proof.
  intros O [A B C] Hc. unfold enqueue_job in *. rewrite jobs_post in Hc. unfold post.
  destruct s as [h js ss us nx rq]. cbn in Hc |- *.
  pose proof (ids_make js _ _ (Job k i None 0 false) eq_refl B) as B'.
  destruct (h !! i) as [y|] eqn:Hy.
  - assert (Hv : view (UserServer h js ss us nx rq) i = Some (scheduler_ y, strand_ y))
      by (by apply view_lookup).
    pose proof (prog_enqueue X L ws js _ _ i _ (Job k i None 0 false) A O Hv eq_refl eq_refl eq_refl) as P.
    split; [|done|done]. eapply prog_ext; [|done|exact P].
    intros i'. destruct y as [c u r b sch st]. cbn.
    by apply (view_heap i (Session c u r b sch (st ++ [TPush (length js)]))); [|eexists].
  - split; [|done|done]. eapply (prog_make X L ws js _ _ i); try done. unfold view. cbn. by rewrite Hy.
Qed.

(** ** Jobs *)

Lemma capacity_set js j x x' :
  js !! j = Some x -> kind x' = kind x -> capacity js -> capacity (<[j := x']> js).
Proof.
  intros Hx Ek C. unfold capacity, count in *. rewrite (sumz_insert _ _ _ x) by done.
  unfold is_room. rewrite Ek. unfold is_room in C. lia.
Qed.

(** The completion closure of the job at the head of its queue. *)
Lemma alive_done X L L' ws j k x x' y s :
  ordered L ws s -> alive X L ws s -> ws = [] \/ ws = [Run j k] ->
  jobs_ s !! j = Some x -> heap_ s !! session_ x = Some y ->
  head (q_ (scheduler_ y)) = Some j -> completed_ (scheduler_ y) !! k = Some false ->
  session_ x' = session_ x -> kind x' = kind x -> room_request_id_ x' = room_request_id_ x ->
  done_ x' = None -> (finished_ x' = false -> is_room x = false) ->
  (is_room x = true -> finished_ x' = true) -> (talks (kind x) = true -> j ∈ L') -> L ⊆ L' ->
  let r := call_done (session_ x) k (set_job j x' s) in
  alive (fun j' => X j' /\ j' <> j) L' r.1 r.2.
Proof.
  intros O [A B C] Hws Hx Hy Hh Hk Es Ek Ei Ed Ef Hfin Ht HL. cbn zeta.
  pose proof (view_lookup _ _ _ Hy) as Hv. destruct s as [h js ss us nx rq].
  unfold call_done. cbn in Hx, Hy, A, B, C |- *. rewrite Hy.
  pose proof (prog_pop X L L' ws js _ _ (scheduler_ y, strand_ y) j k x x' A O Hws Hx
    Hv Hh Hk Es Ek Ed Hfin Ht HL) as P.
  cbn [fst snd] in P. destruct (completion k (scheduler_ y)) as [ws' sch].
  split; cbn.
  - eapply prog_ext; [| |exact P]; [|done]. intros i'. destruct y as [c u r b sch0 st]. cbn.
    by apply (view_heap (session_ x) (Session c u r b sch st)); [|eexists].
  - apply (ids_set _ _ _ j x); try done. intros _ Hf. specialize (Ef Hf).
    destruct (decide (room_request_id_ x = 0)) as [E|Hne]; [done|].
    assert (Ha : assigned x = true) by (by apply bool_decide_eq_true).
    pose proof (id_room _ _ _ B j x Hx Ha). congruence.
  - by apply (capacity_set _ j x).
Qed.

(** A job that ends inside [run]. *)
Lemma alive_finish_with L j k x es s :
  ordered L [Run j k] s -> alive none L [Run j k] s -> jobs_ s !! j = Some x -> is_room x = false ->
  (talks (kind x) = true -> j ∈ omap sender es) ->
  let r := finish_with (session_ x) k es s in alive none (L ++ omap sender r.1.1) r.1.2 r.2.
Proof.
  intros O A Hx Hr Ht. destruct (ordered_running L j k s O) as (x0&y&Hx0&Hy&Hd&Hh&Hk).
  assert (x0 = x) as -> by congruence.
  pose proof (alive_done none L (L ++ omap sender es) [Run j k] j k x x y s O A) as P.
  rewrite (set_job_same j x s Hx) in P. unfold finish_with. cbn zeta in *.
  destruct (call_done (session_ x) k s) as [ws' s']. cbn [fst snd] in *.
  eapply alive_ext; [..|apply P]; auto; try congruence; [naive_solver|intros ?%Ht; set_solver|set_solver].
Qed.

Lemma alive_run_room L j k make now x s :
  ordered L [Run j k] s -> alive none L [Run j k] s -> jobs_ s !! j = Some x -> is_room x = true ->
  let r := run_room_job j k make now x s in alive none (L ++ omap sender r.1.1) r.1.2 r.2.
Proof.
  intros O [A B C] Hx Hr. destruct (ordered_running L j k s O) as (x0&y&Hx0&Hy&Hd&Hh&Hk).
  assert (x0 = x) as -> by congruence. clear Hx0.
  destruct (or_line _ _ _ _ _ O (session_ x) _ j (view_lookup _ _ _ Hy)) as (x0&Hx0&_&Hf).
  { unfold line. cbn. destruct (q_ (scheduler_ y)); [done|]. injection Hh as ->. set_solver. }
  assert (x0 = x) as -> by congruence.
  pose proof (id_unrun _ _ _ B j x Hx Hd Hf) as Hz.
  destruct s as [h js ss us nx rq]. set (x' := x <| done_ := Some k |> <| room_request_id_ := nx |>).
  destruct (ids_start js (Pending.requests_ rq) nx j x x' (Request (now + kTimeout) j (j, nx)) Hx) as (Hn&Hp&B');
    try (by destruct x).
  cbn in Hp |- *. rewrite app_nil_r. unfold Pending.add. rewrite Hp. split; cbn.
  - eapply prog_ext; [| |eapply (prog_start none L js (view (UserServer h js ss us nx rq))
      (Pending.requests_ rq) j k x x' (now + kTimeout) nx A O Hx)]; try done; by destruct x.
  - destruct (id_pending _ _ _ B' nx _ (lookup_insert_eq _ _ _)) as [Hpos _].
    by rewrite (uint_small 64) by lia.
  - apply (capacity_set _ j x); [done|by destruct x|done].
Qed.

Lemma add_session_frame i s :
  let s' := session_manager.add_session i s in
  jobs_ s' = jobs_ s /\ heap_ s' = heap_ s /\ requests_ s' = requests_ s /\
  next_request_id_ s' = next_request_id_ s.
Proof. unfold session_manager.add_session. repeat case_match; by destruct s. Qed.

Lemma alive_run L j k now s :
  ordered L [Run j k] s -> alive none L [Run j k] s ->
  let r := job_run j k now s in alive none (L ++ omap sender r.1.1) r.1.2 r.2.
Proof.
  intros O A. destruct (ordered_running L j k s O) as (x&y&Hx&Hy&_).
  unfold job_run. rewrite Hx, Hy. cbn zeta.
  assert (Hs : forall y', scheduler_ y' = scheduler_ y -> strand_ y' = strand_ y ->
    let s1 := set_session (session_ x) y' s in
    ordered L [Run j k] s1 /\ alive none L [Run j k] s1 /\ jobs_ s1 !! j = Some x).
  { intros y' E1 E2. split_and!; [by eapply ordered_session|by eapply alive_session|by destruct s]. }
  destruct (kind x) eqn:Ek; try (apply alive_run_room; unfold is_room; by rewrite ?Ek);
    unfold run_login, run_logout, run_stop, run_forward_message, run_cli_forward_message,
      run_ntf_leave_room_message; apply (alive_finish_with L j k x); auto;
    try (by apply Hs; destruct y); try (unfold is_room; by rewrite Ek);
    try (rewrite Ek; intros ?; cbn; done || left);
    try (destruct (add_session_frame (session_ x) (set_session (session_ x) (set_user u y) s))
      as (E1&E2&E3&E4); destruct (Hs (set_user u y)) as (O1&A1&Hj); [by destruct y..|]).
  - eapply ordered_ext; [done|intros i; unfold view; by rewrite E2|by rewrite E3|done].
  - eapply alive_ext; [done|intros i; unfold view; by rewrite E2|done|done| |exact A1]. done.
  - by rewrite E1.
  - by apply ordered_enqueue.
  - apply alive_enqueue; [done|done|]. unfold enqueue_job. rewrite jobs_post.
    replace (jobs_ (s <| jobs_ := _ |>)) with (jobs_ s ++ [Job (job_stop false) (session_ x) None 0 false])
      by (by destruct s). apply capacity_app; [done|]. apply A.
  - unfold enqueue_stop, enqueue_job. rewrite jobs_post. destruct s. by apply lookup_app_l_Some.
Qed.

(** The entry of a job is taken from the table; no other job loses its own. *)
Lemma alive_cancel_request X L ws j x s :
  alive X L ws s -> (forall j', X j' -> j' = j) -> jobs_ s !! j = Some x ->
  alive (only j) L ws (cancel_request (room_request_id_ x) s).2.
Proof.
  intros [A B C] HX Hx. unfold cancel_request, Pending.cancel, take_request.
  destruct s as [h js ss us nx rq]. cbn in *.
  destruct (Pending.requests_ rq !! room_request_id_ x) as [q|] eqn:E; cbn.
  2: { split; try done. eapply prog_ext; [| |exact A]; done. }
  split; cbn; [|by eapply ids_pending; [apply delete_subseteq|]|done].
  eapply prog_taken; [| |exact A]; [done|]. intros j' x' k q' Hx' _ Hq' _.
  destruct (decide (room_request_id_ x' = room_request_id_ x)) as [Ei|Hne].
  - right. eapply (id_unique _ _ _ B); [done|done|done|].
    apply (id_pending _ _ _ B) in Hq'. lia.
  - left. by rewrite lookup_delete_ne.
Qed.

(** The end of a job that waits for the Room server. *)
Lemma alive_finish L j x k s :
  ordered L [] s -> alive (only j) L [] s -> jobs_ s !! j = Some x -> finished_ x = false ->
  done_ x = Some k -> alive none (L ++ [j]) (finish j s).1 (finish j s).2.
Proof.
  intros O A Hx Hf Hd. unfold finish. rewrite Hx, Hf, Hd.
  destruct (ordered_awaiting L j x k s O Hx Hd) as (y'&Hy&_&Hh&Hk).
  eapply alive_ext; [reflexivity..| |eapply (alive_done (only j) L (L ++ [j]) [] j k x _ y' s)];
    auto; try (by destruct x); [naive_solver|set_solver|set_solver].
Qed.

(** A finished job needs no waking. *)
Lemma alive_finished X L s j x :
  ordered L [] s -> alive X L [] s -> (forall j', X j' -> j' = j) -> jobs_ s !! j = Some x ->
  finished_ x = true -> alive none L [] s.
Proof.
  intros O [[A1 A2 A3 A4] B C] HX Hx Hf. split; try done. split; try done.
  intros j' x' k Hx' Hd. destruct (A1 j' x' k Hx' Hd) as [->%HX|?]; [|by right].
  destruct (or_done _ _ _ _ _ O j x' k Hx' Hd) as [? _]. congruence.
Qed.

(** The handlers that wake a job bring it to its end. *)
Lemma alive_response L j r s :
  ordered L [] s -> alive (only j) L [] s -> started (jobs_ s) j ->
  waits s j (response_type r) ->
  let o := handle_response j r s in alive none (L ++ omap sender o.1.1) o.1.2 o.2.
Proof.
  intros O A Hst (x&Hx&Ht). cbn zeta. open_handle_response. rewrite Hx.
  destruct (finished_ x) eqn:Hf.
  { cbn. rewrite app_nil_r. by eapply (alive_finished (only j)). }
  destruct (started_done j x s Hst Hx Hf) as [k Hd].
  destruct (ordered_awaiting L j x k s O Hx Hd) as (y&Hy&Hr&_). rewrite Hy.
  destruct (kind x), r; simplify_eq/=;
    match goal with |- context [finish j ?s1] =>
      assert (O1 : ordered L [] s1) by (eapply ordered_session; [done|by destruct y|by destruct y|done]);
      assert (A1 : alive (only j) L [] s1) by (eapply alive_session; [done|by destruct y|by destruct y|done]);
      pose proof (alive_finish L j x k s1 O1 A1 ltac:(by destruct s) Hf Hd) as P;
      by destruct (finish j s1) end.
Qed.

Lemma alive_timeout L j s :
  ordered L [] s -> alive (only j) L [] s -> started (jobs_ s) j -> is_Some (jobs_ s !! j) ->
  let o := job_cancel j Scheduler.kTimeout s in alive none (L ++ omap sender o.1.1) o.1.2 o.2.
Proof.
  intros O A Hst [x Hx]. cbn zeta. unfold job_cancel. rewrite Hx.
  pose proof (alive_cancel_request (only j) L [] j x s A ltac:(done) Hx) as A1.
  destruct (cancel_request_ordered L [] (room_request_id_ x) s O) as (Hes&O1&Ej&Eh).
  destruct (cancel_request (room_request_id_ x) s) as [es s1]. cbn [fst snd] in Hes, O1, Ej, Eh, A1.
  destruct (finished_ x) eqn:Hf.
  { assert (A0 : alive none L [] s) by (by eapply (alive_finished (only j))).
    destruct (kind x); by rewrite app_nil_r. }
  destruct (started_done j x s Hst Hx Hf) as [k Hd].
  destruct (ordered_awaiting L j x k s O Hx Hd) as (y&_&Hr&_).
  pose proof (alive_finish L j x k s1 O1 A1 ltac:(by rewrite Ej) Hf Hd) as P.
  destruct (finish j s1) as [ws s2]. cbn [fst snd] in P.
  destruct (kind x); try done; cbn [fst snd]; rewrite omap_app, Hes; done.
Qed.

(** A job cancelled by the shutdown. *)
Lemma alive_finish_shut L j ws x y s :
  ordered L (CancelJob j kShutdown :: ws) s -> alive (only j) L (CancelJob j kShutdown :: ws) s ->
  jobs_ s !! j = Some x -> finished_ x = false ->
  heap_ s !! session_ x = Some y -> stopped_ (scheduler_ y) = true -> q_ (scheduler_ y) = [] ->
  alive none L ws (finish j s).2.
Proof.
  intros O [A B C] Hx Hf Hy Hs Hq. unfold finish. rewrite Hx, Hf.
  set (x' := x <| finished_ := true |> <| done_ := None |>).
  assert (P : forall cs, prog none L ws (<[j := x']> (jobs_ s)) (fupd (session_ x)
    (JobScheduler (q_ (scheduler_ y)) (Scheduler.running_ (scheduler_ y)) (stopped_ (scheduler_ y)) cs,
     strand_ y) (view s)) (Pending.requests_ (requests_ s))).
  { intros cs. eapply prog_ext; [..|eapply (prog_cancel (only j) L j ws _ _ _ x x' _ cs A O Hx
      (view_lookup _ _ _ Hy))]; [done|naive_solver|done|by destruct x..]. }
  assert (B' : Progress.ids (<[j := x']> (jobs_ s)) (Pending.requests_ (requests_ s)) (next_request_id_ s))
    by (apply (ids_set _ _ _ j x); [done|by destruct x..|done]).
  assert (C' : capacity (<[j := x']> (jobs_ s))) by (apply (capacity_set _ j x); [done|by destruct x|done]).
  destruct s as [h js ss us nx rq]. cbn in Hy, Hx. destruct (done_ x) as [k|].
  - unfold call_done. cbn. rewrite Hy. destruct (completion_stopped k (scheduler_ y) Hs Hq) as [cs ->].
    cbn [fst snd]. split; [|done|done]. eapply prog_ext; [| |exact (P cs)]; [|done]. intros i'.
    destruct y as [c u r b [q run stop cs0] st]. cbn.
    by apply (view_heap (session_ x) (Session c u r b (JobScheduler q run stop cs) st)); [|eexists].
  - split; [|done|done]. eapply prog_ext; [| |exact (P (completed_ (scheduler_ y)))]; [|done]. intros i'.
    unfold fupd. case_decide as E; [|done]. subst i'. unfold view. cbn. rewrite Hy. cbn.
    by destruct (scheduler_ y).
Qed.

Lemma alive_shut L j ws s :
  ordered L (CancelJob j kShutdown :: ws) s -> alive none L (CancelJob j kShutdown :: ws) s ->
  alive none L ws (job_cancel j kShutdown s).2.
Proof.
  intros O A. pose proof (or_calling _ _ _ _ _ O) as I.
  inversion I as [| |i v ws0 Hv Hs Hall E]. subst ws0.
  apply Forall_cons_1 in Hall as [(j0&x&Ej0&Hx&Hxi&_) _]. injection Ej0 as <-. subst i.
  destruct (or_flags _ _ _ _ _ O _ _ Hv) as [_ Hq]. specialize (Hq Hs).
  destruct (view_inv _ _ _ Hv) as (y&Hy&->). cbn [fst snd] in *.
  unfold job_cancel. rewrite Hx.
  destruct (decide (finished_ x = true \/ room_job (kind x) = false)) as [Hno|Hyes].
  { assert (Hd : forall k, done_ x <> Some k).
    { intros k Hd. destruct (or_done _ _ _ _ _ O j x k Hx Hd) as (?&?&_). destruct Hno; congruence. }
    assert (P : alive none L ws s).
    { destruct A as [A B C]. split; [|done|done]. by eapply prog_cancel_noop. }
    destruct Hno as [Hf|Hr]; [rewrite Hf; by destruct (kind x)|]. by destruct (kind x). }
  apply Decidable.not_or in Hyes as [Hf Hr].
  apply not_true_is_false in Hf. apply not_false_is_true in Hr.
  pose proof (alive_cancel_request none L _ j x s A ltac:(done) Hx) as A1.
  destruct (cancel_request_ordered L _ (room_request_id_ x) s O) as (_&O1&Ej&Eh).
  destruct (cancel_request (room_request_id_ x) s) as [es s1]. cbn [fst snd] in *.
  rewrite <- Eh in Hy. rewrite <- Ej in Hx.
  pose proof (alive_finish_shut L j ws x y s1 O1 A1 Hx Hf Hy Hs Hq) as P.
  destruct (finish j s1) as [ws' s2]. cbn [fst snd] in P.
  destruct (kind x); try done; by rewrite Hf.
Qed.

(** ** Chains of calls, tasks and events *)

Lemma alive_work fuel now L ws s :
  ordered L ws s -> alive none L ws s -> OutOfFuel ∉ (work fuel now ws s).1 ->
  alive none (L ++ omap sender (work fuel now ws s).1) [] (work fuel now ws s).2.
Proof.
  revert L ws s. induction fuel as [|fuel IH]; intros L [|w ws] s O A Hf; cbn [work] in *;
    try (cbn; by rewrite app_nil_r); [cbn in Hf; set_solver|].
  pose proof (or_calling _ _ _ _ _ O) as I.
  inversion I as [|v j k x _ _ _ _ _ E|i v ws0 _ _ Hall E]; subst.
  - pose proof (ordered_run L j k now s O) as O1. pose proof (alive_run L j k now s O A) as A1.
    cbn zeta in O1, A1. destruct (job_run j k now s) as [[es ws'] s1]. cbn [fst snd] in O1, A1.
    rewrite app_nil_r in *. specialize (IH _ ws' s1 O1 A1).
    destruct (work fuel now ws' s1) as [es' s2]. cbn [fst snd] in *.
    rewrite omap_app, (assoc_L (++)). apply IH. set_solver.
  - apply Forall_cons_1 in Hall as [(j&x&->&_) _].
    destruct (ordered_shut L j ws s O) as (Hes&Hws&O1). pose proof (alive_shut L j ws s O A) as A1.
    destruct (job_cancel j kShutdown s) as [[es ws'] s1]. cbn [fst snd] in *. subst ws'. cbn [app] in *.
    specialize (IH _ ws s1 O1 A1). destruct (work fuel now ws s1) as [es' s2]. cbn [fst snd] in *.
    rewrite omap_app, Hes. apply IH. set_solver.
Qed.

Lemma alive_drain now L ws s :
  ordered L ws s -> alive none L ws s ->
  alive none (L ++ omap sender (drain now ws s).1) [] (drain now ws s).2.
Proof. intros O A. apply alive_work; [done|done|]. by apply work_total. Qed.

(** A handler leaves the strand; the job it mentions is being woken. *)
Lemma alive_unstrand L i y t ts s :
  alive none L [] s -> heap_ s !! i = Some y -> strand_ y = t :: ts -> pushed t = None ->
  alive (mentions t) L [] (set_session i (y <| strand_ := ts |>) s).
Proof.
  intros [A B C] Hy Et Hp. eapply alive_set_session; [done| |done|done].
  replace (scheduler_ _, strand_ _) with (scheduler_ y, ts) by (by destruct y).
  apply (prog_strand none (mentions t) L [] _ (view s) _ i (scheduler_ y, strand_ y)); [by apply view_lookup|..|done].
  - cbn [snd]. rewrite Et. cbn. by rewrite Hp.
  - done.
  - intros t' j Ht Hm. cbn [snd] in Ht. rewrite Et in Ht.
    apply elem_of_cons in Ht as [->|Ht]; [by left|by right].
Qed.

(** The responses in the strands are of the class their jobs wait for. *)
Definition castable (s : user_server) : Prop :=
  forall i y j r, heap_ s !! i = Some y -> TResponse j r ∈ strand_ y -> waits s j (response_type r).

Lemma typed_castable I L s : typed I L s -> castable s.
Proof. intros T i y j r Hy Hr. by destruct (ty_strand _ _ _ T i y j r Hy Hr). Qed.

Lemma alive_strand L i now s :
  ordered L [] s -> alive none L [] s -> castable s ->
  let r := exec (RunStrand i now) s in alive none (L ++ omap sender r.1) [] r.2.
Proof.
  intros O A T. cbn [exec]. destruct (heap_ s !! i) as [y|] eqn:Hy; [|cbn; by rewrite app_nil_r].
  destruct (strand_ y) as [|t ts] eqn:Et; [cbn; by rewrite app_nil_r|]. cbn zeta.
  set (y1 := y <| strand_ := ts |>). set (s1 := set_session i y1 s).
  assert (Hy1 : heap_ s1 !! i = Some y1).
  { unfold s1. destruct s. cbn. apply list_lookup_insert_eq. by eapply lookup_lt_Some. }
  assert (E1 : scheduler_ y1 = scheduler_ y /\ strand_ y1 = ts) by (by destruct y).
  destruct E1 as [E1 E1'].
  assert (Ej : jobs_ s1 = jobs_ s) by (by destruct s).
  assert (Hst : forall j, mentions t j -> started (jobs_ s1) j).
  { intros j Hj. rewrite Ej.
    eapply (or_strand _ _ _ _ _ O i _ t j (view_lookup _ _ _ Hy)); [|done]. cbn. rewrite Et. by left. }
  assert (O1 : pushed t = None -> ordered L [] s1) by (intros Hp; by apply (ordered_unstrand L i y t ts)).
  assert (A1 : pushed t = None -> alive (mentions t) L [] s1) by (intros Hp; by apply alive_unstrand).
  unfold run_task. rewrite Hy1. destruct t as [j|j r|j|]; cbn [pushed] in *.
  - pose proof (ord_push L _ _ _ i _ j ts O (view_lookup _ _ _ Hy) Et) as P.
    pose proof (prog_push L _ _ _ i _ j ts (al_prog _ _ _ _ A) O (view_lookup _ _ _ Hy) Et) as P'.
    cbn [fst] in P, P'. rewrite E1. destruct (push_and_run j (scheduler_ y)) as [ws sch].
    unfold s1. rewrite set_session_twice. destruct A. apply alive_drain.
    + apply (ordered_scheduler _ _ _ y); [|done]. subst y1. by destruct y.
    + apply (alive_set_session _ _ _ _ y); (subst y1; by destruct y).
  - assert (A2 : alive (only j) L [] s1) by (eapply alive_ext; [..|exact (A1 eq_refl)]; done).
    assert (Hw : waits s1 j (response_type r)).
    { unfold waits. rewrite Ej. apply (T i y j r Hy). rewrite Et. by left. }
    pose proof (ordered_response L j r s1 (O1 eq_refl) (Hst j eq_refl)) as P.
    pose proof (alive_response L j r s1 (O1 eq_refl) A2 (Hst j eq_refl) Hw) as P'. cbn zeta in P, P'.
    destruct (handle_response j r s1) as [[es ws] s2]. apply (alive_drain now) in P'; [|done].
    cbn [fst snd] in P'. destruct (drain now ws s2). cbn [fst snd] in *. by rewrite omap_app, (assoc_L (++)).
  - assert (A2 : alive (only j) L [] s1) by (eapply alive_ext; [..|exact (A1 eq_refl)]; done).
    assert (Hx : is_Some (jobs_ s1 !! j)) by (destruct (Hst j eq_refl) as (x&Hx&_); by exists x).
    pose proof (ordered_timeout L j s1 (O1 eq_refl) (Hst j eq_refl)) as P.
    pose proof (alive_timeout L j s1 (O1 eq_refl) A2 (Hst j eq_refl) Hx) as P'. cbn zeta in P, P'.
    destruct (job_cancel j Scheduler.kTimeout s1) as [[es ws] s2]. apply (alive_drain now) in P'; [|done].
    cbn [fst snd] in P'. destruct (drain now ws s2). cbn [fst snd] in *. by rewrite omap_app, (assoc_L (++)).
  - assert (A2 : alive none L [] s1) by (eapply alive_ext; [..|exact (A1 eq_refl)]; done).
    pose proof (ord_shutdown L _ _ _ i _ (O1 eq_refl) (view_lookup _ _ _ Hy1)) as P.
    pose proof (prog_shutdown L _ _ _ i _ (al_prog _ _ _ _ A2) (O1 eq_refl) (view_lookup _ _ _ Hy1)) as P'.
    cbn [fst snd] in P, P'. destruct (shutdown (scheduler_ y1)) as [ws sch]. destruct A2. apply alive_drain.
    + apply (ordered_scheduler _ _ _ y1); [|done]. clearbody s1. subst y1. by destruct y.
    + apply (alive_set_session _ _ _ _ y1); (clearbody s1; subst y1; by destruct y).
Qed.

(** The callbacks of the table wake the jobs they belong to. *)
Lemma alive_invoke_all X L cs s :
  ordered L [] s -> alive X L [] s -> Forall (fun c => started (jobs_ s) (call_job c)) cs ->
  (forall j, X j -> j ∈ call_job <$> cs) -> alive none L [] (invoke_all cs s).2.
Proof.
  revert X s. induction cs as [|c cs IH]; intros X s O A Hc HX; cbn [invoke_all].
  { eapply alive_ext; [..|exact A]; try done. intros j Hj. specialize (HX j Hj). cbn in HX. set_solver. }
  apply Forall_cons_1 in Hc as [Hc Hcs].
  assert (P : ordered L [] (invoke s c).2 /\
    alive (fun j => j ∈ call_job <$> cs) L [] (invoke s c).2 /\ jobs_ (invoke s c).2 = jobs_ s).
  { destruct Hc as (x&Hx&Hs).
    assert (Hgo : forall t, pushed t = None -> (forall j, mentions t j <-> call_job c = j) ->
      ordered L [] (post (session_ x) t s) /\
      alive (fun j => j ∈ call_job <$> cs) L [] (post (session_ x) t s) /\
      jobs_ (post (session_ x) t s) = jobs_ s).
    { intros t Hp Hm. split_and!; [|eapply alive_post; [done|exact A|done|]|apply jobs_post].
      - apply ordered_post; [done|done|]. intros j <-%Hm. by exists x.
      - intros j x' Hj Hx'. apply HX in Hj. apply elem_of_cons in Hj as [->|Hj]; [right|by left].
        split; [congruence|]. by apply Hm. }
    destruct c as [j r|[j id]]; cbn in *; rewrite Hx; by apply Hgo. }
  destruct (invoke s c) as [es s1]. cbn [fst snd] in P. destruct P as (O1&A1&Ej).
  rewrite <- Ej in Hcs. specialize (IH _ s1 O1 A1 Hcs). destruct (invoke_all cs s1) as [es' s2]. auto.
Qed.

Lemma alive_callbacks L cs p s :
  ordered L [] s -> alive none L [] s ->
  Forall (fun c => awaited (Pending.requests_ (requests_ s)) (call_job c)) cs ->
  Pending.requests_ p ⊆ Pending.requests_ (requests_ s) ->
  (forall id q, Pending.requests_ (requests_ s) !! id = Some q -> (on_timeout q).1 = on_response q ->
     Pending.requests_ p !! id = Some q \/ on_response q ∈ call_job <$> cs) ->
  let r := invoke_all cs (s <| requests_ := p |>) in alive none (L ++ omap sender r.1) [] r.2.
Proof.
  intros O A Hc Hp Ht. destruct (ordered_invoke_all L cs (s <| requests_ := p |>)) as [E _].
  { eapply ordered_ext; [| | |exact O]; by destruct s. }
  { eapply Forall_impl; [exact Hc|]. intros c Ha.
    replace (jobs_ _) with (jobs_ s) by (by destruct s). by apply (or_awaited _ _ _ _ _ O). }
  cbn zeta. rewrite E, app_nil_r. destruct s as [h js ss us nx rq]. destruct A as [A B C]. cbn in *.
  apply (alive_invoke_all (fun j => j ∈ call_job <$> cs)); [|split; cbn| |done].
  - eapply ordered_ext; [| | |exact O]; done.
  - destruct A as [A1 A2 A3 A4]. split; try done. intros j x k Hx Hd.
    destruct (A1 j x k Hx Hd) as [[]|[?|[(q&Hq&Hj&Hj')|?]]]; auto.
    destruct (Ht _ q Hq ltac:(congruence)) as [Hq'|Hin]; [|left; congruence].
    do 2 right. left. by exists q.
  - by eapply ids_pending.
  - done.
  - eapply Forall_impl; [exact Hc|]. intros c Ha. by apply (or_awaited _ _ _ _ _ O).
Qed.

Lemma alive_complete L id r now s :
  ordered L [] s -> alive none L [] s ->
  let o := send_to_waiter id r now s in alive none (L ++ omap sender o.1) [] o.2.
Proof.
  intros O A. unfold send_to_waiter. destruct (complete_awaited id r now (requests_ s)) as [Ha Hp].
  destruct (Pending.complete id r now (requests_ s)) as [cs p] eqn:E. apply alive_callbacks; try done.
  intros id' q Hq Et. unfold Pending.complete, take_request in E.
  destruct (Pending.requests_ (requests_ s) !! id) as [q0|] eqn:Hq0; [|simplify_eq; by left].
  destruct (decide (id' = id)) as [->|Hne].
  - right. assert (q0 = q) as -> by congruence. destruct (deadline q <=? now); simplify_eq; cbn; set_solver.
  - left. destruct (deadline q0 <=? now); simplify_eq; cbn; by rewrite lookup_delete_ne.
Qed.

Lemma alive_tick L now s :
  ordered L [] s -> alive none L [] s ->
  let o := expire now s in alive none (L ++ omap sender o.1) [] o.2.
Proof.
  intros O A. unfold expire. destruct (tick_awaited now (requests_ s)) as [Ha Hp].
  destruct (timer_tick now (requests_ s)) as [cs p] eqn:E. apply alive_callbacks; try done.
  intros id q Hq Et. unfold timer_tick in E. case_match; [|simplify_eq; by left].
  pose proof (expire_lookup (Response := room_response) now (requests_ s) id) as Hl.
  pose proof (expire_calls (Response := room_response) now (requests_ s)) as Hcs.
  rewrite E in Hl, Hcs. cbn in Hl, Hcs. rewrite Hq in Hl. destruct (live now q) eqn:El; [by left|right].
  rewrite Hcs, <- list_fmap_compose. apply list_elem_of_fmap. exists (id, q). cbn.
  split; [by rewrite Et|]. apply list_elem_of_filter. by rewrite elem_of_map_entries.
Qed.

(** A session is made; no job was waiting for it. *)
Lemma alive_accept L conn s :
  held s -> alive none L [] s -> alive none L [] (session_manager.add_connection conn s).
Proof.
  intros Hh [A B C]. unfold session_manager.add_connection.
  destruct (sessions_ s !! conn); [done|]. destruct s as [h js ss us nx rq]. cbn in *.
  split; try done. cbn. set (s := UserServer h js ss us nx rq) in *.
  assert (Hold : forall j x, js !! j = Some x ->
    (fun y => (scheduler_ y, strand_ y)) <$> (h ++ [new_session conn]) !! session_ x
    = view s (session_ x)).
  { intros j x Hx. destruct (hd_job _ Hh j x Hx) as [y Hy]. cbn in Hy. unfold view. cbn.
    by rewrite lookup_app_l_Some with (x := y), Hy. }
  destruct A as [A1 A2 A3 A4]. split; unfold woken, view in *; cbn in *.
  - intros j x k Hx Hd. rewrite (Hold j x Hx). eauto.
  - intros i v j Hv Hh'. rewrite lookup_app in Hv. destruct (h !! i) as [y|] eqn:Hy.
    + apply (A2 i v j); [by rewrite Hy|done].
    + apply fmap_Some in Hv as (y&Hy'&->). by apply list_lookup_singleton_Some in Hy' as [_ <-].
  - intros j x v Hx Hr Hf. rewrite (Hold j x Hx). by apply A3.
  - intros j x v Hx Ht. rewrite (Hold j x Hx). by apply A4.
Qed.

(** Jobs are never unmade, so neither are room jobs. *)
Lemma count_grow {A} (f : A -> bool) l l' :
  (forall j x, l !! j = Some x -> exists x', l' !! j = Some x' /\ f x' = f x) -> count f l <= count f l'.
Proof.
  revert l'. induction l as [|x l IH]; intros l' Hl; [apply count_nonneg|].
  destruct (Hl 0%nat x eq_refl) as (x'&Hx'&E). destruct l' as [|y l']; [done|]. injection Hx' as ->.
  unfold count in *. rewrite !sumz_cons, E. specialize (IH l'). cut (sumz (fun x => Z.b2z (f x)) l <=
    sumz (fun x => Z.b2z (f x)) l'); [lia|]. apply IH. intros j z Hz. exact (Hl (S j) z Hz).
Qed.

Lemma capacity_exec e s : capacity (jobs_ (exec e s).2) -> capacity (jobs_ s).
Proof.
  unfold capacity. intros Hc. eapply Z.le_lt_trans; [|exact Hc]. apply count_grow.
  intros j x Hx. destruct (st_jobs _ _ _ (steps_exec e s) j x Hx) as (x'&Hx'&Hj). exists x'.
  split; [done|]. unfold is_room. by rewrite (js_kind _ _ _ _ Hj).
Qed.

Lemma alive_quiet L es s :
  alive none L [] s -> omap sender es = [] -> alive none (L ++ omap sender es) [] s.
Proof. intros A ->. by rewrite app_nil_r. Qed.

Lemma alive_exec L e s :
  ordered L [] s -> held s -> castable s -> capacity (jobs_ (exec e s).2) ->
  alive none L [] s -> alive none (L ++ omap sender (exec e s).1) [] (exec e s).2.
Proof.
  intros O Hh T Hc A. destruct e as [conn|conn|i m|i now|id r now|u k|now].
  - apply (alive_quiet _ []); [by apply alive_accept|done].
  - apply (alive_quiet _ []); [|done]. cbn. unfold on_conn_closed, session_manager.remove_session.
    destruct (sessions_ s !! conn) as [i|]; [|done].
    apply (alive_post none); [| |done|by intros j x []].
    + eapply ordered_ext; [| | |exact O]; by destruct s.
    + eapply alive_ext; [..|exact A]; by destruct s.
  - cbn [exec] in *. unfold on_recv in *. destruct (heap_ s !! i); [|by apply alive_quiet].
    destruct m; apply alive_quiet; try done; by apply alive_enqueue.
  - by apply alive_strand.
  - by apply alive_complete.
  - apply (alive_quiet _ []); [|done]. cbn in *. unfold pass_to_session in *.
    destruct (session_manager.find_session u s); [by apply alive_enqueue|done].
  - by apply alive_tick.
Qed.

Lemma alive_start : alive none [] [] server_start.
Proof.
  split; [|split|]; cbn; try done; try (intros; by rewrite ?lookup_empty in *).
Qed.
