(* ===== verification/Schedule.v ===== *)
(** * Schedule: the jobs of a session come to their end

    From any reachable state, the turns of a session's strand and the ticks of
    the timer thread finish every job the session has: first the handlers that
    wait in the strand are run, so that every job is queued; then the job at
    the head of the queue is woken, by a handler that is already there or by
    its timeout, ends, and lets the next one run. *)

From S2P Require Import Prelude Wire Scheduler Pending Sessions Order Logins Replies Handles.
From S2P Require Import Progress Liveness.
From coqutil Require Import Datatypes.RecordSetters.
Import TriangleBracketNotations.
Import room_channel.
#[local] Arguments constant {_} _ _ /.

Record good (L : list nat) (s : user_server) : Prop := {
  gd_ordered : ordered L [] s;
  gd_alive : alive none L [] s;
  gd_held : held s;
  gd_registered : registered s;
  gd_typed : typed (fun _ _ => True) (fun _ => True) s;
}.

(** The events of the schedule: time [T] has come. *)
Definition turn (i : nat) (T : Z) (e : event) : Prop :=
  match e with
  | RunStrand i' now => i' = i /\ T <= now
  | Tick now => T <= now
  | _ => False
  end.

Lemma good_turn i T e L s :
  turn i T e -> good L s -> good (L ++ omap sender (exec e s).1) (exec e s).2.
Proof.
  intros He [O A H R Ty]. split.
  - by apply ordered_exec.
  - destruct e; try done; [apply alive_strand|apply alive_tick]; try done. by eapply typed_castable.
  - by apply held_step.
  - by apply registered_exec.
  - eapply (sound_exec (fun _ _ => True) (fun _ => True)); [by destruct e|done|done|done].
Qed.

Lemma length_invoke_all cs s : length (heap_ (invoke_all cs s).2) = length (heap_ s).
Proof.
  revert s. induction cs as [|c cs IH]; intros s; cbn [invoke_all]; [done|].
  assert (H1 : length (heap_ (invoke s c).2) = length (heap_ s)).
  { destruct c as [j r|[j id]]; cbn; destruct (jobs_ s !! j); try done;
      unfold post; case_match; try done; destruct s; apply length_insert. }
  destruct (invoke s c) as [es s1]. specialize (IH s1). destruct (invoke_all cs s1). cbn in *. congruence.
Qed.

Section eventually.
Context (i : nat) (T : Z).

(** Some turns lead to [P]. *)
Definition eventually (P : list nat -> user_server -> Prop) (L : list nat) (s : user_server) : Prop :=
  exists evs, Forall (turn i T) evs /\
    P (L ++ omap sender (mjoin (run exec evs s).1)) (run exec evs s).2.

Lemma eventually_now (P : list nat -> user_server -> Prop) L s : P L s -> eventually P L s.
Proof. intros HP. exists []. cbn. by rewrite app_nil_r. Qed.

Lemma eventually_turn e (P : list nat -> user_server -> Prop) L s :
  turn i T e -> eventually P (L ++ omap sender (exec e s).1) (exec e s).2 -> eventually P L s.
Proof.
  intros He (evs&Hevs&HP). exists (e :: evs). split; [by constructor|].
  rewrite run_cons. cbn [fst snd]. by rewrite mjoin_cons, omap_app, (assoc_L (++)).
Qed.

Lemma eventually_bind (P Q : list nat -> user_server -> Prop) L s :
  eventually P L s -> (forall L' s', P L' s' -> eventually Q L' s') -> eventually Q L s.
Proof.
  intros (evs&Hevs&HP) HQ. apply HQ in HP as (evs'&Hevs'&HP). exists (evs ++ evs').
  split; [by apply Forall_app|]. rewrite run_app. cbn [fst snd].
  by rewrite mjoin_app, omap_app, (assoc_L (++)).
Qed.

(** ** What a turn keeps *)

(** No job made before there were [n] is to be pushed. *)
Definition settled (n : nat) (s : user_server) : Prop :=
  (n <= length (jobs_ s))%nat /\
  forall y j, heap_ s !! i = Some y -> TPush j ∈ strand_ y -> (n <= j)%nat.

(** The early jobs that are queued. *)
Definition early (n : nat) (s : user_server) : gset nat :=
  list_to_set (filter (fun j => (j < n)%nat) (from_option (fun y => q_ (scheduler_ y)) [] (heap_ s !! i))).

Lemma elem_of_early n s j :
  j ∈ early n s <-> exists y, heap_ s !! i = Some y /\ j ∈ q_ (scheduler_ y) /\ (j < n)%nat.
Proof.
  unfold early. rewrite elem_of_list_to_set, list_elem_of_filter.
  destruct (heap_ s !! i) as [y|]; cbn; [naive_solver|]. rewrite elem_of_nil. naive_solver.
Qed.

Definition finished (j : nat) (s : user_server) : Prop :=
  exists x, jobs_ s !! j = Some x /\ finished_ x = true.

Lemma finished_steps s es s' j : steps s es s' -> finished j s -> finished j s'.
Proof.
  intros S (x&Hx&Hf). destruct (st_jobs _ _ _ S j x Hx) as (x'&Hx'&Hj). exists x'.
  split; [done|]. by apply (js_finished _ _ _ _ Hj).
Qed.

(** The queues and the strands after a tick: only timeouts are posted. *)
Definition notified (s s' : user_server) : Prop := forall k y', heap_ s' !! k = Some y' ->
  exists y new, heap_ s !! k = Some y /\ strand_ y' = strand_ y ++ new /\
    scheduler_ y' = scheduler_ y /\ forall j, TPush j ∉ new.

#[local] Instance notified_preorder : PreOrder notified.
Proof.
  split.
  - intros s k y Hy. exists y, []. rewrite app_nil_r. split_and!; try done. intros j. apply not_elem_of_nil.
  - intros s1 s2 s3 N1 N2 k y3 (y2&n2&Hy2&E2&G2&P2)%N2. destruct (N1 k y2 Hy2) as (y1&n1&Hy1&E1&G1&P1).
    exists y1, (n1 ++ n2). split_and!; [done|by rewrite E2, E1, app_assoc|congruence|].
    intros j. rewrite not_elem_of_app. auto.
Qed.

Lemma notified_post i0 t s : (forall j, t <> TPush j) -> notified s (post i0 t s).
Proof.
  intros Ht. unfold post. destruct (heap_ s !! i0) as [y0|] eqn:Hy0; [|done].
  intros k y' Hy'. destruct s as [h js ss us nx rq]. cbn in *.
  destruct (lookup_set _ _ _ _ _ _ Hy0 Hy') as [[-> ->]|[_ Hk]].
  - exists y0, [t]. destruct y0. split_and!; try done. intros j Hj%list_elem_of_singleton. by destruct (Ht j).
  - exists y', []. rewrite app_nil_r. split_and!; try done. intros j. apply not_elem_of_nil.
Qed.

Lemma notified_invoke_all cs s : notified s (invoke_all cs s).2.
Proof.
  revert s. induction cs as [|c cs IH]; intros s; cbn [invoke_all]; [done|].
  assert (H1 : notified s (invoke s c).2).
  { destruct c as [j r|[j id]]; cbn; destruct (jobs_ s !! j); try done; by apply notified_post. }
  destruct (invoke s c) as [es s1]. specialize (IH s1). destruct (invoke_all cs s1). by etrans.
Qed.

Lemma notified_tick now s : notified s (exec (Tick now) s).2.
Proof.
  cbn [exec]. unfold expire. destruct (timer_tick now (requests_ s)) as [cs p].
  pose proof (notified_invoke_all cs (s <| requests_ := p |>)) as H. by destruct s.
Qed.

Lemma settled_turn n e s :
  turn i T e -> settled n s -> settled n (exec e s).2 /\ early n (exec e s).2 ⊆ early n s.
Proof.
  intros He S0. pose proof S0 as [Hn Hs]. assert (Hn' : (n <= length (jobs_ (exec e s).2))%nat).
  { destruct n as [|n]; [lia|]. destruct (lookup_lt_is_Some_2 (jobs_ s) n) as [x Hx]; [lia|].
    destruct (st_jobs _ _ _ (steps_exec e s) n x Hx) as (x'&Hx'%lookup_lt_Some&_). lia. }
  destruct e as [| | |i' now| | |now]; try done.
  - destruct He as [-> _]. destruct (heap_ s !! i) as [y|] eqn:Hy.
    2: { cbn [exec]. rewrite Hy. done. }
    destruct (strand_ y) as [|t ts] eqn:Et.
    { cbn [exec]. rewrite Hy, Et. done. }
    destruct (strand_frame i now s y t ts Hy Et) as (y1&Es&Hq&F).
    assert (Hh : forall y', heap_ (exec (RunStrand i now) s).2 !! i = Some y' -> exists new,
      strand_ y' = ts ++ new /\ Forall (fresh (length (jobs_ s))) new /\
      q_ (scheduler_ y') ⊆ q_ (scheduler_ y) ++ option_list (pushed t)).
    { intros y' Hy'. destruct (hf_session _ _ F i y' Hy') as (y2&new&Hy2&E2&Hnew&Hq2).
      assert (y2 = y1) as ->.
      { destruct s. cbn in Hy2. rewrite list_lookup_insert_eq in Hy2 by (by eapply lookup_lt_Some). congruence. }
      exists new. rewrite E2, Es. destruct s. split_and!; [done|done|set_solver]. }
    split; [split; [done|]|].
    + intros y' j Hy' Hj. destruct (Hh y' Hy') as (new&E&Hnew&_). rewrite E in Hj.
      apply elem_of_app in Hj as [Hj|Hj]; [apply (Hs y j eq_refl); rewrite Et; by right|].
      rewrite Forall_forall in Hnew. destruct (Hnew _ Hj) as (j'&[= <-]&?). lia.
    + intros j. rewrite !elem_of_early. intros (y'&Hy'&Hj&Hlt). exists y. split_and!; try done.
      destruct (Hh y' Hy') as (_&_&_&Hsub). apply Hsub, elem_of_app in Hj as [Hj|Hj]; [done|].
      destruct t as [j'| | |]; cbn in Hj; try (by apply elem_of_nil in Hj).
      apply list_elem_of_singleton in Hj as ->. specialize (Hs y j' eq_refl).
      rewrite Et in Hs. specialize (Hs ltac:(by left)). lia.
  - split; [split; [done|]|].
    + intros y' j Hy' Hj. destruct (notified_tick now s i y' Hy') as (y&new&Hy&E&_&Hnew).
      rewrite E in Hj. apply elem_of_app in Hj as [Hj|Hj]; [eauto|]. by destruct (Hnew j).
    + intros j. rewrite !elem_of_early. intros (y'&Hy'&Hj&Hlt).
      destruct (notified_tick now s i y' Hy') as (y&new&Hy&_&E&_). exists y. rewrite <- E. done.
Qed.
(** ** The strand is run *)

Lemma strand_turn now s y t ts :
  heap_ s !! i = Some y -> strand_ y = t :: ts -> exists y' new,
    heap_ (exec (RunStrand i now) s).2 !! i = Some y' /\ strand_ y' = ts ++ new /\
    Forall (fresh (length (jobs_ s))) new.
Proof.
  intros Hy Et. destruct (strand_frame i now s y t ts Hy Et) as (y1&Es&_&F).
  assert (E : heap_ (set_session i y1 s) = <[i := y1]> (heap_ s)) by (by destruct s).
  assert (Ej : jobs_ (set_session i y1 s) = jobs_ s) by (by destruct s).
  pose proof (lookup_lt_Some _ _ _ Hy) as Hl.
  destruct (lookup_lt_is_Some_2 (heap_ (exec (RunStrand i now) s).2) i) as [y' Hy'].
  { by rewrite (hf_heap _ _ F), E, length_insert. }
  destruct (hf_session _ _ F i y' Hy') as (y2&new&Hy2&E2&Hnew&_). rewrite Ej in Hnew.
  rewrite E, list_lookup_insert_eq in Hy2 by done. injection Hy2 as <-. rewrite Es in E2. eauto.
Qed.

Lemma turn_strand : turn i T (RunStrand i T).
Proof. done. Qed.

Lemma settle n old L s y new :
  good L s -> (n <= length (jobs_ s))%nat -> heap_ s !! i = Some y -> strand_ y = old ++ new ->
  (forall j, TPush j ∈ new -> (n <= j)%nat) ->
  eventually (fun L' s' => good L' s' /\ settled n s') L s.
Proof.
  revert L s y new. induction old as [|t old IH]; intros L s y new G Hn Hy Es Hnew.
  { apply eventually_now. split; [done|]. split; [done|]. intros y0 j Hy0. simplify_eq.
    rewrite Es. apply Hnew. }
  destruct (strand_turn T s y t (old ++ new) Hy Es) as (y'&new'&Hy'&Es'&Hf).
  apply (eventually_turn _ _ _ _ turn_strand). rewrite <- (assoc_L (++)) in Es'.
  eapply IH; [by apply (good_turn i T)| |exact Hy'|exact Es'|].
  - destruct n as [|n]; [lia|]. destruct (lookup_lt_is_Some_2 (jobs_ s) n) as [x Hx]; [lia|].
    destruct (st_jobs _ _ _ (steps_exec (RunStrand i T) s) n x Hx) as (x'&Hx'%lookup_lt_Some&_). lia.
  - intros j [Hj|Hj]%elem_of_app; [auto|]. rewrite Forall_forall in Hf.
    destruct (Hf _ Hj) as (j'&[= <-]&?). lia.
Qed.

(** ** A job is woken *)

Lemma finish_finishes j s : is_Some (jobs_ s !! j) -> finished j (finish j s).2.
Proof.
  intros [x Hx]. destruct (finished_ x) eqn:Hf; unfold finished.
  - unfold finish. rewrite Hx, Hf. eauto.
  - rewrite (jobs_finish j x s Hx Hf), list_lookup_insert_eq by (by eapply lookup_lt_Some).
    eexists. split; [done|]. by destruct x.
Qed.

Lemma response_finishes j r s x :
  jobs_ s !! j = Some x -> is_Some (heap_ s !! session_ x) -> waits s j (response_type r) ->
  finished j (handle_response j r s).2.
Proof.
  intros Hx [y Hy] (x'&Hx'&Ht). assert (x' = x) as -> by congruence. open_handle_response. rewrite Hx.
  destruct (finished_ x) eqn:Hf; [by exists x|]. rewrite Hy.
  destruct (kind x), r; simplify_eq/=;
    match goal with |- context [finish j ?s1] =>
      pose proof (finish_finishes j s1 ltac:(destruct s; eauto)); by destruct (finish j s1) end.
Qed.

Lemma timeout_finishes j s x :
  jobs_ s !! j = Some x -> room_job (kind x) = true -> finished j (job_cancel j Scheduler.kTimeout s).2.
Proof.
  intros Hx Hr. unfold job_cancel. rewrite Hx.
  destruct (jobs_cancel_request (room_request_id_ x) s) as [E _].
  destruct (cancel_request (room_request_id_ x) s) as [es s1]. cbn [fst snd] in E.
  pose proof (finish_finishes j s1 ltac:(rewrite E; eauto)) as P. destruct (finish j s1) as [ws s2].
  destruct (finished_ x) eqn:Hf; destruct (kind x); try done; by exists x.
Qed.

Lemma mention_finishes L now s y t ts j :
  good L s -> heap_ s !! i = Some y -> strand_ y = t :: ts -> mentions t j ->
  finished j (exec (RunStrand i now) s).2.
Proof.
  intros [O _ Hh _ Ty] Hy Et Hm.
  assert (Ht : t ∈ strand_ y) by (rewrite Et; left).
  destruct (or_strand _ _ _ _ _ O i _ t j (view_lookup _ _ _ Hy) Ht Hm) as (x&Hx&Hd).
  destruct (finished_ x) eqn:Hf; [by eapply finished_steps; [apply steps_exec|exists x]|].
  destruct Hd as [?|[k Hd]]; [congruence|].
  destruct (or_done _ _ _ _ _ O j x k Hx Hd) as (_&Hr&_).
  cbn [exec]. rewrite Hy, Et. set (s1 := set_session i _ s).
  assert (Ej : jobs_ s1 = jobs_ s) by (by destruct s).
  assert (Hh1 : forall i', is_Some (heap_ s !! i') -> is_Some (heap_ s1 !! i')).
  { intros i'. rewrite !lookup_lt_is_Some. unfold s1. destruct s. cbn. by rewrite length_insert. }
  destruct (Hh1 i) as [y1 Hy1]; [eauto|]. unfold run_task. rewrite Hy1.
  destruct t as [|j' r|j'|]; cbn in Hm; try done; subst j'.
  - assert (P : finished j (handle_response j r s1).2).
    { apply (response_finishes j r s1 x); [by rewrite Ej|by apply Hh1, (hd_job _ Hh j)|].
      unfold waits. rewrite Ej. apply (typed_castable _ _ _ Ty i y j r Hy Ht). }
    destruct (handle_response j r s1) as [[es ws] s2]. unfold drain.
    pose proof (finished_steps _ _ _ j (steps_work (length ws + queued s2) now ws s2) P).
    by destruct (work _ now ws s2).
  - assert (P : finished j (job_cancel j Scheduler.kTimeout s1).2)
      by (apply (timeout_finishes j s1 x); [by rewrite Ej|done]).
    destruct (job_cancel j Scheduler.kTimeout s1) as [[es ws] s2]. unfold drain.
    pose proof (finished_steps _ _ _ j (steps_work (length ws + queued s2) now ws s2) P).
    by destruct (work _ now ws s2).
Qed.

(** Some turns finish job [j], and queue no early job. *)
Definition ends (n j : nat) (s0 : user_server) (L : list nat) (s : user_server) : Prop :=
  good L s /\ settled n s /\ early n s ⊆ early n s0 /\ finished j s.

Lemma woken_ends n L s y pre t ts j :
  good L s -> settled n s -> heap_ s !! i = Some y -> strand_ y = pre ++ t :: ts -> mentions t j ->
  eventually (ends n j s) L s.
Proof.
  revert L s y ts. induction pre as [|t0 pre IH]; intros L s y ts G St Hy Et Hm;
    destruct (settled_turn n (RunStrand i T) s turn_strand St) as [St' Hsub];
    apply (eventually_turn _ _ _ _ turn_strand).
  - apply eventually_now. split_and!; try done; [by apply (good_turn i T)|].
    by eapply mention_finishes.
  - destruct (strand_turn T s y t0 (pre ++ t :: ts) Hy Et) as (y'&new&Hy'&Es'&_).
    rewrite <- (assoc_L (++)) in Es'. cbn [app] in Es'.
    eapply eventually_bind; [eapply IH; [by apply (good_turn i T)|done|exact Hy'|exact Es'|done]|].
    intros L' s' (G'&S'&E'&F'). apply eventually_now. split_and!; try done. set_solver.
Qed.

(** A tick after the deadline of a job's request takes it from the table. *)
Lemma invoke_all_frame cs s :
  jobs_ (invoke_all cs s).2 = jobs_ s /\ requests_ (invoke_all cs s).2 = requests_ s.
Proof.
  revert s. induction cs as [|c cs IH]; intros s; cbn [invoke_all]; [done|].
  assert (H1 : jobs_ (invoke s c).2 = jobs_ s /\ requests_ (invoke s c).2 = requests_ s).
  { destruct c as [j r|[j id]]; cbn; destruct (jobs_ s !! j); cbn; try done;
      (split; [apply jobs_post|]); unfold post; case_match; by destruct s. }
  destruct (invoke s c) as [es s1]. specialize (IH s1). destruct (invoke_all cs s1). cbn in *.
  destruct H1, IH. split; congruence.
Qed.

Lemma tick_takes now s id q :
  held s -> Pending.requests_ (requests_ s) !! id = Some q -> deadline q <= now ->
  jobs_ (exec (Tick now) s).2 = jobs_ s /\
  Pending.requests_ (requests_ (exec (Tick now) s).2) !! id = None.
Proof.
  intros Hh Hq Hd. pose proof (hd_timer _ Hh) as Ht. unfold timing in Ht. cbn [exec].
  unfold expire, timer_tick. rewrite Ht.
  pose proof (expire_lookup (Response := room_response) now (requests_ s) id) as Hl.
  destruct (Pending.expire now (requests_ s)) as [cs p]. cbn [snd] in Hl.
  destruct (invoke_all_frame cs (s <| requests_ := p |>)) as [-> ->]. destruct s. cbn in *.
  split; [done|]. rewrite Hl, Hq. unfold live. by replace (now <? deadline q) with false by (symmetry; lia).
Qed.

Lemma woken_split s j x :
  session_ x = i -> woken (view s) j x -> exists y pre t ts,
    heap_ s !! i = Some y /\ strand_ y = pre ++ t :: ts /\ mentions t j.
Proof.
  intros <- (v&t&Hv&Ht&Hm). destruct (view_inv _ _ _ Hv) as (y&Hy&->).
  apply list_elem_of_split in Ht as (pre&ts&E). by exists y, pre, t, ts.
Qed.

(** The job at the head of the queue ends. *)
Lemma head_ends n L s y j :
  good L s -> settled n s -> heap_ s !! i = Some y -> head (q_ (scheduler_ y)) = Some j ->
  eventually (ends n j s) L s.
Proof.
  intros G St Hy Hh. pose proof G as [O [A _ _] H R Ty].
  destruct (pg_busy _ _ _ _ _ _ A i _ j (view_lookup _ _ _ Hy) Hh) as [(x&k&Hx&Hd)|[k Hk]]; [|done].
  destruct (or_line _ _ _ _ _ O i _ j (view_lookup _ _ _ Hy)) as (x0&Hx0&Hi&_).
  { unfold line. cbn. destruct (q_ (scheduler_ y)); [done|]. injection Hh as ->. set_solver. }
  assert (x0 = x) as -> by congruence.
  destruct (pg_wake _ _ _ _ _ _ A j x k Hx Hd) as [[]|[Hc|[(q&Hq&Hj&_)|Hw]]]; [by apply elem_of_nil in Hc| |].
  - set (now := Z.max T (deadline q)). assert (He : turn i T (Tick now)) by (cbn; lia).
    destruct (tick_takes now s _ q H Hq) as [Ej Hn]; [lia|].
    pose proof (good_turn i T _ _ _ He G) as G'. destruct (settled_turn n _ s He St) as [St' Hsub].
    apply (eventually_turn _ _ _ _ He). set (s' := (exec (Tick now) s).2) in *.
    rewrite <- Ej in Hx. pose proof G' as [_ [A' _ _] _ _ _].
    destruct (pg_wake _ _ _ _ _ _ A' j x k Hx Hd) as [[]|[Hc|[(q'&Hq'&_)|Hw]]];
      [by apply elem_of_nil in Hc|congruence|].
    destruct (woken_split s' j x Hi Hw) as (y'&pre&t&ts&Hy'&Et&Hm).
    eapply eventually_bind; [by eapply (woken_ends n _ s')|].
    intros L1 s1 (?&?&?&?). apply eventually_now. split_and!; try done. set_solver.
  - destruct (woken_split s j x Hi Hw) as (y'&pre&t&ts&Hy'&Et&Hm). by eapply woken_ends.
Qed.

(** Early jobs are in front of the others. *)
Lemma early_head n L s :
  good L s -> early n s <> ∅ -> exists y j,
    heap_ s !! i = Some y /\ head (q_ (scheduler_ y)) = Some j /\ j ∈ early n s.
Proof.
  intros G Hne. destruct (set_choose_L _ Hne) as [j Hj]. pose proof Hj as Hj0.
  apply elem_of_early in Hj as (y&Hy&Hj&Hlt).
  destruct (q_ (scheduler_ y)) as [|j0 q] eqn:Eq; [by apply elem_of_nil in Hj|].
  exists y, j0. rewrite Eq. split_and!; [done|done|]. apply elem_of_early. exists y. rewrite Eq.
  split_and!; [done|by left|]. apply elem_of_cons in Hj as [->|Hj]; [done|].
  pose proof (or_sorted _ _ _ _ _ (gd_ordered _ _ G) i _ (view_lookup _ _ _ Hy)) as Hs.
  unfold line in Hs. cbn in Hs. rewrite Eq in Hs. apply StronglySorted_app_1_r, StronglySorted_app_1_l in Hs.
  apply StronglySorted_cons in Hs as [Hs _]. rewrite Forall_forall in Hs. specialize (Hs j Hj). lia.
Qed.

Lemma finished_not_early n L s j : good L s -> finished j s -> j ∉ early n s.
Proof.
  intros G (x&Hx&Hf) (y&Hy&Hj&_)%elem_of_early.
  destruct (or_line _ _ _ _ _ (gd_ordered _ _ G) i _ j (view_lookup _ _ _ Hy)) as (x0&Hx0&_&Hf0);
    [unfold line; cbn; set_solver|congruence].
Qed.

Lemma early_end n L s :
  good L s -> settled n s ->
  eventually (fun L' s' => good L' s' /\ settled n s' /\ early n s' = ∅) L s.
Proof.
  remember (base.size (early n s)) as m eqn:Em. revert L s Em. induction m as [m IH] using lt_wf_ind.
  intros L s -> G St. destruct (decide (early n s = ∅)) as [E|Hne]; [by apply eventually_now|].
  destruct (early_head n L s G Hne) as (y&j&Hy&Hh&Hj).
  eapply eventually_bind; [by eapply (head_ends n L s y j)|]. intros L' s' (G'&St'&Hsub&Hf).
  eapply IH; [|reflexivity|done|done]. apply subset_size. pose proof (finished_not_early n L' s' j G' Hf).
  set_solver.
Qed.

(** Every job the session has leaves its line. *)
Lemma jobs_end L s :
  good L s -> eventually (fun L' s' => good L' s' /\ forall j y, (j < length (jobs_ s))%nat ->
    heap_ s' !! i = Some y -> j ∉ line (scheduler_ y, strand_ y)) L s.
Proof.
  intros G. destruct (heap_ s !! i) as [y0|] eqn:Hy0.
  - eapply eventually_bind; [eapply (settle (length (jobs_ s)) (strand_ y0) L s y0 []); try done|].
    { by rewrite app_nil_r. } { intros j Hj. by apply elem_of_nil in Hj. }
    intros L1 s1 [G1 S1]. eapply eventually_bind; [by apply (early_end _ _ _ G1 S1)|].
    intros L2 s2 (G2&[_ S2]&E2). apply eventually_now. split; [done|]. intros j y Hj Hy.
    unfold line. cbn. rewrite not_elem_of_app. split.
    + intros Hq. assert (Hin : j ∈ early (length (jobs_ s)) s2) by (apply elem_of_early; eauto).
      rewrite E2 in Hin. set_solver.
    + intros (t&Ht&Hp)%list_elem_of_omap. destruct t as [j'| | |]; simplify_eq/=.
      specialize (S2 y j Hy Ht). lia.
  - apply eventually_now. split; [done|]. intros j y Hj Hy. congruence.
Qed.
End eventually.

(** What the end of a job is: it has sent its client its message, unless its
    session was shut down. *)
Lemma job_end L s i y j x :
  good L s -> heap_ s !! i = Some y -> j ∉ line (scheduler_ y, strand_ y) ->
  jobs_ s !! j = Some x -> session_ x = i -> talks (kind x) = true ->
  j ∈ L \/ stopped_ (scheduler_ y) = true.
Proof.
  intros [O [A _ _] _ _ _] Hy Hn Hx <- Ht.
  by destruct (pg_told _ _ _ _ _ _ A j x _ Hx Ht (view_lookup _ _ _ Hy)).
Qed.

Lemma room_job_end L s i y j x :
  good L s -> heap_ s !! i = Some y -> j ∉ line (scheduler_ y, strand_ y) ->
  jobs_ s !! j = Some x -> session_ x = i -> room_job (kind x) = true ->
  finished_ x = true /\ (j ∈ L \/ stopped_ (scheduler_ y) = true).
Proof.
  intros G Hy Hn Hx <- Hr. pose proof (job_end L s _ y j x G Hy Hn Hx eq_refl (room_talks _ Hr)) as He.
  destruct G as [O [A _ _] _ _ _]. pose proof (view_lookup _ _ _ Hy) as Hv.
  assert (Hf : finished_ x = true).
  { destruct (finished_ x) eqn:Hf; [done|].
    destruct (pg_line _ _ _ _ _ _ A j x _ Hx Hr Hf Hv) as [?|Hc]; [done|by apply elem_of_nil in Hc]. }
  by split.
Qed.
