(* ===== verification/Release.v ===== *)
(** * Release: a closed session is let go

    What keeps a [session] alive after its connection is closed: the tables of
    the session manager, the handlers in its strand, the jobs queued in its
    scheduler, and the callbacks of its pending requests.  The turns of the
    strand and the timer clear all but the tables, and the tables have the
    session again only in the cases found in Logins. *)

From S2P Require Import Prelude Wire Scheduler Pending Sessions Order Logins Replies Handles.
From S2P Require Import Progress Liveness Schedule.
From coqutil Require Import Datatypes.RecordSetters.
Import TriangleBracketNotations.
Import room_channel.
#[local] Arguments constant {_} _ _ /.

(** ** Cancelling jobs *)

(** Steps that leave the strands and the tables alone, and neither restart a
    scheduler nor make a request. *)
Record still (s s' : user_server) : Prop := {
  sl_session i y : heap_ s !! i = Some y -> exists y', heap_ s' !! i = Some y' /\
    strand_ y' = strand_ y /\ (stopped_ (scheduler_ y) = true -> stopped_ (scheduler_ y') = true);
  sl_pending : Pending.requests_ (requests_ s') ⊆ Pending.requests_ (requests_ s);
}.

#[local] Instance still_preorder : PreOrder still.
Proof.
  split.
  - intros s. split; [|done]. intros i y Hy. by exists y.
  - intros s1 s2 s3 [A1 B1] [A2 B2]. split; [|by etrans].
    intros i y (y2&Hy2&E2&S2)%A1. destruct (A2 i y2 Hy2) as (y3&?&?&?). exists y3.
    split_and!; [done|congruence|auto].
Qed.

Lemma still_same s s' :
  heap_ s' = heap_ s -> Pending.requests_ (requests_ s') ⊆ Pending.requests_ (requests_ s) -> still s s'.
Proof. intros E Hp. split; [|done]. intros i y Hy. exists y. by rewrite E. Qed.

Lemma completion_keeps_stopped k (sch : job_scheduler nat) :
  stopped_ sch = true -> stopped_ (completion k sch).2 = true.
Proof.
  unfold completion, complete_current. intros Hs. destruct sch as [q run stop cs]. cbn in *.
  destruct (cs !! k) as [[]|]; cbn; try done. destruct q as [|j [|j' q]]; cbn; done.
Qed.

Lemma still_call_done i k s : still s (call_done i k s).2.
Proof.
  unfold call_done. destruct (heap_ s !! i) as [y|] eqn:Hy; [|done].
  pose proof (completion_keeps_stopped k (scheduler_ y)) as Hs.
  destruct (completion k (scheduler_ y)) as [ws sch]. cbn [snd] in *. destruct s as [h js ss us nx rq].
  split; [|done]. cbn in *. intros i' y' Hy'. destruct (decide (i' = i)) as [->|Hne].
  - simplify_eq. exists (y <| scheduler_ := sch |>).
    rewrite list_lookup_insert_eq by (by eapply lookup_lt_Some). by destruct y.
  - exists y'. by rewrite list_lookup_insert_ne.
Qed.

Lemma still_finish j s : still s (finish j s).2.
Proof.
  unfold finish. destruct (jobs_ s !! j) as [x|]; [|done]. destruct (finished_ x); [done|]. cbn zeta.
  assert (Hf : forall x', still s (set_job j x' s)) by (intros x'; by apply still_same; destruct s).
  destruct (done_ x); [|apply Hf]. etrans; [apply Hf|apply still_call_done].
Qed.

Lemma still_job_cancel j reason s : still s (job_cancel j reason s).2.
Proof.
  unfold job_cancel, cancel_request. destruct (jobs_ s !! j) as [x|]; [|done].
  assert (Hp : still s (s <| requests_ := (Pending.cancel (room_request_id_ x) (requests_ s)).2 |>)).
  { apply still_same; [by destruct s|]. unfold Pending.cancel, take_request. destruct s. cbn.
    destruct (Pending.requests_ _ !! _); cbn; [apply delete_subseteq|done]. }
  destruct (Pending.cancel _ _) as [b p]. cbn [snd] in Hp.
  pose proof (still_finish j (s <| requests_ := p |>)) as Hf. destruct (finish j _) as [ws s1]. cbn [snd] in Hf.
  destruct (kind x), (finished_ x); cbn [snd]; try done; by etrans.
Qed.

Lemma drain_nil now s : drain now [] s = ([], s).
Proof. unfold drain. by destruct (length _ + queued s)%nat. Qed.

(** The cancellations of a shutdown. *)
Lemma still_cancels fuel now L ws s :
  ordered L ws s -> Forall (fun w => exists j, w = CancelJob j kShutdown) ws ->
  still s (work fuel now ws s).2.
Proof.
  revert ws s. induction fuel as [|fuel IH]; intros [|w ws] s O Hw; cbn [work]; try done.
  apply Forall_cons in Hw as [[j ->] Hw]. destruct (ordered_shut L j ws s O) as (_&Hws&O1).
  pose proof (still_job_cancel j kShutdown s) as Hs.
  destruct (job_cancel j kShutdown s) as [[es ws'] s1]. cbn [fst snd] in *. subst ws'. cbn [app].
  specialize (IH ws s1 O1 Hw). destruct (work fuel now ws s1) as [es' s2]. cbn [snd] in *. by etrans.
Qed.

Section release.
Context (i : nat) (T : Z).

Definition halted (s : user_server) : Prop :=
  exists y, heap_ s !! i = Some y /\ stopped_ (scheduler_ y) = true.

(** ** The turn that shuts the scheduler down *)

Lemma shutdown_turn now L s y ts :
  ordered L [] s -> heap_ s !! i = Some y -> strand_ y = TDisconnected :: ts ->
  halted (exec (RunStrand i now) s).2.
Proof.
  intros O Hy Et. cbn [exec]. rewrite Hy, Et. set (y1 := y <| strand_ := ts |>). set (s1 := set_session i y1 s).
  assert (Hy1 : heap_ s1 !! i = Some y1).
  { unfold s1. destruct s. cbn. apply list_lookup_insert_eq. by eapply lookup_lt_Some. }
  assert (O1 : ordered L [] s1) by (by apply (ordered_unstrand L i y TDisconnected ts)).
  unfold run_task. rewrite Hy1.
  pose proof (ord_shutdown L _ _ _ i _ O1 (view_lookup _ _ _ Hy1)) as P. cbn [fst snd] in P.
  assert (Hsh : stopped_ (shutdown (scheduler_ y1)).2 = true /\
    Forall (fun w => exists j, w = CancelJob j kShutdown) (shutdown (scheduler_ y1)).1).
  { clear. destruct (scheduler_ y1) as [q run stop cs]. unfold shutdown. cbn. destruct stop; cbn; [by split|].
    split; [done|]. apply Forall_forall. intros w (j&->&_)%list_elem_of_fmap. eauto. }
  destruct (shutdown (scheduler_ y1)) as [ws sch]. cbn [fst snd] in *. destruct Hsh as [Hs Hw].
  set (y2 := y1 <| stop_ := true |> <| scheduler_ := sch |>).
  assert (O2 : ordered L ws (set_session i y2 s1)).
  { apply (ordered_scheduler _ _ _ y1); [|done]. clearbody s1. subst y2 y1. by destruct y. }
  assert (Hy2 : heap_ (set_session i y2 s1) !! i = Some y2).
  { clearbody s1. destruct s1. cbn. apply list_lookup_insert_eq. by eapply lookup_lt_Some. }
  unfold drain. destruct (sl_session _ _ (still_cancels (length ws + queued (set_session i y2 s1)) now L ws _ O2 Hw)
    i y2 Hy2) as (y3&Hy3&_&Hs3).
  exists y3. split; [done|]. apply Hs3. clearbody s1. subst y2 y1. by destruct y.
Qed.

(** ** The turns after it *)

(** Handlers are run, and nothing new is posted. *)
Lemma halted_push now L s y j ts :
  ordered L [] s -> heap_ s !! i = Some y -> stopped_ (scheduler_ y) = true -> strand_ y = TPush j :: ts ->
  let y2 := y <| strand_ := ts |> <| scheduler_ := scheduler_ y |> in
  let s' := (drain now [CancelJob j kShutdown] (set_session i y2 s)).2 in
  exists y', heap_ s' !! i = Some y' /\ strand_ y' = ts /\ stopped_ (scheduler_ y') = true /\
    Pending.requests_ (requests_ s') ⊆ Pending.requests_ (requests_ s).
Proof.
  intros O Hy Hs Et. cbn zeta. pose proof (ord_push L _ _ _ i _ j ts O (view_lookup _ _ _ Hy) Et) as P. cbn [fst] in P.
  assert (Ew : push_and_run j (scheduler_ y) = ([CancelJob j kShutdown], scheduler_ y)).
  { unfold push_and_run. by rewrite Hs. }
  rewrite Ew in P. cbn [fst snd] in P. set (y2 := y <| strand_ := ts |> <| scheduler_ := scheduler_ y |>).
  assert (Ey2 : strand_ y2 = ts /\ scheduler_ y2 = scheduler_ y) by (subst y2; by destruct y).
  destruct Ey2 as [Es2 Ec2].
  assert (O2 : ordered L [CancelJob j kShutdown] (set_session i y2 s)).
  { apply (ordered_scheduler _ _ _ y); [|done]. by rewrite Es2, Ec2. }
  assert (Hy2 : heap_ (set_session i y2 s) !! i = Some y2).
  { clear -Hy. destruct s. cbn. apply list_lookup_insert_eq. by eapply lookup_lt_Some. }
  unfold drain. pose proof (still_cancels (length [CancelJob j kShutdown] + queued (set_session i y2 s)) now
    L [CancelJob j kShutdown] _ O2 ltac:(repeat constructor; eauto)) as [Hse Hpe].
  destruct (Hse i y2 Hy2) as (y3&Hy3&E3&Hs3). exists y3. split_and!; [done|congruence|apply Hs3; by rewrite Ec2|].
  etrans; [exact Hpe|]. by destruct s.
Qed.

Lemma halted_turn now L s y t ts :
  ordered L [] s -> held s -> heap_ s !! i = Some y -> stopped_ (scheduler_ y) = true ->
  strand_ y = t :: ts ->
  let s' := (exec (RunStrand i now) s).2 in
  exists y', heap_ s' !! i = Some y' /\ strand_ y' = ts /\ stopped_ (scheduler_ y') = true /\
    Pending.requests_ (requests_ s') ⊆ Pending.requests_ (requests_ s).
Proof.
  intros O Hh Hy Hs Et. cbn zeta.
  destruct (or_flags _ _ _ _ _ O i _ (view_lookup _ _ _ Hy)) as [_ Hq]. cbn in Hq. specialize (Hq Hs).
  cbn [exec]. rewrite Hy, Et. set (y1 := y <| strand_ := ts |>). set (s1 := set_session i y1 s).
  assert (Hy1 : heap_ s1 !! i = Some y1).
  { unfold s1. destruct s. cbn. apply list_lookup_insert_eq. by eapply lookup_lt_Some. }
  assert (Ey1 : strand_ y1 = ts /\ scheduler_ y1 = scheduler_ y) by (by destruct y).
  destruct Ey1 as [Es1 Ec1].
  assert (Ep : Pending.requests_ (requests_ s1) = Pending.requests_ (requests_ s)) by (by destruct s).
  assert (Hdone : exists y', heap_ s1 !! i = Some y' /\ strand_ y' = ts /\ stopped_ (scheduler_ y') = true /\
    Pending.requests_ (requests_ s1) ⊆ Pending.requests_ (requests_ s)).
  { exists y1. rewrite Es1, Ec1, Ep. done. }
  assert (Hfin : forall j, mentions t j -> exists x, jobs_ s1 !! j = Some x /\ finished_ x = true).
  { intros j Hm. destruct (or_strand _ _ _ _ _ O i _ t j (view_lookup _ _ _ Hy)) as (x&Hx&Hd);
      [cbn; rewrite Et; left|done|]. exists x. split; [by destruct s|].
    destruct (finished_ x) eqn:Hf; [done|]. destruct Hd as [?|[k Hd]]; [done|].
    destruct (ordered_awaiting L j x k s O Hx Hd) as (y0&Hy0&_&Hhd&_).
    assert (Ho : owns (jobs_ s) i j) by (eapply (hd_strand _ Hh); [done|rewrite Et; left|done]).
    unfold owns in Ho. rewrite Hx in Ho. injection Ho as Ho. rewrite Ho in Hy0. simplify_eq. by rewrite Hq in Hhd. }
  unfold run_task. rewrite Hy1. destruct t as [j|j r|j|].
  - assert (Ew : push_and_run j (scheduler_ y) = ([CancelJob j kShutdown], scheduler_ y)).
    { unfold push_and_run. by rewrite Hs. }
    rewrite Ec1, Ew. unfold s1. rewrite set_session_twice. by apply (halted_push now L).
  - destruct (Hfin j eq_refl) as (x&Hx&Hf). unfold handle_response. rewrite Hx, Hf, drain_nil. exact Hdone.
  - destruct (Hfin j eq_refl) as (x&Hx&Hf). unfold job_cancel. rewrite Hx, Hf.
    destruct (kind x); rewrite drain_nil; exact Hdone.
  - rewrite Ec1. unfold shutdown. rewrite Hs, drain_nil. cbn [fst snd].
    exists (y1 <| stop_ := true |> <| scheduler_ := scheduler_ y |>). unfold s1. rewrite set_session_twice.
    subst y1. destruct s. cbn. rewrite list_lookup_insert_eq by (by eapply lookup_lt_Some). by destruct y.
Qed.

(** ** All of it *)

Record sane (L : list nat) (s : user_server) : Prop := {
  sn_ordered : ordered L [] s;
  sn_held : held s;
  sn_registered : registered s;
}.

Lemma sane_exec e L s : sane L s -> sane (L ++ omap sender (exec e s).1) (exec e s).2.
Proof. intros [O H R]. split; [by apply ordered_exec|by apply held_step|by apply registered_exec]. Qed.

Notation eventually := (Schedule.eventually i T) (only parsing).

(** The handlers before the shutdown are run, and the shutdown. *)
Lemma halts pre L s y ts :
  sane L s -> heap_ s !! i = Some y -> strand_ y = pre ++ TDisconnected :: ts ->
  eventually (fun L' s' => sane L' s' /\ halted s') L s.
Proof.
  revert L s y ts. induction pre as [|t pre IH]; intros L s y ts S Hy Et;
    apply (eventually_turn i T _ _ _ _ (turn_strand i T)).
  - apply eventually_now. split; [by apply sane_exec|]. destruct S as [O _ _]. by eapply shutdown_turn.
  - destruct (strand_turn i T s y t (pre ++ TDisconnected :: ts) Hy Et) as (y'&new&Hy'&Es'&_).
    rewrite <- (assoc_L (++)) in Es'. cbn [app] in Es'. eapply IH; [by apply sane_exec|exact Hy'|exact Es'].
Qed.

(** The strand is emptied. *)
Lemma empties st L s y :
  sane L s -> heap_ s !! i = Some y -> stopped_ (scheduler_ y) = true -> strand_ y = st ->
  eventually (fun L' s' => sane L' s' /\ (exists y', heap_ s' !! i = Some y' /\ strand_ y' = [] /\
    stopped_ (scheduler_ y') = true) /\
    Pending.requests_ (requests_ s') ⊆ Pending.requests_ (requests_ s)) L s.
Proof.
  revert L s y. induction st as [|t st IH]; intros L s y S Hy Hs Et.
  { apply eventually_now. split_and!; eauto. }
  apply (eventually_turn i T _ _ _ _ (turn_strand i T)).
  destruct (halted_turn T L s y t st (sn_ordered _ _ S) (sn_held _ _ S) Hy Hs Et) as (y'&Hy'&Es'&Hs'&Hp).
  eapply eventually_bind; [eapply IH; [by apply sane_exec|exact Hy'|done|done]|].
  intros L' s' (S'&Hy2&Hp'). apply eventually_now. split_and!; [done|done|by etrans].
Qed.

(** A tick that is late enough empties the table of pending requests. *)
Lemma late_tick (p : gmap Z (request nat (nat * Z))) :
  exists now, T <= now /\ forall id q, p !! id = Some q -> deadline q <= now.
Proof.
  induction p as [|id q p Hn (now&HT&Hd)] using map_ind.
  { exists T. split; [lia|]. intros id q. by rewrite lookup_empty. }
  exists (Z.max now (deadline q)). split; [lia|]. intros id' q'. rewrite lookup_insert_Some.
  intros [[_ <-]|[_ Hq]]; [lia|]. specialize (Hd _ _ Hq). lia.
Qed.

Lemma tick_empties now s :
  held s -> (forall id q, Pending.requests_ (requests_ s) !! id = Some q -> deadline q <= now) ->
  Pending.requests_ (requests_ (exec (Tick now) s).2) = ∅.
Proof.
  intros Hh Hd. pose proof (hd_timer _ Hh) as Ht. unfold timing in Ht. cbn [exec].
  unfold room_channel.expire, timer_tick. rewrite Ht.
  pose proof (expire_lookup (Response := room_response) now (requests_ s)) as Hl.
  destruct (Pending.expire now (requests_ s)) as [cs p]. cbn [snd] in Hl.
  destruct (invoke_all_frame cs (s <| requests_ := p |>)) as [_ ->]. destruct s as [h js ss us nx rq]. cbn in *.
  apply map_empty. intros id. rewrite Hl. destruct (Pending.requests_ rq !! id) as [q|] eqn:Hq; [|done].
  specialize (Hd id q Hq). unfold live. by replace (now <? deadline q) with false by (symmetry; lia).
Qed.

(** No strand handler, no queued job, no pending request keeps the session. *)
Definition let_go (s : user_server) : Prop :=
  exists y, heap_ s !! i = Some y /\ strand_ y = [] /\ q_ (scheduler_ y) = [] /\
    stopped_ (scheduler_ y) = true /\
    forall id q x, Pending.requests_ (requests_ s) !! id = Some q -> jobs_ s !! on_response q = Some x ->
      session_ x <> i.

Lemma lets_go pre L s y ts :
  sane L s -> heap_ s !! i = Some y -> strand_ y = pre ++ TDisconnected :: ts ->
  eventually (fun L' s' => sane L' s' /\ let_go s') L s.
Proof.
  intros S Hy Et. eapply eventually_bind; [by eapply halts|]. intros L1 s1 (S1&y1&Hy1&Hs1).
  destruct (late_tick (Pending.requests_ (requests_ s1))) as (now&HT&Hd).
  apply (eventually_turn i T (Tick now)); [done|].
  pose proof (tick_empties now s1 (sn_held _ _ S1) Hd) as Hp.
  assert (Hy2 : exists y2, heap_ (exec (Tick now) s1).2 !! i = Some y2 /\ stopped_ (scheduler_ y2) = true).
  { assert (Hl : (i < length (heap_ (exec (Tick now) s1).2))%nat).
    { cbn [exec]. unfold room_channel.expire. destruct (timer_tick _ _) as [cs p].
      rewrite length_invoke_all. apply lookup_lt_Some in Hy1. by destruct s1. }
    apply lookup_lt_is_Some in Hl as [y2 Hy2]. exists y2. split; [done|].
    destruct (notified_tick now s1 i y2 Hy2) as (y0&new&Hy0&_&E&_). rewrite E. by simplify_eq. }
  destruct Hy2 as (y2&Hy2&Hs2).
  eapply eventually_bind; [eapply empties; [by apply sane_exec|exact Hy2|done|done]|].
  intros L3 s3 (S3&(y3&Hy3&Es3&Hs3)&Hp3). apply eventually_now. split; [done|].
  exists y3. split_and!; try done.
  - destruct (or_flags _ _ _ _ _ (sn_ordered _ _ S3) i _ (view_lookup _ _ _ Hy3)) as [_ Hq]. by apply Hq.
  - intros id q x Hq. rewrite Hp in Hp3. pose proof (lookup_weaken _ _ _ _ Hq Hp3) as Hn. by rewrite lookup_empty in Hn.
Qed.
End release.

(** ** The tables of the session manager *)

(** Connections enter the table of sessions with the answer to a login. *)
Definition tabled (s : user_server) (es : list effect) (s' : user_server) : Prop :=
  forall c i, sessions_ s' !! c = Some i -> sessions_ s !! c = Some i \/ exists u, c ∈ logins u es.

Lemma tabled_trans s es s' es' s'' : tabled s es s' -> tabled s' es' s'' -> tabled s (es ++ es') s''.
Proof.
  intros H1 H2 c i [Hc|[u Hu]]%H2.
  - apply H1 in Hc as [?|[u Hu]]; [by left|]. right. exists u. rewrite logins_app. set_solver.
  - right. exists u. rewrite logins_app. set_solver.
Qed.

Lemma tabled_same s es s' : sessions_ s' = sessions_ s -> tabled s es s'.
Proof. intros E c i. rewrite E. by left. Qed.

Lemma sessions_post i t s : sessions_ (post i t s) = sessions_ s.
Proof. unfold post. destruct (heap_ s !! i); by destruct s. Qed.

Lemma sessions_call_done i k s : sessions_ (call_done i k s).2 = sessions_ s.
Proof. unfold call_done. destruct (heap_ s !! i); [|done]. destruct (completion _ _). by destruct s. Qed.

Lemma sessions_finish j s : sessions_ (finish j s).2 = sessions_ s.
Proof.
  unfold finish. destruct (jobs_ s !! j) as [x|]; [|done]. destruct (finished_ x); [done|].
  destruct (done_ x); [rewrite sessions_call_done|]; by destruct s.
Qed.

Lemma sessions_job_cancel j reason s : sessions_ (job_cancel j reason s).2 = sessions_ s.
Proof.
  unfold job_cancel, cancel_request. destruct (jobs_ s !! j) as [x|]; [|done].
  destruct (Pending.cancel _ _) as [b p]. pose proof (sessions_finish j (s <| requests_ := p |>)) as Hf.
  destruct (finish j _) as [ws s1]. cbn [snd] in Hf. destruct (kind x), (finished_ x); cbn [snd]; try done;
    rewrite Hf; by destruct s.
Qed.

Lemma sessions_response j r s : sessions_ (handle_response j r s).2 = sessions_ s.
Proof.
  open_handle_response. destruct (jobs_ s !! j) as [x|]; [|done]. destruct (finished_ x); [done|].
  destruct (heap_ s !! session_ x) as [y|]; [|done]. destruct (kind x), r; try done;
    match goal with |- context [finish j ?s1] =>
      pose proof (sessions_finish j s1) as Hf; destruct (finish j s1) as [ws s2] end;
    cbn [snd] in *; rewrite Hf; by destruct s.
Qed.

(** The one job that changes the table. *)
Lemma tabled_run_login j k u i y s :
  heap_ s !! i = Some y -> tabled s (run_login j k u i y s).1.1 (run_login j k u i y s).2.
Proof.
  intros Hy c i' Hc. unfold run_login, finish_with in *.
  match goal with H : context [call_done i k ?s1] |- _ =>
    pose proof (sessions_call_done i k s1) as Es; destruct (call_done i k s1) as [ws s2] end.
  cbn [fst snd] in *. rewrite Es in Hc. unfold session_manager.add_session in Hc.
  destruct s as [h js ss us nx rq]. cbn in Hc, Hy. rewrite list_lookup_insert_eq in Hc by (by eapply lookup_lt_Some).
  assert (Hi : <[conn_ y := i]> ss !! c = Some i') by (destruct y; cbn in *; by case_decide).
  apply lookup_insert_Some in Hi as [[<- _]|[_ ?]]; [right|by left]. exists u. unfold logins. cbn.
  rewrite decide_True by done. left.
Qed.

Lemma tabled_job_run j k now s : tabled s (job_run j k now s).1.1 (job_run j k now s).2.
Proof.
  unfold job_run. destruct (jobs_ s !! j) as [x|]; [|by apply tabled_same].
  destruct (heap_ s !! session_ x) as [y|] eqn:Hy; [|by apply tabled_same].
  destruct (kind x) as [u| | | | | | | |]; [by apply tabled_run_login|..]; apply tabled_same;
    unfold run_logout, run_stop, run_create_room, run_join_room, run_leave_room,
      run_forward_message, run_cli_forward_message, run_ntf_leave_room_message, finish_with;
    try (by destruct s);
    match goal with |- context [call_done ?i k ?s1] =>
      pose proof (sessions_call_done i k s1) as Es; destruct (call_done i k s1) end;
    cbn [snd] in *; rewrite Es; try (by destruct s). unfold enqueue_stop, enqueue_job. rewrite sessions_post.
  by destruct s.
Qed.

Lemma tabled_work fuel now ws s : tabled s (work fuel now ws s).1 (work fuel now ws s).2.
Proof.
  revert ws s. induction fuel as [|fuel IH]; intros [|w ws] s; cbn [work]; try (by apply tabled_same).
  set (o := match w with Run j k => job_run j k now s | CancelJob j reason => job_cancel j reason s end).
  assert (H1 : tabled s o.1.1 o.2)
    by (subst o; destruct w; [apply tabled_job_run|apply tabled_same, sessions_job_cancel]).
  destruct o as [[es ws'] s1]. specialize (IH (ws' ++ ws) s1). destruct (work fuel now (ws' ++ ws) s1).
  by eapply tabled_trans.
Qed.

Lemma tabled_session i x s es s' : tabled (set_session i x s) es s' -> tabled s es s'.
Proof. by destruct s. Qed.

Lemma tabled_run_task now i t s : tabled s (run_task now i t s).1 (run_task now i t s).2.
Proof.
  unfold run_task, drain. destruct (heap_ s !! i) as [x|]; [|by apply tabled_same]. destruct t as [j|j r|j|].
  - destruct (push_and_run j (scheduler_ x)). eapply tabled_session, tabled_work.
  - pose proof (sessions_response j r s) as E. destruct (handle_response j r s) as [[es ws] s1]. cbn [snd] in E.
    pose proof (tabled_work (length ws + queued s1) now ws s1) as H2. destruct (work _ now ws s1).
    eapply tabled_trans; [by apply (tabled_same s es s1)|exact H2].
  - pose proof (sessions_job_cancel j Scheduler.kTimeout s) as E.
    destruct (job_cancel j Scheduler.kTimeout s) as [[es ws] s1]. cbn [snd] in E.
    pose proof (tabled_work (length ws + queued s1) now ws s1) as H2. destruct (work _ now ws s1).
    eapply tabled_trans; [by apply (tabled_same s es s1)|exact H2].
  - destruct (shutdown (scheduler_ x)). eapply tabled_session, tabled_work.
Qed.

Lemma sessions_invoke_all cs s : sessions_ (invoke_all cs s).2 = sessions_ s.
Proof.
  revert s. induction cs as [|c cs IH]; intros s; cbn [invoke_all]; [done|].
  assert (H1 : sessions_ (invoke s c).2 = sessions_ s).
  { destruct c as [j r|[j id]]; cbn; destruct (jobs_ s !! j); try done; apply sessions_post. }
  destruct (invoke s c) as [es s1]. specialize (IH s1). destruct (invoke_all cs s1). cbn in *. congruence.
Qed.

Lemma tabled_turn i T e s : turn i T e -> tabled s (exec e s).1 (exec e s).2.
Proof.
  destruct e as [| | |i' now| | |now]; try done; intros _; cbn [exec].
  - destruct (heap_ s !! i') as [x|]; [|by apply tabled_same].
    destruct (strand_ x); [by apply tabled_same|]. eapply tabled_session, tabled_run_task.
  - apply tabled_same. unfold room_channel.expire. destruct (timer_tick _ _) as [cs p].
    rewrite sessions_invoke_all. by destruct s.
Qed.

Lemma tabled_turns i T evs s :
  Forall (turn i T) evs -> tabled s (mjoin (run exec evs s).1) (run exec evs s).2.
Proof.
  intros Ht. revert s. induction Ht as [|e evs He _ IH]; intros s; [by apply tabled_same|].
  rewrite run_cons. cbn [fst snd]. rewrite mjoin_cons. eapply tabled_trans; [by eapply tabled_turn|apply IH].
Qed.

(** ** The close *)

Lemma sane_run evs :
  sane (omap sender (mjoin (run exec evs server_start).1)) (run exec evs server_start).2.
Proof.
  induction evs as [|e evs IH] using rev_ind.
  { destruct handles_start. split; [apply ordered_start|done|done]. }
  rewrite run_snoc. cbn [fst snd]. rewrite mjoin_app, omap_app. cbn [mjoin list_join]. rewrite app_nil_r.
  by apply sane_exec.
Qed.

(** The session is taken from the tables, under its last name, and the shutdown
    is posted. *)
Lemma closed_step s i y :
  registered s -> heap_ s !! i = Some y -> sessions_ s !! conn_ y = Some i ->
  let s1 := (exec (Closed (conn_ y)) s).2 in
  heap_ s1 !! i = Some (y <| strand_ := strand_ y ++ [TDisconnected] |>) /\
  (forall c, sessions_ s1 !! c <> Some i) /\
  (forall u, uid_sessions_ s1 !! u = Some i -> uid_sessions_ s !! u = Some i /\ u <> uid_ y).
Proof.
  intros R Hy Hc. cbn. unfold on_conn_closed, session_manager.remove_session. rewrite Hc, Hy. cbn [from_option].
  pose proof (rg_sessions _ R) as Hr. pose proof (rg_uids _ R) as Hu.
  unfold session_conn in Hr. destruct s as [h js ss us nx rq]. cbn in *. unfold post. cbn. rewrite Hy. cbn.
  split_and!.
  - apply list_lookup_insert_eq. by eapply lookup_lt_Some.
  - intros c [Hne Hs]%lookup_delete_Some. specialize (Hr c i Hs). rewrite Hy in Hr. by injection Hr.
  - intros u Hi. case_decide as Hd.
    + apply lookup_delete_Some in Hi as [Hne Hi]. by split.
    + split; [done|]. intros ->. apply Hd. split; [|done]. by destruct (Hu _ _ Hi).
Qed.

Module ReleaseProperties.


(** A client logs in, asks for a room and is gone before the answer. *)
Definition gone_events : list event :=
  [Accepted 7; Received 0 (RJob (ReqLogin "al")); RunStrand 0 0; Received 0 (RJob (ReqCreateRoom 5));
   RunStrand 0 1].

End ReleaseProperties.
