(* ===== verification/Fair.v ===== *)
(** * Fair: under every fair schedule the jobs of a session come to their end

    [Schedule] finds turns that finish the jobs of a session; here other
    events come in between, as they please: messages of clients, responses,
    disconnections, other sessions.  All that is asked is that the strand and
    the timer get their turns.  A [round] is a stretch in which the handlers
    that wait at its beginning are run, then the timer ticks after the
    deadlines, then what waits is run again.  Each round finishes the oldest
    job, so as many rounds as the session has jobs, and one more, finish all. *)

From S2P Require Import Prelude Wire Scheduler Pending Sessions Order Logins Replies Handles.
From S2P Require Import Progress Liveness Schedule.
From coqutil Require Import Datatypes.RecordSetters.
Import TriangleBracketNotations.
Import room_channel.
#[local] Arguments constant {_} _ _ /.

(** ** The invariant along a run *)

Fixpoint all_good (L : list nat) (s : user_server) (evs : list event) : Prop :=
  good L s /\
  match evs with
  | [] => True
  | e :: evs => all_good (L ++ omap sender (exec e s).1) (exec e s).2 evs
  end.

Lemma all_good_now L s evs : all_good L s evs -> good L s.
Proof. by destruct evs as [|e evs]; intros [G _]. Qed.

Lemma all_good_app L s evs evs' :
  all_good L s (evs ++ evs') <->
  all_good L s evs /\ all_good (L ++ omap sender (mjoin (run exec evs s).1)) (run exec evs s).2 evs'.
Proof.
  revert L s. induction evs as [|e evs IH]; intros L s.
  - cbn. rewrite app_nil_r. split; [|by intros [_ ?]]. intros G. split; [|done].
    split; [by eapply all_good_now|done].
  - rewrite run_cons. cbn [fst snd app all_good]. rewrite mjoin_cons, omap_app, (assoc_L (++)), IH. tauto.
Qed.

(** ** What any event does to a strand *)

Section fair.
Context (i : nat).

(** Its own turn takes the first handler; all else is appended. *)
Definition pops (e : event) : bool :=
  match e with RunStrand i' _ => bool_decide (i' = i) | _ => false end.

Definition strand (s : user_server) : list task :=
  from_option strand_ [] (heap_ s !! i).

Definition queue (s : user_server) : list nat :=
  from_option (fun y => q_ (scheduler_ y)) [] (heap_ s !! i).

(** The new handlers push only jobs that were not made yet. *)
Definition news (s : user_server) (new : list task) : Prop :=
  forall j, TPush j ∈ new -> (length (jobs_ s) <= j)%nat.

Definition head_task (e : event) (s : user_server) : list task :=
  if pops e then take 1 (strand s) else [].

Record evolves (e : event) (s s' : user_server) : Prop := {
  ev_strand : exists new, strand s' = (if pops e then drop 1 (strand s) else strand s) ++ new /\ news s new;
  ev_queue j : j ∈ queue s' -> j ∈ queue s \/ j ∈ omap pushed (head_task e s);
}.

Lemma evolves_same e s s' :
  pops e = false -> heap_ s' !! i = heap_ s !! i -> evolves e s s'.
Proof.
  intros Hp E. split; unfold strand, queue; rewrite ?Hp, E; [|by left].
  exists []. rewrite app_nil_r. split; [done|]. intros j Hj. by apply elem_of_nil in Hj.
Qed.

Lemma evolves_post e i0 t s :
  pops e = false -> news s [t] -> evolves e s (post i0 t s).
Proof.
  intros Hp Ht. unfold post. destruct (heap_ s !! i0) as [y|] eqn:Hy; [|by apply evolves_same].
  assert (E : heap_ (set_session i0 (y <| strand_ := strand_ y ++ [t] |>) s)
    = <[i0 := y <| strand_ := strand_ y ++ [t] |>]> (heap_ s)) by (by destruct s).
  destruct (decide (i0 = i)) as [->|Hne].
  - split; unfold strand, queue; rewrite E, list_lookup_insert_eq by (by eapply lookup_lt_Some);
      rewrite Hy, ?Hp; destruct y; cbn; [|by left]. exists [t]. by split.
  - apply evolves_same; [done|]. rewrite E. by apply list_lookup_insert_ne.
Qed.

Lemma evolves_notified e s s' :
  pops e = false -> length (heap_ s') = length (heap_ s) -> notified s s' -> evolves e s s'.
Proof.
  intros Hp Hl N. destruct (heap_ s' !! i) as [y'|] eqn:Hy'.
  - destruct (N i y' Hy') as (y&new&Hy&Es&Eq&Hn). split; unfold strand, queue; rewrite Hy, Hy', ?Hp; cbn.
    + exists new. split; [done|]. intros j Hj. by destruct (Hn j).
    + rewrite Eq. by left.
  - apply evolves_same; [done|]. rewrite Hy'. symmetry. apply lookup_ge_None. apply lookup_ge_None in Hy'. lia.
Qed.

Lemma evolves_enqueue e i0 k s :
  pops e = false -> evolves e s (enqueue_job i0 k s).
Proof.
  intros Hp. unfold enqueue_job. set (s1 := s <| jobs_ := _ |>).
  assert (E : heap_ s1 = heap_ s) by (by destruct s).
  unfold post. rewrite E. destruct (heap_ s !! i0) as [y|] eqn:Hy; [|apply evolves_same; [done|by rewrite E]].
  assert (E2 : heap_ (set_session i0 (y <| strand_ := strand_ y ++ [TPush (length (jobs_ s))] |>) s1)
    = <[i0 := y <| strand_ := strand_ y ++ [TPush (length (jobs_ s))] |>]> (heap_ s)) by (by destruct s).
  destruct (decide (i0 = i)) as [->|Hne].
  - split; unfold strand, queue; rewrite E2, list_lookup_insert_eq by (by eapply lookup_lt_Some);
      rewrite Hy, ?Hp; destruct y; cbn; [|by left]. eexists. split; [done|].
    intros j Hj%list_elem_of_singleton. by injection Hj as ->.
  - apply evolves_same; [done|]. rewrite E2. by apply list_lookup_insert_ne.
Qed.

Lemma evolves_frame e s s' :
  pops e = false -> hframe s s' -> evolves e s s'.
Proof.
  intros Hp F. destruct (heap_ s' !! i) as [y'|] eqn:Hy'.
  - destruct (hf_session _ _ F i y' Hy') as (y&new&Hy&Es&Hn&Hq).
    split; unfold strand, queue; rewrite Hy, Hy', ?Hp; cbn; [|intros j ?%Hq; by left].
    exists new. split; [done|]. intros j Hj. rewrite Forall_forall in Hn.
    destruct (Hn _ Hj) as (j'&[= <-]&?). lia.
  - apply evolves_same; [done|]. rewrite Hy'. symmetry. apply lookup_ge_None. apply lookup_ge_None in Hy'.
    by rewrite <- (hf_heap _ _ F).
Qed.

(** Its own turn. *)
Lemma evolves_turn now s : evolves (RunStrand i now) s (exec (RunStrand i now) s).2.
Proof.
  assert (Hp : pops (RunStrand i now) = true) by (by apply bool_decide_eq_true).
  destruct (heap_ s !! i) as [y|] eqn:Hy; [destruct (strand_ y) as [|t ts] eqn:Et|].
  - cbn [exec]. rewrite Hy, Et. cbn [snd]. split; rewrite ?Hp; [|intros j Hj; by left]. exists [].
    unfold strand. rewrite Hy. cbn. rewrite Et. split; [done|]. intros j Hj. by apply elem_of_nil in Hj.
  - destruct (strand_frame i now s y t ts Hy Et) as (y1&Es&Hq&F).
    assert (E1 : heap_ (set_session i y1 s) !! i = Some y1).
    { destruct s. cbn. apply list_lookup_insert_eq. by eapply lookup_lt_Some. }
    assert (Ej : jobs_ (set_session i y1 s) = jobs_ s) by (by destruct s).
    destruct (evolves_frame (Tick now) _ _ eq_refl F) as [(new&Es'&Hn) Hq'].
    unfold news in Hn. rewrite Ej in Hn.
    split; unfold head_task; rewrite Hp; unfold strand, queue in *; rewrite E1 in *; rewrite Hy; cbn in *.
    + exists new. rewrite Es', Es, Et. done.
    + intros j Hj. destruct (Hq' j Hj) as [Hj'|Hj']; [|by apply elem_of_nil in Hj'].
      apply Hq, elem_of_app in Hj' as [?|Hj']; [by left|right]. rewrite Et. cbn. by destruct (pushed t).
  - cbn [exec]. rewrite Hy. cbn [snd]. split; rewrite ?Hp; [|intros j Hj; by left]. exists []. unfold strand. rewrite Hy.
    split; [done|]. intros j Hj. by apply elem_of_nil in Hj.
Qed.

Lemma evolves_other i' now s : i' <> i -> evolves (RunStrand i' now) s (exec (RunStrand i' now) s).2.
Proof.
  intros Hne. assert (Hp : pops (RunStrand i' now) = false) by (by apply bool_decide_eq_false).
  destruct (heap_ s !! i') as [y|] eqn:Hy; [destruct (strand_ y) as [|t ts] eqn:Et|].
  - cbn [exec]. rewrite Hy, Et. by apply evolves_same.
  - destruct (strand_frame i' now s y t ts Hy Et) as (y1&_&_&F).
    assert (E1 : heap_ (set_session i' y1 s) !! i = heap_ s !! i).
    { destruct s. cbn. by apply list_lookup_insert_ne. }
    assert (Ej : jobs_ (set_session i' y1 s) = jobs_ s) by (by destruct s).
    destruct (evolves_frame _ _ _ Hp F) as [(new&Es'&Hn) Hq'].
    unfold news in Hn. rewrite Ej in Hn.
    split; unfold head_task in *; rewrite Hp in *; unfold strand, queue in *; rewrite E1 in *; eauto.
  - cbn [exec]. rewrite Hy. by apply evolves_same.
Qed.

Lemma evolves_callbacks e cs p s :
  pops e = false -> evolves e s (invoke_all cs (s <| requests_ := p |>)).2.
Proof.
  intros Hp. pose proof (notified_invoke_all cs (s <| requests_ := p |>)) as N.
  apply evolves_notified; [done| |by destruct s].
  rewrite length_invoke_all. by destruct s.
Qed.

Lemma evolves_accept conn s :
  held s -> evolves (Accepted conn) s (session_manager.add_connection conn s).
Proof.
  intros Hh. unfold session_manager.add_connection.
  destruct (sessions_ s !! conn); [by apply evolves_same|].
  destruct (heap_ s !! i) as [y|] eqn:Hy.
  - apply evolves_same; [done|]. rewrite Hy. destruct s. cbn in *. by apply lookup_app_l_Some.
  - assert (E : strand s = [] /\ queue s = []) by (unfold strand, queue; by rewrite Hy).
    assert (E' : forall s', heap_ s' = heap_ s ++ [new_session conn] -> strand s' = [] /\ queue s' = []).
    { intros s' E'. unfold strand, queue. rewrite E'. destruct ((heap_ s ++ _) !! i) as [y|] eqn:Hy'; [|done].
      apply lookup_app_Some in Hy' as [Hy'|[_ Hy']]; [congruence|].
      by apply list_lookup_singleton_Some in Hy' as [_ <-]. }
    destruct E as [E1 E2]. edestruct E' as [E3 E4]; [|split; rewrite ?E3, ?E4; [|intros j Hj; by left; rewrite E2]].
    { by destruct s. }
    exists []. rewrite E1. split; [done|]. intros j Hj. by apply elem_of_nil in Hj.
Qed.

Lemma evolves_exec e s : held s -> evolves e s (exec e s).2.
Proof.
  intros Hh. destruct e as [conn|conn|i' m|i' now|id r now|u k|now].
  - by apply evolves_accept.
  - cbn. unfold on_conn_closed, session_manager.remove_session.
    destruct (sessions_ s !! conn) as [i0|]; [|by apply evolves_same].
    apply evolves_notified; [done| |].
    + unfold post. case_match; destruct s; cbn; rewrite ?length_insert; done.
    + match goal with |- notified _ (post _ _ ?s1) =>
        pose proof (notified_post i0 TDisconnected s1 ltac:(done)) as N end. by destruct s.
  - cbn [exec]. unfold on_recv. destruct (heap_ s !! i'); [|by apply evolves_same].
    destruct m; try (by apply evolves_same); by apply evolves_enqueue.
  - destruct (decide (i' = i)) as [->|Hne]; [apply evolves_turn|by apply evolves_other].
  - cbn [exec]. unfold send_to_waiter. destruct (Pending.complete _ _ _ _) as [cs p].
    by apply evolves_callbacks.
  - cbn. unfold pass_to_session. destruct (session_manager.find_session u s); [|by apply evolves_same].
    by apply evolves_enqueue.
  - cbn [exec]. unfold expire. destruct (timer_tick _ _) as [cs p]. by apply evolves_callbacks.
Qed.

(** ** Runs of arbitrary events *)

(** How many turns the strand gets. *)
Definition turns (evs : list event) : nat := length (List.filter pops evs).

Lemma turns_cons e evs : turns (e :: evs) = ((if pops e then 1 else 0) + turns evs)%nat.
Proof. unfold turns. cbn. by destruct (pops e). Qed.

Lemma jobs_grow evs s : (length (jobs_ s) <= length (jobs_ (run exec evs s).2))%nat.
Proof.
  destruct (decide (length (jobs_ s) = 0%nat)) as [->|Hn]; [lia|].
  destruct (lookup_lt_is_Some_2 (jobs_ s) (length (jobs_ s) - 1)) as [x Hx]; [lia|].
  destruct (st_jobs _ _ _ (steps_run evs s) _ x Hx) as (x'&Hx'%lookup_lt_Some&_). lia.
Qed.

Lemma jobs_grow_exec e s : (length (jobs_ s) <= length (jobs_ (exec e s).2))%nat.
Proof. pose proof (jobs_grow [e] s) as H. by rewrite run_cons in H. Qed.

(** The jobs among the first [n] that the session still has. *)
Definition behind (n : nat) (s : user_server) : gset nat :=
  list_to_set (filter (fun j => (j < n)%nat) (queue s ++ omap pushed (strand s))).

Lemma elem_of_behind n s j :
  j ∈ behind n s <-> (j < n)%nat /\ (j ∈ queue s \/ TPush j ∈ strand s).
Proof.
  unfold behind. rewrite elem_of_list_to_set, list_elem_of_filter, elem_of_app.
  enough (E : j ∈ omap pushed (strand s) <-> TPush j ∈ strand s) by (rewrite E; done).
  rewrite list_elem_of_omap. split; [|intros Ht; by exists (TPush j)].
  intros (t&Ht&Hp). destruct t; by simplify_eq/=.
Qed.

Lemma behind_exec n e s :
  held s -> (n <= length (jobs_ s))%nat -> behind n (exec e s).2 ⊆ behind n s.
Proof.
  intros Hh Hn j. rewrite !elem_of_behind. intros [Hlt Hj]. split; [done|].
  destruct (evolves_exec e s Hh) as [(new&Es&Hnew) Hq]. destruct Hj as [Hj|Hj].
  - apply Hq in Hj as [Hj|Hj]; [by left|right]. unfold head_task in Hj. destruct (pops e); [|by apply elem_of_nil in Hj].
    apply list_elem_of_omap in Hj as (t&Ht&Hp). destruct t; simplify_eq/=.
    by eapply subseteq_take.
  - rewrite Es in Hj. apply elem_of_app in Hj as [Hj|Hj]; [right|apply Hnew in Hj; lia].
    destruct (pops e); [|done]. by eapply subseteq_drop.
Qed.

Lemma behind_run n evs L s :
  all_good L s evs -> (n <= length (jobs_ s))%nat -> behind n (run exec evs s).2 ⊆ behind n s.
Proof.
  revert L s. induction evs as [|e evs IH]; intros L s G Hn; [done|]. rewrite run_cons. cbn [snd].
  destruct G as [G Gs]. etrans; [eapply IH; [exact Gs|]|by apply behind_exec, Hn; destruct G].
  pose proof (jobs_grow_exec e s). lia.
Qed.

(** As many turns as handlers wait run them all. *)
Definition pushless (n : nat) (s : user_server) : Prop := forall j, TPush j ∈ strand s -> (n <= j)%nat.

Lemma settles n evs old new L s :
  all_good L s evs -> (n <= length (jobs_ s))%nat -> strand s = old ++ new ->
  (forall j, TPush j ∈ new -> (n <= j)%nat) -> (length old <= turns evs)%nat ->
  pushless n (run exec evs s).2.
Proof.
  revert old new L s. induction evs as [|e evs IH]; intros old new L s [G Gs] Hn Es Hnew Hl.
  { cbn in *. destruct old; [|cbn in *; lia]. intros j. rewrite Es. apply Hnew. }
  rewrite run_cons. cbn [snd]. rewrite turns_cons in Hl.
  destruct (evolves_exec e s (gd_held _ _ G)) as [(new'&Es'&Hnew') _]. rewrite Es in Es'.
  pose proof (jobs_grow_exec e s).
  assert (Hn' : forall l, l ⊆ new -> forall j, TPush j ∈ l ++ new' -> (n <= j)%nat).
  { intros l Hs j [Hj|Hj]%elem_of_app; [auto|]. apply Hnew' in Hj. lia. }
  destruct (pops e), old as [|t old]; cbn [length app drop] in *.
  - eapply (IH [] (drop 1 new ++ new')); [done|lia|done| |cbn; lia]. apply Hn'.
    intros t Ht. by eapply subseteq_drop.
  - eapply (IH old (new ++ new')); [done|lia| |by apply Hn'|lia]. by rewrite Es', (assoc_L (++)).
  - eapply (IH [] (new ++ new')); [done|lia|done|by apply Hn'|cbn; lia].
  - eapply (IH (t :: old) (new ++ new')); [done|lia| |by apply Hn'|cbn; lia].
    by rewrite Es', <- (assoc_L (++)).
Qed.

Lemma mention_runs evs pre t ts j L s :
  all_good L s evs -> strand s = pre ++ t :: ts -> mentions t j -> (length pre < turns evs)%nat ->
  finished j (run exec evs s).2.
Proof.
  revert pre ts L s. induction evs as [|e evs IH]; intros pre ts L s [G Gs] Es Hm Hl; [cbn in Hl; lia|].
  rewrite run_cons. cbn [snd]. rewrite turns_cons in Hl.
  destruct (evolves_exec e s (gd_held _ _ G)) as [(new&Es'&_) _]. rewrite Es in Es'.
  destruct (pops e) eqn:Hp; [destruct pre as [|t0 pre]|].
  - eapply finished_steps; [apply steps_run|]. destruct e as [| | |i' now| | |]; try done.
    apply bool_decide_eq_true in Hp as ->. unfold strand in Es.
    destruct (heap_ s !! i) as [y|] eqn:Hy; [|done]. by eapply mention_finishes.
  - eapply (IH pre (ts ++ new)); [done| |done|cbn in *; lia]. rewrite Es'. cbn [app].
    by rewrite skipn_cons, drop_0, <- (assoc_L (++)).
  - eapply (IH pre (ts ++ new)); [done| |done|cbn in *; lia]. by rewrite Es', <- (assoc_L (++)).
Qed.

(** ** Rounds *)

(** The events [e1], [e2], a tick, and [e3]: [e1] and [e3] give the strand as
    many turns as handlers wait in it; the tick comes after the deadline of
    the request the session waited for after [e1], if it still waits for it. *)
Record round (s : user_server) (e1 e2 : list event) (now : Z) (e3 : list event) : Prop := {
  rd_first : (length (strand s) <= turns e1)%nat;
  rd_timer j id q : head (queue (run exec e1 s).2) = Some j ->
    head (queue (run exec (e1 ++ e2) s).2) = Some j ->
    Pending.requests_ (requests_ (run exec (e1 ++ e2) s).2) !! id = Some q ->
    on_response q = j -> deadline q <= now;
  rd_last : (length (strand (run exec (e1 ++ e2 ++ [Tick now]) s).2) <= turns e3)%nat;
}.

(** A schedule of [k] rounds, and what comes after. *)
Inductive rounds : nat -> user_server -> list event -> Prop :=
| rounds_done s evs : rounds 0 s evs
| rounds_next k s e1 e2 now e3 evs :
    round s e1 e2 now e3 ->
    rounds k (run exec (e1 ++ e2 ++ Tick now :: e3) s).2 evs ->
    rounds (S k) s ((e1 ++ e2 ++ Tick now :: e3) ++ evs).

Lemma queue_lookup s j :
  j ∈ queue s -> exists y, heap_ s !! i = Some y /\ queue s = q_ (scheduler_ y) /\
    j ∈ line (scheduler_ y, strand_ y).
Proof.
  unfold queue. destruct (heap_ s !! i) as [y|]; cbn; [|by intros ?%elem_of_nil].
  intros Hj. exists y. split_and!; [done|done|]. unfold line. cbn. set_solver.
Qed.

(** The head of the queue is the oldest job. *)
Lemma queue_sorted L s j :
  good L s -> j ∈ queue s -> exists j0, head (queue s) = Some j0 /\ (j0 <= j)%nat.
Proof.
  intros G Hj. destruct (queue_lookup s j Hj) as (y&Hy&Eq&_).
  pose proof (or_sorted _ _ _ _ _ (gd_ordered _ _ G) i _ (view_lookup _ _ _ Hy)) as Hs.
  unfold line in Hs. cbn in Hs. rewrite <- Eq in Hs. destruct (queue s) as [|j0 q]; [by apply elem_of_nil in Hj|].
  exists j0. split; [done|]. apply elem_of_cons in Hj as [->|Hj]; [done|].
  apply StronglySorted_app_1_r, StronglySorted_app_1_l in Hs.
  apply StronglySorted_cons in Hs as [Hs _]. rewrite Forall_forall in Hs. specialize (Hs j Hj). lia.
Qed.

(** Every job that is behind is queued, and the oldest one is at the head. *)
Lemma behind_head n L s j :
  good L s -> pushless n s -> j ∈ behind n s ->
  exists j0, head (queue s) = Some j0 /\ (j0 <= j)%nat /\ j0 ∈ behind n s.
Proof.
  intros G Hp [Hlt [Hj|Hj]]%elem_of_behind; [|apply Hp in Hj; lia].
  destruct (queue_sorted L s j G Hj) as (j0&Hh&Hle). exists j0. split_and!; [done|done|].
  apply elem_of_behind. split; [lia|left]. destruct (queue s); [done|]. injection Hh as ->. by left.
Qed.

Lemma finished_not_behind n L s j : good L s -> finished j s -> j ∉ behind n s.
Proof.
  intros G (x&Hx&Hf) [_ Hj]%elem_of_behind.
  assert (Hl : exists y, heap_ s !! i = Some y /\ j ∈ line (scheduler_ y, strand_ y)).
  { destruct Hj as [Hj|Hj]; [destruct (queue_lookup s j Hj) as (y&?&_&?); eauto|].
    unfold strand in Hj. destruct (heap_ s !! i) as [y|]; [|by apply elem_of_nil in Hj].
    exists y. split; [done|]. unfold line. cbn in *. apply elem_of_app. right.
    apply list_elem_of_omap. by exists (TPush j). }
  destruct Hl as (y&Hy&Hl).
  destruct (or_line _ _ _ _ _ (gd_ordered _ _ G) i _ j (view_lookup _ _ _ Hy) Hl) as (x0&Hx0&_&Hf0). congruence.
Qed.

(** After the tick a handler that ends the head of the queue waits in the strand. *)
Lemma head_woken L s now j :
  good L s -> good (L ++ omap sender (exec (Tick now) s).1) (exec (Tick now) s).2 ->
  head (queue s) = Some j ->
  (forall id q, Pending.requests_ (requests_ s) !! id = Some q -> on_response q = j -> deadline q <= now) ->
  exists pre t ts, strand (exec (Tick now) s).2 = pre ++ t :: ts /\ mentions t j.
Proof.
  intros G G' Hh Hd. assert (Hj : j ∈ queue s) by (destruct (queue s); [done|]; injection Hh as ->; left).
  destruct (queue_lookup s j Hj) as (y&Hy&Eq&Hl). rewrite Eq in Hh. pose proof G as [O [A _ _] H _ _].
  destruct (pg_busy _ _ _ _ _ _ A i _ j (view_lookup _ _ _ Hy) Hh) as [(x&k&Hx&Hk)|[k Hk]]; [|done].
  destruct (or_line _ _ _ _ _ O i _ j (view_lookup _ _ _ Hy) Hl) as (x0&Hx0&Hi&_).
  assert (x0 = x) as -> by congruence. clear Hx0.
  assert (W : forall s0, woken (view s0) j x -> exists t, t ∈ strand s0 /\ mentions t j).
  { intros s0 Hw. destruct (woken_split i s0 j x Hi Hw) as (y0&pre&t&ts&Hy0&Et&Hm). exists t. split; [|done].
    unfold strand. rewrite Hy0. cbn. rewrite Et. set_solver. }
  assert (Ht : exists t, t ∈ strand (exec (Tick now) s).2 /\ mentions t j).
  { destruct (pg_wake _ _ _ _ _ _ A j x k Hx Hk) as [[]|[Hc|[(q&Hq&Hqj&_)|Hw]]]; [by apply elem_of_nil in Hc| |].
    - destruct (tick_takes now s _ q H Hq) as [Ej Hn]; [by eapply Hd|].
      rewrite <- Ej in Hx. pose proof G' as [_ [A' _ _] _ _ _].
      destruct (pg_wake _ _ _ _ _ _ A' j x k Hx Hk) as [[]|[Hc|[(q'&Hq'&_)|Hw]]];
        [by apply elem_of_nil in Hc|congruence|by apply W].
    - destruct (W s Hw) as (t&Ht&Hm). exists t. split; [|done].
      destruct (evolves_exec (Tick now) s H) as [(new&->&_) _]. cbn. set_solver. }
  destruct Ht as (t&Ht&Hm). apply list_elem_of_split in Ht as (pre&ts&E). by exists pre, t, ts.
Qed.

Lemma run_split evs evs' s : (run exec (evs ++ evs') s).2 = (run exec evs' (run exec evs s).2).2.
Proof. by rewrite run_app. Qed.

(** A round ends the job that was at the head of the queue when all were queued. *)
Lemma round_progress n L s e1 e2 now e3 :
  let evs := e1 ++ e2 ++ Tick now :: e3 in
  all_good L s evs -> round s e1 e2 now e3 -> (n <= length (jobs_ s))%nat ->
  behind n s <> ∅ -> behind n (run exec evs s).2 ⊂ behind n s.
Proof.
  cbn zeta. intros G R Hn Hne. pose proof (behind_run n _ L s G Hn) as Hsub.
  apply all_good_app in G as [G1 G2]. pose proof (all_good_now _ _ _ G2) as Gs1.
  pose proof (settles n e1 (strand s) [] L s G1 Hn (eq_sym (app_nil_r _))) as P1.
  specialize (P1 ltac:(by intros j Hj%elem_of_nil) (rd_first _ _ _ _ _ R)).
  pose proof (behind_run n e1 L s G1 Hn) as Hsub1. pose proof (jobs_grow e1 s) as Hn1.
  destruct R as [_ Ht Hl]. rewrite !run_split in *. set (L1 := L ++ _) in *. set (s1 := (run exec e1 s).2) in *.
  clearbody L1 s1. apply all_good_app in G2 as [G2 G3]. pose proof (all_good_now _ _ _ G3) as Gs2.
  pose proof (settles n e2 [] (strand s1) L1 s1 G2 ltac:(lia) eq_refl P1 ltac:(cbn; lia)) as P2.
  pose proof (behind_run n e2 L1 s1 G2 ltac:(lia)) as Hsub2. pose proof (jobs_grow e2 s1) as Hn2.
  set (L2 := L1 ++ _) in *. set (s2 := (run exec e2 s1).2) in *. clearbody L2 s2.
  pose proof (behind_run n _ L2 s2 G3 ltac:(lia)) as Hsub3.
  destruct (decide (behind n s1 = ∅)) as [E1|Hne1]; [set_solver|].
  destruct (set_choose_L _ Hne1) as [j1 Hj1].
  destruct (behind_head n L1 s1 j1 Gs1 P1 Hj1) as (j&Hh1&_&Hb1).
  split; [done|]. intros Hall. assert (Hb3 : j ∈ behind n (run exec (Tick now :: e3) s2).2) by set_solver.
  destruct (behind_head n L2 s2 j Gs2 P2 ltac:(set_solver)) as (j2&Hh2&Hle2&Hb2).
  destruct (behind_head n L1 s1 j2 Gs1 P1 ltac:(set_solver)) as (j'&Hh1'&Hle1&_).
  assert (j2 = j) as -> by (simplify_eq; lia). destruct G3 as [_ G3].
  destruct (head_woken L2 s2 now j Gs2 (all_good_now _ _ _ G3) Hh2) as (pre&t&ts&Es&Hm).
  { intros id q Hq Hj. exact (Ht j id q Hh1 Hh2 Hq Hj). }
  rewrite run_cons in Hl, Hb3. cbn [snd] in Hl, Hb3.
  assert (Hfin : finished j (run exec e3 (exec (Tick now) s2).2).2).
  { eapply mention_runs; [exact G3|exact Es|done|]. cbn [run snd] in Hl.
    rewrite Es, length_app in Hl. cbn in Hl. lia. }
  rewrite <- (app_nil_r e3) in G3. apply all_good_app in G3 as [_ G4]. apply all_good_now in G4.
  by apply (finished_not_behind n _ _ j G4 Hfin).
Qed.

(** As many rounds as there are jobs end them all. *)
Lemma rounds_end n k L s evs :
  rounds k s evs -> all_good L s evs -> (n <= length (jobs_ s))%nat ->
  (base.size (behind n s) <= k)%nat -> behind n (run exec evs s).2 = ∅.
Proof.
  intros R. revert L. induction R as [s evs|k s e1 e2 now e3 evs R _ IH]; intros L G Hn Hk.
  - pose proof (behind_run n evs L s G Hn). assert (E : behind n s = ∅) by (apply leibniz_equiv, size_empty_inv; lia). set_solver.
  - pose proof (behind_run n _ L s G Hn). destruct (decide (behind n s = ∅)) as [E|Hne]; [set_solver|].
    apply all_good_app in G as [G1 G2]. pose proof (round_progress n L s e1 e2 now e3 G1 R Hn Hne) as Hlt.
    rewrite run_split. eapply IH; [exact G2|etrans; [exact Hn|apply jobs_grow]|].
    apply subset_size in Hlt. lia.
Qed.

(** The jobs of the session: queued, or to be queued. *)
Definition outstanding (s : user_server) : list nat := queue s ++ omap pushed (strand s).

Lemma behind_size n s : (base.size (behind n s) <= length (outstanding s))%nat.
Proof.
  assert (H : forall l : list nat, (base.size (list_to_set l : gset nat) <= length l)%nat).
  { induction l as [|x l IH]; [done|]. cbn. pose proof (size_union_alt {[x]} (list_to_set l : gset nat)).
    pose proof (subseteq_size (list_to_set l ∖ {[x]}) (list_to_set l : gset nat) ltac:(set_solver)).
    rewrite size_singleton in *. lia. }
  unfold behind. etrans; [apply H|]. apply length_filter.
Qed.

Lemma fair_jobs_end L s evs :
  all_good L s evs -> rounds (length (outstanding s)) s evs ->
  forall j y, (j < length (jobs_ s))%nat -> heap_ (run exec evs s).2 !! i = Some y ->
    j ∉ line (scheduler_ y, strand_ y).
Proof.
  intros G R j y Hj Hy Hl. pose proof (rounds_end (length (jobs_ s)) _ L s evs R G ltac:(lia) (behind_size _ _)) as E.
  assert (Hin : j ∈ behind (length (jobs_ s)) (run exec evs s).2); [|rewrite E in Hin; set_solver].
  apply elem_of_behind. split; [done|]. unfold queue, strand. rewrite Hy. cbn. unfold line in Hl. cbn in Hl.
  apply elem_of_app in Hl as [?|Hl]; [by left|right].
  apply list_elem_of_omap in Hl as (t&Ht&Hp). destruct t; by simplify_eq/=.
Qed.
End fair.
