(* ===== verification/System.v ===== *)
(** * System: the User server and the Room server together

    Composes [Sessions] and [Rooms] over the two directions of the intranet
    channel.  A direction is a first-in first-out list (the theorems of [Broker]
    about the dealer and router channels) that may also lose messages; what is
    serialised on one side is what is deserialised on the other (the round
    trip of [Wire]).  Other User servers talk to the Room server at will. *)

From S2P Require Import Prelude Wire Queued Contents Rooms Pending Sessions Replies.
From coqutil Require Import Datatypes.RecordSetters.
Import TriangleBracketNotations.
Import MessageTypes.
#[local] Arguments constant {_} _ _ /.

(** ** The requests inside the Room server *)

Section room_requests.
Context {C : Type} `{room_message_interface C}.

Notation keyed := (string * Z * MessageType)%type (only parsing).

Definition keyed_of (q : Rooms.request) : keyed := (rq_key q, rq_type q).

Definition task_keys (t : Rooms.task) : list keyed :=
  match t with
  | TJoin q _ _ | TJoinNotify q _ _ _ | TJoinComplete q _ _ _
  | TLeave q _ | TLeaveNotify q _ _ _ | TLeaveComplete q _ _ _ _ => [keyed_of q]
  | _ => []
  end.

Definition pc_keys (pc : router_pc) : list keyed :=
  match pc with
  | RJoin q _ _ _ | RLeave q _ _ | RCreate q _ _ | RInit q _ | RComplete q _ => [keyed_of q]
  | RFwd _ _ _ => []
  end.

Definition strand_keys (s : Rooms.server C) : list keyed :=
  mjoin ((fun e => task_keys e.2) <$> Rooms.strand_ s).

Definition keys (s : Rooms.server C) : list keyed :=
  from_option pc_keys [] (router_ s) ++ strand_keys s.

(** The request a response answers. *)
Definition answers (e : Rooms.effect) : option keyed :=
  match e with
  | Response _ destination type request_id _ _ => Some (destination, request_id, type)
  | _ => None
  end.

(** The request a message brings. *)
Definition brings (source : RoutingId) (m : u2r_message) : list keyed :=
  match m with
  | MReqCreateRoom id _ => [(source, id, kUser2RoomResCreateRoom)]
  | MReqJoinRoom id _ _ => [(source, id, kUser2RoomResJoinRoom)]
  | MReqLeaveRoom id _ => [(source, id, kUser2RoomResLeaveRoom)]
  | _ => []
  end.

Lemma strand_keys_post r t s : strand_keys (Rooms.post r t s) = strand_keys s ++ task_keys t.
Proof.
  destruct s. unfold strand_keys. cbn. rewrite fmap_app, mjoin_app. cbn. by rewrite app_nil_r.
Qed.

Lemma strand_keys_continue r t s : strand_keys (continue r t s) = task_keys t ++ strand_keys s.
Proof. by destruct s. Qed.

Lemma strand_keys_same s s' : Rooms.strand_ s' = Rooms.strand_ s -> strand_keys s' = strand_keys s.
Proof. unfold strand_keys. by intros ->. Qed.

Lemma strand_keys_calls r x calls s :
  strand_keys (foldl (api r x) s calls) = strand_keys s.
Proof.
  revert s. induction calls as [|c calls IH]; intros s; [done|]. cbn [foldl]. rewrite IH.
  destruct c; cbn [api]; [unfold room_send_to_user; case_decide; [|done]|];
    cbn [snd]; rewrite strand_keys_post; apply app_nil_r.
Qed.

Lemma strand_keys_call_contents r cb f s :
  strand_keys (call_contents r cb f s).2 = strand_keys s /\
  omap answers (call_contents r cb f s).1 = [].
Proof.
  unfold call_contents. repeat case_match; cbn; try done. rewrite strand_keys_calls.
  by destruct s.
Qed.

Lemma strand_keys_close_impl r s :
  strand_keys (close_impl r s).2 = strand_keys s /\ omap answers (close_impl r s).1 = [].
Proof.
  unfold close_impl. repeat (case_match || case_decide); cbn; try done; rewrite ?strand_keys_calls;
    by destruct s.
Qed.

Lemma strand_keys_kick r u reason s :
  strand_keys (kick_out_user_impl r u reason s).2 = strand_keys s /\
  omap answers (kick_out_user_impl r u reason s).1 = [].
Proof.
  unfold kick_out_user_impl. destruct (get r s) as [x|]; [|done].
  destruct (users_ x !! u); [|done]. destruct (contents_ x); [|done].
  destruct (strand_keys_call_contents r (CbKicked u) (on_kicked_out_user u reason) s) as [E1 E2].
  destruct (call_contents _ _ _ _) as [es s1]. cbn in *. split; [|done].
  rewrite <- E1. case_match; [|done]. by destruct s1.
Qed.

Lemma strand_keys_begin q s : strand_keys (begin_request q s).2 = strand_keys s.
Proof. unfold begin_request. destruct (queued.try_start _ _). by destruct s. Qed.

Lemma strand_keys_complete q success now s :
  strand_keys (Rooms.complete q success now s).2 = strand_keys s /\
  omap answers (Rooms.complete q success now s).1 ⊆ [keyed_of q].
Proof.
  unfold Rooms.complete. destruct (queued.finish _ _ _ _) as [b reqs]. case_match; cbn.
  - split; [by destruct s|]. unfold keyed_of. by destruct (rq_key q).
  - split; [by destruct s|]. set_solver.
Qed.

Lemma strand_keys_registry u r s :
  strand_keys (joined_room u r s).2 = strand_keys s /\
  strand_keys (left_room u r s).2 = strand_keys s /\
  strand_keys (close_room r s).2 = strand_keys s.
Proof.
  unfold joined_room, left_room, close_room.
  destruct (registered r s); destruct (user_rooms_ s !! u); cbn [snd]; repeat case_decide;
    split_and!; by destruct s.
Qed.

Lemma answers_sends sender to msg : omap answers (send_to_user_impl sender to msg) = [].
Proof. unfold send_to_user_impl. by induction to. Qed.

(** A handler only knows the request of its task. *)
Lemma keys_run_task now r t s :
  strand_keys (Rooms.run_task now r t s).2 ⊆ task_keys t ++ strand_keys s /\
  omap answers (Rooms.run_task now r t s).1 ⊆ task_keys t.
Proof.
  destruct t; cbn [Rooms.run_task].
  - destruct (strand_keys_call_contents r CbCreate (on_create_room room_id) s) as [-> ->]. set_solver.
  - split; [|set_solver]. unfold join_task. pose proof (strand_keys_begin q s) as E.
    destruct (begin_request q s) as [b s1]. cbn [snd] in *. rewrite <- E.
    repeat case_match; by rewrite strand_keys_continue.
  - destruct (strand_keys_registry u r s) as (E&_&_).
    destruct joined; [destruct (joined_room u r s) as [b s1]|]; cbn [fst snd] in *;
      rewrite strand_keys_continue, ?E; set_solver.
  - destruct (strand_keys_complete q success now s) as [E1 E2].
    destruct (Rooms.complete q success now s) as [es s1]. cbn [fst snd] in *. rewrite <- E1.
    split; [|done]. destruct inserted; [rewrite strand_keys_continue|]; set_solver.
  - destruct (strand_keys_call_contents r (CbEnter u) (on_user_enter u) s) as [-> ->]. set_solver.
  - split; [|set_solver]. unfold leave_task. pose proof (strand_keys_begin q s) as E.
    destruct (begin_request q s) as [b s1]. cbn [snd] in *. rewrite <- E.
    repeat case_match; by rewrite strand_keys_continue.
  - destruct (strand_keys_registry u r s) as (_&E&_).
    destruct gone; [destruct (left_room u r s) as [b s1]|]; cbn [fst snd] in *;
      rewrite strand_keys_continue, ?E; set_solver.
  - destruct (strand_keys_complete q success now s) as [E1 E2].
    destruct (Rooms.complete q success now s) as [es s1]. cbn [fst snd] in *. rewrite <- E1.
    split; [|done]. destruct gone; [rewrite strand_keys_continue|]; set_solver.
  - destruct (strand_keys_call_contents r (CbExit u) (on_user_exit u) s) as [E1 E2].
    destruct (call_contents _ _ _ _) as [es s1]. cbn [fst snd] in *. rewrite E2, <- E1.
    split; [|set_solver]. destruct empty; [rewrite strand_keys_continue|]; set_solver.
  - destruct (strand_keys_registry "" r s) as (_&_&E).
    destruct (close_room r s) as [[] s1]; cbn [fst snd] in *;
      rewrite ?strand_keys_continue, E; set_solver.
  - destruct (strand_keys_close_impl r s) as [-> ->]. set_solver.
  - cbn. rewrite answers_sends. set_solver.
  - destruct (strand_keys_kick r u reason s) as [-> ->]. set_solver.
Qed.

Lemma keys_set_router pc s :
  keys (set_router pc s) = from_option pc_keys [] pc ++ strand_keys s.
Proof. by destruct s. Qed.

Lemma keys_router_step pc rng now s :
  keys (router_step pc rng now s).2 ⊆ pc_keys pc ++ strand_keys s /\
  omap answers (router_step pc rng now s).1 ⊆ pc_keys pc.
Proof.
  unfold router_step. pose proof (keys_set_router None s) as E0.
  assert (Er : router_ (set_router None s) = None) by by destruct s.
  set (s0 := set_router None s) in *. clearbody s0. cbn in E0.
  assert (Es : strand_keys s0 = strand_keys s).
  { unfold keys in E0. rewrite Er in E0. done. }
  destruct pc as [q r u source|q r u|q u source|q r|q success|r from msg]; cbn [fst snd].
  - split; [|set_solver]. unfold keys. rewrite strand_keys_post, Es.
    replace (router_ (Rooms.post r _ s0)) with (router_ s0) by by destruct s0.
    rewrite Er. set_solver.
  - split; [|set_solver]. unfold keys. rewrite strand_keys_post, Es.
    replace (router_ (Rooms.post r _ s0)) with (router_ s0) by by destruct s0.
    rewrite Er. set_solver.
  - unfold create_room. destruct (stopping_ s0).
    + destruct (queued.finish _ _ _ _) as [b reqs]. cbn [fst snd]. split; [|set_solver].
      unfold keys. rewrite (strand_keys_same s0) by (by destruct s0).
      replace (router_ _) with (router_ s0) by by destruct s0. rewrite Er, Es. set_solver.
    + cbn [fst snd]. rewrite keys_set_router. split; [|set_solver].
      rewrite (strand_keys_same s0) by (by destruct s0). rewrite Es. done.
  - destruct (get r s0); cbn [fst snd]; (split; [|set_solver]); rewrite keys_set_router;
      rewrite ?strand_keys_post; [|by rewrite Es].
    rewrite (strand_keys_same s0) by (by destruct s0). rewrite Es. set_solver.
  - destruct (strand_keys_complete q success now s0) as [E1 E2]. split; [|done].
    unfold keys. rewrite router_complete, Er, E1, Es. set_solver.
  - destruct (strand_keys_call_contents r (CbRecv from msg) (on_recv_message from msg) s0)
      as [E1 E2]. rewrite E2. split; [|done].
    unfold keys. rewrite router_call_contents, Er, E1, Es. set_solver.
Qed.

Lemma admit_request_keys src id ty rid now s :
  strand_keys (admit_request src id ty rid now s).2 = strand_keys s /\
  forall q, (admit_request src id ty rid now s).1 = Some q -> keyed_of q = (src, id, ty).
Proof.
  unfold admit_request. destruct (queued.admit_ _ _ _) as [[t|] reqs]; cbn;
    (split; [by destruct s|]); [by intros q [= <-]|done].
Qed.

Lemma keys_route q found posted s :
  (forall r, pc_keys (posted r) = [keyed_of q]) ->
  keys (route_request q found posted s) = keyed_of q :: strand_keys s.
Proof.
  intros Hp. unfold route_request. destruct found; rewrite keys_set_router;
    cbn [from_option]; rewrite ?Hp, ?strand_keys_begin; done.
Qed.

Lemma keys_receive src m now s :
  router_ s = None ->
  keys (receive src m now s).2 ⊆ brings src m ++ keys s /\
  omap answers (receive src m now s).1 = [].
Proof.
  intros Hr. destruct m as [|id u|id u rid|u msg|id u|id]; cbn [receive brings].
  - set_solver.
  - destruct (admit_request_keys src id kUser2RoomResCreateRoom 0 now s) as [E1 E2].
    pose proof (admit_router src id kUser2RoomResCreateRoom 0 now s) as E3.
    destruct (admit_request src id _ 0 now s) as [[q|] s1]; cbn [fst snd] in *.
    + pose proof (strand_keys_begin q s1) as E4. destruct (begin_request q s1) as [b s2].
      cbn [fst snd] in *. split; [|done]. rewrite keys_set_router, E4, E1. unfold keys.
      specialize (E2 q eq_refl). destruct b; cbn; rewrite E2; set_solver.
    + split; [|done]. unfold keys. rewrite E3, E1, Hr. set_solver.
  - destruct (admit_request_keys src id kUser2RoomResJoinRoom rid now s) as [E1 E2].
    pose proof (admit_router src id kUser2RoomResJoinRoom rid now s) as E3.
    destruct (admit_request src id _ rid now s) as [[q|] s1]; cbn [fst snd] in *.
    + split; [|done]. rewrite keys_route by done. rewrite (E2 q eq_refl), E1. unfold keys. set_solver.
    + split; [|done]. unfold keys. rewrite E3, E1, Hr. set_solver.
  - destruct (find_user_room u s); cbn [fst snd]; [|set_solver]. split; [|done].
    rewrite keys_set_router. unfold keys. set_solver.
  - destruct (admit_request_keys src id kUser2RoomResLeaveRoom 0 now s) as [E1 E2].
    pose proof (admit_router src id kUser2RoomResLeaveRoom 0 now s) as E3.
    destruct (admit_request src id _ 0 now s) as [[q|] s1]; cbn [fst snd] in *.
    + split; [|done]. rewrite keys_route by done. rewrite (E2 q eq_refl), E1. unfold keys. set_solver.
    + split; [|done]. unfold keys. rewrite E3, E1, Hr. set_solver.
  - split; [|done]. cbn. by destruct s.
Qed.

(** The requests an event brings in. *)
Definition event_brings (e : Rooms.event) : list keyed :=
  match e with Receive source m _ => brings source m | _ => [] end.

Lemma strand_keys_take r t ts s :
  take_task r (Rooms.strand_ s) = Some (t, ts) ->
  task_keys t ++ strand_keys (s <| Rooms.strand_ := ts |>) ≡ₚ strand_keys s.
Proof.
  intros Ht. apply take_task_perm in Ht. destruct s. unfold strand_keys. cbn in *.
  by rewrite Ht.
Qed.

Lemma keys_exec e s :
  keys (Rooms.exec e s).2 ⊆ event_brings e ++ keys s /\
  omap answers (Rooms.exec e s).1 ⊆ keys s.
Proof.
  destruct e as [src m now|rng now|r now| |]; cbn [Rooms.exec event_brings].
  - destruct (router_ s) eqn:Hr; cbn; [set_solver|].
    destruct (keys_receive src m now s Hr) as [H1 ->]. set_solver.
  - destruct (router_ s) as [pc|] eqn:Hr; cbn; [|set_solver].
    destruct (keys_router_step pc rng now s) as [H1 H2]. unfold keys in *. rewrite Hr. set_solver.
  - destruct (take_task r (Rooms.strand_ s)) as [[t ts]|] eqn:Ht; cbn; [|set_solver].
    pose proof (strand_keys_take r t ts s Ht) as Hp. set (s1 := s <| Rooms.strand_ := ts |>) in *.
    destruct (keys_run_task now r t s1) as [H1 H2]. unfold keys. rewrite router_run_task.
    replace (router_ s1) with (router_ s) by by destruct s.
    assert (Hsub : task_keys t ++ strand_keys s1 ⊆ strand_keys s) by (by rewrite Hp).
    set_solver.
  - split; [|set_solver]. unfold Rooms.shutdown. cbn [snd]. case_match; [set_solver|].
    by destruct s.
  - destruct (closing_ s); cbn [fst snd]; [set_solver|]. split; [|set_solver].
    unfold keys. rewrite strand_keys_post.
    rewrite (strand_keys_same s) by (by destruct s).
    replace (router_ _) with (router_ s) by by destruct s. set_solver.
Qed.
End room_requests.

(** ** The composed system *)

Section system.
Context {C : Type} `{room_message_interface C}.

(** [route] is the identity the User server's dealer socket announces. *)
Context (route : RoutingId).

Record system := System {
  user_side : user_server;
  room_side : Rooms.server C;
  to_room : list room_message;
  to_user : list Rooms.effect;
}.

Definition system_start : system := System Sessions.server_start Rooms.server_start [] [].

(** What the Room server parses from a message of the User server. *)
Definition request_of (m : room_message) : u2r_message :=
  match m with
  | User2RoomReqCreateRoom id u => MReqCreateRoom id u
  | User2RoomReqJoinRoom id u room => MReqJoinRoom id u room
  | User2RoomReqLeaveRoom id u => MReqLeaveRoom id u
  | User2RoomFwdRoom u msg => MFwdRoom u msg
  | User2RoomCancelRequest id => MCancelRequest id
  end.

(** What the User server parses from a response of the given type. *)
Definition response_of (type : MessageType) (room : Z) (success : bool)
    : option room_response :=
  if type =? kUser2RoomResCreateRoom then Some (User2RoomResCreateRoom success room)
  else if type =? kUser2RoomResJoinRoom then Some (User2RoomResJoinRoom success room)
  else if type =? kUser2RoomResLeaveRoom then Some (User2RoomResLeaveRoom success)
  else None.

(** [LeaveRoomReason::kKickedOut]; [SenderType]. *)
Definition kKickedOut : Z := 2.
Definition sender_type (sender : option Uid) : Z := if sender then 1 else 0.

(** [room_channel::on_recv] of a message of the Room server. *)
Definition received (m : Rooms.effect) (now : Z) : option Sessions.event :=
  match m with
  | Response _ _ type id room success =>
      (fun r => RoomResponse id r now) <$> response_of type room success
  | Rooms.FwdClient _ sender to msg =>
      Some (RoomNotification to
              (User2RoomFwdClient (default "" sender) (sender_type sender) msg))
  | Rooms.NtfLeaveRoom _ to _ =>
      Some (RoomNotification to (User2RoomNtfLeaveRoom kKickedOut))
  | _ => None
  end.

(** The messages of the Room server for this User server. *)
Definition addressed (e : Rooms.effect) : bool :=
  match e with
  | Response _ d _ _ _ _ | Rooms.FwdClient d _ _ _ | Rooms.NtfLeaveRoom d _ _ =>
      bool_decide (d = route)
  | _ => false
  end.

Definition sends (e : Sessions.effect) : option room_message :=
  match e with ToRoom m => Some m | _ => None end.

Inductive event :=
  | UserStep (e : Sessions.event)
  | RoomStep (e : Rooms.event)
  | DeliverToRoom (now : Z)
  | DeliverToUser (now : Z)
  | LoseToRoom
  | LoseToUser.

(** Messages of the peer come through the channel only. *)
Definition user_local (e : Sessions.event) : bool :=
  match e with RoomResponse _ _ _ | RoomNotification _ _ => false | _ => true end.
Definition room_local (e : Rooms.event) : bool :=
  match e with Receive source _ _ => bool_decide (source <> route) | _ => true end.

(** What the two servers did in a step. *)
Definition trace : Type := list Sessions.effect * list Rooms.effect.

Definition user_step (e : Sessions.event) (s : system) : trace * system :=
  let '(es, u) := Sessions.exec e (user_side s) in
  ((es, []), s <| user_side := u |> <| to_room := to_room s ++ omap sends es |>).

Definition room_step (e : Rooms.event) (s : system) : trace * system :=
  let '(es, r) := Rooms.exec e (room_side s) in
  (([], es), s <| room_side := r |>
               <| to_user := to_user s ++ filter (fun e => addressed e = true) es |>).

Definition exec (e : event) (s : system) : trace * system :=
  match e with
  | UserStep e => if user_local e then user_step e s else (([], []), s)
  | RoomStep e => if room_local e then room_step e s else (([], []), s)
  | DeliverToRoom now =>
      match router_ (room_side s), to_room s with
      | None, m :: ms =>
          room_step (Receive route (request_of m) now) (s <| to_room := ms |>)
      | _, _ => (([], []), s)
      end
  | DeliverToUser now =>
      match to_user s with
      | m :: ms =>
          match received m now with
          | Some e => user_step e (s <| to_user := ms |>)
          | None => (([], []), s <| to_user := ms |>)
          end
      | [] => (([], []), s)
      end
  | LoseToRoom => (([], []), s <| to_room := tail (to_room s) |>)
  | LoseToUser => (([], []), s <| to_user := tail (to_user s) |>)
  end.

Definition user_log (ts : list trace) : list Sessions.effect := mjoin ts.*1.
Definition room_log (ts : list trace) : list Rooms.effect := mjoin ts.*2.

(** ** The invariant *)

(** Requests of the User server so far; responses of the Room server so far. *)
Definition asked (ul : list Sessions.effect) (id : Z) (t : MessageType) : Prop :=
  (id, t) ∈ omap asks ul.

Definition responded (rl : list Rooms.effect) (r : room_response) : Prop :=
  exists ticket type id room success,
    Response ticket route type id room success ∈ rl /\
    response_of type room success = Some r.

Record inv (ul : list Sessions.effect) (rl : list Rooms.effect) (s : system) : Prop := {
  inv_typed : typed (asked ul) (responded rl) (user_side s);
  inv_takes : takes Sessions.server_start ul (user_side s);
  inv_to_room m id t : m ∈ to_room s -> asks (ToRoom m) = Some (id, t) -> asked ul id t;
  inv_keys id t : (route, id, t) ∈ keys (room_side s) -> asked ul id t;
  inv_answered e id t : e ∈ rl -> answers e = Some (route, id, t) -> asked ul id t;
  inv_to_user e : e ∈ to_user s -> e ∈ rl /\ addressed e = true;
}.

Lemma asked_app ul ul' id t : asked (ul ++ ul') id t <-> asked ul id t \/ asked ul' id t.
Proof. unfold asked. rewrite omap_app. apply elem_of_app. Qed.

Lemma responded_app rl rl' r : responded rl r -> responded (rl ++ rl') r.
Proof. intros (tk&ty&id&room&ok&Hr&E). exists tk, ty, id, room, ok. set_solver. Qed.

Lemma response_of_type type room success r :
  response_of type room success = Some r -> type = response_type r.
Proof.
  unfold response_of. repeat case_match; intros; simplify_eq; breflect; done.
Qed.

(** Ids are not reused, so a request asks for one class only. *)
Lemma asks_ids ul : (omap asks ul).*1 = request_ids ul.
Proof.
  unfold request_ids. induction ul as [|e ul IH]; [done|].
  destruct e as [| [] | | | ]; cbn; by rewrite ?IH.
Qed.

Lemma asked_functional ul s id t t' :
  takes Sessions.server_start ul s -> Z.of_nat (length (request_ids ul)) <= 2 ^ 64 ->
  asked ul id t -> asked ul id t' -> t = t'.
Proof.
  intros (n&E&_) Hl Ht Ht'.
  assert (Hn : NoDup (omap asks ul).*1).
  { rewrite asks_ids, E. apply ids_from_NoDup. by rewrite E, length_ids_from in Hl. }
  by apply (NoDup_fst_functional (omap asks ul) id).
Qed.

(** ** Preservation *)

Lemma asks_sends es m id t :
  m ∈ omap sends es -> asks (ToRoom m) = Some (id, t) -> asked es id t.
Proof.
  intros (e&He&Hm)%list_elem_of_omap Ha. apply list_elem_of_omap. exists e. split; [done|].
  destruct e; by simplify_eq/=.
Qed.

Lemma inv_user_step e ul rl s :
  let r := user_step e s in
  event_legit (asked (ul ++ r.1.1)) (responded rl) e -> inv ul rl s ->
  inv (ul ++ r.1.1) (rl ++ r.1.2) r.2 /\ Forall (fair (responded rl)) r.1.1.
Proof.
  cbn zeta. unfold user_step. pose proof (takes_exec e (user_side s)) as Hk.
  pose proof (fun I => sound_exec I (responded rl) e (user_side s)) as Hs.
  destruct (Sessions.exec e (user_side s)) as [es u]. cbn [fst snd] in *.
  intros He [T K R Q A U]. specialize (Hk (takes_wf _ _ _ K)).
  assert (Hm : forall id t, asked ul id t -> asked (ul ++ es) id t).
  { intros id t Ha. apply asked_app. by left. }
  assert (T1 : typed (asked (ul ++ es)) (responded rl) (user_side s)).
  { by eapply typed_mono; [exact Hm| |]. }
  destruct (Hs (asked (ul ++ es)) He T1 T1) as [T2 F2].
  { intros id t Ha. apply asked_app. by right. }
  rewrite app_nil_r. split; [|done].
  destruct s as [us rs tr tu]. cbn in *. split; cbn; [done|by eapply takes_trans|..].
  - intros m id t [Hi|Hi]%elem_of_app Ha; [by eapply Hm, R|].
    apply asked_app. right. by eapply asks_sends.
  - eauto.
  - eauto.
  - eauto.
Qed.

Lemma inv_room_step e ul rl s :
  let r := room_step e s in
  (forall id t, (route, id, t) ∈ event_brings e -> asked ul id t) -> inv ul rl s ->
  inv (ul ++ r.1.1) (rl ++ r.1.2) r.2.
Proof.
  cbn zeta. unfold room_step. destruct (keys_exec e (room_side s)) as [H1 H2].
  destruct (Rooms.exec e (room_side s)) as [es u]. cbn [fst snd] in *.
  intros He [T K R Q A U]. rewrite app_nil_r. destruct s as [us rs tr tu]. cbn in *.
  split; cbn; [|done|done|..].
  - eapply typed_mono; [done| |done]. intros r. apply responded_app.
  - intros id t Hk. apply H1, elem_of_app in Hk as []; auto.
  - intros e' id t [Hi|Hi]%elem_of_app Hk; [eauto|].
    apply Q, H2, list_elem_of_omap. eauto.
  - intros e' [Hi|[Ha Hi]%list_elem_of_filter]%elem_of_app; [|set_solver].
    destruct (U e' Hi). set_solver.
Qed.

(** What is delivered to the Room server was asked by the User server. *)
Lemma request_of_brings m id t :
  (route, id, t) ∈ brings route (request_of m) -> asks (ToRoom m) = Some (id, t).
Proof. destruct m; cbn; set_solver. Qed.

(** A response the Room server sent this User server is of the class asked. *)
Lemma received_legit ul es rl s m e now :
  received m now = Some e -> m ∈ to_user s -> inv ul rl s ->
  (exists u, takes Sessions.server_start (ul ++ es) u) ->
  Z.of_nat (length (request_ids (ul ++ es))) <= 2 ^ 64 ->
  event_legit (asked (ul ++ es)) (responded rl) e.
Proof.
  intros He Hm Hi (u&Hu) Hl. destruct (inv_to_user _ _ _ Hi m Hm) as [Hr Ha].
  pose proof (fun id t => inv_answered _ _ _ Hi m id t Hr) as Hk.
  destruct m as [ticket d type id room success| | | | | |]; simplify_eq/=; try done.
  destruct (response_of type room success) as [r|] eqn:E; simplify_eq/=.
  apply bool_decide_eq_true in Ha as ->. split.
  - by exists ticket, type, id, room, success.
  - intros t Ht. rewrite <- (response_of_type _ _ _ _ E).
    eapply asked_functional; [done|done|done|]. apply asked_app. left. by apply Hk.
Qed.

(** Losing or taking messages of the channels. *)
Lemma inv_channels ul rl s tr tu :
  tr ⊆ to_room s -> tu ⊆ to_user s -> inv ul rl s ->
  inv ul rl (s <| to_room := tr |> <| to_user := tu |>).
Proof.
  intros Hr Hu [T K R Q A U]. destruct s as [us rs tr0 tu0]. cbn in *. split; cbn; eauto.
Qed.

Lemma tail_subseteq {A} (l : list A) : tail l ⊆ l.
Proof. destruct l; cbn; set_solver. Qed.

Lemma inv_exec e ul rl s :
  let r := exec e s in
  Z.of_nat (length (request_ids (ul ++ r.1.1))) <= 2 ^ 64 -> inv ul rl s ->
  inv (ul ++ r.1.1) (rl ++ r.1.2) r.2 /\ Forall (fair (responded rl)) r.1.1.
Proof.
  cbn zeta. intros Hl Hi.
  assert (Hsame : forall tr tu, tr ⊆ to_room s -> tu ⊆ to_user s ->
    let s' := s <| to_room := tr |> <| to_user := tu |> in
    inv (ul ++ []) (rl ++ []) s' /\ Forall (fair (responded rl)) []).
  { intros tr tu Hr Hu. rewrite !app_nil_r. split; [by apply inv_channels|constructor]. }
  assert (Hstay : inv (ul ++ []) (rl ++ []) s /\ Forall (fair (responded rl)) []).
  { rewrite !app_nil_r. by split. }
  destruct e as [e|e|now|now| |]; cbn [exec] in *.
  - destruct (user_local e) eqn:El; [|exact Hstay]. apply inv_user_step; [|done].
    by destruct e.
  - destruct (room_local e) eqn:El; [|exact Hstay].
    split; [apply inv_room_step; [|done]|unfold room_step; by destruct (Rooms.exec e _)].
    intros id t Hk. destruct e; cbn in *; try set_solver. apply bool_decide_eq_true in El.
    destruct m; cbn in Hk; set_solver.
  - destruct (router_ (room_side s)); [exact Hstay|].
    destruct (to_room s) as [|m ms] eqn:Em; [exact Hstay|].
    split; [|unfold room_step; by destruct (Rooms.exec _ _)].
    apply inv_room_step.
    + intros id t Hk. eapply (inv_to_room _ _ _ Hi m); [rewrite Em; set_solver|].
      by apply request_of_brings.
    + replace (s <| to_room := ms |>) with (s <| to_room := ms |> <| to_user := to_user s |>)
        by (by destruct s). apply inv_channels; [rewrite Em; set_solver|done|done].
  - destruct (to_user s) as [|m ms] eqn:Em; [exact Hstay|].
    assert (Hc : inv ul rl (s <| to_user := ms |>)).
    { replace (s <| to_user := ms |>) with (s <| to_room := to_room s |> <| to_user := ms |>)
        by (by destruct s). apply inv_channels; [done|rewrite Em; set_solver|done]. }
    destruct (received m now) as [e|] eqn:Er;
      [|cbn [fst snd]; rewrite !app_nil_r; by split].
    apply inv_user_step; [|done]. eapply received_legit; [done| |exact Hi| |done].
    + rewrite Em. set_solver.
    + unfold user_step. pose proof (takes_exec e (user_side s)) as Hk.
      replace (user_side (s <| to_user := ms |>)) with (user_side s) by (by destruct s).
      destruct (Sessions.exec e (user_side s)) as [es u]. exists u.
      eapply takes_trans; [apply (inv_takes _ _ _ Hi)|]. apply Hk.
      eapply takes_wf, (inv_takes _ _ _ Hi).
  - replace (s <| to_room := _ |>) with
      (s <| to_room := tail (to_room s) |> <| to_user := to_user s |>) by (by destruct s).
    apply Hsame; [apply tail_subseteq|done].
  - replace (s <| to_user := _ |>) with
      (s <| to_room := to_room s |> <| to_user := tail (to_user s) |>) by (by destruct s).
    apply Hsame; [done|apply tail_subseteq].
Qed.

Lemma inv_start : inv [] [] system_start.
Proof.
  split; cbn; [apply typed_start| |set_solver..].
  exists 0%nat. by split.
Qed.

Lemma fair_mono L L' e : (forall r, L r -> L' r) -> fair L e -> fair L' e.
Proof. intros HL. destruct e as [j c m| | | |]; try done. destruct m; cbn; repeat case_match; auto. Qed.

Lemma inv_run evs ul rl s :
  let r := run exec evs s in
  Z.of_nat (length (request_ids (ul ++ user_log r.1))) <= 2 ^ 64 -> inv ul rl s ->
  inv (ul ++ user_log r.1) (rl ++ room_log r.1) r.2 /\
  Forall (fair (responded (rl ++ room_log r.1))) (user_log r.1).
Proof.
  cbn zeta. revert ul rl s. induction evs as [|e evs IH]; intros ul rl s Hl Hi.
  { cbn. rewrite !app_nil_r. by split. }
  rewrite run_cons in *. unfold user_log, room_log in *. cbn [fst snd] in *.
  rewrite !fmap_cons, !mjoin_cons in *. rewrite !(assoc_L (++)) in *.
  destruct (inv_exec e ul rl s) as [H1 F1]; [|done|].
  { etrans; [|exact Hl]. unfold request_ids. rewrite (omap_app _ (ul ++ (exec e s).1.1)), length_app. lia. }
  destruct (IH _ _ _ Hl H1) as [H2 F2]. split; [done|]. apply Forall_app. split; [|done].
  eapply Forall_impl; [exact F1|]. intros e'. apply fair_mono. intros r.
  rewrite <- (assoc_L (++)). apply responded_app.
Qed.
End system.

Module SystemProperties.
Import contents.

(** A client connects, logs in and creates a room on the Room server. *)
Definition end_to_end_events : list event :=
  [UserStep (Accepted 7); UserStep (Received 0 (RJob (ReqLogin "al")));
   UserStep (Received 0 (RJob (ReqCreateRoom 5))); UserStep (RunStrand 0 0);
   UserStep (RunStrand 0 0); DeliverToRoom 1; RoomStep (RouterStep 4 1);
   RoomStep (RouterStep 4 1); RoomStep (RouterStep 4 1); RoomStep (RunTask 0 2);
   DeliverToUser 3; UserStep (RunStrand 0 3)].

(** A success the client is told is one the Room server sent this User server,
    in a response to a request it had sent. *)
Definition confirmed (route : RoutingId) (ul : list Sessions.effect) (rl : list Rooms.effect)
    (type : MessageType) (valid : RoomId -> Prop) : Prop :=
  exists ticket id room, Response ticket route type id room true ∈ rl /\ valid room /\
    (id, type) ∈ omap asks ul.


End SystemProperties.
