(* ===== verification/Answers.v ===== *)
(** * Answers: every request of a client is answered

    The liveness of the two servers together, whatever the channel between them
    lost: [System] keeps the invariant of [Schedule] on the side of the User
    server; the schedule found there is a schedule of the system, and a run of
    the system that is fair to a session is, seen from the User server, one of
    the rounds of [Fair]. *)

From S2P Require Import Prelude Wire Queued Contents Rooms Scheduler Pending Sessions Order Logins.
From S2P Require Import Replies Handles Addresses Voices Progress Liveness Schedule Fair System.
From coqutil Require Import Datatypes.RecordSetters.
Import TriangleBracketNotations.
#[local] Arguments constant {_} _ _ /.

Section answers.
Context {C : Type} `{room_message_interface C} (route : RoutingId).
Notation exec := (System.exec (C := C) route) (only parsing).

(** The event of the User server that a step of the system is, if any. *)
Definition user_event (e : System.event) (s : system (C := C)) : option Sessions.event :=
  match e with
  | UserStep e => if user_local e then Some e else None
  | DeliverToUser now => m ← head (to_user s); received m now
  | _ => None
  end.

Fixpoint user_events (evs : list System.event) (s : system (C := C)) : list Sessions.event :=
  match evs with
  | [] => []
  | e :: evs => option_list (user_event e s) ++ user_events evs (exec e s).2
  end.

(** A step of the system is that event, or leaves the User server alone. *)
Lemma user_side_exec e s :
  let r := exec e s in
  match user_event e s with
  | None => r.1.1 = [] /\ user_side r.2 = user_side s
  | Some ue => r.1.1 = (Sessions.exec ue (user_side s)).1 /\
      user_side r.2 = (Sessions.exec ue (user_side s)).2
  end.
Proof.
  assert (Hu : forall ue (s0 : system (C := C)), user_side s0 = user_side s ->
    (user_step ue s0).1.1 = (Sessions.exec ue (user_side s)).1 /\
    user_side (user_step ue s0).2 = (Sessions.exec ue (user_side s)).2).
  { intros ue s0 E. unfold user_step. rewrite E. destruct (Sessions.exec ue (user_side s)). by destruct s0. }
  assert (Hr : forall re (s0 : system (C := C)), user_side s0 = user_side s ->
    (room_step route re s0).1.1 = [] /\ user_side (room_step route re s0).2 = user_side s).
  { intros re s0 E. unfold room_step. destruct (Rooms.exec re (room_side s0)). by destruct s0. }
  cbn zeta. destruct e as [e|e|now|now| |]; cbn [System.exec user_event].
  - destruct (user_local e); [by apply Hu|done].
  - destruct (room_local _ e); [by apply Hr|done].
  - repeat case_match; try done; apply Hr; by destruct s.
  - destruct (to_user s) as [|m ms]; [done|]. cbn. destruct (received m now) as [e|]; cbn.
    + apply Hu. by destruct s.
    + by destruct s.
  - by destruct s.
  - by destruct s.
Qed.

Lemma user_events_run evs s :
  let r := run exec evs s in
  user_log r.1 = mjoin (run Sessions.exec (user_events evs s) (user_side s)).1 /\
  user_side r.2 = (run Sessions.exec (user_events evs s) (user_side s)).2.
Proof.
  cbn zeta. revert s. induction evs as [|e evs IH]; intros s; [done|].
  rewrite run_cons. cbn [fst snd user_events]. unfold user_log in *. rewrite fmap_cons, mjoin_cons.
  destruct (IH (exec e s).2) as [-> ->]. pose proof (user_side_exec e s) as H1. cbn zeta in H1.
  destruct (user_event e s) as [ue|]; destruct H1 as [-> ->]; [|done].
  change (option_list (Some ue) ++ ?l) with (ue :: l).
  rewrite (run_cons Sessions.exec). cbn [fst snd]. by rewrite mjoin_cons.
Qed.

Definition system_good (ul : list Sessions.effect) (rl : list Rooms.effect) (s : system (C := C)) : Prop :=
  inv route ul rl s /\ good (omap sender ul) (user_side s).

Lemma capacity_system e s :
  capacity (jobs_ (user_side (exec e s).2)) -> capacity (jobs_ (user_side s)).
Proof.
  pose proof (user_side_exec e s) as H1. cbn zeta in H1.
  destruct (user_event e s) as [ue|]; destruct H1 as [_ ->]; [apply capacity_exec|done].
Qed.

Lemma system_good_exec e ul rl s :
  let r := exec e s in
  Z.of_nat (length (request_ids (ul ++ r.1.1))) <= 2 ^ 64 -> capacity (jobs_ (user_side r.2)) ->
  system_good ul rl s -> system_good (ul ++ r.1.1) (rl ++ r.1.2) r.2.
Proof.
  cbn zeta. intros Hl Hc [I G]. destruct (inv_exec route e ul rl s Hl I) as [I' _]. split; [done|].
  assert (Ty : typed (fun _ _ => True) (fun _ => True) (user_side (exec e s).2))
    by (eapply typed_mono; [..|apply I']; done).
  rewrite omap_app. pose proof (user_side_exec e s) as H1. cbn zeta in H1.
  destruct (user_event e s) as [ue|]; destruct H1 as [E1 E2]; rewrite E1.
  2: { cbn. by rewrite app_nil_r, E2. }
  rewrite E2 in *. destruct G as [O A Hh R _]. split; [by apply ordered_exec| | | |done].
  - apply alive_exec; try done. eapply typed_castable, I.
  - by apply held_step.
  - by apply registered_exec.
Qed.

Lemma system_good_start : system_good [] [] system_start.
Proof.
  split; [apply inv_start|]. destruct handles_start.
  split; [apply ordered_start|apply alive_start|done|done|apply typed_start].
Qed.

Lemma capacity_run evs s :
  capacity (jobs_ (user_side (run exec evs s).2)) -> capacity (jobs_ (user_side s)).
Proof.
  revert s. induction evs as [|e evs IH]; intros s; [done|]. rewrite run_cons. cbn [snd].
  intros Hc%IH. by eapply capacity_system.
Qed.

Lemma system_good_run evs ul rl s :
  let r := run exec evs s in
  Z.of_nat (length (request_ids (ul ++ user_log r.1))) <= 2 ^ 64 ->
  capacity (jobs_ (user_side r.2)) -> system_good ul rl s ->
  system_good (ul ++ user_log r.1) (rl ++ room_log r.1) r.2.
Proof.
  cbn zeta. revert ul rl s. induction evs as [|e evs IH]; intros ul rl s Hl Hc Hg.
  { cbn. by rewrite !app_nil_r. }
  rewrite run_cons in *. unfold user_log, room_log in *. cbn [fst snd] in *.
  rewrite !fmap_cons, !mjoin_cons in *. rewrite !(assoc_L (++)) in *.
  apply IH; [done|done|]. apply system_good_exec; [|by eapply capacity_run|done].
  etrans; [|exact Hl]. unfold request_ids. rewrite (omap_app _ (ul ++ (exec e s).1.1)), length_app. lia.
Qed.

(** The invariant of the User server holds all along a run of the system. *)
Lemma system_all_good evs ul rl s :
  let r := run exec evs s in
  Z.of_nat (length (request_ids (ul ++ user_log r.1))) <= 2 ^ 64 ->
  capacity (jobs_ (user_side r.2)) -> system_good ul rl s ->
  all_good (omap sender ul) (user_side s) (user_events evs s).
Proof.
  cbn zeta. revert ul rl s. induction evs as [|e evs IH]; intros ul rl s Hl Hc Hg; [split; [apply Hg|done]|].
  rewrite run_cons in *. unfold user_log in *. cbn [fst snd user_events] in *.
  rewrite fmap_cons, mjoin_cons, (assoc_L (++)) in Hl.
  assert (Hg' : system_good (ul ++ (exec e s).1.1) (rl ++ (exec e s).1.2) (exec e s).2).
  { apply system_good_exec; [|by eapply capacity_run|done].
    etrans; [|exact Hl]. unfold request_ids. rewrite (omap_app _ (ul ++ (exec e s).1.1)), length_app. lia. }
  specialize (IH _ _ _ Hl Hc Hg'). rewrite omap_app in IH. pose proof (user_side_exec e s) as H1. cbn zeta in H1.
  destruct (user_event e s) as [ue|]; destruct H1 as [E1 E2]; rewrite E1, E2 in IH.
  - change (option_list (Some ue) ++ ?l) with (ue :: l). split; [apply Hg|done].
  - cbn in IH. by rewrite app_nil_r in IH.
Qed.

(** A schedule of the User server is one of the system. *)
Lemma run_user evs s :
  Forall (fun e => user_local e = true) evs ->
  let r := run exec (UserStep <$> evs) s in
  user_log r.1 = mjoin (run Sessions.exec evs (user_side s)).1 /\
  user_side r.2 = (run Sessions.exec evs (user_side s)).2.
Proof.
  intros Hl. cbn zeta. revert s. induction Hl as [|e evs He _ IH]; intros s; [done|].
  rewrite fmap_cons, !run_cons. cbn [fst snd]. unfold user_log in *. rewrite fmap_cons, !mjoin_cons.
  assert (E : (exec (UserStep e) s).1.1 = (Sessions.exec e (user_side s)).1 /\
    user_side (exec (UserStep e) s).2 = (Sessions.exec e (user_side s)).2).
  { cbn [System.exec]. rewrite He. unfold user_step. destruct (Sessions.exec e (user_side s)). by destruct s. }
  destruct E as [E1 E2]. destruct (IH (exec (UserStep e) s).2) as [H1 H2]. rewrite E1, H1, H2, E2. done.
Qed.
(** How a job that left the line of its session has ended: it has sent the
    message of its class to the connection of its session, or the session was
    shut down; a room job is finished. *)
Definition answered (i j : nat) (log : list Sessions.effect) (u : user_server) : Prop :=
  exists x y, jobs_ u !! j = Some x /\ heap_ u !! i = Some y /\
    (room_job (kind x) = true -> finished_ x = true) /\
    ((exists m, ToClient (Some j) (conn_ y) m ∈ log /\ says (kind x) m) \/
     stopped_ (scheduler_ y) = true).

(** The run of the User server inside a run of the system. *)
Lemma user_run evs :
  let r := run exec evs system_start in
  exists uevs, user_log r.1 = mjoin (run Sessions.exec uevs server_start).1 /\
    user_side r.2 = (run Sessions.exec uevs server_start).2.
Proof. cbn zeta. eexists. apply (user_events_run evs system_start). Qed.

Lemma ended_answered evs i j x :
  let r := run exec evs system_start in
  good (omap sender (user_log r.1)) (user_side r.2) ->
  jobs_ (user_side r.2) !! j = Some x -> session_ x = i -> talks (kind x) = true ->
  (forall y, heap_ (user_side r.2) !! i = Some y -> j ∉ line (scheduler_ y, strand_ y)) ->
  answered i j (user_log r.1) (user_side r.2).
Proof.
  cbn zeta. intros G Hx Hi Ht Hend. destruct (user_run evs) as (uevs&El&Eu). rewrite El, Eu in *.
  destruct (hd_job _ (gd_held _ _ G) j x Hx) as [y Hy]. rewrite Hi in Hy.
  exists x, y. split_and!; [done|done|intros Hr; by destruct (room_job_end _ _ i y j x G Hy (Hend y Hy) Hx Hi Hr)|].
  destruct (job_end _ _ i y j x G Hy (Hend y Hy) Hx Hi Ht) as [Ha|Ha]; [left|by right].
  apply list_elem_of_omap in Ha as (e&He&Hs). destruct e as [[j'|] conn m| | | |]; simplify_eq/=.
  destruct (speaks_run uevs server_start j conn m He) as (k&Hk&Hm).
  pose proof (addressed_run uevs server_start (proj1 handles_start) (proj2 handles_start) j conn m He) as Hc.
  unfold job_conn, session_conn in Hc. rewrite Hx in Hc. cbn in Hc. rewrite Hy in Hc. injection Hc as <-.
  unfold kinds in Hk. rewrite list_lookup_fmap, Hx in Hk. injection Hk as <-. eauto.
Qed.

(** A job keeps its class and its session. *)
Lemma job_later evs evs' j x :
  let r := run exec evs system_start in
  jobs_ (user_side r.2) !! j = Some x ->
  exists x', jobs_ (user_side (run exec evs' r.2).2) !! j = Some x' /\
    kind x' = kind x /\ session_ x' = session_ x.
Proof.
  cbn zeta. intros Hx. destruct (user_events_run evs' (run exec evs system_start).2) as [_ E].
  rewrite E. destruct (st_jobs _ _ _ (steps_run (user_events evs' (run exec evs system_start).2) _) j x Hx)
    as (x'&Hx'&Hj). exists x'. split_and!; [done|apply Hj|apply Hj].
Qed.
End answers.

(** Rounds of the session's strand and of the timer end its jobs. *)
Lemma fair_answered {C} `{room_message_interface C} route evs evs' i :
  let r := run (System.exec (C := C) route) evs system_start in
  let r' := run (System.exec (C := C) route) (evs ++ evs') system_start in
  Z.of_nat (length (request_ids (user_log r'.1))) <= 2 ^ 64 ->
  capacity (jobs_ (user_side r'.2)) ->
  rounds i (length (outstanding i (user_side r.2))) (user_side r.2) (user_events route evs' r.2) ->
  forall j x, jobs_ (user_side r.2) !! j = Some x -> session_ x = i -> talks (kind x) = true ->
    answered i j (user_log r'.1) (user_side r'.2).
Proof.
  cbn zeta. intros Hl Hc R j x Hx Hi Hr.
  destruct (system_good_run route (evs ++ evs') [] [] system_start Hl Hc (system_good_start route)) as [_ G'].
  cbn [app] in G'. rewrite run_app in *. cbn [fst snd] in *.
  set (r := run (System.exec route) evs system_start) in *.
  assert (Hl0 : Z.of_nat (length (request_ids (user_log r.1 ++ user_log (run (System.exec route) evs' r.2).1)))
    <= 2 ^ 64) by (unfold user_log in *; by rewrite fmap_app, mjoin_app in Hl).
  assert (Hg : system_good route (user_log r.1) (room_log r.1) r.2).
  { apply (system_good_run route evs [] [] system_start); [|by eapply capacity_run|apply system_good_start].
    fold r. cbn [app]. etrans; [|exact Hl0]. unfold request_ids. rewrite omap_app, length_app. lia. }
  pose proof (system_all_good route evs' _ _ _ Hl0 Hc Hg) as Ga.
  destruct (user_events_run route evs' r.2) as [_ E].
  destruct (job_later route evs evs' j x Hx) as (x'&Hx'&Ek&Es). fold r in Hx'.
  pose proof (ended_answered route (evs ++ evs') i j x') as He. cbn zeta in He.
  rewrite run_app in He. cbn [fst snd] in He. fold r in He.
  apply He; rewrite ?Ek, ?Es; try done. intros y. rewrite E.
  by apply (fair_jobs_end i _ _ _ Ga R), (lookup_lt_Some _ _ x).
Qed.

Module AnswersProperties.
Import contents.

(** The events of a session's own strand and of the timer, from time [T] on. *)
Definition own_turn (i : nat) (T : Z) (e : System.event) : Prop :=
  exists now, T <= now /\ (e = UserStep (RunStrand i now) \/ e = UserStep (Tick now)).

(** Every request of a client comes to its answer.  Whatever the two
    servers, the clients and a channel that loses messages did before, the
    turns of a session's strand and the ticks of the timer, at any time from
    [T] on, bring every job the session has to its end, and each login, logout,
    create, join and leave, and each message of the Room server that was
    enqueued for the session, has then been sent to the session's connection:
    the answer of the request's class (a room request's with its request id), or
    the message itself, unless the session was shut down because the connection closed.
    The server made fewer room jobs than its 64-bit counter can number. *)
Theorem jobs_answered {C} `{room_message_interface C} route evs i T :
  let r := run (System.exec (C := C) route) evs system_start in
  Z.of_nat (length (request_ids (user_log r.1))) <= 2 ^ 64 ->
  capacity (jobs_ (user_side r.2)) ->
  exists evs', Forall (own_turn i T) evs' /\
    let r' := run (System.exec (C := C) route) (evs ++ evs') system_start in
    forall j x, jobs_ (user_side r.2) !! j = Some x -> session_ x = i -> talks (kind x) = true ->
      answered i j (user_log r'.1) (user_side r'.2).
Proof.
  cbn zeta. intros Hl Hc.
  destruct (system_good_run route evs [] [] system_start Hl Hc (system_good_start route)) as [_ G].
  cbn [app] in G. set (r := run (System.exec route) evs system_start) in *.
  destruct (jobs_end i T _ _ G) as (evs'&Ht&G'&Hend).
  assert (Hloc : Forall (fun e => user_local e = true) evs')
    by (eapply Forall_impl; [exact Ht|]; by intros []).
  exists (UserStep <$> evs'). split.
  { apply Forall_fmap. eapply Forall_impl; [exact Ht|]. intros [] He; try done; cbn in He.
    - destruct He as [-> He]. exists now. auto.
    - exists now. auto. }
  destruct (run_user route evs' r.2 Hloc) as [E1 E2]. rewrite <- omap_app in G'.
  intros j x Hx Hi Ht'. destruct (job_later route evs (UserStep <$> evs') j x Hx) as (x'&Hx'&Ek&Es).
  fold r in Hx', E1, E2. assert (Er : (run (System.exec route) (evs ++ (UserStep <$> evs')) system_start).2
    = (run (System.exec route) (UserStep <$> evs') r.2).2) by (by rewrite run_app).
  assert (El : user_log (run (System.exec route) (evs ++ (UserStep <$> evs')) system_start).1
    = user_log r.1 ++ mjoin (run Sessions.exec evs' (user_side r.2)).1).
  { rewrite run_app. fold r. cbn [fst]. unfold user_log in *. by rewrite fmap_app, mjoin_app, E1. }
  apply (ended_answered route _ i j x'); rewrite ?Er, ?El, ?Ek, ?Es, ?E2; try done.
  - by rewrite <- E2.
  - intros y. by apply Hend, (lookup_lt_Some _ _ x).
Qed.

(** A client logs in and creates a room; the request is lost on its way. *)
Definition lost_request_events : list System.event :=
  [UserStep (Accepted 7); UserStep (Received 0 (RJob (ReqLogin "al")));
   UserStep (Received 0 (RJob (ReqCreateRoom 5))); UserStep (RunStrand 0 0);
   UserStep (RunStrand 0 0); LoseToRoom].

Lemma jobs_answered_witness :
  let r := run (System.exec (C := unit) "u1") lost_request_events system_start in
  (exists x, jobs_ (user_side r.2) !! 1%nat = Some x /\ finished_ x = false /\ session_ x = 0%nat) /\
  exists evs', Forall (own_turn 0 10) evs' /\
    let r' := run (System.exec (C := unit) "u1") (lost_request_events ++ evs') system_start in
    answered 0 0 (user_log r'.1) (user_side r'.2) /\ answered 0 1 (user_log r'.1) (user_side r'.2).
Proof.
  split; [vm_compute; eauto|].
  destruct (jobs_answered (C := unit) "u1" lost_request_events 0 10) as (evs'&Ht&Hend);
    [vm_compute; discriminate|vm_compute; reflexivity|].
  exists evs'. split; [exact Ht|]. split.
  - apply (Hend 0%nat (Job (job_login "al") 0 None 0 false)); vm_compute; reflexivity.
  - apply (Hend 1%nat (Job (job_create_room 5) 0 (Some 1%nat) 1 false)); vm_compute; reflexivity.
Defined.


(** Another client comes, the first one asks for more, a loss; the timer ticks
    five seconds (in nanoseconds) later and the strand runs. *)
Definition fair_before : list Sessions.event :=
  [Accepted 8; Received 0 (RJob (ReqLeaveRoom 6)); Received 1 RPing].
Definition fair_events : list System.event :=
  LoseToUser :: (UserStep <$> (fair_before ++ [Tick 5000000000; RunStrand 0 5000000000; RunStrand 0 5000000000])).

End AnswersProperties.
