(* ===== verification/Notifications.v ===== *)
(** * Notifications: what the Room server sends reaches the right client

    The messages the contents of a room send to its members, and the notices of
    kick-outs, go from the Room server through the lossy channel and the job
    queue of a session to a client.  None is made up on the way, none is
    doubled, a session's client is sent them in the order in which the Room
    server sent them; and one that arrives for a logged-in user is sent to the
    connection of that user. *)

From S2P Require Import Prelude Wire Queued Contents Rooms Scheduler Pending Sessions Order Logins.
From S2P Require Import Replies Handles Addresses Voices Progress Liveness Schedule Fair System Answers.
From coqutil Require Import Datatypes.RecordSetters.
Import TriangleBracketNotations.
Import room_channel.
#[local] Arguments constant {_} _ _ /.

(** The message to the client that a message of the Room server is for. *)
Definition notification_of (e : Rooms.effect) : option client_message :=
  match e with
  | Rooms.FwdClient _ sender to msg =>
      Some (FwdClient to (default "" sender) (sender_type sender) msg)
  | Rooms.NtfLeaveRoom _ _ _ => Some (NtfLeaveRoom kKickedOut)
  | _ => None
  end.

Section notifications.
Context {C : Type} `{room_message_interface C} (route : RoutingId).
Notation exec := (System.exec (C := C) route) (only parsing).

(** What the Room server sent this User server for its clients. *)
Definition notifications (rl : list Rooms.effect) : list client_message :=
  omap notification_of (filter (fun e => addressed route e = true) rl).

Lemma notifications_app rl rl' : notifications (rl ++ rl') = notifications rl ++ notifications rl'.
Proof. unfold notifications. by rewrite filter_app, omap_app. Qed.

(** The jobs that carry messages of the Room server, and the messages still in
    the channel. *)
Definition carried (s : system (C := C)) : list client_message :=
  omap announced (kinds (user_side s)) ++ omap notification_of (to_user s).

(** A delivered message is the event of its job. *)
Lemma received_notification m now e :
  received m now = Some e ->
  match notification e with
  | Some k => announced k = notification_of m
  | None => notification_of m = None
  end.
Proof.
  destruct m as [tk d type id room ok| | | | | |]; cbn; try done; intros He; simplify_eq; try done.
  destruct (response_of type room ok); by simplify_eq/=.
Qed.

(** A step of the User server on event [e], the message [m] of the channel if it
    was delivered. *)
Lemma carried_user_step e (s : system (C := C)) :
  omap announced (kinds (user_side (user_step e s).2)) `sublist_of`
    omap announced (kinds (user_side s)) ++ option_list (notification e ≫= announced).
Proof.
  assert (E : user_side (user_step e s).2 = (Sessions.exec e (user_side s)).2).
  { unfold user_step. destruct (Sessions.exec e (user_side s)). by destruct s. }
  rewrite E. destruct (notification e) as [k|] eqn:Hk.
  - destruct (notification_exec e k (user_side s) Hk) as [_ [-> | ->]]; [by apply sublist_inserts_r|].
    rewrite omap_app. cbn. by destruct (announced k).
  - rewrite (vc_announced _ _ _ (voiced_exec e (user_side s) Hk)). cbn. by rewrite app_nil_r.
Qed.

Lemma carried_exec e (s : system (C := C)) rl :
  let r := exec e s in
  carried s `sublist_of` notifications rl -> carried r.2 `sublist_of` notifications (rl ++ r.1.2).
Proof.
  cbn zeta. intros Hs.
  assert (Hchan : forall (s' : system (C := C)), user_side s' = user_side s ->
    to_user s' `sublist_of` to_user s -> carried s' `sublist_of` notifications (rl ++ [])).
  { intros s' E1 E2. rewrite app_nil_r. etrans; [|exact Hs]. unfold carried. rewrite E1.
    apply sublist_app; [done|]. by apply sublist_omap. }
  assert (Hroom : forall re (s' : system (C := C)), user_side s' = user_side s -> to_user s' = to_user s ->
    carried (room_step route re s').2 `sublist_of` notifications (rl ++ (room_step route re s').1.2)).
  { intros re s' E1 E2. unfold room_step. destruct (Rooms.exec re (room_side s')) as [es rs]. cbn [fst snd].
    rewrite notifications_app. unfold carried. destruct s' as [u rm tr tu]. cbn in *. subst u tu.
    rewrite omap_app, (assoc_L (++)). by apply sublist_app. }
  destruct e as [e|e|now|now| |]; cbn [System.exec].
  - destruct (user_local e) eqn:El; [|by apply Hchan].
    pose proof (carried_user_step e s) as Hu.
    assert (En : notification e = None) by (by destruct e). rewrite En in Hu. cbn in Hu. rewrite app_nil_r in Hu.
    assert (Et : to_user (user_step e s).2 = to_user s /\ (user_step e s).1.2 = []).
    { unfold user_step. destruct (Sessions.exec e (user_side s)). by destruct s. }
    destruct Et as [Et ->]. rewrite app_nil_r. etrans; [|exact Hs]. unfold carried. rewrite Et.
    by apply sublist_app.
  - destruct (room_local route e); [by apply Hroom|by apply Hchan].
  - destruct (router_ (room_side s)); [by apply Hchan|]. destruct (to_room s); [by apply Hchan|].
    apply Hroom; by destruct s.
  - destruct (to_user s) as [|m ms] eqn:Em; [apply Hchan; cbn [snd]; by rewrite ?Em|].
    destruct (received m now) as [e|] eqn:Er; [|apply Hchan; destruct s; cbn in *; [done|by apply sublist_cons]].
    set (s1 := s <| to_user := ms |>). pose proof (carried_user_step e s1) as Hu.
    pose proof (received_notification m now e Er) as Hn.
    assert (Et : to_user (user_step e s1).2 = ms /\ (user_step e s1).1.2 = [] /\ user_side s1 = user_side s).
    { unfold user_step. destruct (Sessions.exec e (user_side s1)). by subst s1; destruct s. }
    destruct Et as (Et&->&E1). rewrite E1 in Hu. rewrite app_nil_r. etrans; [|exact Hs]. unfold carried. rewrite Et, Em.
    etrans; [apply sublist_app; [exact Hu|done]|]. rewrite <- (assoc_L (++)). apply sublist_app; [done|].
    cbn [omap list_omap]. destruct (notification e) as [k|]; cbn [mbind option_bind].
    + rewrite <- Hn. by destruct (announced k).
    + by rewrite Hn.
  - apply Hchan; by destruct s.
  - apply Hchan; [by destruct s|]. destruct s as [u rm tr tu]. cbn. destruct tu; [done|by apply sublist_cons].
Qed.

Lemma carried_run evs (s : system (C := C)) rl :
  let r := run exec evs s in
  carried s `sublist_of` notifications rl ->
  carried r.2 `sublist_of` notifications (rl ++ room_log r.1).
Proof.
  cbn zeta. revert s rl. induction evs as [|e evs IH]; intros s rl Hs; [cbn; by rewrite app_nil_r|].
  rewrite run_cons. unfold room_log in *. cbn [fst snd]. rewrite fmap_cons, mjoin_cons, (assoc_L (++)).
  by apply IH, carried_exec.
Qed.

(** The jobs of the User server carry messages of the Room server. *)
Lemma announced_sublist evs :
  let r := run exec evs system_start in
  omap announced (kinds (user_side r.2)) `sublist_of` notifications (room_log r.1).
Proof.
  cbn zeta. etrans; [|by apply (carried_run evs system_start [])]. by apply sublist_inserts_r.
Qed.

(** A delivered notification for a registered user becomes a job. *)
Lemma delivered_job evs now i m ms u n :
  let r := run exec evs system_start in
  to_user r.2 = m :: ms -> received m now = Some (RoomNotification u n) ->
  session_manager.find_session u (user_side r.2) = Some i ->
  let u1 := user_side (run exec (evs ++ [DeliverToUser now]) system_start).2 in
  exists j x, jobs_ u1 !! j = Some x /\ session_ x = i /\ kind x = notification_job u n.
Proof.
  cbn zeta. intros Em Er Hf. rewrite run_app. cbn [snd run fst]. set (s := (run exec evs system_start).2) in *.
  cbn [run]. destruct (exec (DeliverToUser now) s) as [t s1] eqn:E. cbn [snd].
  assert (Eu : user_side s1 = enqueue_job i (notification_job u n) (user_side s)).
  { cbn [System.exec] in E. rewrite Em, Er in E. unfold user_step in E. cbn in E.
    destruct s as [us rs tr tu]. cbn in *. unfold pass_to_session in E. rewrite Hf in E. by simplify_eq/=. }
  rewrite Eu. exists (length (jobs_ (user_side s))), (Job (notification_job u n) i None 0 false).
  split; [|done]. unfold enqueue_job. rewrite jobs_post. destruct (user_side s). cbn.
  by rewrite lookup_app_r, Nat.sub_diag.
Qed.
End notifications.

(** The job of a message says it, in every schedule fair to its session. *)
Lemma job_heard {C} `{room_message_interface C} route evs evs' i j x cm :
  let r1 := run (System.exec (C := C) route) evs system_start in
  let r2 := run (System.exec (C := C) route) (evs ++ evs') system_start in
  Z.of_nat (length (request_ids (user_log r2.1))) <= 2 ^ 64 ->
  capacity (jobs_ (user_side r2.2)) ->
  rounds i (length (outstanding i (user_side r1.2))) (user_side r1.2) (user_events route evs' r1.2) ->
  jobs_ (user_side r1.2) !! j = Some x -> session_ x = i -> announced (kind x) = Some cm ->
  exists y, heap_ (user_side r2.2) !! i = Some y /\
    (ToClient (Some j) (conn_ y) cm ∈ user_log r2.1 \/ stopped_ (scheduler_ y) = true).
Proof.
  cbn zeta. intros Hl Hc R Hx Hi Ha.
  assert (Ht : talks (kind x) = true) by (by destruct (kind x)).
  destruct (fair_answered route evs evs' i Hl Hc R j x Hx Hi Ht) as (x'&y&Hx'&Hy&_&He).
  exists y. split; [done|]. destruct He as [(m'&Hm&Hs)|?]; [left|by right].
  destruct (job_later route evs evs' j x Hx) as (x0&Hx0&Ek0&_).
  rewrite run_app in Hx'. cbn [snd] in Hx'. assert (x0 = x') as -> by congruence.
  rewrite (says_announcement (kind x') m' cm) in Hm; [done|done|]. by rewrite Ek0.
Qed.

Module NotificationsProperties.
Import contents.



(** A client creates a room and says something in it; the contents send it to
    the members of the room. *)
Definition chat_events : list System.event :=
  SystemProperties.end_to_end_events ++
  [UserStep (Received 0 (RJob (FwdRoom "hi"))); UserStep (RunStrand 0 4); DeliverToRoom 5;
   RoomStep (RouterStep 4 6); RoomStep (RouterStep 4 6); RoomStep (RunTask 0 6)].

Definition heard_events : list System.event :=
  UserStep <$> [RunStrand 0 7; Tick 8; RunStrand 0 9].

End NotificationsProperties.
