(* ===== verification/Conversation.v ===== *)
(** * Conversation: what a client says in a room, the others hear

    From the message of a client in the channel to the Room server, through the
    router thread, the contents and the room's strand, back through the channel
    and the job queues of the members' sessions, to the members' connections. *)

From S2P Require Import Prelude Wire Queued Contents Rooms Chat Scheduler Pending Sessions Order Logins.
From S2P Require Import Replies Handles Addresses Voices Progress Liveness Schedule Fair System Answers.
From S2P Require Import Notifications.
From coqutil Require Import Datatypes.RecordSetters.
Import TriangleBracketNotations.
Import contents room_channel ContentsProperties.
#[local] Arguments constant {_} _ _ /.

(** ** A delivery keeps the logins *)

Lemma uids_invoke c s : uid_sessions_ (invoke s c).2 = uid_sessions_ s.
Proof. unfold invoke. repeat case_match; cbn [snd]; rewrite ?uids_post; done. Qed.

Lemma uids_invoke_all cs s : uid_sessions_ (invoke_all cs s).2 = uid_sessions_ s.
Proof.
  revert s. induction cs as [|c cs IH]; intros s; [done|]. cbn [invoke_all].
  pose proof (uids_invoke c s) as E. destruct (invoke s c) as [es s1]. cbn [snd] in E.
  specialize (IH s1). destruct (invoke_all cs s1). cbn [snd] in *. congruence.
Qed.

Section conversation.
Context (route : RoutingId).
Notation exec := (System.exec (C := unit) route) (only parsing).

Lemma uids_delivered now (s : system (C := unit)) :
  uid_sessions_ (user_side (exec (DeliverToUser now) s).2) = uid_sessions_ (user_side s).
Proof.
  pose proof (user_side_exec route (DeliverToUser now) s) as E. cbn zeta in E. cbn [user_event] in E.
  destruct (exec (DeliverToUser now) s) as [t s']. cbn [fst snd] in *.
  destruct (head (to_user s)) as [m|]; cbn [mbind option_bind] in E; [|by destruct E as [_ ->]].
  destruct (received m now) as [e|] eqn:Er; [|by destruct E as [_ ->]]. destruct E as [_ ->].
  destruct m; simplify_eq/=.
  - destruct (response_of _ _ _); simplify_eq/=. unfold send_to_waiter.
    destruct (Pending.complete _ _ _ _) as [cs p]. rewrite uids_invoke_all. by destruct (user_side s).
  - unfold pass_to_session. destruct (session_manager.find_session _ _); [apply uids_enqueue|done].
  - unfold pass_to_session. destruct (session_manager.find_session _ _); [apply uids_enqueue|done].
Qed.

Lemma to_user_delivered now (s : system (C := unit)) :
  to_user (exec (DeliverToUser now) s).2 = tail (to_user s).
Proof.
  cbn [System.exec]. destruct (to_user s) as [|m ms] eqn:E; [done|].
  destruct (received m now) as [e|]; [|by destruct s].
  unfold user_step. destruct (Sessions.exec e _). by destruct s.
Qed.

(** Once all that is in the channel is delivered, each message of it for a
    registered user is a job of the user's session. *)
Lemma delivered_jobs now ms evs m u n i :
  let s := (run exec evs system_start).2 in
  let s1 := (run exec (evs ++ replicate (length ms) (DeliverToUser now)) system_start).2 in
  to_user s = ms -> m ∈ ms -> received m now = Some (RoomNotification u n) ->
  session_manager.find_session u (user_side s) = Some i ->
  exists j x, jobs_ (user_side s1) !! j = Some x /\ session_ x = i /\ kind x = notification_job u n.
Proof.
  cbn zeta. revert evs. induction ms as [|m0 ms IH]; intros evs Em Hm Er Hf; [by apply elem_of_nil in Hm|].
  assert (Ee : evs ++ replicate (length (m0 :: ms)) (DeliverToUser now)
    = (evs ++ [DeliverToUser now]) ++ replicate (length ms) (DeliverToUser now)) by (by rewrite <- app_assoc).
  rewrite Ee. apply elem_of_cons in Hm as [<-|Hm].
  - destruct (delivered_job route evs now i m ms u n Em Er Hf) as (j&x&Hx&Hi&Ek).
    destruct (job_later route (evs ++ [DeliverToUser now]) (replicate (length ms) (DeliverToUser now)) j x Hx)
      as (x'&Hx'&Ek'&Es'). exists j, x'. rewrite run_app. cbn [snd]. split_and!; congruence.
  - assert (E1 : (run exec (evs ++ [DeliverToUser now]) system_start).2
      = (exec (DeliverToUser now) (run exec evs system_start).2).2) by (rewrite run_app; by rewrite run_cons).
    apply IH; rewrite ?E1; [by rewrite to_user_delivered, Em|done|done|].
    unfold session_manager.find_session in *. by rewrite uids_delivered.
Qed.

(** ** The Room server in the system *)

Lemma keyed_system evs : keyed (room_side (run exec evs system_start).2).
Proof.
  assert (Hr : forall e (s s0 : system (C := unit)), room_side s0 = room_side s -> keyed (room_side s) ->
    keyed (room_side (room_step route e s0).2)).
  { intros e s s0 E Hs. unfold room_step. pose proof (keyed_exec e (room_side s0)) as Hk. rewrite E in *.
    destruct (Rooms.exec e (room_side s)). destruct s0. by apply Hk. }
  assert (Hu : forall e (s s0 : system (C := unit)), room_side s0 = room_side s ->
    room_side (user_step e s0).2 = room_side s).
  { intros e s s0 <-. unfold user_step. destruct (Sessions.exec e _). by destruct s0. }
  apply (run_invariant exec (fun s => keyed (room_side s))); [|by intros r x Hx].
  intros e s Hs. destruct e as [e|e|now|now| |]; cbn [System.exec]; try by destruct s.
  - destruct (user_local e); [|done]. by rewrite (Hu e s s).
  - destruct (room_local _ e); [|done]. by apply (Hr e s).
  - destruct (router_ (room_side s)); [done|]. destruct (to_room s); [done|]. apply (Hr _ s); by destruct s.
  - destruct (to_user s) as [|m ms]; [done|]. destruct (received m now); [|by destruct s].
    rewrite (Hu _ s); [done|by destruct s].
Qed.

(** A message to a room goes through the Room server. *)
Definition through_room (r : nat) (rng now : Z) : list System.event :=
  [DeliverToRoom now; RoomStep (RouterStep rng now); RoomStep (RunTask r now)].

Lemma room_stepped e (s : system (C := unit)) :
  let s' := (room_step route e s).2 in
  user_side s' = user_side s /\ room_side s' = (Rooms.exec e (room_side s)).2 /\
  to_user s' = to_user s ++ filter (fun e => addressed route e = true) (Rooms.exec e (room_side s)).1.
Proof. unfold room_step. destruct (Rooms.exec e (room_side s)). by destruct s. Qed.

Lemma through_room_exact u msg ms r rng now (s : system (C := unit)) :
  router_ (room_side s) = None -> to_room s = User2RoomFwdRoom u msg :: ms ->
  let s' := (run exec (through_room r rng now) s).2 in
  user_side s' = user_side s /\
  to_user s' = to_user s ++ filter (fun e => addressed route e = true)
    (mjoin (run Rooms.exec (chat_steps route u msg r rng now) (room_side s)).1).
Proof.
  intros Hr Em. unfold through_room, chat_steps. cbn zeta. rewrite !run_cons. cbn [snd fst run].
  cbn [System.exec room_local]. rewrite Hr, Em. cbn [request_of].
  destruct (room_stepped (Receive route (MFwdRoom u msg) now) (s <| to_room := ms |>)) as (U1&R1&T1).
  destruct (room_step route (Receive _ _ _) _) as [t1 s1]. cbn [snd] in *.
  destruct (room_stepped (RouterStep rng now) s1) as (U2&R2&T2).
  destruct (room_step route (RouterStep _ _) s1) as [t2 s2]. cbn [snd] in *.
  destruct (room_stepped (RunTask r now) s2) as (U3&R3&T3).
  replace (room_side (s <| to_room := ms |>)) with (room_side s) in * by (by destruct s).
  replace (to_user (s <| to_room := ms |>)) with (to_user s) in * by (by destruct s).
  replace (user_side (s <| to_room := ms |>)) with (user_side s) in * by (by destruct s).
  rewrite T3, T2, T1, U3, U2, U1, R2, R1. split; [done|].
  rewrite !mjoin_cons, !filter_app. cbn [mjoin list_join]. by rewrite filter_nil, app_nil_r, !(assoc_L (++)).
Qed.
End conversation.

Module ConversationProperties.


(** Two clients in a room, and one of them says something. *)
Definition two_clients : list System.event :=
  SystemProperties.end_to_end_events ++
  [UserStep (Accepted 8); UserStep (Received 1 (RJob (ReqLogin "bo")));
   UserStep (Received 1 (RJob (ReqJoinRoom 6 4))); UserStep (RunStrand 1 4); UserStep (RunStrand 1 4);
   DeliverToRoom 5; RoomStep (RouterStep 4 5)] ++ replicate 5 (RoomStep (RunTask 0 5)) ++
  replicate 3 (DeliverToUser 6) ++
  (UserStep <$> [RunStrand 1 6; RunStrand 1 6; RunStrand 0 6; Received 0 (RJob (FwdRoom "hi")); RunStrand 0 7]).

Definition bo_turns : list System.event := UserStep <$> [RunStrand 1 9; Tick 10; RunStrand 1 11].

End ConversationProperties.
