(* ===== verification/Logger.v ===== *)
(** * Logger: the stream logger of both servers and of the client

    Models [rsp-libs/include/rsplib/logger/] and [rsp-libs/src/logger/]: the flag
    arithmetic, the levels and their colours, [operator<<] on flags, levels and
    values, the functions that begin a statement, and [console_logger], whose
    stream has no mirror.  A value is the text [std::ostream] prints for it; the
    formatted local time is data of the operations that print it. *)

From S2P Require Import Prelude.
From stdpp Require Import pretty.
#[local] Open Scope Z_scope.
From coqutil Require Import Datatypes.RecordSetters.
Import TriangleBracketNotations.
#[local] Arguments constant {_} _ _ /.

(** ** Flags and levels *)

Definition L_clearflags : Z := 0.
Definition L_concat : Z := 1.
Definition L_time : Z := 2.
Definition L_flush : Z := 3.
Definition L_endl : Z := 4.
Definition L_startWithFlushing : Z := 5.
Definition L_null : Z := 6.
Definition L_cout : Z := 7.
Definition L_space : Z := 8.
Definition L_color : Z := 16.
Definition L_tabs : Z := 32.
Definition L_allwaysFlush : Z := 64.
Definition L_level : Z := 128.

(** [operator+=] and [operator-=] on flags. *)
Definition flags_add (l_flag r_flag : Z) : Z := Z.lor l_flag r_flag.
Definition flags_sub (l_flag r_flag : Z) : Z := Z.land l_flag (Z.lnot r_flag).

Inductive log_level := kTrace | kDebug | kInfo | kWarn | kError.

#[export] Instance log_level_eq_dec : EqDecision log_level.
Proof. solve_decision. Defined.

(** The value of the enumerator, which [>=] compares. *)
Definition level_value (l : log_level) : Z :=
  match l with kTrace => 0 | kDebug => 1 | kInfo => 2 | kWarn => 3 | kError => 4 end.

Definition represent_level (l : log_level) : string :=
  match l with
  | kTrace => "TRACE" | kDebug => "DEBUG" | kInfo => "INFO" | kWarn => "WARN" | kError => "ERROR"
  end.

Definition color_code (l : log_level) : Z :=
  match l with kTrace => 37 | kDebug => 34 | kInfo => 32 | kWarn => 33 | kError => 31 end.

(** ** The logger *)

Inductive output := Text (s : string) | Flush.

Record s_logger := SLogger {
  global_flags_ : Z;
  flags_ : Z;
  level_ : log_level;
  streaming_level_ : log_level;
  executable_name_ : string;
  stream_ : list output;
}.

(** [console_logger(level, options)]. *)
Definition console_logger (level : log_level) (options : Z) (executable : string) : s_logger :=
  SLogger options options level kTrace executable [].

Definition put (t : string) (s : s_logger) : s_logger :=
  s <| stream_ := stream_ s ++ [Text t] |>.

Definition add_flag (f : Z) (s : s_logger) : s_logger :=
  s <| flags_ := flags_add (flags_ s) f |>.
Definition remove_flag (f : Z) (s : s_logger) : s_logger :=
  s <| flags_ := flags_sub (flags_ s) f |>.

Definition activate (makeActive : bool) (s : s_logger) : s_logger :=
  if makeActive then remove_flag L_null s else add_flag L_null s.

Definition has_level (s : s_logger) : bool := Z.land (flags_ s) L_level =? L_level.
Definition has_color (s : s_logger) : bool := Z.land (flags_ s) L_color =? L_color.
Definition is_space (s : s_logger) : bool := negb (Z.land (flags_ s) L_space =? 0).
Definition is_tabs (s : s_logger) : bool :=
  negb (Z.land (flags_ s) L_tabs =? 0) || has_level s.
Definition is_null (s : s_logger) : bool := flags_ s =? L_null.
Definition has_meet_level (s : s_logger) : bool :=
  level_value (level_ s) <=? level_value (streaming_level_ s).

Definition ESC : string := String (Ascii.ascii_of_nat 27) "".
Definition TAB : string := String (Ascii.ascii_of_nat 9) "".
Definition NL : string := String (Ascii.ascii_of_nat 10) "".

Definition flush (s : s_logger) : s_logger :=
  let s := if has_color s then put (ESC +:+ "[0m") s else s in
  let s := s <| stream_ := stream_ s ++ [Flush] |> in
  remove_flag L_startWithFlushing s.

(** [log]; the console has no mirror, so its loop runs once. *)
Definition log (value : string) (s : s_logger) : s_logger :=
  if is_null s then s
  else
    let s := if is_space s then put " " s else s in
    let s := if is_tabs s then put TAB s else s in
    remove_flag L_time (put value s).

(** [operator<<] of a value, of a level, and of a flag. *)
Definition log_value (value : string) (s : s_logger) : s_logger :=
  if has_meet_level s then log value s else s.

Definition log_level_op (l : log_level) (s : s_logger) : s_logger :=
  let s := s <| streaming_level_ := l |> in
  if has_color s then put (ESC +:+ "[" +:+ pretty (color_code l) +:+ "m") s else s.

Definition log_time (time : string) (s : s_logger) : s_logger :=
  add_flag L_time (log_value time s).

Definition print_level (s : s_logger) : s_logger :=
  put ("[" +:+ represent_level (streaming_level_ s) +:+ "]") s.

Definition clear_flags (s : s_logger) : s_logger :=
  if flags_ s =? L_startWithFlushing then s
  else add_flag (global_flags_ s) (s <| flags_ := Z.land (flags_ s) L_allwaysFlush |>).

Definition end_line (s : s_logger) : s_logger :=
  let always s := negb (Z.land (flags_ s) L_allwaysFlush =? 0) in
  let s := if always s then log_value " |F|" s
           else if flags_ s =? L_startWithFlushing then log_value " |SF|" s else s in
  let s := put NL s in
  if always s || (flags_ s =? L_startWithFlushing) then flush s else s.

Definition log_flag (time : string) (flag : Z) (s : s_logger) : s_logger :=
  if is_null s then s
  else if negb (has_meet_level s) then s
  else if flag =? L_time then log_time time s
  else if flag =? L_flush then
    flush (log_value (" |F|" +:+ NL) (s <| flags_ := Z.land (flags_ s) L_allwaysFlush |>))
  else if flag =? L_level then add_flag L_level (print_level s)
  else if flag =? L_space then log_value " " s
  else if flag =? L_endl then clear_flags (end_line s)
  else if flag =? L_clearflags then clear_flags s
  else if flag =? L_allwaysFlush then add_flag L_allwaysFlush s
  else if flag =? L_concat then remove_flag L_tabs s
  else add_flag flag s.

(** ** Statements *)

(** [find_last_of('/')] and [substr]; [npos + 1] is 0. *)
Fixpoint find_last_of (c : Ascii.ascii) (s : string) : option nat :=
  match s with
  | EmptyString => None
  | String a s =>
      match find_last_of c s with
      | Some i => Some (S i)
      | None => if decide (a = c) then Some 0%nat else None
      end
  end.

Fixpoint string_drop (n : nat) (s : string) : string :=
  match n, s with
  | S n, String _ s => string_drop n s
  | _, _ => s
  end.

Definition slash : Ascii.ascii := Ascii.ascii_of_nat 47.

(** The name printed for [__builtin_FILE()]; a null pointer is an empty name. *)
Definition file_name (file : option string) : string :=
  let filename := default "" file in
  if decide (filename = "") then filename
  else string_drop (match find_last_of slash filename with Some i => S i | None => 0%nat end)
         filename.

(** [operator<<] of a [source_location], and [location]. *)
Definition log_location (file : string) (line : Z) (s : s_logger) : s_logger :=
  if has_meet_level s then put (file_name (Some file) +:+ ":" +:+ pretty line) s else s.

(** The beginning of a statement, under the lock. *)
Definition begin_statement (l : log_level) (file : option string) (line : Z) (time : string)
    (s : s_logger) : s_logger :=
  let s := log_flag time L_space (log_flag time L_time (log_level_op l s)) in
  let s := log_value (executable_name_ s) s in
  let s := log_value (pretty line) (log_value ":" (log_value (file_name file) (log_value "::" s))) in
  log_flag time L_level (log_flag time L_space s).

Definition trace := begin_statement kTrace.
Definition debug := begin_statement kDebug.
Definition info := begin_statement kInfo.
Definition warn := begin_statement kWarn.
Definition error := begin_statement kError.

(** [logger.info() << v1 << ... << vn << L_endl;] *)
Record statement := Statement {
  st_level : log_level;
  st_file : option string;
  st_line : Z;
  st_time : string;
  st_values : list string;
}.

Definition run_statement (s : s_logger) (st : statement) : s_logger :=
  let s := begin_statement (st_level st) (st_file st) (st_line st) (st_time st) s in
  log_flag (st_time st) L_endl (foldl (fun s v => log_value v s) s (st_values st)).

(** ** What is printed *)

Fixpoint text (os : list output) : string :=
  match os with
  | [] => ""
  | Text t :: os => t +:+ text os
  | Flush :: os => text os
  end.

Fixpoint concat_string (l : list string) : string :=
  match l with [] => "" | t :: l => t +:+ concat_string l end.

(** A statement as the reader sees it: with [color] its escape sequence always,
    the line when its level is met, and with [always] the mark, the colour's
    reset and a flush. *)
Definition render (color always : bool) (level : log_level) (executable : string)
    (st : statement) : string :=
  (if color then ESC +:+ "[" +:+ pretty (color_code (st_level st)) +:+ "m" else "") +:+
  (if level_value level <=? level_value (st_level st) then
     st_time st +:+ " " +:+ executable +:+ "::" +:+ file_name (st_file st) +:+ ":" +:+
     pretty (st_line st) +:+ " [" +:+ represent_level (st_level st) +:+ "]" +:+
     concat_string ((fun v => TAB +:+ v) <$> st_values st) +:+
     (if always then TAB +:+ " |F|" else "") +:+ NL +:+
     (if color && always then ESC +:+ "[0m" else "")
   else "").

Lemma text_app os os' : text (os ++ os') = text os +:+ text os'.
Proof.
  induction os as [|[t|] os IH]; [done| |done]. cbn [text app].
  by rewrite IH, string_app_assoc.
Qed.

(** The flags between statements: those of [main], perhaps with
    [L_allwaysFlush] added. *)
Definition base_flags (color always : bool) : Z :=
  (if color then 16 else 0) + (if always then 64 else 0).

Record ready (color always : bool) (s : s_logger) : Prop := {
  rd_flags : flags_ s = base_flags color always;
  rd_global : global_flags_ s = base_flags color false;
}.

(** Run the operations on a logger with known flags. *)
Ltac run_log := cbv -[app text pretty String.append TAB NL ESC level_value Z.leb represent_level
  color_code file_name concat_string].

(** The operations of [begin_statement], one by one. *)
Section met.
Context (color always : bool) (g : Z) (l lv : log_level) (e : string).
Hypothesis Hl : level_value l <=? level_value lv = true.

Definition at_flags (extra : Z) (os : list output) : s_logger :=
  SLogger g (base_flags color always + extra) l lv e os.

Lemma plain_value v os extra :
  extra = 0 \/ extra = 2 -> log_value v (at_flags extra os) = at_flags 0 (os ++ [Text v]).
Proof. unfold at_flags. intros [->| ->]; destruct color, always; run_log; by rewrite Hl. Qed.

Lemma plain_space time os extra :
  extra = 0 \/ extra = 2 -> log_flag time L_space (at_flags extra os) = at_flags 0 (os ++ [Text " "]).
Proof.
  intros He. rewrite <- (plain_value " " os extra He).
  unfold at_flags. destruct He as [->| ->]; destruct color, always; run_log; by rewrite !Hl.
Qed.

Lemma plain_time time os :
  log_flag time L_time (at_flags 0 os) = at_flags 2 (os ++ [Text time]).
Proof. unfold at_flags. destruct color, always; run_log; by rewrite !Hl. Qed.

Lemma plain_level time os :
  log_flag time L_level (at_flags 0 os)
  = at_flags 128 (os ++ [Text ("[" +:+ represent_level lv +:+ "]")]).
Proof. unfold at_flags. destruct color, always; run_log; by rewrite !Hl. Qed.

Lemma begin_met file line time l0 os :
  begin_statement lv file line time (SLogger g (base_flags color always) l l0 e os) =
  at_flags 128 ((os ++ (if color then [Text (ESC +:+ "[" +:+ pretty (color_code lv) +:+ "m")] else []))
    ++ [Text time; Text " "; Text e; Text "::"; Text (file_name file); Text ":";
        Text (pretty line); Text " "; Text ("[" +:+ represent_level lv +:+ "]")]).
Proof.
  unfold begin_statement.
  assert (Ec : log_level_op lv (SLogger g (base_flags color always) l l0 e os) =
    at_flags 0 (os ++ (if color then [Text (ESC +:+ "[" +:+ pretty (color_code lv) +:+ "m")] else []))).
  { unfold at_flags. destruct color, always; run_log; by rewrite ?app_nil_r. }
  rewrite Ec. rewrite plain_time, plain_space by auto. cbn zeta.
  change (executable_name_ (at_flags 0 _)) with e.
  rewrite !plain_value, plain_space, plain_level by auto. by rewrite <- !app_assoc.
Qed.

(** Values of a statement are preceded by tabs once the level is printed. *)
Lemma tabbed_values vs os :
  foldl (fun s v => log_value v s) (at_flags 128 os) vs =
  at_flags 128 (os ++ mjoin ((fun v => [Text TAB; Text v]) <$> vs)).
Proof.
  revert os. induction vs as [|v vs IH]; intros os; cbn [foldl fmap list_fmap].
  { cbn. by rewrite app_nil_r. }
  assert (Ev : log_value v (at_flags 128 os) = at_flags 128 (os ++ [Text TAB; Text v])).
  { unfold at_flags. destruct color, always; run_log; rewrite Hl; by rewrite <- app_assoc. }
  by rewrite Ev, IH, mjoin_cons, app_assoc.
Qed.

(** The end of the line restores the flags. *)
Lemma ended time os :
  g = base_flags color false ->
  log_flag time L_endl (at_flags 128 os) =
  at_flags 0 (os ++ (if always then [Text TAB; Text " |F|"] else []) ++ [Text NL] ++
    (if always then (if color then [Text (ESC +:+ "[0m")] else []) ++ [Flush] else [])).
Proof.
  intros Hg. unfold at_flags. rewrite Hg.
  destruct color, always; run_log; rewrite ?Hl; by rewrite <- ?app_assoc, ?app_nil_r.
Qed.
End met.

(** A statement whose level is not met writes at most its colour. *)
Lemma statement_suppressed color always s st :
  ready color always s -> level_value (level_ s) <=? level_value (st_level st) = false ->
  run_statement s st = s <| streaming_level_ := st_level st |>
    <| stream_ := stream_ s ++ (if color then
         [Text (ESC +:+ "[" +:+ pretty (color_code (st_level st)) +:+ "m")] else []) |>.
Proof.
  intros [Hf Hg] Hl. unfold run_statement, begin_statement.
  set (s1 := s <| streaming_level_ := _ |> <| stream_ := _ |>).
  assert (E1 : log_level_op (st_level st) s = s1).
  { subst s1. destruct s. cbn in *. subst. destruct color, always; run_log; by rewrite ?app_nil_r. }
  assert (Hm : has_meet_level s1 = false) by (subst s1; by destruct s).
  assert (Hv : forall v, log_value v s1 = s1) by (intros v; unfold log_value; by rewrite Hm).
  assert (Hfl : forall f, log_flag (st_time st) f s1 = s1).
  { intros f. unfold log_flag. rewrite Hm. by destruct (is_null s1). }
  rewrite E1, !Hfl. cbn zeta. rewrite !Hv, !Hfl.
  assert (Hfold : forall vs, foldl (fun s v => log_value v s) s1 vs = s1).
  { induction vs as [|v vs IH]; [done|]. cbn [foldl]. by rewrite Hv. }
  by rewrite Hfold, Hfl.
Qed.

Lemma text_values vs :
  text (mjoin ((fun v => [Text TAB; Text v]) <$> vs)) = concat_string ((fun v => TAB +:+ v) <$> vs).
Proof.
  induction vs as [|v vs IH]; [done|]. cbn [fmap list_fmap]. rewrite mjoin_cons, text_app, IH.
  cbn [text concat_string]. by rewrite string_app_nil_r.
Qed.

Lemma run_statement_spec color always s st :
  ready color always s ->
  ready color always (run_statement s st) /\ level_ (run_statement s st) = level_ s /\
  executable_name_ (run_statement s st) = executable_name_ s /\
  text (stream_ (run_statement s st)) =
    text (stream_ s) +:+ render color always (level_ s) (executable_name_ s) st /\
  (Flush ∈ stream_ (run_statement s st) -> Flush ∈ stream_ s \/ always = true).
Proof.
  intros Hr. unfold render.
  destruct (level_value (level_ s) <=? level_value (st_level st)) eqn:Hl.
  - destruct Hr as [Hf Hg], s as [g f l l0 e os]. cbn in *. subst f.
    unfold run_statement. rewrite begin_met, tabbed_values, ended by done. unfold at_flags. cbn.
    rewrite Z.add_0_r. split_and!; [done|done|done| |].
    + rewrite !text_app, text_values. destruct color, always; cbn [text andb];
        rewrite ?string_app_nil_r, ?string_app_assoc; done.
    + destruct always; [by right|]. rewrite !elem_of_app. intros HF. left.
      assert (Hv : Flush ∉ mjoin ((fun v => [Text TAB; Text v]) <$> st_values st)).
      { induction (st_values st) as [|v vs IH]; [apply not_elem_of_nil|].
        cbn [fmap list_fmap]. rewrite mjoin_cons. set_solver. }
      destruct color; set_solver.
  - rewrite (statement_suppressed color always) by done. destruct Hr as [Hf Hg], s. cbn in *.
    split_and!; [done|done|done| |].
    + rewrite text_app. destruct color; cbn [text]; by rewrite ?string_app_nil_r, ?string_app_assoc.
    + destruct color; set_solver.
Qed.

(** ** Names of files *)

Fixpoint has_char (c : Ascii.ascii) (s : string) : bool :=
  match s with
  | EmptyString => false
  | String a s => bool_decide (a = c) || has_char c s
  end.

Lemma find_last_of_spec c s :
  match find_last_of c s with
  | Some i => exists pre, s = pre +:+ String c (string_drop (S i) s) /\
                has_char c (string_drop (S i) s) = false
  | None => has_char c s = false
  end.
Proof.
  induction s as [|a s IH]; [done|]. cbn [find_last_of].
  destruct (find_last_of c s) as [i|].
  - destruct IH as (pre&E&Hn). exists (String a pre). cbn [string_drop] in *.
    split; [|done]. rewrite string_app_cons. by f_equal.
  - case_decide as Hd.
    + subst a. exists "". cbn [string_drop]. split; [done|]. exact IH.
    + cbn. rewrite bool_decide_false by done. exact IH.
Qed.

Module LoggerProperties.

(** The log is exactly what its statements say.  A logger with the default
    options (colour or none, with or without [L_allwaysFlush]) prints for a
    sequence of statements the concatenation of their lines, in order: each
    has its colour, the time, the program, the file and line, the level and its
    values after tabs, or, when its level is below the logger's, the colour
    alone; the flags are those before the first statement again, and nothing is
    flushed unless asked. *)
Theorem log_statements_exact color always s sts :
  flags_ s = base_flags color always -> global_flags_ s = base_flags color false ->
  let s' := foldl run_statement s sts in
  flags_ s' = flags_ s /\ level_ s' = level_ s /\
  text (stream_ s') = text (stream_ s) +:+
    concat_string (render color always (level_ s) (executable_name_ s) <$> sts) /\
  (Flush ∈ stream_ s' -> Flush ∈ stream_ s \/ always = true).
Proof.
  intros Hf Hg. cbn zeta. assert (Hr : ready color always s) by done.
  assert (Hall : ready color always (foldl run_statement s sts) /\
    level_ (foldl run_statement s sts) = level_ s /\
    text (stream_ (foldl run_statement s sts)) = text (stream_ s) +:+
      concat_string (render color always (level_ s) (executable_name_ s) <$> sts) /\
    (Flush ∈ stream_ (foldl run_statement s sts) -> Flush ∈ stream_ s \/ always = true)).
  { clear Hf Hg. revert s Hr. induction sts as [|st sts IH]; intros s Hr; cbn [foldl].
    { cbn. rewrite string_app_nil_r. auto. }
    destruct (run_statement_spec color always s st Hr) as (R1&L1&E1&T1&F1).
    destruct (IH _ R1) as (R2&L2&T2&F2). rewrite T2, T1, L2, L1, E1. split_and!; try done.
    - cbn. by rewrite string_app_assoc.
    - intros [?|?]%F2; auto. }
  destruct Hall as ([Hf' _]&?&?&?). rewrite Hf, Hf'. auto.
Qed.

Definition demo : list statement :=
  [Statement kDebug (Some "a/b.cpp") 3 "T" ["x"; "y"]; Statement kTrace None 4 "T" ["z"]].

Lemma log_statements_exact_witness :
  text (stream_ (foldl run_statement (console_logger kDebug L_color "user") demo)) =
  ESC +:+ "[34mT user::b.cpp:3 [DEBUG]" +:+ TAB +:+ "x" +:+ TAB +:+ "y" +:+ NL +:+ ESC +:+ "[37m".
Proof.
  destruct (log_statements_exact true false (console_logger kDebug L_color "user") demo
    ltac:(reflexivity) ltac:(reflexivity)) as (_&_&E&_).
  rewrite E. vm_compute. reflexivity.
Defined.

(** The name printed for a file is what follows its last slash. *)
Lemma file_name_exact f :
  has_char slash (file_name (Some f)) = false /\
  (file_name (Some f) = f \/ exists pre, f = pre +:+ "/" +:+ file_name (Some f)).
Proof.
  unfold file_name. change (default "" (Some f)) with f. case_decide as Hf; [subst f; cbn; auto|].
  pose proof (find_last_of_spec slash f) as H. destruct (find_last_of slash f) as [i|].
  - destruct H as (pre&E&Hn). split; [exact Hn|]. right. exists pre. exact E.
  - split; [exact H|by left].
Qed.

(** [activate(false)] sets the bits of [L_null], but [is_null] asks for nothing
    else to be set: with a colour the logger goes on printing. *)
Lemma deactivated_logger_prints :
  text (stream_ (log_value "x" (activate false (console_logger kTrace L_color "user")))) = "x" /\
  text (stream_ (log_value "x" (activate false (console_logger kTrace L_clearflags "user")))) = "".
Proof. split; vm_compute; reflexivity. Qed.

(** [L_flush] clears the flags before [flush] looks at them, so the colour is not
    reset, although a reset is what the remark in [operator<<(log_level)] leaves
    to the flush. *)
Lemma flush_keeps_color :
  stream_ (log_flag "T" L_flush (log_level_op kError (console_logger kTrace L_color "user")))
  = [Text (ESC +:+ "[31m"); Text (" |F|" +:+ NL); Flush].
Proof. vm_compute. reflexivity. Qed.

(** The lock covers the beginning of a statement only: when another thread begins
    one in between, the values of a statement below the level are printed. *)
Lemma suppressed_value_leaks :
  let s := begin_statement kTrace None 1 "T" (console_logger kWarn L_clearflags "user") in
  let s := begin_statement kError None 2 "T" s in
  text (stream_ (log_value "of the trace" s)) =
  "T user:::2 [ERROR]" +:+ TAB +:+ "of the trace".
Proof. vm_compute. reflexivity. Qed.
End LoggerProperties.
