(* ===== verification/Tracer.v ===== *)
(** * Tracer: what a crashing process leaves behind

    Models [rsp-libs/include/rsplib/debug/tracer.hpp], installed by the [main] of the
    User server and of the client, over the logger of Logger.v: a process with
    its signal handlers, the singleton logger with its mutex, and threads that
    begin log statements, stream values and receive signals.  [backtrace] is a
    function of the C library: the frames it finds are data of the event that
    raises the signal.  A second signal inside the handler is not modelled. *)

From S2P Require Import Prelude.
From S2P Require Import Logger.
From stdpp Require Import pretty.
#[local] Open Scope Z_scope.
From coqutil Require Import Datatypes.RecordSetters.
Import TriangleBracketNotations.
#[local] Arguments constant {_} _ _ /.

(** ** Signals and processes *)

(** The signals a fault of the program raises, and the requests to end it; by
    default each of them ends the process. *)
Inductive signal := SIGABRT | SIGSEGV | SIGFPE | SIGILL | SIGBUS | SIGINT | SIGTERM.

#[export] Instance signal_eq_dec : EqDecision signal.
Proof. solve_decision. Defined.

Definition signal_number (s : signal) : Z :=
  match s with
  | SIGABRT => 6 | SIGSEGV => 11 | SIGFPE => 8 | SIGILL => 4 | SIGBUS => 7
  | SIGINT => 2 | SIGTERM => 15
  end.

Inductive outcome := Exited (code : Z) | Killed (s : signal).

(** Where a thread stands: outside the functions that begin a statement, inside
    one of them (and so with [m_] locked), or in the handler: after the
    backtrace, inside [error()], and after it. *)
Inductive place :=
  | Outside
  | Beginning
  | Traced (s : signal)
  | Reporting (s : signal)
  | Reported (s : signal).

#[export] Instance place_eq_dec : EqDecision place.
Proof. solve_decision. Defined.

Record process := Process {
  executable : string;
  handled : list signal;           (* signals given to [tracer::handler] *)
  s_instance : option s_logger;    (* [console_logger::s_instance] *)
  m_ : option nat;                 (* the thread that holds the logger's mutex *)
  threads : gmap nat place;
  stderr_ : list string;           (* frames written by [backtrace_symbols_fd] *)
  outcome_ : option outcome;
}.

Definition process_init (name : string) : process := Process name [] None None ∅ [] None.

Definition place_of (t : nat) (p : process) : place := default Outside (threads p !! t).

Definition at_place (t : nat) (l : place) (p : process) : process :=
  p <| threads := <[t := l]> (threads p) |>.

(** [console_logger::instance]: the first call makes the logger with its own
    arguments, the others return it. *)
Definition instance (level : log_level) (options : Z) (p : process) : s_logger :=
  match s_instance p with
  | Some l => l
  | None => console_logger level options (executable p)
  end.

(** [logger::logger(level, options)]. *)
Definition logger (level : log_level) (options : Z) (p : process) : process :=
  p <| s_instance := Some (instance level options p) |>.

Definition on_logger (f : s_logger -> s_logger) (p : process) : process :=
  p <| s_instance := f <$> s_instance p |>.

(** [signal(sig, handler)], and [tracer::install]. *)
Definition set_handler (s : signal) (p : process) : process := p <| handled := s :: handled p |>.

Definition install (p : process) : process := set_handler SIGSEGV (set_handler SIGABRT p).

(** ** The handler *)

(** [backtrace(array, 10)] and [backtrace_symbols_fd]. *)
Definition MAX_FRAMES : nat := 10.

Definition handler_trace (frames : list string) (p : process) : process :=
  p <| stderr_ := stderr_ p ++ take MAX_FRAMES frames |>.

(** [logger().error()] up to the lock; the thread waits while another one, or
    the thread itself, holds it. *)
Definition handler_lock (t : nat) (s : signal) (p : process) : process :=
  let p := logger kTrace L_color p in
  match m_ p with
  | Some _ => p
  | None => at_place t (Reporting s) (p <| m_ := Some t |>)
  end.

(** The prefix [error()] writes, and the release of the lock. *)
Definition handler_error (t : nat) (s : signal) (file time : string) (p : process) : process :=
  at_place t (Reported s) ((on_logger (error (Some file) 36 time) p) <| m_ := None |>).

(** [<< "signal " << sig << L_endl; exit(1);] *)
Definition handler_exit (s : signal) (time : string) (p : process) : process :=
  (on_logger (fun l => log_flag time L_endl
      (log_value (pretty (signal_number s)) (log_value "signal " l))) p)
    <| outcome_ := Some (Exited 1) |>.

(** ** Runs *)

(** A step of a thread: it asks for the logger and calls a function that begins
    a statement, that function writes the prefix and returns, a value or a flag
    is streamed, a signal is delivered, the handler goes on. *)
Inductive event :=
  | Enter (t : nat) (level : log_level) (options : Z)
  | Begin (t : nat) (l : log_level) (file : option string) (line : Z) (time : string)
  | Stream (t : nat) (value : string)
  | StreamFlag (t : nat) (flag : Z) (time : string)
  | Raise (t : nat) (s : signal) (frames : list string)
  | Handle (t : nat) (file time : string).

Definition enter (t : nat) (level : log_level) (options : Z) (p : process) : process :=
  let p := logger level options p in
  match m_ p with
  | Some _ => p
  | None => at_place t Beginning (p <| m_ := Some t |>)
  end.

Definition begin (t : nat) (l : log_level) (file : option string) (line : Z) (time : string)
    (p : process) : process :=
  at_place t Outside ((on_logger (begin_statement l file line time) p) <| m_ := None |>).

(** The delivery of a signal to a thread. *)
Definition raise (t : nat) (s : signal) (frames : list string) (p : process) : process :=
  if decide (s ∈ handled p) then at_place t (Traced s) (handler_trace frames p)
  else p <| outcome_ := Some (Killed s) |>.

Definition handle (t : nat) (file time : string) (p : process) : process :=
  match place_of t p with
  | Traced s => handler_lock t s p
  | Reporting s => handler_error t s file time p
  | Reported s => handler_exit s time p
  | _ => p
  end.

Definition exec (p : process) (e : event) : process :=
  match outcome_ p with
  | Some _ => p
  | None =>
      match e with
      | Enter t level options =>
          if decide (place_of t p = Outside) then enter t level options p else p
      | Begin t l file line time =>
          if decide (place_of t p = Beginning) then begin t l file line time p else p
      | Stream t value =>
          if decide (place_of t p = Outside) then on_logger (log_value value) p else p
      | StreamFlag t flag time =>
          if decide (place_of t p = Outside) then on_logger (log_flag time flag) p else p
      | Raise t s frames =>
          match place_of t p with Outside | Beginning => raise t s frames p | _ => p end
      | Handle t file time => handle t file time p
      end
  end.

Definition exec_all : process -> list event -> process := foldl exec.

(** What [main] of the User server and of the client do first: the server
    installs the tracer and then begins its log, the client the other way
    round. *)
Definition user_main_start (file time major minor : string) : process :=
  exec_all (install (process_init "user"))
    [Enter 0 kTrace L_color; Begin 0 kInfo (Some file) 28 time; Stream 0 "User Version: ";
     Stream 0 major; Stream 0 minor; StreamFlag 0 L_endl time].

Definition client_main_start : process := install (logger kDebug L_color (process_init "client")).

(** ** Lemmas *)

Lemma exec_all_app p es es' : exec_all p (es ++ es') = exec_all (exec_all p es) es'.
Proof. apply foldl_app. Qed.

Lemma place_at t l p : place_of t (at_place t l p) = l.
Proof. unfold place_of, at_place. cbn. by rewrite lookup_insert_eq. Qed.

Lemma place_other t t' l p : t <> t' -> place_of t' (at_place t l p) = place_of t' p.
Proof. intros H. unfold place_of, at_place. cbn. by rewrite lookup_insert_ne. Qed.

Lemma logger_m lv o p : m_ (logger lv o p) = m_ p.
Proof. done. Qed.

(** The places of threads after the elementary changes. *)
Lemma place_cases t t' l p :
  place_of t' (at_place t l p) = if decide (t = t') then l else place_of t' p.
Proof. case_decide; [subst; apply place_at|by apply place_other]. Qed.

(** The mutex is held by a thread inside a function that begins a statement, and
    by no other. *)
Definition holds (l : place) : Prop :=
  match l with Beginning | Reporting _ => True | _ => False end.

Record lock_inv (p : process) : Prop := {
  li_holder t : m_ p = Some t -> holds (place_of t p);
  li_held t : holds (place_of t p) -> m_ p = Some t;
}.

(** The signal does not hit a thread that holds the mutex. *)
Definition unlocked_raise (p : process) (e : event) : Prop :=
  match e with Raise t _ _ => place_of t p <> Beginning | _ => True end.

Fixpoint careful (p : process) (es : list event) : Prop :=
  match es with
  | [] => True
  | e :: es => unlocked_raise p e /\ careful (exec p e) es
  end.

(** A change of one thread's place keeps the invariant when the mutex goes with it. *)
Lemma lock_inv_at p q t l :
  lock_inv p -> (forall t', place_of t' q = if decide (t = t') then l else place_of t' p) ->
  (m_ p = None \/ m_ p = Some t) /\ (holds l /\ m_ q = Some t \/ ~ holds l /\ m_ q = None) \/
  ~ holds l /\ m_ p <> Some t /\ m_ q = m_ p ->
  lock_inv q.
Proof.
  intros [Hr Hd] Hp H. split; intros t'; rewrite Hp; case_decide as Ht; subst; intros Hm;
    destruct H as [([?|?]&[[? ?]|[? ?]])|(?&?&?)]; try congruence; try done.
  - apply Hr; congruence.
  - apply Hd in Hm. congruence.
  - apply Hd in Hm. congruence.
  - apply Hd in Hm. congruence.
  - apply Hd in Hm. congruence.
  - apply Hd in Hm. congruence.
Qed.

Lemma lock_inv_same p q :
  lock_inv p -> (forall t, place_of t q = place_of t p) -> m_ q = m_ p -> lock_inv q.
Proof. intros [Hr Hd] Hp Hm. split; intros t; rewrite Hp, Hm; auto. Qed.

Ltac same_lock p := apply (lock_inv_same p); cbn; by auto.

Lemma exec_lock_inv p e : lock_inv p -> unlocked_raise p e -> lock_inv (exec p e).
Proof.
  intros Hi Hu. unfold exec. destruct (outcome_ p); [done|].
  assert (Hno : forall t, m_ p = None -> ~ holds (place_of t p)).
  { intros t Hm Hh%(li_held _ Hi). congruence. }
  assert (Hnot : forall t, ~ holds (place_of t p) -> m_ p <> Some t).
  { intros t Hh Hm%(li_holder _ Hi). done. }
  destruct e as [t lv o|t l f n tm|t v|t fl tm|t s fr|t f tm]; cbn in Hu; repeat case_decide; try done;
    try same_lock p.
  - unfold enter. cbv zeta. rewrite logger_m. destruct (m_ p) eqn:Hm; [same_lock p|].
    eapply (lock_inv_at p); [done|by intros; rewrite place_cases|]. cbn. naive_solver.
  - unfold begin. eapply (lock_inv_at p); [done|by intros; rewrite place_cases|]. cbn.
    rewrite (li_held _ Hi t) by (by rewrite H). naive_solver.
  - destruct (place_of t p) eqn:Hp; try done. unfold raise. case_decide; [|same_lock p].
    eapply (lock_inv_at p); [done|by intros; rewrite place_cases|]. cbn. right.
    split_and!; [tauto|apply Hnot; rewrite Hp; by intros []|done].
  - unfold handle. destruct (place_of t p) eqn:Hp; try done; [| |same_lock p].
    + unfold handler_lock. cbv zeta. rewrite logger_m. destruct (m_ p) eqn:Hm; [same_lock p|].
      eapply (lock_inv_at p); [done|by intros; rewrite place_cases|]. cbn. naive_solver.
    + unfold handler_error. eapply (lock_inv_at p); [done|by intros; rewrite place_cases|]. cbn.
      rewrite (li_held _ Hi t) by (by rewrite Hp). naive_solver.
Qed.

Lemma exec_all_lock_inv p es : lock_inv p -> careful p es -> lock_inv (exec_all p es).
Proof.
  revert p. induction es as [|e es IH]; intros p Hi; [done|]. cbn. intros [Hu Hc].
  apply IH; [by apply exec_lock_inv|done].
Qed.

(** ** The handler with the mutex free *)

Lemma handle_traced t s f tm p :
  outcome_ p = None -> place_of t p = Traced s -> m_ p = None ->
  exec p (Handle t f tm) = at_place t (Reporting s) ((logger kTrace L_color p) <| m_ := Some t |>).
Proof. intros Ho Hp Hm. unfold exec, handle, handler_lock. rewrite Ho, Hp. cbv zeta. by rewrite logger_m, Hm. Qed.

Lemma handle_reporting t s f tm p :
  outcome_ p = None -> place_of t p = Reporting s ->
  exec p (Handle t f tm) = handler_error t s f tm p.
Proof. intros Ho Hp. unfold exec, handle. by rewrite Ho, Hp. Qed.

Lemma handle_reported t s f tm p :
  outcome_ p = None -> place_of t p = Reported s -> exec p (Handle t f tm) = handler_exit s tm p.
Proof. intros Ho Hp. unfold exec, handle. by rewrite Ho, Hp. Qed.

Definition handler_steps (t : nat) (f tm : string) : list event := replicate 3 (Handle t f tm).

(** What the handler logs. *)
Definition report (s : signal) (file time : string) : statement :=
  Statement kError (Some file) 36 time ["signal "; pretty (signal_number s)].

Lemma report_runs l s f tm :
  run_statement l (report s f tm) =
  log_flag tm L_endl (log_value (pretty (signal_number s))
    (log_value "signal " (error (Some f) 36 tm l))).
Proof. unfold run_statement, report, error. cbn [st_level st_file st_line st_time st_values foldl].
  reflexivity. Qed.

Lemma instance_on_logger f p o m l t :
  s_instance (at_place t l ((on_logger f p) <| m_ := m |>)) = f <$> s_instance p /\
  s_instance ((on_logger f p) <| outcome_ := o |>) = f <$> s_instance p.
Proof. done. Qed.

Lemma exit_instance s tm p :
  s_instance (handler_exit s tm p) =
  (fun l => log_flag tm L_endl (log_value (pretty (signal_number s)) (log_value "signal " l)))
    <$> s_instance p.
Proof. apply (instance_on_logger _ _ _ None Outside 0%nat). Qed.

Lemma error_instance t s f tm p :
  s_instance (handler_error t s f tm p) = error (Some f) 36 tm <$> s_instance p.
Proof. apply (instance_on_logger _ _ None None (Reported s) t). Qed.

(** From the backtrace on, three steps of the handler print the report and end
    the process. *)
Lemma handler_runs t s f tm p :
  outcome_ p = None -> place_of t p = Traced s -> m_ p = None ->
  let p' := exec_all p (handler_steps t f tm) in
  outcome_ p' = Some (Exited 1) /\ stderr_ p' = stderr_ p /\
  s_instance p' = Some (run_statement (instance kTrace L_color p) (report s f tm)).
Proof.
  intros Ho Hp Hm. cbn zeta. unfold exec_all. cbn [handler_steps replicate foldl].
  rewrite (handle_traced t s _ _ p) by done.
  set (p1 := at_place t (Reporting s) _).
  rewrite (handle_reporting t s _ _ p1) by (done || apply place_at).
  rewrite (handle_reported t s) by (done || apply place_at).
  split; [reflexivity|]. split; [reflexivity|].
  rewrite exit_instance, error_instance. subst p1. rewrite report_runs. reflexivity.
Qed.

(** Wherever its thread stands in the handler, at most three of its steps end
    the process once nobody else holds the mutex. *)
Lemma handler_ends t f tm p s :
  outcome_ p = None -> m_ p = None \/ m_ p = Some t -> lock_inv p ->
  place_of t p = Traced s \/ place_of t p = Reporting s \/ place_of t p = Reported s ->
  exists n, (n <= 3)%nat /\ outcome_ (exec_all p (replicate n (Handle t f tm))) = Some (Exited 1).
Proof.
  intros Ho Hm Hi [Hp|[Hp|Hp]].
  - exists 3%nat. split; [done|]. apply (handler_runs t s); [done|done|].
    destruct Hm as [?|Hm]; [done|]. apply (li_holder _ Hi) in Hm. by rewrite Hp in Hm.
  - exists 2%nat. split; [lia|]. unfold exec_all. cbn [replicate foldl].
    rewrite (handle_reporting t s _ _ p) by done.
    by rewrite (handle_reported t s) by (done || apply place_at).
  - exists 1%nat. split; [lia|]. unfold exec_all. cbn [replicate foldl].
    by rewrite (handle_reported t s) by done.
Qed.

(** ** A thread hit inside a function that begins a statement *)

Record hung (t : nat) (s : signal) (p : process) : Prop := {
  hg_alive : outcome_ p = None;
  hg_lock : m_ p = Some t;
  hg_thread : place_of t p = Traced s;
  hg_places t' : place_of t' p = Outside \/ exists s', place_of t' p = Traced s';
}.

(** No signal of the events ends the process by default. *)
Definition only_handled (p : process) (e : event) : Prop :=
  match e with Raise _ s _ => s ∈ handled p | _ => True end.

Lemma handled_const p e : handled (exec p e) = handled p.
Proof.
  unfold exec. destruct (outcome_ p); [done|].
  destruct e; repeat case_decide; unfold enter, raise, handle, handler_lock; cbv zeta;
    repeat first [case_decide | destruct (place_of _ _) | destruct (m_ _)]; done.
Qed.

Lemma exec_hung t s p e : hung t s p -> only_handled p e -> hung t s (exec p e).
Proof.
  intros Hh He. pose proof Hh as [Ho Hm Ht Hp]. unfold exec. rewrite Ho.
  destruct e as [t' lv o|t' l f n tm|t' v|t' fl tm|t' s' fr|t' f tm]; cbn in He;
    repeat case_decide; try done; try by destruct Hh.
  - unfold enter. cbv zeta. rewrite logger_m, Hm. by split.
  - exfalso. destruct (Hp t') as [?|[? ?]]; congruence.
  - destruct (Hp t') as [E|[s'' E]]; rewrite E; [|done].
    unfold raise. rewrite decide_True by done.
    assert (t' <> t) by congruence. split; [done|done| |].
    + by rewrite place_other.
    + intros t''. rewrite place_cases. case_decide; [eauto|apply Hp].
  - unfold handle. destruct (Hp t') as [E|[s'' E]]; rewrite E; [done|].
    unfold handler_lock. cbv zeta. rewrite logger_m, Hm. by split.
Qed.

Lemma exec_all_hung t s p es :
  hung t s p -> Forall (only_handled p) es -> hung t s (exec_all p es).
Proof.
  revert p. induction es as [|e es IH]; intros p Hh; [done|].
  intros [He Hes]%Forall_cons. apply IH; [by apply exec_hung|].
  eapply Forall_impl; [exact Hes|]. intros []; cbn; by rewrite ?handled_const.
Qed.

Lemma handled_all p es : handled (exec_all p es) = handled p.
Proof.
  revert p. induction es as [|e es IH]; intros p; [done|].
  change (handled (exec_all (exec p e) es) = handled p). by rewrite IH, handled_const.
Qed.

Lemma raise_handled t s frames p :
  outcome_ p = None -> place_of t p = Outside -> s ∈ handled p ->
  exec p (Raise t s frames) = at_place t (Traced s) (handler_trace frames p).
Proof. intros Ho Ht Hs. unfold exec, raise. by rewrite Ho, Ht, decide_True. Qed.

(** The step the holder of the mutex, another thread than [t], is about to take: the function that begins
    its statement writes the prefix and returns. *)
Definition holder_step (t : nat) (l : log_level) (fo : option string) (line : Z) (file time : string)
    (p : process) : list event :=
  match m_ p with
  | Some t' =>
      if decide (t' = t) then []
      else
        match place_of t' p with
        | Beginning => [Begin t' l fo line time]
        | Reporting _ => [Handle t' file time]
        | _ => []
        end
  | None => []
  end.

(** After that step the mutex is free for [t], which is where it was. *)
Lemma mutex_freed l fo line f tm p t :
  outcome_ p = None -> lock_inv p ->
  let q := exec_all p (holder_step t l fo line f tm p) in
  outcome_ q = None /\ (m_ q = None \/ m_ q = Some t) /\ lock_inv q /\
  place_of t q = place_of t p.
Proof.
  intros Ho Hi. cbn zeta. unfold holder_step.
  destruct (m_ p) as [t'|] eqn:Hm; [|by split_and!; auto].
  case_decide; [subst; by split_and!; auto|].
  pose proof (li_holder _ Hi t' Hm) as Hh. destruct (place_of t' p) as [| | |s'|] eqn:Hp; try done.
  - assert (Ee : exec p (Begin t' l fo line tm) = begin t' l fo line tm p)
      by (unfold exec; by rewrite Ho, decide_True).
    assert (lock_inv (exec p (Begin t' l fo line tm))) by (by apply exec_lock_inv).
    unfold exec_all. cbn [foldl]. rewrite Ee in *. split_and!; try done; [by left|]. unfold begin.
    by rewrite !place_other.
  - assert (Ee : exec p (Handle t' f tm) = handler_error t' s' f tm p) by (by apply handle_reporting).
    assert (lock_inv (exec p (Handle t' f tm))) by (by apply exec_lock_inv).
    unfold exec_all. cbn [foldl]. rewrite Ee in *. split_and!; try done; [by left|]. unfold handler_error.
    by rewrite !place_other.
Qed.

Module TracerProperties.

(** The signals [install] takes. *)
Definition traced (s : signal) : Prop := s = SIGABRT \/ s = SIGSEGV.

(** C39. A crash is reported and ends the process with status 1.  Once the tracer
    is installed, and in every history in which no thread is hit by a signal
    while it begins a log statement, a thread that receives SIGABRT or SIGSEGV
    reaches [exit(1)]: after one step of the thread that holds the logger's
    mutex, if any does, at most three steps of the handler end the process.
    With the mutex free, the handler writes the innermost ten frames at most to
    the standard error, and one line of level ERROR with the signal's number to
    the log, even when the logger did not exist before; the two signals are the
    only ones that are traced, any other kills the process. *)
Theorem crash_reported p0 es t file time :
  lock_inv p0 -> careful (install p0) es ->
  let p := exec_all (install p0) es in
  outcome_ p = None ->
  (forall s, (place_of t p = Traced s \/ place_of t p = Reporting s \/ place_of t p = Reported s) ->
     forall l fo line, exists n, (n <= 3)%nat /\
       outcome_ (exec_all p (holder_step t l fo line file time p ++
                               replicate n (Handle t file time))) = Some (Exited 1)) /\
  (forall s frames color always, place_of t p = Outside -> m_ p = None -> traced s ->
     ready color always (instance kTrace L_color p) ->
     let p' := exec_all p (Raise t s frames :: handler_steps t file time) in
     outcome_ p' = Some (Exited 1) /\ stderr_ p' = stderr_ p ++ take 10 frames /\
     exists l, s_instance p' = Some l /\
       text (stream_ l) = text (stream_ (instance kTrace L_color p)) +:+
         render color always (level_ l) (executable_name_ l) (report s file time)) /\
  (forall s frames, place_of t p = Outside -> handled p0 = [] -> ~ traced s ->
     outcome_ (exec p (Raise t s frames)) = Some (Killed s)).
Proof.
  intros Hi Hc p Ho. assert (Hp : lock_inv p) by (apply exec_all_lock_inv; [by destruct Hi|done]).
  assert (Hh : handled p = SIGSEGV :: SIGABRT :: handled p0) by apply handled_all.
  split_and!.
  - intros s Hs l fo line.
    destruct (mutex_freed l fo line file time p t) as (Q1&Q2&Q3&Q4); [done..|].
    destruct (handler_ends t file time _ s Q1 Q2 Q3) as (n&Hn&En); [by rewrite Q4|].
    exists n. split; [done|]. by rewrite exec_all_app.
  - intros s frames color always Ht Hm Hs Hr. cbn zeta. change (exec_all p (?e :: ?l)) with
      (exec_all (exec p e) l). rewrite raise_handled by (rewrite ?Hh; try done; destruct Hs; set_solver).
    destruct (handler_runs t s file time (at_place t (Traced s) (handler_trace frames p)))
      as (E1&E2&E3); [done|apply place_at|done|].
    destruct (run_statement_spec color always (instance kTrace L_color p) (report s file time) Hr)
      as (_&L1&L2&L3&_).
    split_and!; [done|done|]. eexists. split; [exact E3|]. change (instance kTrace L_color
      (at_place t (Traced s) (handler_trace frames p))) with (instance kTrace L_color p).
    by rewrite L1, L2.
  - intros s frames Ht H0 Hs. unfold exec, raise. rewrite Ho, Ht, decide_False; [done|].
    rewrite Hh, H0, !elem_of_cons, elem_of_nil. unfold traced in Hs. tauto.
Qed.

(** A crash of the User server right after its first log line, with twelve frames
    on the stack. *)
Definition frames12 : list string := replicate 12 "frame".

Lemma init_lock name : lock_inv (process_init name).
Proof. split; intros t; [done|]. unfold place_of. cbn. by rewrite lookup_empty. Qed.

Lemma crash_reported_witness :
  let p := user_main_start "main.cpp" "T" "1" "0" in
  let p' := exec_all p (Raise 3 SIGSEGV frames12 :: handler_steps 3 "a/tracer.hpp" "T") in
  outcome_ p' = Some (Exited 1) /\ stderr_ p' = replicate 10 "frame" /\
  (text ∘ stream_ <$> s_instance p' = Some (
    ESC +:+ "[32mT user::main.cpp:28 [INFO]" +:+ TAB +:+ "User Version: " +:+ TAB +:+ "1" +:+
    TAB +:+ "0" +:+ NL +:+
    ESC +:+ "[31mT user::tracer.hpp:36 [ERROR]" +:+ TAB +:+ "signal " +:+ TAB +:+ "11" +:+ NL)).
Proof.
  destruct (crash_reported (process_init "user")
    [Enter 0 kTrace L_color; Begin 0 kInfo (Some "main.cpp") 28 "T"; Stream 0 "User Version: ";
     Stream 0 "1"; Stream 0 "0"; StreamFlag 0 L_endl "T"] 3 "a/tracer.hpp" "T"
    (init_lock _) ltac:(vm_compute; tauto) ltac:(vm_compute; reflexivity)) as (_&H&_).
  destruct (H SIGSEGV frames12 true false) as (E1&E2&l&E3&E4);
    [vm_compute; reflexivity|vm_compute; reflexivity|by right|by vm_compute|].
  cbn zeta. split_and!; [exact E1|etransitivity; [exact E2|vm_compute; reflexivity]|vm_compute; reflexivity].
Defined.

(** C40. A crash inside the logger hangs the process.  When SIGABRT or SIGSEGV
    hits a thread while it begins a log statement, and no other thread has
    already reported a crash, the handler waits for the mutex its own thread
    holds: whatever happens afterwards, short of a signal that is not traced,
    the process does not end, the mutex is never released, and no thread, nor
    the handler of any other crash, ever begins a log statement again. *)
Theorem crash_under_lock_hangs p t s frames es :
  lock_inv p -> outcome_ p = None -> place_of t p = Beginning ->
  (forall t' s', place_of t' p <> Reported s') ->
  s ∈ handled p -> Forall (only_handled p) es ->
  let q := exec_all p (Raise t s frames :: es) in
  outcome_ q = None /\ m_ q = Some t /\ place_of t q = Traced s /\
  stderr_ (exec p (Raise t s frames)) = stderr_ p ++ take 10 frames /\
  (forall t', ~ holds (place_of t' q)).
Proof.
  intros Hi Ho Ht Hr Hs Hes q.
  assert (Hm : m_ p = Some t) by (apply (li_held _ Hi); by rewrite Ht).
  assert (E : exec p (Raise t s frames) = at_place t (Traced s) (handler_trace frames p)).
  { unfold exec, raise. by rewrite Ho, Ht, decide_True. }
  assert (H0 : hung t s (exec p (Raise t s frames))).
  { rewrite E. split; [done|done|apply place_at|]. intros t'. rewrite place_cases.
    case_decide; [eauto|]. change (place_of t' (handler_trace frames p)) with (place_of t' p).
    pose proof (li_held _ Hi t') as Hl. specialize (Hr t').
    destruct (place_of t' p); eauto; cbn in Hl; [|naive_solver|naive_solver].
    specialize (Hl I). congruence. }
  assert (Hq : hung t s q).
  { apply (exec_all_hung t s (exec p (Raise t s frames))); [done|]. eapply Forall_impl; [exact Hes|].
    intros []; cbn; by rewrite ?handled_const. }
  destruct Hq as [? ? ? Hp]. rewrite E. split_and!; try done.
  intros t' Hh. destruct (Hp t') as [E'|[? E']]; by rewrite E' in Hh.
Qed.
(** The client crashes while a thread begins a line: a later line of another
    thread is never written. *)
Definition stuck_client : process :=
  exec_all client_main_start [Enter 0 kDebug L_color].

Lemma crash_under_lock_hangs_witness :
  let q := exec_all stuck_client
    [Raise 0 SIGSEGV ["frame"]; Handle 0 "tracer.hpp" "T"; Enter 1 kDebug L_color;
     Begin 1 kInfo None 1 "T"; Handle 0 "tracer.hpp" "T"] in
  outcome_ q = None /\ m_ q = Some 0%nat /\ place_of 0 q = Traced SIGSEGV.
Proof.
  destruct (crash_under_lock_hangs stuck_client 0 SIGSEGV ["frame"]
    [Handle 0 "tracer.hpp" "T"; Enter 1 kDebug L_color; Begin 1 kInfo None 1 "T";
     Handle 0 "tracer.hpp" "T"]) as (E1&E2&E3&_).
  - apply exec_lock_inv; [|done]. by destruct (init_lock "client").
  - vm_compute. reflexivity.
  - vm_compute. reflexivity.
  - intros t' s'. unfold place_of.
    change (threads stuck_client) with (<[0%nat := Beginning]> (∅ : gmap nat place)).
    rewrite lookup_insert. by case_decide; rewrite ?lookup_empty.
  - vm_compute. left.
  - by repeat constructor.
  - cbn zeta. auto.
Defined.
End TracerProperties.
