(* ===== verification/Client.v ===== *)
(** * Client: the command-line client

    Models [rsp-cli]: the states of [state/] ([state.hpp], [state_init.hpp],
    [state_login.hpp], [state_in_room.hpp], [state_exit.hpp], [context.hpp],
    [factory.hpp]) and [client_session.hpp] with [src/client_session.cpp].  The
    client runs on one thread, so an event of its [io_context] is one step.  The
    parsers and the encoder of the generated protobuf classes are parameters. *)

From S2P Require Import Prelude Wire Interpreter.
From coqutil Require Import Datatypes.RecordSetters.
From Stdlib Require Import Ascii.
Import TriangleBracketNotations.
Import MessageTypes interpreter.
#[local] Arguments constant {_} _ _ /.

Inductive State := kInit | kLoggedIn | kInRoom | kExit.

#[export] Instance State_eq_dec : EqDecision State.
Proof. solve_decision. Defined.

Record context := Context_ { uid : string; room_id : Z }.
Definition context_clear : context := Context_ "" 0.

Inductive pending_input := kCommand | kMessage | kKickoutUser.

(** A state object: its class and its members. *)
Record base_state := BaseState {
  state : State;
  request_id_ : Z;
  awaiting_room_id_ : bool;          (** [state_login] *)
  pending_input_ : pending_input;    (** [state_in_room] *)
}.

(** Messages the client sends. *)
Inductive out_message :=
  | Pong
  | ReqLogin (request_id : Z) (u : string)
  | ReqLogout (request_id : Z)
  | ReqCreateRoom (request_id : Z)
  | ReqJoinRoom (request_id room : Z)
  | ReqLeaveRoom (request_id : Z)
  | FwdRoom (msg : string).

(** ** [std::from_chars] for a 32-bit room id *)

Definition digit (c : ascii) : option Z :=
  let n := Z.of_nat (nat_of_ascii c) in
  if (48 <=? n) && (n <=? 57) then Some (n - 48) else None.

(** The value of the longest prefix of digits, after [acc], and what follows. *)
Fixpoint scan_digits (acc : Z) (s : string) : Z * string :=
  match s with
  | EmptyString => (acc, s)
  | String c rest =>
      match digit c with
      | Some d => scan_digits (10 * acc + d) rest
      | None => (acc, s)
      end
  end.

Inductive errc := no_errc | invalid_argument | result_out_of_range.

(** [from_chars(first, last, value)] for [std::uint32_t]: the unread rest, the
    error, and the value. *)
Definition from_chars (s : string) : string * errc * Z :=
  let '(v, rest) := scan_digits 0 s in
  if decide (rest = s) then (s, invalid_argument, 0)
  else if v <? 2 ^ 32 then (rest, no_errc, v) else (rest, result_out_of_range, 0).

(** The test of [state_login::on_command]. *)
Definition parse_room_id (command : string) : option Z :=
  match from_chars command with
  | (EmptyString, no_errc, v) => Some v
  | _ => None
  end.

(** What the generated code offers: parsing of the responses, and encoding. *)
Class protobuf := {
  parse_res_login : raw_buffer -> option string;
  parse_res_logout : raw_buffer -> option string;
  parse_res_create_room : raw_buffer -> option (bool * Z);
  parse_res_join_room : raw_buffer -> option (bool * Z);
  parse_res_leave_room : raw_buffer -> option bool;
  parse_fwd_client : raw_buffer -> option (Z * string * string);
  parse_ntf_leave_room : raw_buffer -> option Z;
  encode : out_message -> outcome raw_buffer;
  (** [Pong] has no fields: its frame is a bare header. *)
  encode_pong : exists b, encode Pong = Ret b;
}.

Inductive effect :=
  | Write (b : raw_buffer)
  | Show (msg : string)
  | CloseSocket
  | ExitHandler
  | Thrown (e : exn)
  | Crash.

Section client.
Context `{protobuf}.

Record client_session := ClientSession {
  context_ : context;
  interpreter_ : conn_interpreter;
  state_ : option base_state;
  write_queue_ : list raw_buffer;
  writing : bool;                  (** outstanding [async_write] *)
  reading : bool;                  (** outstanding [async_read_some] *)
  current_state_ : State;
  stopped_ : bool;
}.

Definition create : client_session :=
  ClientSession context_clear interpreter.create None [] false false kInit false.

(** ** client_session: writes and the end *)

Definition write_next (c : client_session) : list effect * client_session :=
  if stopped_ c then ([], c)
  else match write_queue_ c with
       | [] => ([], c)
       | b :: _ => ([Write b], c <| writing := true |>)
       end.

Definition queue_write (b : raw_buffer) (c : client_session)
    : list effect * client_session :=
  if stopped_ c then ([], c)
  else
    let write_in_progress := bool_decide (write_queue_ c <> []) in
    let c := c <| write_queue_ := write_queue_ c ++ [b] |> in
    if write_in_progress then ([], c) else write_next c.

Definition finish (c : client_session) : list effect * client_session :=
  if stopped_ c then ([], c)
  else ([CloseSocket; ExitHandler], c <| stopped_ := true |> <| current_state_ := kExit |>).

(** ** States *)

(** [factory::create]: the constructors; [state_exit] clears the context. *)
Definition make_state (next : State) (c : client_session) : client_session :=
  let c := match next with
           | kExit => c <| context_ := context_clear |>
           | _ => c
           end in
  c <| state_ := Some (BaseState next 0 false kCommand) |>.

Definition set_state (st : base_state) (c : client_session) : client_session :=
  c <| state_ := Some st |>.

(** [get_request_id]: the id and the state with the counter advanced. *)
Definition get_request_id (st : base_state) : Z * base_state :=
  (request_id_ st, st <| request_id_ := uint 64 (request_id_ st + 1) |>).

(** [send_message]; the serializer may throw. *)
Definition send_message (m : out_message) (c : client_session)
    : list effect * client_session :=
  match encode m with
  | Ret b => queue_write b c
  | Throw e => ([Thrown e], c)
  end.

Definition login_prompt : string := "possible command 
1) logout, 2) create_room, 3) join_room".
Definition room_prompt : string := "possible command 
1) logout 2) send message 3) leave room 4) kickout".

(** [enter] of the new state. *)
Definition enter (c : client_session) : list effect * client_session :=
  match state_ c with
  | None => ([], c)
  | Some st =>
      match state st with
      | kInit => ([Show "type user name to login"], c)
      | kLoggedIn =>
          ([Show login_prompt],
           set_state (st <| awaiting_room_id_ := false |>) c)
      | kInRoom =>
          ([Show room_prompt],
           set_state (st <| pending_input_ := kCommand |>) c)
      | kExit => ([Show "closing..."], c)
      end
  end.

Definition transition_to (next : State) (c : client_session)
    : list effect * client_session :=
  if stopped_ c then ([], c)
  else
    let '(es, c) := enter (make_state next (c <| current_state_ := next |>)) in
    if decide (next = kExit)
    then let '(es', c) := finish c in (es ++ es', c)
    else (es, c).

(** Sending a request that takes the next request id. *)
Definition send_request (st : base_state) (make : Z -> out_message) (c : client_session)
    : list effect * client_session :=
  let '(id, st) := get_request_id st in
  send_message (make id) (set_state st c).

(** Forwarding a line of input to the room, and the prompt after it. *)
Definition forward (st : base_state) (msg : string) (c : client_session)
    : list effect * client_session :=
  let c := set_state (st <| pending_input_ := kCommand |>) c in
  match encode (FwdRoom msg) with
  | Ret b => let '(es, c) := queue_write b c in (es ++ [Show room_prompt], c)
  | Throw e => ([Thrown e], c)
  end.

(** [on_command] of the four states; none of them asks for a transition. *)
Definition state_init_on_command (st : base_state) (command : string) (c : client_session)
    : list effect * client_session :=
  send_request st (fun id => ReqLogin id command) c.

Definition state_login_on_command (st : base_state) (command : string) (c : client_session)
    : list effect * client_session :=
  if awaiting_room_id_ st then
    match parse_room_id command with
    | None => ([Show "room id must be a number"], c)
    | Some room =>
        send_request (st <| awaiting_room_id_ := false |>)
          (fun id => ReqJoinRoom id room) c
    end
  else if decide (command = "1") then send_request st ReqLogout c
  else if decide (command = "2") then send_request st ReqCreateRoom c
  else if decide (command = "3") then
    ([Show "put room id that you want to enter"],
     set_state (st <| awaiting_room_id_ := true |>) c)
  else ([Show "your command is incorrect"], c).

Definition state_in_room_on_command (st : base_state) (command : string)
    (c : client_session) : list effect * client_session :=
  match pending_input_ st with
  | kMessage => forward st command c
  | kKickoutUser => forward st ("kickout:" +:+ command) c
  | kCommand =>
      if decide (command = "1") then send_request st ReqLogout c
      else if decide (command = "2") then
        ([Show "type message to send"],
         set_state (st <| pending_input_ := kMessage |>) c)
      else if decide (command = "3") then send_request st ReqLeaveRoom c
      else if decide (command = "4") then
        ([Show "type user name to kickout"],
         set_state (st <| pending_input_ := kKickoutUser |>) c)
      else ([Show "your command is incorrect"], c)
  end.

Definition on_command (st : base_state) (command : string) (c : client_session)
    : list effect * client_session :=
  match state st with
  | kInit => state_init_on_command st command c
  | kLoggedIn => state_login_on_command st command c
  | kInRoom => state_in_room_on_command st command c
  | kExit => ([], c)
  end.

(** [base_state::on_message]. *)
Definition base_on_message (type : MessageType) (c : client_session)
    : list effect * option State * client_session :=
  if type =? kPing then
    let '(es, c) := send_message Pong c in (es, None, c)
  else ([], Some kExit, c).

(** The common body of the two responses that enter a room. *)
Definition handle_res_enter (r : option (bool * Z)) (c : client_session)
    : list effect * option State * client_session :=
  match r with
  | None => ([], None, c)
  | Some (false, _) => let '(es, c) := enter c in (es, None, c)
  | Some (true, room) =>
      ([], Some kInRoom, c <| context_ := (context_ c) <| room_id := room |> |>)
  end.

Definition handle_res_create_room (payload : raw_buffer) (c : client_session)
    : list effect * option State * client_session :=
  handle_res_enter (parse_res_create_room payload) c.

Definition handle_res_join_room (payload : raw_buffer) (c : client_session)
    : list effect * option State * client_session :=
  handle_res_enter (parse_res_join_room payload) c.

Definition handle_res_logout (payload : raw_buffer) (c : client_session)
    : list effect * option State * client_session :=
  match parse_res_logout payload with
  | None => ([], None, c)
  | Some _ => ([], Some kExit, c)
  end.

Definition leave (c : client_session) : list effect * option State * client_session :=
  ([], Some kLoggedIn, c <| context_ := (context_ c) <| room_id := 0 |> |>).

Definition handle_ntf_leave_room (payload : raw_buffer) (c : client_session)
    : list effect * option State * client_session :=
  match parse_ntf_leave_room payload with
  | None => ([], None, c)
  | Some _ => leave c
  end.

Definition handle_res_leave_room (payload : raw_buffer) (c : client_session)
    : list effect * option State * client_session :=
  match parse_res_leave_room payload with
  | None => ([], None, c)
  | Some false => ([Show "unable to leave room"], None, c)
  | Some true => leave c
  end.

Definition handle_fwd_client (payload : raw_buffer) (c : client_session)
    : list effect * option State * client_session :=
  match parse_fwd_client payload with
  | None => ([], None, c)
  | Some (sender_type, sender, msg) =>
      if sender_type =? 0 then ([Show ("room sent message: " +:+ msg)], None, c)
      else if sender_type =? 1 then ([Show ("(" +:+ sender +:+ "):" +:+ msg)], None, c)
      else ([], None, c)
  end.

(** [on_message] of the four states; [state_exit] inherits the base. *)
Definition state_init_on_message (type : MessageType) (payload : raw_buffer)
    (c : client_session) : list effect * option State * client_session :=
  if type =? kResLogin then
    match parse_res_login payload with
    | None => ([], None, c)
    | Some u => ([], Some kLoggedIn, c <| context_ := (context_ c) <| uid := u |> |>)
    end
  else base_on_message type c.

Definition state_login_on_message (type : MessageType) (payload : raw_buffer)
    (c : client_session) : list effect * option State * client_session :=
  if type =? kResLogout then handle_res_logout payload c
  else if type =? kResCreateRoom then handle_res_create_room payload c
  else if type =? kResJoinRoom then handle_res_join_room payload c
  else base_on_message type c.

Definition state_in_room_on_message (type : MessageType) (payload : raw_buffer)
    (c : client_session) : list effect * option State * client_session :=
  if type =? kResLogout then handle_res_logout payload c
  else if type =? kFwdClient then handle_fwd_client payload c
  else if type =? kNtfLeaveRoom then handle_ntf_leave_room payload c
  else if type =? kResLeaveRoom then handle_res_leave_room payload c
  else base_on_message type c.

Definition on_message (st : base_state) (type : MessageType) (payload : raw_buffer)
    (c : client_session) : list effect * option State * client_session :=
  match state st with
  | kInit => state_init_on_message type payload c
  | kLoggedIn => state_login_on_message type payload c
  | kInRoom => state_in_room_on_message type payload c
  | kExit => base_on_message type c
  end.

(** ** client_session *)

Definition dispatch_message (type : MessageType) (payload : raw_buffer)
    (c : client_session) : list effect * client_session :=
  if stopped_ c then ([], c)
  else match state_ c with
       | None => ([], c)
       | Some st =>
           let '(es, next, c) := on_message st type payload c in
           match next with
           | None => (es, c)
           | Some next => let '(es', c) := transition_to next c in (es ++ es', c)
           end
       end.

(** [session_dispatcher]: the client as the dispatcher of its interpreter. *)
#[export] Instance session_dispatcher
    : message_dispatcher_interface (list effect * client_session) :=
  fun type payload _ d =>
    let '(es, c) := dispatch_message type payload d.2 in (d.1 ++ es, c).

Definition handle_command (command : string) (c : client_session)
    : list effect * client_session :=
  if stopped_ c then ([], c)
  else match state_ c with
       | None => ([], c)
       | Some st => on_command st command c
       end.

Definition read_next (c : client_session) : client_session :=
  if stopped_ c then c else c <| reading := true |>.

(** The handler of [async_read_some]; [error] is whether it failed. *)
Definition handle_read (error : bool) (arr : raw_buffer) (size : Z) (c : client_session)
    : list effect * client_session :=
  let c := c <| reading := false |> in
  if error then finish c
  else
    match handle_buffer (interpreter_ c) arr size ([], c) with
    | Handled true i (es, c) => (es, read_next (c <| interpreter_ := i |>))
    | Handled false i (es, c) =>
        let '(es', c) := transition_to kExit (c <| interpreter_ := i |>) in (es ++ es', c)
    | UndefinedBehaviour | OutOfFuel => ([Crash], c)
    end.

(** The handler of [async_write]. *)
Definition handle_write (error : bool) (c : client_session)
    : list effect * client_session :=
  let c := c <| writing := false |> in
  if error then transition_to kExit c
  else write_next (c <| write_queue_ := tail (write_queue_ c) |>).

Inductive event :=
  | Start
  | Command (command : string)
  | Stop
  | ReadDone (error : bool) (arr : raw_buffer) (size : Z)
  | WriteDone (error : bool).

Definition exec (e : event) (c : client_session) : list effect * client_session :=
  match e with
  | Start => let '(es, c) := transition_to kInit c in (es, read_next c)
  | Command s => handle_command s c
  | Stop => if stopped_ c then ([], c) else transition_to kExit c
  | ReadDone error arr size =>
      if reading c then handle_read error arr size c else ([], c)
  | WriteDone error => if writing c then handle_write error c else ([], c)
  end.

(** ** The state machine *)

Inductive allowed : State -> State -> Prop :=
  | allow_login : allowed kInit kLoggedIn
  | allow_enter : allowed kLoggedIn kInRoom
  | allow_leave : allowed kInRoom kLoggedIn
  | allow_exit st : allowed st kExit.

Record ok (c : client_session) : Prop := {
  ok_exit : stopped_ c = bool_decide (current_state_ c = kExit);
  ok_state : stopped_ c = false -> forall st, state_ c = Some st -> state st = current_state_ c;
  ok_room : current_state_ c <> kInRoom -> stopped_ c = false -> room_id (context_ c) = 0;
  ok_interpreter : wf_interpreter (interpreter_ c);
  ok_writing : stopped_ c = false -> writing c = bool_decide (write_queue_ c <> []);
}.

Definition is_exit_handler (e : effect) : bool :=
  match e with ExitHandler => true | _ => false end.
Definition is_write (e : effect) : bool := match e with Write _ => true | _ => false end.
Definition is_crash (e : effect) : bool := match e with Crash => true | _ => false end.

(** What every step does. *)
Record moves (c : client_session) (es : list effect) (c' : client_session) : Prop := {
  mv_ok : ok c';
  mv_path : rtc allowed (current_state_ c) (current_state_ c');
  mv_exit : count is_exit_handler es = Z.b2z (stopped_ c') - Z.b2z (stopped_ c);
  mv_silent : stopped_ c = true -> count is_write es = 0 /\ stopped_ c' = true;
  mv_safe : count is_crash es = 0;
}.

Lemma moves_trans c es c' es' c'' :
  moves c es c' -> moves c' es' c'' -> moves c (es ++ es') c''.
Proof.
  intros [A1 B1 C1 D1 E1] [A2 B2 C2 D2 E2]. split; [done|by etrans|..].
  - rewrite count_app. lia.
  - intros Hs. destruct (D1 Hs) as [F1 Hs']. destruct (D2 Hs') as [F2 Hs''].
    rewrite count_app. split; [lia|done].
  - rewrite count_app. lia.
Qed.

(** Steps that stay in the same state. *)
Lemma moves_stay c es c' :
  ok c' -> current_state_ c' = current_state_ c -> stopped_ c' = stopped_ c ->
  count is_exit_handler es = 0 -> (stopped_ c = true -> count is_write es = 0) ->
  count is_crash es = 0 -> moves c es c'.
Proof. intros H1 H2 H3 H4 H5 H6. split; rewrite ?H2, ?H3; [done|done|lia|auto|done]. Qed.

Lemma moves_refl c : ok c -> moves c [] c.
Proof. intros Hc. by apply moves_stay. Qed.

Lemma moves_queue_write b c : ok c -> moves c (queue_write b c).1 (queue_write b c).2.
Proof.
  intros Hc. unfold queue_write. destruct (stopped_ c) eqn:Es; [by apply moves_refl|].
  destruct Hc as [H1 H2 H3 H4 H5].
  destruct c as [cx it st q w r cu []]; cbn in *; [done|]. specialize (H5 eq_refl).
  destruct q as [|b' q]; cbn.
  - by apply moves_stay.
  - by apply moves_stay.
Qed.

Lemma moves_show c m : ok c -> moves c [Show m] c.
Proof. intros Hc. by apply moves_stay. Qed.

Lemma ok_set_state st c :
  ok c -> state st = current_state_ c -> ok (set_state st c).
Proof.
  intros [H1 H2 H3 H4 H5] E. destruct c. cbn in *. split; cbn; try done.
  intros _ st' [= <-]. done.
Qed.

Lemma moves_set_state st c :
  ok c -> state st = current_state_ c -> moves c [] (set_state st c).
Proof. intros Hc E. apply moves_stay; try done; [by apply ok_set_state|by destruct c..]. Qed.

Lemma moves_send_message m c : ok c -> moves c (send_message m c).1 (send_message m c).2.
Proof.
  intros Hc. unfold send_message. destruct (encode m); [by apply moves_queue_write|].
  by apply moves_stay.
Qed.

Lemma moves_send_request st make c :
  ok c -> state st = current_state_ c ->
  moves c (send_request st make c).1 (send_request st make c).2.
Proof.
  intros Hc E. unfold send_request. destruct (get_request_id st) as [id st'] eqn:Eg.
  assert (E' : state st' = current_state_ c).
  { unfold get_request_id in Eg. injection Eg as _ <-. by destruct st. }
  eapply (moves_trans _ []); [by apply moves_set_state|].
  by apply moves_send_message, ok_set_state.
Qed.

Lemma moves_show_set st m c :
  ok c -> state st = current_state_ c -> moves c [Show m] (set_state st c).
Proof.
  intros Hc E. apply (moves_trans _ [Show m] c [] _); [by apply moves_show|].
  by apply moves_set_state.
Qed.

Lemma moves_forward st msg c :
  ok c -> state st = current_state_ c -> moves c (forward st msg c).1 (forward st msg c).2.
Proof.
  intros Hc E. unfold forward. cbn zeta. set (c1 := set_state _ c).
  assert (M : moves c [] c1) by (apply moves_set_state; [done|by destruct st]).
  assert (Hc1 : ok c1) by apply M. destruct (encode _) as [b|e].
  - pose proof (moves_queue_write b c1 Hc1) as Mq. destruct (queue_write b c1) as [es c2].
    cbn in *. eapply (moves_trans _ []); [done|]. eapply moves_trans; [done|].
    apply moves_show. apply Mq.
  - cbn. eapply (moves_trans _ []); [done|]. by apply moves_stay.
Qed.

Lemma moves_on_command st command c :
  ok c -> state st = current_state_ c ->
  moves c (on_command st command c).1 (on_command st command c).2.
Proof.
  intros Hc E. unfold on_command, state_init_on_command, state_login_on_command,
    state_in_room_on_command.
  repeat first
    [ by apply moves_refl | by apply moves_show
    | apply moves_send_request; [done|destruct st; cbn in *; congruence]
    | apply moves_forward; [done|congruence]
    | apply moves_show_set; [done|destruct st; cbn in *; congruence] | case_match ].
Qed.

(** A transition after a change of the context. *)
Lemma moves_transition cx next c :
  ok c -> stopped_ c = false ->
  next = kExit \/ allowed (current_state_ c) next ->
  (next = kLoggedIn -> room_id cx = 0) ->
  moves c (transition_to next (c <| context_ := cx |>)).1
    (transition_to next (c <| context_ := cx |>)).2.
Proof.
  intros [H1 H2 H3 H4 H5] Hs Ha Hl. unfold transition_to.
  destruct c as [cx' it st q w r cu []]; cbn in *; [done|]. specialize (H5 eq_refl).
  assert (Hrtc : rtc allowed cu next).
  { apply rtc_once. destruct Ha as [->|]; [constructor|done]. }
  destruct next; cbn;
    [rewrite decide_False by done..|rewrite decide_True by done]; cbn;
    (split; cbn; [|done|done|done|done]); split; cbn; try done; auto;
    try (intros _ st' [= <-]; done).
  destruct Ha as [|Ha]; [done|inversion Ha].
Qed.

Lemma moves_exit c :
  ok c -> moves c (transition_to kExit c).1 (transition_to kExit c).2.
Proof.
  intros Hc. destruct (stopped_ c) eqn:E.
  { unfold transition_to. rewrite E. by apply moves_refl. }
  assert (Ec : c = c <| context_ := context_ c |>) by by destruct c.
  rewrite Ec at 2 3. apply moves_transition; auto. done.
Qed.

(** What [on_message] leaves to the transition that follows it. *)
Definition message_effect (c : client_session)
    (r : list effect * option State * client_session) : Prop :=
  match r with
  | (es, None, c') => moves c es c'
  | (es, Some next, c') =>
      es = [] /\ exists cx, c' = c <| context_ := cx |> /\
        (next = kExit \/ allowed (current_state_ c) next) /\
        (next = kLoggedIn -> room_id cx = 0)
  end.

Lemma message_effect_ask next cx c :
  next = kExit \/ allowed (current_state_ c) next ->
  (next = kLoggedIn -> room_id cx = 0) ->
  message_effect c ([], Some next, c <| context_ := cx |>).
Proof. intros. split; [done|]. by exists cx. Qed.

Lemma message_effect_exit c : message_effect c ([], Some kExit, c).
Proof.
  assert (Ec : c = c <| context_ := context_ c |>) by by destruct c.
  rewrite Ec at 2. by apply message_effect_ask; [left|].
Qed.

Lemma base_on_message_effect type c :
  ok c -> message_effect c (base_on_message type c).
Proof.
  intros Hc. unfold base_on_message. case_match; [|apply message_effect_exit].
  pose proof (moves_send_message Pong c Hc). by destruct (send_message Pong c).
Qed.

Lemma moves_enter c : ok c -> stopped_ c = false -> moves c (enter c).1 (enter c).2.
Proof.
  intros Hc Hs. unfold enter. destruct (state_ c) as [st|] eqn:E; [|by apply moves_refl].
  pose proof (ok_state c Hc Hs st E) as Es.
  destruct (state st) eqn:Est; first [by apply moves_show|apply moves_show_set];
    [done|destruct st; cbn in *; congruence..].
Qed.

Lemma on_message_effect st type payload c :
  ok c -> stopped_ c = false -> state st = current_state_ c ->
  message_effect c (on_message st type payload c).
Proof.
  intros Hc Hs E. pose proof (ok_room c Hc) as Hroom.
  unfold on_message, state_init_on_message, state_login_on_message, state_in_room_on_message,
    handle_res_create_room, handle_res_join_room, handle_ntf_leave_room, handle_res_leave_room.
  assert (He : forall r, state st = kLoggedIn -> message_effect c (handle_res_enter r c)).
  { intros [[[] room]|] El; cbn [handle_res_enter].
    - apply message_effect_ask; [right; rewrite <- E, El; constructor|done].
    - pose proof (moves_enter c Hc Hs). by destruct (enter c).
    - by apply moves_refl. }
  assert (Hl : state st = kInRoom -> message_effect c (leave c)).
  { intros El. apply message_effect_ask; [right; rewrite <- E, El; constructor|].
    by destruct (context_ c). }
  assert (Ho : message_effect c (handle_res_logout payload c)).
  { unfold handle_res_logout. case_match; [apply message_effect_exit|by apply moves_refl]. }
  assert (Hf : message_effect c (handle_fwd_client payload c)).
  { unfold handle_fwd_client. repeat case_match; first [by apply moves_show|by apply moves_refl]. }
  repeat first
    [ done | by apply base_on_message_effect | by apply He | by apply Hl
    | by apply moves_refl | by apply moves_show
    | apply message_effect_ask; [right; rewrite <- E; constructor|
        intros _; rewrite <- Hroom by (done || congruence); by destruct (context_ c)]
    | case_match ].
Qed.

Lemma moves_dispatch type payload c :
  ok c -> moves c (dispatch_message type payload c).1 (dispatch_message type payload c).2.
Proof.
  intros Hc. unfold dispatch_message.
  destruct (stopped_ c) eqn:Hs; [by apply moves_refl|].
  destruct (state_ c) as [st|] eqn:Est; [|by apply moves_refl].
  pose proof (on_message_effect st type payload c Hc Hs (ok_state c Hc Hs st Est)) as He.
  destruct (on_message st type payload c) as [[es [next|]] c']; [|done].
  destruct He as (->&cx&->&Ha&Hl). pose proof (moves_transition cx next c Hc Hs Ha Hl).
  by destruct (transition_to next _).
Qed.

Lemma moves_dispatch_all l ms d c0 :
  moves c0 d.1 d.2 -> moves c0 (dispatch_all l ms d).1 (dispatch_all l ms d).2.
Proof.
  revert d. induction ms as [|[t p] ms IH]; intros [es c] M; [done|].
  unfold dispatch_all. cbn [foldl]. apply IH. unfold dispatch, session_dispatcher. cbn.
  pose proof (moves_dispatch t p c (mv_ok _ _ _ M)) as Md.
  destruct (dispatch_message t p c) as [es' c']. by eapply moves_trans.
Qed.

(** Changes of the read side only. *)
Lemma moves_reading b c : ok c -> moves c [] (c <| reading := b |>).
Proof.
  intros [H1 H2 H3 H4 H5]. apply moves_stay; destruct c; try done.
Qed.

Lemma moves_interpreter i c :
  ok c -> wf_interpreter i -> moves c [] (c <| interpreter_ := i |>).
Proof.
  intros [H1 H2 H3 H4 H5] Hi. apply moves_stay; destruct c; try done.
Qed.

Lemma moves_read_next c : ok c -> moves c [] (read_next c).
Proof.
  intros Hc. unfold read_next. case_match; [by apply moves_refl|by apply moves_reading].
Qed.

Lemma moves_finish c : ok c -> moves c (finish c).1 (finish c).2.
Proof.
  intros Hc. unfold finish. destruct (stopped_ c) eqn:E; [by apply moves_refl|].
  destruct Hc as [H1 H2 H3 H4 H5]. destruct c as [cx it st q w r cu []]; cbn in *; [done|].
  split; cbn; [split; cbn; done|apply rtc_once; constructor|done|done|done].
Qed.

Lemma moves_handle_read error arr size c :
  ok c -> read_ok (arr, size) ->
  moves c (handle_read error arr size c).1 (handle_read error arr size c).2.
Proof.
  intros Hc Hr. unfold handle_read. cbn zeta.
  pose proof (moves_reading false c Hc) as M0. set (c0 := c <| reading := false |>) in *.
  assert (Hc0 : ok c0) by apply M0. destruct error.
  { by eapply (moves_trans _ []); [|apply moves_finish]. }
  destruct (stream_total (buffer_ (interpreter_ c0) ++ read_bytes (arr, size)))
    as (ms&r&Hst).
  pose proof (handle_buffer_stream (interpreter_ c0) (arr, size) ([], c0) ms r
    (ok_interpreter c0 Hc0) Hr Hst) as E.
  cbn [fst snd] in E. rewrite E. unfold result_of.
  pose proof (moves_dispatch_all (link_ (interpreter_ c0)) ms ([], c0) c M0) as M.
  destruct (dispatch_all _ ms _) as [es c1]. cbn [fst snd] in M.
  assert (Mi : moves c1 [] (c1 <| interpreter_ :=
      ConnInterpreter (link_ (interpreter_ c0)) (leftover_bytes r) |>)).
  { apply moves_interpreter; [apply M|]. destruct r; [by eapply stream_rest_short|done]. }
  rewrite <- (app_nil_r es). destruct (leftover_ok r).
  - eapply moves_trans; [exact M|]. eapply (moves_trans _ []); [exact Mi|].
    apply moves_read_next, Mi.
  - pose proof (moves_exit _ (mv_ok _ _ _ Mi)) as Mx.
    destruct (transition_to _ _) as [es' c2]. rewrite app_nil_r.
    eapply moves_trans; [exact M|]. by eapply (moves_trans _ []).
Qed.

Lemma moves_handle_write error c :
  ok c -> moves c (handle_write error c).1 (handle_write error c).2.
Proof.
  intros [H1 H2 H3 H4 H5]. unfold handle_write, transition_to, write_next.
  destruct c as [cx it st q w r cu []]; cbn in *.
  - destruct error; cbn; by apply moves_stay.
  - specialize (H5 eq_refl). destruct error; cbn.
    + split; cbn; [split; cbn; done|apply rtc_once; constructor|done|done|done].
    + destruct q as [|b [|b' q]]; cbn; by apply moves_stay.
Qed.

(** The events after [Start]: reads fill the 128-byte buffer of the session. *)
Definition event_ok (e : event) : Prop :=
  match e with
  | Start => False
  | ReadDone _ arr size => read_ok (arr, size)
  | _ => True
  end.

Lemma moves_exec e c : ok c -> event_ok e -> moves c (exec e c).1 (exec e c).2.
Proof.
  intros Hc He. destruct e as [|s| |error arr size|error]; cbn [exec event_ok] in *; [done|..].
  - unfold handle_command. destruct (stopped_ c) eqn:Hs; [by apply moves_refl|].
    destruct (state_ c) as [st|] eqn:E; [|by apply moves_refl].
    by apply moves_on_command, (ok_state c Hc Hs).
  - case_match; [by apply moves_refl|by apply moves_exit].
  - case_match; [by apply moves_handle_read|by apply moves_refl].
  - case_match; [by apply moves_handle_write|by apply moves_refl].
Qed.

Lemma moves_run es c :
  ok c -> Forall event_ok es -> moves c (mjoin (run exec es c).1) (run exec es c).2.
Proof.
  intros Hc He. revert c Hc. induction He as [|e es He Hes IH]; intros c Hc.
  { by apply moves_refl. }
  rewrite run_cons. cbn [fst snd]. rewrite mjoin_cons.
  pose proof (moves_exec e c Hc He) as M. eapply moves_trans; [exact M|].
  apply IH, M.
Qed.

(** One message moves the client along at most one edge; a command along none. *)
Lemma on_message_current st type payload c :
  current_state_ (on_message st type payload c).2 = current_state_ c.
Proof.
  unfold on_message, state_init_on_message, state_login_on_message,
    state_in_room_on_message, handle_res_create_room, handle_res_join_room,
    handle_ntf_leave_room, handle_res_leave_room, base_on_message, handle_res_enter, handle_res_logout, leave,
    handle_fwd_client, enter, send_message, queue_write, write_next.
  destruct c as [cx it st' q w r cu sp]; cbn. repeat (case_match; cbn in *; simplify_eq; try done).
Qed.

Lemma transition_current next c :
  stopped_ c = false -> current_state_ (transition_to next c).2 = next.
Proof.
  intros Hs. unfold transition_to. destruct c as [cx it st q w r cu []]; [done|].
  by destruct next.
Qed.

Lemma dispatch_edge type payload c :
  ok c ->
  let c' := (dispatch_message type payload c).2 in
  current_state_ c' = current_state_ c \/ allowed (current_state_ c) (current_state_ c').
Proof.
  intros Hc. cbn zeta. unfold dispatch_message.
  destruct (stopped_ c) eqn:Hs; [by left|].
  destruct (state_ c) as [st|] eqn:Est; [|by left].
  pose proof (on_message_effect st type payload c Hc Hs (ok_state c Hc Hs st Est)) as He.
  pose proof (on_message_current st type payload c) as Hm.
  destruct (on_message st type payload c) as [[es [next|]] c']; [|by left].
  destruct He as (->&cx&->&Ha&_). right.
  assert (Hs' : stopped_ (c <| context_ := cx |>) = false) by by destruct c.
  pose proof (transition_current next _ Hs') as E. destruct (transition_to next _) as [es' c'].
  cbn in *. rewrite E. destruct Ha as [->|]; [constructor|done].
Qed.

Lemma moves_start : moves create (exec Start create).1 (exec Start create).2.
Proof.
  apply moves_stay; try done. split; try done. by intros _ st [= <-].
Qed.
End client.

(** ** Decimal numerals *)

(** [decimal s v]: [s] is a non-empty string of digits of value [v]. *)
Inductive decimal : string -> Z -> Prop :=
  | decimal_last c d : digit c = Some d -> decimal (String c "") d
  | decimal_more c d s v :
      digit c = Some d -> decimal s v ->
      decimal (String c s) (d * 10 ^ Z.of_nat (String.length s) + v).

Lemma digit_range c d : digit c = Some d -> 0 <= d <= 9.
Proof. unfold digit. case_match; intros [= <-]. breflect. lia. Qed.

Lemma decimal_nonempty s v : decimal s v -> s <> "".
Proof. by destruct 1. Qed.

Lemma scan_digits_decimal s acc v :
  scan_digits acc s = (v, "") <->
    (s = "" /\ v = acc) \/
    exists w, decimal s w /\ v = acc * 10 ^ Z.of_nat (String.length s) + w.
Proof.
  revert acc v. induction s as [|c s IH]; intros acc v; cbn [scan_digits].
  - split; [intros [= ->]; by left|].
    intros [[_ ->]|(w&Hd&_)]; [done|by apply decimal_nonempty in Hd].
  - destruct (digit c) as [d|] eqn:Ed.
    + rewrite IH. cbn [String.length]. rewrite Nat2Z.inj_succ, Z.pow_succ_r by lia.
      split.
      * intros [[-> ->]|(w&Hd&->)]; right.
        -- exists d. split; [by constructor|]. cbn. lia.
        -- eexists. split; [by apply decimal_more|]. lia.
      * intros [[? _]|(w&Hd&->)]; [done|]. inversion Hd; simplify_eq.
        -- left. split; [done|]. cbn. lia.
        -- right. eexists. split; [done|]. lia.
    + split; [done|]. intros [[? _]|(w&Hd&_)]; [done|]. inversion Hd; simplify_eq.
Qed.

(** ** Properties *)

Module ClientProperties.


(** A stand-in for the generated code: every payload parses, every message is
    one byte. *)
#[local] Instance sample_protobuf : protobuf := {
  parse_res_login _ := Some "nolleh";
  parse_res_logout _ := Some "nolleh";
  parse_res_create_room _ := Some (true, 7);
  parse_res_join_room _ := Some (true, 7);
  parse_res_leave_room _ := Some true;
  parse_fwd_client _ := Some (0, "", "hi");
  parse_ntf_leave_room _ := Some 7;
  encode _ := Ret [Init.Byte.x00];
  encode_pong := ex_intro _ _ eq_refl;
}.

(** Login, an acknowledged write, the room created, and a stop. *)
Definition sample_events : list event :=
  let recv b := ReadDone false (take 128 (b ++ repeat Init.Byte.xff 128))
                  (Z.of_nat (length b)) in
  [Command "nolleh"; WriteDone false; recv (frame kResLogin []);
   Command "2"; recv (frame kResCreateRoom []); Stop; Command "1"].


(** [state_login] accepts a room id exactly when the command is a
    non-empty decimal numeral whose value fits 32 bits, and then reads that
    value; signs, blanks, trailing characters and larger numbers are refused. *)
Theorem parse_room_id_exact (s : string) (n : Z) :
  parse_room_id s = Some n <-> decimal s n /\ n < 2 ^ 32.
Proof.
  unfold parse_room_id, from_chars. pose proof (scan_digits_decimal s 0) as Hsc.
  destruct (scan_digits 0 s) as [v rest]. split.
  - repeat case_match; intros; simplify_eq. breflect.
    destruct (proj1 (Hsc _) eq_refl) as [[-> _]|(w&Hd&->)]; [done|].
    split; [done|lia].
  - intros [Hd Hn]. assert (E : (v, rest) = (n, "")).
    { apply Hsc. right. by exists n. }
    simplify_eq. apply decimal_nonempty in Hd.
    rewrite decide_False by done. by bdecide.
Qed.
End ClientProperties.
