(* ===== verification/Prompt.v ===== *)
(** * Prompt: what the client writes to the terminal

    Models [rsp-cli/include/rspcli/prompt/prompt.hpp], [operator<<] of
    [src/state/state.cpp] and [show_prompt] of [state.hpp].  The interesting
    part is the state of [std::cout] the code relies on: the field width of
    [std::setw] lasts until the next formatted output, which [std::endl] is
    not, and the fill character until it is set again. *)

From S2P Require Import Prelude Wire Interpreter Client.
From stdpp Require Import pretty.
#[local] Open Scope Z_scope.
From Stdlib Require Import Ascii.
From coqutil Require Import Datatypes.RecordSetters.
Import TriangleBracketNotations.
#[local] Arguments constant {_} _ _ /.

(** ** [std::ostream] *)

Record ostream := Ostream { out : string; width_ : Z; fill_ : ascii }.

(** [n] times the character [c]. *)
Fixpoint repeat_char (c : ascii) (n : nat) : string :=
  match n with O => EmptyString | S n => String c (repeat_char c n) end.

(** The fill that right-aligns [s] in the field. *)
Definition padding (s : string) (o : ostream) : string :=
  repeat_char (fill_ o) (Z.to_nat (width_ o - Z.of_nat (String.length s))).

(** Formatted output of a string or of a number pads and resets the width. *)
Definition put (s : string) (o : ostream) : ostream :=
  o <| out := out o +:+ padding s o +:+ s |> <| width_ := 0 |>.

(** [std::setw] takes an [int]. *)
Definition setw (n : Z) (o : ostream) : ostream := o <| width_ := to_int n |>.
Definition setfill (c : ascii) (o : ostream) : ostream := o <| fill_ := c |>.

Definition NL : string := String "010" EmptyString.

(** [std::endl] is unformatted: it neither pads nor resets the width. *)
Definition endl (o : ostream) : ostream := o <| out := out o +:+ NL |>.

(** ** The client's output *)

(** [ESC] followed by a bracket. *)
Definition csi : string := String "027" "[".

Definition kYellow : string := "33".
Definition kMagenta : string := "35".
Definition kBlue : string := "36".
Definition kWidth : Z := 50.

Definition state_name (st : State) : string :=
  match st with
  | kInit => "Init"
  | kLoggedIn => "LoggedIn"
  | kInRoom => "InRoom"
  | kExit => "Exit"
  end.

(** [operator<<(std::ostream&, const base_state&)]; [address] is the text of the
    object's address. *)
Definition put_state (address : string) (st : State) (ctx : context) (os : ostream) : ostream :=
  let os := put "] current state: " (put address (put "[Client:" os)) in
  let os := put (NL +:+ csi) (put (state_name st) os) in
  let os := put "m uid:" (put kBlue os) in
  put (pretty (room_id ctx)) (put ", RoomId:" (put (uid ctx) os)).

(** [prompt::operator<<]; the messages are literals, so [strlen] is their
    length.  [kWidth - strlen(value)] is computed in [std::size_t]. *)
Definition prompt (address : string) (st : State) (ctx : context) (value : string) (o : ostream)
    : ostream :=
  let o := put (csi +:+ "2J" +:+ csi +:+ "1;1H") o in
  let o := setw kWidth (put "m" (put kMagenta (put csi o))) in
  let o := endl (setfill "=" o) in
  let o := put "m" (put kYellow (put (NL +:+ csi) o)) in
  let o := endl (put_state address st ctx o) in
  let o := endl (put (csi +:+ "0m") o) in
  let o := setfill " " (setw (uint 64 (kWidth - Z.of_nat (String.length value))) o) in
  let o := put value o in
  let o := put "m" (put kMagenta (put csi o)) in
  let o := endl (setfill "=" (setw kWidth o)) in
  endl (put (csi +:+ "0m") o).

(** [base_state::show_prompt]; [state_exit] uses [prompt] itself. *)
Definition show_prompt (address : string) (st : State) (ctx : context) (message : string)
    (o : ostream) : ostream := put "> " (prompt address st ctx message o).

(** The line [handle_fwd_client] prints. *)
Definition show_forward (message : string) (o : ostream) : ostream :=
  let o := put "m" (put kBlue (put csi o)) in
  put "command > " (put (csi +:+ "0m" +:+ NL) (put message o)).

(** ** Facts *)

Lemma put_field s o w c :
  put s (Ostream o w c) = Ostream (o +:+ repeat_char c (Z.to_nat (w - Z.of_nat (String.length s))) +:+ s) 0 c.
Proof. done. Qed.

Lemma put_plain s o c : put s (Ostream o 0 c) = Ostream (o +:+ s) 0 c.
Proof. rewrite put_field. by replace (Z.to_nat _) with 0%nat by lia. Qed.

Lemma setw_spec n o w c : setw n (Ostream o w c) = Ostream o (to_int n) c.
Proof. done. Qed.

Lemma setfill_spec c' o w c : setfill c' (Ostream o w c) = Ostream o w c'.
Proof. done. Qed.

Lemma endl_spec o w c : endl (Ostream o w c) = Ostream (o +:+ NL) w c.
Proof. done. Qed.

(** The width of the field a message is printed in. *)
Lemma setw_message n : 0 <= n < 2 ^ 31 -> to_int (uint 64 (kWidth - n)) = kWidth - n.
Proof.
  intros Hn. rewrite <- (to_int_small (kWidth - n)) at 2 by (unfold kWidth; lia).
  rewrite <- to_int_uint32, <- (to_int_uint32 (kWidth - n)). f_equal. unfold uint.
  symmetry. apply Znumtheory.Zmod_div_mod; [lia|lia|]. by exists (2 ^ 32).
Qed.

Definition state_text (address : string) (st : State) (ctx : context) : string :=
  "[Client:" +:+ address +:+ "] current state: " +:+ state_name st +:+ NL +:+ csi +:+ kBlue +:+
  "m uid:" +:+ uid ctx +:+ ", RoomId:" +:+ pretty (room_id ctx).

Lemma put_state_plain address st ctx s c :
  put_state address st ctx (Ostream s 0 c) = Ostream (s +:+ state_text address st ctx) 0 c.
Proof.
  unfold put_state, state_text. cbn zeta. rewrite !put_plain. by rewrite !string_app_assoc.
Qed.

Module PromptProperties.

(** What a prompt prints, to the character.  On a stream with no pending
    width, the screen is cleared; the first bar has 47 signs and follows the
    line it was meant to be on, because [std::endl] leaves the width for the
    next output; the message is preceded by blanks as far as it is shorter than
    half of the width; the second bar has 46 signs; and the stream is left with
    no pending width.  The unsigned subtraction does no harm for messages longer
    than the width: the field width becomes negative, and nothing is padded. *)
Theorem prompt_exact address st ctx value o :
  width_ o = 0 -> Z.of_nat (String.length value) < 2 ^ 31 ->
  prompt address st ctx value o =
    Ostream (out o +:+
      csi +:+ "2J" +:+ csi +:+ "1;1H" +:+ csi +:+ kMagenta +:+ "m" +:+ NL +:+
      repeat_char "=" 47 +:+ NL +:+ csi +:+ kYellow +:+ "m" +:+ state_text address st ctx +:+ NL +:+
      csi +:+ "0m" +:+ NL +:+
      repeat_char " " (Z.to_nat (50 - 2 * Z.of_nat (String.length value))) +:+ value +:+
      csi +:+ kMagenta +:+ "m" +:+ NL +:+ repeat_char "=" 46 +:+ csi +:+ "0m" +:+ NL) 0 "=".
Proof.
  intros Hw Hl. destruct o as [s w c]. cbn in Hw. subst w. unfold prompt. cbn zeta.
  rewrite !put_plain, setw_spec, setfill_spec, endl_spec, put_field, !put_plain, put_state_plain.
  rewrite endl_spec, put_plain, endl_spec, setw_spec, setfill_spec, put_field, !put_plain.
  rewrite setw_spec, setfill_spec, endl_spec, put_field, endl_spec.
  rewrite setw_message, !string_app_assoc by lia.
  replace (kWidth - Z.of_nat (String.length value) - Z.of_nat (String.length value))
    with (50 - 2 * Z.of_nat (String.length value)) by (unfold kWidth; lia).
  reflexivity.
Qed.

Lemma prompt_exact_witness :
  out (prompt "0x1" kInit context_clear "closing..." (Ostream "" 0 " ")) <> "" /\
  width_ (prompt "0x1" kInit context_clear "closing..." (Ostream "" 0 " ")) = 0.
Proof.
  rewrite (prompt_exact "0x1" kInit context_clear "closing..." (Ostream "" 0 " ")) by (done || (cbn; lia)).
  split; [discriminate|reflexivity].
Defined.
End PromptProperties.
