(* ===== verification/Terminal.v ===== *)
(** * Terminal: the client process

    Models [rsp-cli/src/main.cpp]: the loop [read_command], which reads lines of
    the terminal with [async_read_until] and gives them to the session of
    [Client], the exit handler, and the end of [io_context::run].  Of the
    [asio] library the model takes that a completion handler runs once for an
    outstanding operation, that a read without error leaves a line in the
    buffer, that an operation is aborted only after [cancel] or [close], and that
    [run] returns when nothing is outstanding. *)

From S2P Require Import Prelude Wire Interpreter Client.
From coqutil Require Import Datatypes.RecordSetters.
From Stdlib Require Import Ascii.
Import TriangleBracketNotations.
Import MessageTypes interpreter.
#[local] Arguments constant {_} _ _ /.

Definition newline : ascii := "010".
Definition carriage_return : ascii := "013".

(** [std::getline]: the line, without its end, and what remains. *)
Fixpoint getline (s : string) : string * string :=
  match s with
  | EmptyString => (EmptyString, EmptyString)
  | String c rest =>
      if decide (c = newline) then (EmptyString, rest)
      else let '(line, rest) := getline rest in (String c line, rest)
  end.

Fixpoint has_newline (s : string) : bool :=
  match s with
  | EmptyString => false
  | String c rest => bool_decide (c = newline) || has_newline rest
  end.

(** [if (command.back() == '\r') command.pop_back()]. *)
Fixpoint pop_carriage_return (s : string) : string :=
  match s with
  | EmptyString => EmptyString
  | String c rest =>
      if decide (rest = EmptyString /\ c = carriage_return) then EmptyString
      else String c (pop_carriage_return rest)
  end.

(** What happens: bytes the terminal committed to the buffer; a call of the
    session with its effects. *)
Inductive happening :=
  | Committed (more : string)
  | Called (e : event) (es : list effect).

Inductive input :=
  | LineRead (more : string)          (** completion of [async_read_until] *)
  | InputFailed (aborted : bool)
  | SocketRead (error : bool) (arr : raw_buffer) (size : Z)
  | SocketWritten (error : bool).

Section terminal.
Context `{protobuf}.

Record terminal := Terminal {
  client : client_session;
  input_buffer : string;
  waiting : bool;                     (** outstanding [async_read_until] *)
  result : option Z;                  (** what [main] returned *)
}.

Definition is_thrown (e : effect) : bool := match e with Thrown _ => true | _ => false end.
Definition thrown (h : happening) : bool :=
  match h with Called _ es => existsb is_thrown es | Committed _ => false end.

(** Operations the [io_context] waits for. *)
Definition outstanding (t : terminal) : bool :=
  reading (client t) || writing (client t) || waiting t.

(** After a handler: an exception leaves [run], and [main] returns 1; otherwise
    [run] goes on as long as an operation is outstanding. *)
Definition settle (hs : list happening) (t : terminal) : list happening * terminal :=
  (hs, if existsb thrown hs then t <| result := Some 1 |>
       else if outstanding t then t
       else t <| result := Some 0 |>).

(** A call of the session. *)
Definition call (e : event) (t : terminal) : list happening * terminal :=
  let '(es, c) := exec e (client t) in ([Called e es], t <| client := c |>).

(** [client->current_state() != State::kExit]. *)
Definition goes_on (c : client_session) : bool := bool_decide (current_state_ c <> kExit).

(** The handler of [read_command]. *)
Definition handle_line (more : string) (t : terminal) : list happening * terminal :=
  let '(line, rest) := getline (input_buffer t +:+ more) in
  let '(hs, t) := call (Command (pop_carriage_return line))
                    (t <| input_buffer := rest |> <| waiting := false |>) in
  (Committed more :: hs,
   t <| waiting := goes_on (client t) |>).

Definition handle_input_error (aborted : bool) (t : terminal) : list happening * terminal :=
  let t := t <| waiting := false |> in
  if aborted then ([], t) else call Stop t.

Definition step (i : input) (t : terminal) : list happening * terminal :=
  match result t with
  | Some _ => ([], t)
  | None =>
      let '(hs, t) :=
        match i with
        | LineRead more =>
            if waiting t && has_newline (input_buffer t +:+ more)
            then handle_line more t else ([], t)
        | InputFailed aborted =>
            if waiting t && (negb aborted || stopped_ (client t))
            then handle_input_error aborted t else ([], t)
        | SocketRead error arr size =>
            if reading (client t) then call (ReadDone error arr size) t else ([], t)
        | SocketWritten error =>
            if writing (client t) then call (WriteDone error) t else ([], t)
        end in
      settle hs t
  end.

(** [main], up to [io_context.run()]: the arguments, [connect] and [dup]. *)
Definition main (argc : Z) (connected dup_ok : bool) : list happening * terminal :=
  if negb (argc =? 2) || negb connected || negb dup_ok
  then ([], Terminal Client.create "" false (Some 1))
  else call Start (Terminal Client.create "" true None).

(** ** The session inside the process *)

Definition called (h : happening) : option event :=
  match h with Called e _ => Some e | Committed _ => None end.
Definition returned (h : happening) : option (list effect) :=
  match h with Called _ es => Some es | Committed _ => None end.
Definition committed (h : happening) : string :=
  match h with Committed more => more | Called _ _ => "" end.
Definition command_of (h : happening) : option string :=
  match h with Called (Command s) _ => Some s | _ => None end.

Definition text (l : list string) : string := foldr String.append "" l.
Definition as_line (l : string) : string := l +:+ String newline "".

Lemma getline_line s line rest :
  has_newline s = true -> getline s = (line, rest) ->
  s = line +:+ String newline rest /\ has_newline line = false.
Proof.
  revert line rest. induction s as [|c s IH]; intros line rest; [done|]. cbn.
  case_decide as Hc.
  - intros _ [= <- <-]. by subst c.
  - rewrite bool_decide_eq_false_2 by done. cbn. intros Hn.
    destruct (getline s) as [l r]. intros [= <- <-]. destruct (IH l r Hn eq_refl) as [-> Hl].
    split; [done|]. cbn. by rewrite bool_decide_eq_false_2, Hl.
Qed.

Lemma text_concat l l' : text (l ++ l') = text l +:+ text l'.
Proof.
  induction l as [|a l IH]; [by rewrite string_app_nil_l|].
  cbn [app text foldr]. fold (text (l ++ l')). by rewrite IH, <- string_app_assoc.
Qed.

Lemma text_snoc l s : text (l ++ [s]) = text l +:+ s.
Proof. rewrite text_concat. cbn. by rewrite string_app_nil_r. Qed.

(** A command is its line without a carriage return at the end. *)
Definition stripped (command line : string) : Prop :=
  line = command +:+ String carriage_return "" \/
  (line = command /\ forall p, line <> p +:+ String carriage_return "").

Lemma pop_stripped l : stripped (pop_carriage_return l) l.
Proof.
  induction l as [|c l IH]; [right; split; [done|]; by intros []|]. cbn. case_decide as Hc.
  { destruct Hc as [-> ->]. by left. }
  destruct IH as [E|[E Hl]]; [left; rewrite string_app_cons; congruence|right]. split; [congruence|].
  intros [|c' p]; [intros [= -> ->]; by destruct Hc|]. rewrite string_app_cons.
  intros [= -> Ep]. by apply (Hl p).
Qed.

Definition lines_of (hs : list happening) (rest : string) : Prop :=
  exists lines, omap command_of hs = pop_carriage_return <$> lines /\
    Forall (fun l => has_newline l = false) lines /\
    text (committed <$> hs) = text (as_line <$> lines) +:+ rest.

(** The history of the process is one of the session, driven by the lines of
    the terminal. *)
Record tied (hs : list happening) (t : terminal) : Prop := {
  ti_session : run exec (omap called hs) Client.create = (omap returned hs, client t);
  ti_lines : lines_of hs (input_buffer t);
  ti_events : exists es, omap called hs = Start :: es /\ Forall event_ok es;
}.

(** A call that is no command. *)
Lemma tied_call hs e t :
  tied hs t -> event_ok e -> (forall es, command_of (Called e es) = None) ->
  tied (hs ++ (call e t).1) (call e t).2.
Proof.
  intros [A (lines&B1&B2&B3) (es0&C1&C2)] He Hc. unfold call.
  pose proof (run_snoc exec (omap called hs) e Client.create) as R. rewrite A in R. cbn [fst snd] in R.
  destruct (exec e (client t)) as [es c]. cbn [fst snd] in *. split.
  - rewrite !omap_app. cbn. rewrite R. by destruct t.
  - exists lines. rewrite omap_app, fmap_app. cbn [fmap list_fmap omap list_omap committed].
    rewrite Hc, app_nil_r, text_snoc, string_app_nil_r. by destruct t.
  - exists (es0 ++ [e]). rewrite omap_app, C1. split; [done|]. by apply Forall_app_2; [|constructor].
Qed.

Lemma tied_command hs more t :
  tied hs t -> has_newline (input_buffer t +:+ more) = true ->
  tied (hs ++ (handle_line more t).1) (handle_line more t).2.
Proof.
  intros [A (lines&B1&B2&B3) (es0&C1&C2)] Hn. unfold handle_line, call.
  destruct (getline (input_buffer t +:+ more)) as [line rest] eqn:Eg.
  destruct (getline_line _ _ _ Hn Eg) as [Et Hl]. set (e := Command _).
  pose proof (run_snoc exec (omap called hs) e Client.create) as R. rewrite A in R. cbn [fst snd] in R.
  destruct t as [c0 b w r]. cbn in *.
  destruct (exec e c0) as [es c] eqn:Ee. cbn in *. unfold e in Ee. cbn in Ee. rewrite Ee. split.
  - rewrite !omap_app. cbn. by rewrite R, Ee.
  - exists (lines ++ [line]). rewrite omap_app, !fmap_app, B1. cbn. split_and!; [done| |].
    + by apply Forall_app_2; [|constructor].
    + rewrite !text_concat, B3. cbn. rewrite string_app_nil_r, !string_app_assoc. f_equal.
      rewrite Et. unfold as_line. by rewrite ?string_app_nil_r, !string_app_assoc.
  - exists (es0 ++ [e]). rewrite omap_app, C1. split; [done|]. by apply Forall_app_2; [|constructor].
Qed.

Lemma tied_waiting hs w t : tied hs t -> tied hs (t <| waiting := w |>).
Proof. intros [A B C]. by destruct t. Qed.

Lemma tied_settle hs hs' t : tied hs t -> tied hs (settle hs' t).2.
Proof. intros [A B C]. unfold settle. destruct t. cbn. by repeat case_match. Qed.

Definition input_ok (i : input) : Prop :=
  match i with SocketRead _ arr size => read_ok (arr, size) | _ => True end.

Lemma tied_step hs i t :
  tied hs t -> input_ok i -> tied (hs ++ (step i t).1) (step i t).2.
Proof.
  intros T Hi. unfold step. destruct (result t); [by rewrite app_nil_r|].
  destruct (match i with LineRead _ => _ | _ => _ end) as [hs' t'] eqn:E.
  cbn [settle fst]. apply (tied_settle _ hs' t'). revert E.
  destruct i as [more|aborted|error arr size|error];
    (case_match eqn:Eg; [|intros [= <- <-]; by rewrite app_nil_r]).
  - apply andb_true_iff in Eg as [_ Hn]. pose proof (tied_command hs more t T Hn) as P.
    intros E. by rewrite E in P.
  - unfold handle_input_error. destruct aborted.
    + intros [= <- <-]. rewrite app_nil_r. by apply tied_waiting.
    + intros E. pose proof (tied_call hs Stop _ (tied_waiting hs false t T) I ltac:(done)) as P.
      by rewrite E in P.
  - intros E. pose proof (tied_call hs (ReadDone error arr size) t T Hi ltac:(done)) as P.
    by rewrite E in P.
  - intros E. pose proof (tied_call hs (WriteDone error) t T I ltac:(done)) as P.
    by rewrite E in P.
Qed.

Lemma tied_ok hs t : tied hs t -> ok (client t).
Proof.
  intros [A _ (es&E&He)]. rewrite E in A. rewrite run_cons in A. injection A as _ <-.
  pose proof moves_start as M. by apply (moves_run es _ (mv_ok _ _ _ M) He).
Qed.

(** ** The end of the process *)

(** While the session is alive both reads are outstanding, and [run] has not
    returned unless an operation threw. *)
Record alive (t : terminal) : Prop := {
  al_reading : stopped_ (client t) = false -> result t = None ->
    reading (client t) = true /\ waiting t = true;
  al_waits : result t = None -> outstanding t = true;
  al_zero : result t = Some 0 -> stopped_ (client t) = true;
}.

Lemma command_reading s c : reading (handle_command s c).2 = reading c.
Proof.
  unfold handle_command, on_command, state_init_on_command, state_login_on_command,
    state_in_room_on_command, send_request, send_message, forward, queue_write, write_next.
  destruct c as [cx it st q w r cu sp]. cbn. repeat (case_match; cbn in *; simplify_eq; try done).
Qed.

Lemma exit_stops c : stopped_ (transition_to kExit c).2 = true.
Proof. unfold transition_to. by destruct c as [cx it st q w r cu []]. Qed.

Lemma finish_stops c : stopped_ (finish c).2 = true.
Proof. unfold finish. by destruct c as [cx it st q w r cu []]. Qed.

Lemma read_next_reading c : stopped_ (read_next c) = true \/ reading (read_next c) = true.
Proof. unfold read_next. destruct c as [cx it st q w r cu []]; auto. Qed.

Lemma read_reading error arr size c :
  ok c -> read_ok (arr, size) ->
  stopped_ (handle_read error arr size c).2 = true \/ reading (handle_read error arr size c).2 = true.
Proof.
  intros Hc Hr. pose proof (mv_safe _ _ _ (moves_handle_read error arr size c Hc Hr)) as Hs.
  unfold handle_read in *. destruct error; [left; apply finish_stops|]. cbn zeta in *.
  destruct (handle_buffer _ _ _ _) as [[] i [es c1]| |]; [| |done|done].
  - apply read_next_reading.
  - left. pose proof (exit_stops (c1 <| interpreter_ := i |>)) as E. by destruct (transition_to _ _).
Qed.

Lemma write_reading error c : reading (handle_write error c).2 = reading c.
Proof.
  unfold handle_write, transition_to, write_next. destruct c as [cx it st q w r cu []], error; cbn; try done.
  by destruct q as [|b [|b' q]].
Qed.

Lemma alive_settle hs t :
  result t = None ->
  (stopped_ (client t) = false -> reading (client t) = true /\ waiting t = true) ->
  alive (settle hs t).2.
Proof.
  intros Hr Hs. unfold settle. cbn [snd]. destruct t as [c b w r]. cbn in *. subst r.
  destruct (existsb thrown hs); [by split|]. destruct (outstanding _) eqn:Eo; [split; auto; done|].
  split; cbn; try done. intros _. destruct (stopped_ c); [done|]. destruct Hs as [E1 E2]; [done|].
  unfold outstanding in Eo. cbn in Eo. by rewrite E1 in Eo.
Qed.

Lemma stopped_back c e : ok c -> event_ok e -> stopped_ (exec e c).2 = false -> stopped_ c = false.
Proof.
  intros Hc He Hs. pose proof (mv_silent _ _ _ (moves_exec e c Hc He)) as M.
  destruct (stopped_ c); [|done]. destruct (M eq_refl). congruence.
Qed.

(** A handler that calls the session. *)
Lemma alive_call hs e rest w t :
  ok (client t) -> alive t -> result t = None -> event_ok e ->
  (let c := (exec e (client t)).2 in
   stopped_ c = false -> reading (client t) = true -> waiting t = true ->
   reading c = true /\ w c = true) ->
  alive (settle hs (Terminal (exec e (client t)).2 rest (w (exec e (client t)).2) None)).2.
Proof.
  intros Hc Ha Hr He Hw. apply alive_settle; [done|]. cbn. intros Hs.
  destruct (al_reading _ Ha (stopped_back _ _ Hc He Hs) Hr) as [E1 E2]. by apply Hw.
Qed.

Lemma call_eq e t :
  call e t = ([Called e (exec e (client t)).1], t <| client := (exec e (client t)).2 |>).
Proof. unfold call. by destruct (exec e (client t)). Qed.

Lemma alive_step i t : ok (client t) -> alive t -> input_ok i -> alive (step i t).2.
Proof.
  intros Hc Ha Hi. unfold step. destruct (result t) as [|] eqn:Hr; [done|].
  assert (Hidle : forall hs, alive (settle hs t).2).
  { intros hs. apply alive_settle; [done|]. intros Hs. by apply (al_reading _ Ha). }
  pose proof (fun hs e rest w => alive_call hs e rest w t Hc Ha Hr) as Hcall.
  destruct i as [more|aborted|error arr size|error];
    match goal with |- context [if ?b then _ else _] => destruct b eqn:Eg end; try apply Hidle.
  - unfold handle_line. destruct (getline _) as [line rest]. rewrite call_eq.
    destruct t as [c b w r]. cbn -[exec settle] in *. subst r.
    apply (Hcall _ (Command (pop_carriage_return line)) rest goes_on); [done|].
    intros Hs Hrd _. split; [cbn; by rewrite command_reading|].
    rewrite (ok_exit _ (mv_ok _ _ _ (moves_exec (Command _) c Hc I))) in Hs.
    unfold goes_on. apply bool_decide_eq_true. by apply bool_decide_eq_false in Hs.
  - unfold handle_input_error. destruct t as [c b w r]. cbn -[exec settle] in *. subst r.
    destruct aborted; cbn -[exec settle].
    + apply alive_settle; [done|]. apply andb_true_iff in Eg as [_ Es]. cbn in Es |- *. by rewrite Es.
    + rewrite call_eq. cbn -[exec settle]. apply alive_settle; [done|]. cbn [client exec].
      destruct (stopped_ c) eqn:Es; [cbn; congruence|]. rewrite exit_stops. done.
  - rewrite call_eq. destruct t as [c b w r]. cbn -[exec settle] in *. subst r.
    apply (Hcall _ (ReadDone error arr size) b (fun _ => w)); [done|].
    cbn. rewrite Eg. intros Hs _ Hw. split; [|done].
    destruct (read_reading error arr size c Hc Hi); congruence.
  - rewrite call_eq. destruct t as [c b w r]. cbn -[exec settle] in *. subst r.
    apply (Hcall _ (WriteDone error) b (fun _ => w)); [done|].
    cbn. rewrite Eg, write_reading. done.
Qed.

(** *** Once the session has stopped *)

Lemma dispatch_all_stopped l ms (d : list effect * client_session) :
  stopped_ d.2 = true -> dispatch_all l ms d = d.
Proof.
  intros Hs. induction ms as [|[ty p] ms IH]; [done|]. unfold dispatch_all in *. cbn [foldl].
  unfold dispatch at 2, session_dispatcher, dispatch_message. rewrite Hs. cbn.
  rewrite app_nil_r. destruct d. apply IH.
Qed.

Lemma exec_stopped e c :
  ok c -> event_ok e -> stopped_ c = true ->
  let c' := (exec e c).2 in
  stopped_ c' = true /\
  reading c' = (match e with ReadDone _ _ _ => false | _ => reading c end) /\
  writing c' = (match e with WriteDone _ => false | _ => writing c end).
Proof.
  intros Hc He Hs. cbn zeta.
  assert (Hs' : stopped_ (exec e c).2 = true) by (by apply (mv_silent _ _ _ (moves_exec e c Hc He))).
  split; [done|]. destruct e as [|cmd| |error arr size|error]; cbn [exec event_ok] in *; [done|..].
  - unfold handle_command. by rewrite Hs.
  - by rewrite Hs.
  - destruct (reading c) eqn:Er; [|done]. unfold handle_read in *. cbn zeta in *.
    destruct error.
    { unfold finish. destruct c as [cx it st q w r cu []]; cbn in *; done. }
    set (c0 := c <| reading := false |>) in *.
    destruct (stream_total (buffer_ (interpreter_ c0) ++ read_bytes (arr, size))) as (ms&r&Hst).
    pose proof (handle_buffer_stream (interpreter_ c0) (arr, size) ([], c0) ms r
      ltac:(destruct c; apply Hc) He Hst) as E.
    cbn [fst snd] in E. rewrite E. unfold result_of.
    rewrite dispatch_all_stopped by (by destruct c). unfold transition_to, read_next.
    destruct c as [cx it st q w rd cu []]; cbn in Hs; [|done]. by destruct r.
  - destruct (writing c) eqn:Ew; [|done]. unfold handle_write, transition_to, write_next.
    destruct c as [cx it st q w rd cu []], error; cbn in *; done.
Qed.

(** Outstanding operations vanish and none is started. *)
Record quiets (t t' : terminal) : Prop := {
  qu_stopped : stopped_ (client t') = true;
  qu_reading : reading (client t') = true -> reading (client t) = true;
  qu_writing : writing (client t') = true -> writing (client t) = true;
  qu_waiting : waiting t' = true -> waiting t = true;
}.

(** The operation an input completes. *)
Definition completes (i : input) (t : terminal) : bool :=
  match i with
  | LineRead _ => false
  | InputFailed _ => waiting t
  | SocketRead _ _ _ => reading (client t)
  | SocketWritten _ => writing (client t)
  end.

Lemma settle_fields hs t :
  client (settle hs t).2 = client t /\ waiting (settle hs t).2 = waiting t.
Proof. unfold settle. destruct t. cbn. by repeat case_match. Qed.

Lemma step_stopped i t :
  ok (client t) -> stopped_ (client t) = true -> input_ok i ->
  quiets t (step i t).2 /\
  (result (step i t).2 = None -> completes i (step i t).2 = false).
Proof.
  intros Hc Hs Hi. unfold step. destruct (result t) as [z|] eqn:Hr; [split; [by split|cbn; congruence]|].
  assert (Hq : forall hs t', quiets t t' -> quiets t (settle hs t').2).
  { intros hs t' [A B C D]. destruct (settle_fields hs t') as [E1 E2]. split; by rewrite ?E1, ?E2. }
  assert (Hidle : forall hs, quiets t (settle hs t).2) by (intros; apply Hq; by split).
  assert (Ho : forall hs t', completes i t' = false -> completes i (settle hs t').2 = false).
  { intros hs t'. destruct (settle_fields hs t') as [E1 E2]. unfold completes. by rewrite E1, E2. }
  destruct i as [more|aborted|error arr size|error]; rewrite ?Hs, ?orb_true_r, ?andb_true_r;
    match goal with |- context [if ?b then _ else _] => destruct b eqn:Eg end;
    try (split; [apply Hidle|intros _; by apply Ho]).
  - unfold handle_line. destruct (getline _) as [line rest]. rewrite call_eq.
    destruct t as [c b w r]. cbn -[exec settle] in *.
    destruct (exec_stopped (Command (pop_carriage_return line)) c Hc I Hs) as (H1&H2&H3).
    split; [|done]. apply Hq. split; cbn -[exec] in *; [done|by rewrite H2|by rewrite H3|].
    intros _. by apply andb_true_iff in Eg as [-> _].
  - assert (H1 : (handle_input_error aborted t).2 = t <| waiting := false |>).
    { unfold handle_input_error. destruct aborted; [done|]. rewrite call_eq. cbn [exec].
      destruct t as [c b w r]. cbn in *. by rewrite Hs. }
    destruct (handle_input_error aborted t) as [hs t']. cbn [snd] in H1. subst t'.
    destruct t as [c b w r]. split; [apply Hq; by split|]. intros _. by apply Ho.
  - rewrite call_eq. destruct t as [c b w r]. cbn -[exec settle] in *.
    destruct (exec_stopped (ReadDone error arr size) c Hc Hi Hs) as (H1&H2&H3). split.
    + apply Hq. split; cbn -[exec] in *; rewrite ?H2, ?H3; done.
    + intros _. apply Ho. by rewrite <- H2.
  - rewrite call_eq. destruct t as [c b w r]. cbn -[exec settle] in *.
    destruct (exec_stopped (WriteDone error) c Hc I Hs) as (H1&H2&H3). split.
    + apply Hq. split; cbn -[exec] in *; rewrite ?H2, ?H3; done.
    + intros _. apply Ho. by rewrite <- H3.
Qed.

Lemma process_run hs ins t :
  tied hs t -> alive t -> Forall input_ok ins ->
  tied (hs ++ mjoin (run step ins t).1) (run step ins t).2 /\ alive (run step ins t).2.
Proof.
  revert hs t. induction ins as [|i ins IH]; intros hs t T A Hi; [by rewrite app_nil_r|].
  apply Forall_cons_1 in Hi as [Hi His]. rewrite run_cons. cbn [fst snd].
  rewrite mjoin_cons, app_assoc.
  apply IH; [by apply tied_step|apply alive_step; by eauto using tied_ok|done].
Qed.

Lemma run_result ins t : is_Some (result t) -> (run step ins t).2 = t.
Proof.
  intros [z Hz]. induction ins as [|i ins IH]; [done|]. rewrite run_cons. cbn [snd].
  unfold step at 2. by rewrite Hz.
Qed.

Lemma quiets_completes i t t' : quiets t t' -> completes i t = false -> completes i t' = false.
Proof.
  intros [A B C D]. destruct i; cbn; try done; intros E; apply not_true_is_false; intros E';
    [apply D in E'|apply B in E'|apply C in E']; congruence.
Qed.

(** The completion of an operation after the session has stopped. *)
Lemma run_completes hs ins i t :
  tied hs t -> alive t -> stopped_ (client t) = true -> Forall input_ok ins ->
  (completes i t = false \/ i ∈ ins) ->
  let t' := (run step ins t).2 in result t' = None -> completes i t' = false.
Proof.
  revert hs t. induction ins as [|i' ins IH]; intros hs t T A Hs Hok Hi; cbn zeta.
  { destruct Hi as [Hi|Hi%elem_of_nil]; [done|done]. }
  apply Forall_cons_1 in Hok as [Hok Hoks]. rewrite run_cons. cbn [snd].
  destruct (step_stopped i' t (tied_ok _ _ T) Hs Hok) as [Q C].
  destruct (result (step i' t).2) eqn:Er.
  { rewrite run_result by eauto. congruence. }
  eapply (IH (hs ++ (step i' t).1)); [by apply tied_step|apply alive_step; by eauto using tied_ok|apply Q|done|].
  destruct Hi as [Hi|[->|Hi]%elem_of_cons]; [left; by eapply quiets_completes|left; by apply C|by right].
Qed.

Lemma failed_input_stops t :
  alive t -> result t = None -> stopped_ (client (step (InputFailed false) t).2) = true.
Proof.
  intros A Hr. unfold step. rewrite Hr. destruct (waiting t) eqn:Ew; cbn [andb orb negb].
  - unfold handle_input_error. rewrite call_eq. destruct (settle_fields [Called Stop
      (exec Stop (client (t <| waiting := false |>))).1] ((t <| waiting := false |>)
      <| client := (exec Stop (client (t <| waiting := false |>))).2 |>)) as [E _]. rewrite E.
    destruct t as [c b w r]. cbn. destruct (stopped_ c) eqn:Es; [done|]. apply exit_stops.
  - destruct (settle_fields [] t) as [E _]. rewrite E. destruct (stopped_ (client t)) eqn:Es; [done|].
    destruct (al_reading _ A Es Hr). congruence.
Qed.

Lemma start_process :
  let '(hs, t) := main 2 true true in tied hs t /\ alive t.
Proof.
  cbn -[exec]. split; [split|].
  - done.
  - by exists [].
  - by exists [].
  - split; cbn; done.
Qed.
End terminal.

Module TerminalProperties.


#[local] Existing Instance ClientProperties.sample_protobuf.

(** Two lines in two reads, the first with a carriage return. *)
Definition typed : list input :=
  [LineRead ("al" +:+ String carriage_return (String newline "2")); LineRead (String newline "x")].



End TerminalProperties.
