(* ===== verification/Broker.v ===== *)
(** * Broker: the ZeroMQ channels

    Models [rsp-libs/src/broker/routed_channel.cpp] ([dealer_channel],
    [router_channel]) and [event_channel.cpp] ([event_publisher],
    [event_subscriber], [event_broker]).  Every channel owns a thread; callers
    only touch a queue under a mutex.  A step of the thread is one critical
    section, one socket call or one test of [running_], so a list of events is
    an interleaving of the callers with the thread.  The sockets are ZeroMQ's:
    an event says what the socket call of the step does. *)

From S2P Require Import Prelude.
From coqutil Require Import Datatypes.RecordSetters.
Import TriangleBracketNotations.
#[local] Arguments constant {_} _ _ /.

Notation raw_buffer := (list Init.Byte.byte) (only parsing).

(** What the socket call of a step does. *)
Inductive socket_result :=
  | SocketOk                            (** sent, set, or nothing to read *)
  | SocketError                         (** a [zmq::error_t] *)
  | Readable (frames : list raw_buffer) (** [poll] reports [ZMQ_POLLIN] *).

Definition socket_failed (i : socket_result) : bool :=
  match i with SocketError => true | _ => false end.

(** ** Channels with an outgoing queue *)

Module channel.

Inductive kind := dealer | router | publisher.

Section channel.
Context {M : Type} (k : kind).

(** Where the thread is in [run]; [Exited] is a finished thread that is not
    joined yet. *)
Inductive phase :=
  | NoThread
  | Setup
  | Test
  | Swap
  | Sending (pending : list M)
  | Polling
  | Exited.

Definition joinable (p : phase) : bool :=
  match p with NoThread => false | _ => true end.

Record channel := Channel {
  handler_ : bool;      (** whether [handler_] is callable *)
  outgoing_ : list M;
  thread_ : phase;
  running_ : bool;
}.

Definition create : channel := Channel false [] NoThread false.

Inductive effect :=
  | Sent (m : M)
  | Unroutable (m : M)                 (** caught by [router_channel] *)
  | Lost (m : M)                       (** swapped out, then [run] failed *)
  | Handle (frames : list raw_buffer)
  | StartThrows
  | Terminate                          (** assignment to a joinable [thread_] *).

Definition send (m : M) (c : channel) : list effect * channel :=
  ([], c <| outgoing_ := outgoing_ c ++ [m] |>).

Definition start (handler : bool) (c : channel) : list effect * channel :=
  if running_ c then ([], c)
  else if joinable (thread_ c) then ([Terminate], c <| running_ := true |>)
  else ([], c <| running_ := true |> <| handler_ := handler |> <| thread_ := Setup |>).

Definition stop (c : channel) : list effect * channel := ([], c <| running_ := false |>).

(** [thread_.join()] returns once [run] has. *)
Definition join (c : channel) : list effect * channel :=
  match thread_ c with
  | Exited => ([], c <| thread_ := NoThread |>)
  | _ => ([], c)
  end.

(** The [catch] of [run]. *)
Definition fail (c : channel) : channel :=
  c <| running_ := false |> <| thread_ := Exited |>.

Definition goto (p : phase) (c : channel) : channel := c <| thread_ := p |>.

(** One message of the loop of [send_pending]. *)
Definition send_one (i : socket_result) (m : M) (pending : list M) (c : channel)
    : list effect * channel :=
  if socket_failed i then
    match k with
    | router => ([Unroutable m], goto (Sending pending) c)
    | dealer | publisher => (Lost <$> m :: pending, fail c)
    end
  else ([Sent m], goto (Sending pending) c).

(** Number of frames [run] passes to the handler. *)
Definition accepts (frames : list raw_buffer) : bool :=
  match k with
  | dealer => bool_decide (frames <> [])
  | router => bool_decide (length frames = 2%nat)
  | publisher => false
  end.

(** [dealer_channel] reads one frame per poll. *)
Definition read_frames (frames : list raw_buffer) : list raw_buffer :=
  match k with dealer => take 1 frames | _ => frames end.

Definition poll (i : socket_result) (c : channel) : list effect * channel :=
  match k with
  | publisher => ([], goto Test c)
  | dealer | router =>
      match i with
      | SocketOk => ([], goto Test c)
      | SocketError => ([], fail c)
      | Readable frames =>
          (if accepts frames && handler_ c then [Handle (read_frames frames)] else [],
           goto Test c)
      end
  end.

(** A step of [run]. *)
Definition step (i : socket_result) (c : channel) : list effect * channel :=
  match thread_ c with
  | NoThread | Exited => ([], c)
  | Setup => if socket_failed i then ([StartThrows], fail c) else ([], goto Test c)
  | Test => ([], goto (if running_ c then Swap else Exited) c)
  | Swap => ([], goto (Sending (outgoing_ c)) (c <| outgoing_ := [] |>))
  | Sending [] => ([], goto Polling c)
  | Sending (m :: pending) => send_one i m pending c
  | Polling => poll i c
  end.

Inductive event :=
  | Send (m : M)
  | Start (handler : bool)
  | Stop
  | Join
  | Step (i : socket_result).

Definition exec (e : event) (c : channel) : list effect * channel :=
  match e with
  | Send m => send m c
  | Start handler => start handler c
  | Stop => stop c
  | Join => join c
  | Step i => step i c
  end.

(** ** Accounting *)

(** The message an effect decides the fate of. *)
Definition settled (e : effect) : option M :=
  match e with Sent m | Unroutable m | Lost m => Some m | _ => None end.

Definition submitted (e : event) : option M :=
  match e with Send m => Some m | _ => None end.

Definition in_flight (c : channel) : list M :=
  match thread_ c with Sending pending => pending | _ => [] end.

(** Messages waiting for their fate, oldest first. *)
Definition backlog (c : channel) : list M := in_flight c ++ outgoing_ c.

Lemma omap_settled_lost (ms : list M) : omap settled (Lost <$> ms) = ms.
Proof. induction ms as [|m ms IH]; [done|]. cbn. by rewrite IH. Qed.

Lemma exec_backlog e c :
  omap settled (exec e c).1 ++ backlog (exec e c).2 =
    backlog c ++ omap submitted [e].
Proof.
  unfold backlog, in_flight. destruct c as [h q th r].
  destruct e as [m|h'| | |i]; cbn; rewrite ?app_nil_r.
  - by rewrite app_assoc.
  - unfold start; cbn. destruct r; [done|]. by destruct th.
  - done.
  - by destruct th.
  - destruct th as [| | | |[|m p]| |]; try done; cbn.
    + by destruct i.
    + unfold step, goto; cbn. by destruct r.
    + unfold step; cbn. by rewrite app_nil_r.
    + unfold step, send_one; cbn.
      destruct (socket_failed i); [destruct k|done]; try done;
        cbn; by rewrite omap_settled_lost.
    + unfold step, poll; cbn. destruct k, i; try done; cbn; by case_match.
Qed.

Lemma run_backlog (es : list event) c :
  omap settled (mjoin (run exec es c).1) ++ backlog (run exec es c).2 =
    backlog c ++ omap submitted es.
Proof.
  revert c. induction es as [|e es IH]; intros c; [by rewrite app_nil_r|].
  rewrite run_cons. cbn [fst snd]. rewrite mjoin_cons, omap_app, <- app_assoc, IH.
  rewrite app_assoc, exec_backlog, <- app_assoc.
  change (e :: es) with ([e] ++ es). by rewrite omap_app.
Qed.

(** A caught error loses one message only. *)
Definition is_lost (e : effect) : bool := match e with Lost _ => true | _ => false end.

Lemma router_never_loses (es : list event) c :
  k = router -> Forall (fun e => is_lost e = false) (mjoin (run exec es c).1).
Proof.
  intros Hk. revert c. induction es as [|e es IH]; intros c; [constructor|].
  rewrite run_cons. cbn [fst]. rewrite mjoin_cons. apply Forall_app. split; [|apply IH].
  destruct e as [m|h| | |i]; cbn; unfold start, join, step, send_one, poll;
    rewrite ?Hk; repeat case_match; by repeat constructor.
Qed.

(** ** Progress *)

Lemma drain_sending h q r pending :
  run exec (replicate (length pending) (Step SocketOk))
      (Channel h q (Sending pending) r)
    = ((fun m => [Sent m]) <$> pending, Channel h q (Sending []) r).
Proof.
  induction pending as [|m p IH]; [done|]. cbn [length replicate].
  rewrite run_cons. cbn. by rewrite IH.
Qed.

Lemma mjoin_sent (ms : list M) : mjoin ((fun m => [Sent m]) <$> ms) = Sent <$> ms.
Proof. induction ms as [|m ms IH]; [done|]. rewrite fmap_cons, mjoin_cons, IH. done. Qed.
End channel.

(** The three classes: what they queue and which branch of the code they take. *)
Definition dealer_channel
    : @event raw_buffer -> @channel raw_buffer -> list effect * channel := exec dealer.
Definition router_channel
    : @event (string * raw_buffer) -> @channel (string * raw_buffer)
      -> list effect * channel := exec router.
Definition event_publisher
    : @event (string * raw_buffer) -> @channel (string * raw_buffer)
      -> list effect * channel := exec publisher.
End channel.

(** ** event_subscriber *)

Module subscriber.

Notation event_topic := string (only parsing).

Inductive subscription_operation := kSubscribe | kUnsubscribe.
Definition subscription_change : Type := subscription_operation * event_topic.

(** Where the thread is in [run], with the filters of its socket.  [first] marks
    the [apply_subscription_changes] before [ready.set_value()]. *)
Inductive phase :=
  | NoThread
  | Setup
  | Test (filters : list event_topic)
  | Swap (first : bool) (filters : list event_topic)
  | Applying (first : bool) (changes : list subscription_change)
      (filters : list event_topic)
  | Polling (filters : list event_topic)
  | Exited.

Definition joinable (p : phase) : bool :=
  match p with NoThread => false | _ => true end.

Record event_subscriber := EventSubscriber {
  handler_ : bool;
  subscriptions_ : gset event_topic;
  subscription_changes_ : list subscription_change;
  thread_ : phase;
  running_ : bool;
}.

Definition create : event_subscriber := EventSubscriber false ∅ [] NoThread false.

Inductive effect := Handle (topic payload : raw_buffer) | StartThrows | Terminate.

Definition subscribe (prefix : event_topic) (s : event_subscriber) : event_subscriber :=
  if decide (prefix ∈ subscriptions_ s) then s
  else s <| subscriptions_ := {[prefix]} ∪ subscriptions_ s |>
         <| subscription_changes_ := subscription_changes_ s ++ [(kSubscribe, prefix)] |>.

Definition unsubscribe (prefix : event_topic) (s : event_subscriber) : event_subscriber :=
  if decide (prefix ∈ subscriptions_ s)
  then s <| subscriptions_ := subscriptions_ s ∖ {[prefix]} |>
         <| subscription_changes_ := subscription_changes_ s ++ [(kUnsubscribe, prefix)] |>
  else s.

Definition start (handler : bool) (s : event_subscriber) : list effect * event_subscriber :=
  if running_ s then ([], s)
  else if joinable (thread_ s) then ([Terminate], s <| running_ := true |>)
  else ([], s <| running_ := true |> <| handler_ := handler |> <| thread_ := Setup |>).

Definition join (s : event_subscriber) : event_subscriber :=
  match thread_ s with
  | Exited => s <| thread_ := NoThread |>
  | _ => s
  end.

Definition goto (p : phase) (s : event_subscriber) : event_subscriber := s <| thread_ := p |>.

(** The [catch] of [run]: [ready.set_exception] reaches [start] until the
    promise is set. *)
Definition fail (first : bool) (s : event_subscriber) : list effect * event_subscriber :=
  (if first then [StartThrows] else [],
   s <| running_ := false |> <| thread_ := Exited |>).

(** The filters of a SUB socket: [ZMQ_SUBSCRIBE] adds one, [ZMQ_UNSUBSCRIBE]
    removes one instance. *)
Fixpoint remove_one (p : event_topic) (fs : list event_topic) : list event_topic :=
  match fs with
  | [] => []
  | f :: fs => if decide (f = p) then fs else f :: remove_one p fs
  end.

Definition socket_set (c : subscription_change) (fs : list event_topic) : list event_topic :=
  match c with
  | (kSubscribe, p) => p :: fs
  | (kUnsubscribe, p) => remove_one p fs
  end.

(** A step of [run] and of [apply_subscription_changes]. *)
Definition step (i : socket_result) (s : event_subscriber) : list effect * event_subscriber :=
  match thread_ s with
  | NoThread | Exited => ([], s)
  | Setup => if socket_failed i then fail true s else ([], goto (Swap true []) s)
  | Test fs => ([], goto (if running_ s then Swap false fs else Exited) s)
  | Swap first fs =>
      ([], goto (Applying first (subscription_changes_ s) fs)
             (s <| subscription_changes_ := [] |>))
  | Applying first [] fs => ([], goto (if first then Test fs else Polling fs) s)
  | Applying first (c :: changes) fs =>
      if socket_failed i then fail first s
      else ([], goto (Applying first changes (socket_set c fs)) s)
  | Polling fs =>
      match i with
      | SocketOk => ([], goto (Test fs) s)
      | SocketError => fail false s
      | Readable [topic; payload] =>
          (if handler_ s then [Handle topic payload] else [], goto (Test fs) s)
      | Readable _ => ([], goto (Test fs) s)
      end
  end.

Inductive event :=
  | Subscribe (prefix : event_topic)
  | Unsubscribe (prefix : event_topic)
  | Start (handler : bool)
  | Stop
  | Join
  | Step (i : socket_result).

Definition exec (e : event) (s : event_subscriber) : list effect * event_subscriber :=
  match e with
  | Subscribe p => ([], subscribe p s)
  | Unsubscribe p => ([], unsubscribe p s)
  | Start handler => start handler s
  | Stop => ([], s <| running_ := false |>)
  | Join => ([], join s)
  | Step i => step i s
  end.

Definition is_start (e : event) : bool := match e with Start _ => true | _ => false end.

(** ** The filters implement the subscriptions *)

(** The filters once all recorded changes are applied. *)
Definition apply_changes (cs : list subscription_change) (fs : list event_topic)
    : list event_topic := foldl (fun fs c => socket_set c fs) fs cs.
#[local] Arguments apply_changes : simpl never.

(** The filters of the thread's socket after the changes it is applying. *)
Definition target (s : event_subscriber) : option (list event_topic) :=
  match thread_ s with
  | NoThread | Exited => None
  | Setup => Some []
  | Test fs | Swap _ fs | Polling fs => Some fs
  | Applying _ cs fs => Some (apply_changes cs fs)
  end.

Definition synced (s : event_subscriber) (fs : list event_topic) : Prop :=
  apply_changes (subscription_changes_ s) fs ≡ₚ elements (subscriptions_ s).

Lemma remove_one_perm p fs : p ∈ fs -> fs ≡ₚ p :: remove_one p fs.
Proof.
  induction fs as [|f fs IH]; intros Hp; [set_solver|]. cbn. case_decide as E.
  - by rewrite E.
  - rewrite (IH ltac:(set_solver)) at 1. constructor.
Qed.

Lemma apply_changes_snoc cs c fs :
  apply_changes (cs ++ [c]) fs = socket_set c (apply_changes cs fs).
Proof. unfold apply_changes. by rewrite foldl_app. Qed.

Lemma synced_subscribe p s fs : synced s fs -> synced (subscribe p s) fs.
Proof.
  intros Hs. unfold subscribe. case_decide as Hp; [done|].
  destruct s as [h subs cs th r]; unfold synced in *; cbn in *.
  rewrite apply_changes_snoc, elements_union_singleton by done. by constructor.
Qed.

Lemma synced_unsubscribe p s fs : synced s fs -> synced (unsubscribe p s) fs.
Proof.
  intros Hs. unfold unsubscribe. case_decide as Hp; [|done].
  destruct s as [h subs cs th r]; unfold synced in *; cbn in *.
  rewrite apply_changes_snoc. cbn.
  apply (Permutation.Permutation_cons_inv (a := p)). rewrite <- remove_one_perm.
  - rewrite Hs, <- elements_union_singleton by set_solver.
    by rewrite <- union_difference_singleton_L by set_solver.
  - rewrite Hs. by apply elem_of_elements.
Qed.

Lemma subscribe_thread p s : thread_ (subscribe p s) = thread_ s.
Proof. unfold subscribe. case_decide; by destruct s. Qed.
Lemma unsubscribe_thread p s : thread_ (unsubscribe p s) = thread_ s.
Proof. unfold unsubscribe. case_decide; by destruct s. Qed.

(** Before the first [start]: no socket, and the changes rebuild the set. *)
Definition idle (s : event_subscriber) : Prop := thread_ s = NoThread /\ synced s [].

(** While the first thread lives, its socket catches up with the set. *)
Definition tracking (s : event_subscriber) : Prop :=
  forall fs, target s = Some fs -> synced s fs.

Lemma create_idle : idle create.
Proof. split; [done|]. unfold synced. cbn. by rewrite elements_empty. Qed.

Lemma exec_idle e s : is_start e = false -> idle s -> idle (exec e s).2.
Proof.
  intros He [Ht Hs]. destruct e as [p|p|h| | |i]; cbn in *; [..|done| | |].
  - split; [by rewrite subscribe_thread|by apply synced_subscribe].
  - split; [by rewrite unsubscribe_thread|by apply synced_unsubscribe].
  - by destruct s.
  - unfold join. by rewrite Ht.
  - unfold step. by rewrite Ht.
Qed.

Lemma start_tracking h s : idle s -> tracking (start h s).2.
Proof.
  intros [Ht Hs]. destruct s as [h' subs cs th r]; cbn in *; subst. unfold start; cbn.
  destruct r; intros fs [= <-]. done.
Qed.

Lemma exec_tracking e s : is_start e = false -> tracking s -> tracking (exec e s).2.
Proof.
  intros He Hs. destruct e as [p|p|h| | |i]; cbn in *; [..|done| | |].
  - intros fs E. apply synced_subscribe, Hs. unfold target in *.
    by rewrite subscribe_thread in E.
  - intros fs E. apply synced_unsubscribe, Hs. unfold target in *.
    by rewrite unsubscribe_thread in E.
  - by destruct s.
  - destruct s as [h' subs cs th r]. unfold join. by destruct th.
  - destruct s as [h' subs cs th r]. unfold tracking, synced, target, step, fail, goto in *.
    cbn in *. destruct th as [| |fs0|f0 fs0|f0 [|c0 cs0] fs0|fs0|]; try done; cbn in *.
    + destruct (socket_failed i); cbn; intros fs [= <-]. exact (Hs _ eq_refl).
    + destruct r; cbn; intros fs [= <-]. exact (Hs _ eq_refl).
    + intros fs [= <-]. exact (Hs _ eq_refl).
    + destruct f0; cbn; intros fs [= <-]; exact (Hs _ eq_refl).
    + destruct (socket_failed i); cbn; intros fs [= <-]. exact (Hs _ eq_refl).
    + destruct i as [| |[|? [|? [|]]]]; cbn; intros fs [= <-]; exact (Hs _ eq_refl).
Qed.

Lemma run_preserves (P : event_subscriber -> Prop) es s :
  (forall e s, is_start e = false -> P s -> P (exec e s).2) ->
  Forall (fun e => is_start e = false) es -> P s -> P (run exec es s).2.
Proof.
  intros HP He. revert s. induction He as [|e es He Hes IH]; intros s Hs; [done|].
  rewrite run_cons. cbn. auto.
Qed.

(** After a stop, a new [start] builds a socket without filters, and the set
    already holds the prefixes. *)
Lemma restart_forgets_subscriptions :
  let es := [Subscribe "room."; Start true] ++ replicate 8 (Step SocketOk)
              ++ [Stop] ++ replicate 8 (Step SocketOk) ++ [Join; Start true]
              ++ replicate 8 (Step SocketOk) ++ [Subscribe "room."] in
  let s := (run exec es create).2 in
  subscriptions_ s = {["room."]} /\ target s = Some [] /\ subscription_changes_ s = [].
Proof. vm_compute. done. Qed.
End subscriber.

(** ** event_broker *)

Module broker.
Definition frame : Type := raw_buffer * bool.   (** contents, [more()] *)

(** [event_broker::forward]: frames until one without [more]. *)
Fixpoint forward (source destination : list frame) : list frame * list frame :=
  match source with
  | [] => ([], destination)
  | f :: source =>
      if f.2 then forward source (destination ++ [f])
      else (source, destination ++ [f])
  end.

(** A multipart message: all frames but the last announce another one. *)
Definition multipart (parts : list raw_buffer) (last : raw_buffer) : list frame :=
  ((fun b => (b, true)) <$> parts) ++ [(last, false)].

Lemma forward_multipart parts last source destination :
  forward (multipart parts last ++ source) destination
    = (source, destination ++ multipart parts last).
Proof.
  revert destination. induction parts as [|p parts IH]; intros d; [done|].
  cbn. rewrite IH. by rewrite <- app_assoc.
Qed.

(** The two sockets of [event_broker]: what waits on each to be received, and
    what was sent through the other.  They are locals of [run], so they start
    and end with the thread. *)
Inductive thread_state :=
  | NotJoinable
  | Looping              (** in the loop of [run] *)
  | Ended                (** [run] has returned after an exception *)
  | Terminated.          (** [std::terminate]: a joinable thread was assigned *)

Record event_broker := EventBroker {
  running_ : bool;
  thread_ : thread_state;
  xsub : list frame;      (** received from the publishers *)
  xpub : list frame;      (** received from the subscribers *)
  to_xpub : list frame;   (** sent to the subscribers *)
  to_xsub : list frame;   (** sent to the publishers *)
}.

Definition without_sockets (running : bool) (t : thread_state) : event_broker :=
  EventBroker running t [] [] [] [].

Definition create : event_broker := without_sockets false NotJoinable.

(** [start]; [bound] is whether both [bind]s succeed.  A failure is rethrown
    after the thread is joined. *)
Definition start (bound : bool) (b : event_broker) : event_broker :=
  if running_ b then b
  else
    match thread_ b with
    | Ended | Terminated => without_sockets true Terminated
    | _ => if bound then without_sockets true Looping else without_sockets false NotJoinable
    end.

(** [stop] waits for the thread to leave its loop. *)
Definition stop (b : event_broker) : event_broker :=
  match thread_ b with
  | Terminated => b
  | _ => without_sockets false NotJoinable
  end.

(** An exception in the loop of [run]. *)
Definition fail (b : event_broker) : event_broker :=
  match thread_ b with
  | Looping => without_sockets false Ended
  | _ => b
  end.

(** One turn of the loop in [run]: a forward per socket that has input. *)
Definition turn (b : event_broker) : event_broker :=
  match thread_ b with
  | Looping =>
      let '(xsub1, to_xpub1) :=
        match xsub b with [] => ([], to_xpub b) | fs => forward fs (to_xpub b) end in
      let '(xpub1, to_xsub1) :=
        match xpub b with [] => ([], to_xsub b) | fs => forward fs (to_xsub b) end in
      EventBroker (running_ b) Looping xsub1 xpub1 to_xpub1 to_xsub1
  | _ => b
  end.

(** A message arrives whole. *)
Inductive event :=
  | Start (bound : bool)
  | Stop
  | Failure
  | Turn
  | Publish (parts : list raw_buffer) (last : raw_buffer)
  | Control (parts : list raw_buffer) (last : raw_buffer).

Definition exec (e : event) (b : event_broker) : event_broker :=
  match e with
  | Start bound => start bound b
  | Stop => stop b
  | Failure => fail b
  | Turn => turn b
  | Publish parts last =>
      match thread_ b with
      | Looping => EventBroker (running_ b) Looping (xsub b ++ multipart parts last) (xpub b)
                     (to_xpub b) (to_xsub b)
      | _ => b
      end
  | Control parts last =>
      match thread_ b with
      | Looping => EventBroker (running_ b) Looping (xsub b) (xpub b ++ multipart parts last)
                     (to_xpub b) (to_xsub b)
      | _ => b
      end
  end.

Definition execs (es : list event) (b : event_broker) : event_broker :=
  foldl (fun b e => exec e b) b es.

(** The messages that arrive on a side. *)
Definition published (e : event) : option (list raw_buffer * raw_buffer) :=
  match e with Publish parts last => Some (parts, last) | _ => None end.
Definition controlled (e : event) : option (list raw_buffer * raw_buffer) :=
  match e with Control parts last => Some (parts, last) | _ => None end.

Definition frames (ms : list (list raw_buffer * raw_buffer)) : list frame :=
  mjoin ((fun m => multipart m.1 m.2) <$> ms).

Lemma frames_app ms ms' : frames (ms ++ ms') = frames ms ++ frames ms'.
Proof. unfold frames. by rewrite fmap_app, mjoin_app. Qed.

Lemma multipart_nonempty parts last : multipart parts last <> [].
Proof. unfold multipart. by destruct parts. Qed.

(** A forward takes one message. *)
Lemma forward_frames m ms destination :
  forward (frames (m :: ms)) destination = (frames ms, destination ++ multipart m.1 m.2).
Proof. unfold frames. cbn [fmap list_fmap]. rewrite mjoin_cons. apply forward_multipart. Qed.

Lemma frames_nonempty m ms : exists f fs, frames (m :: ms) = f :: fs.
Proof.
  unfold frames. cbn [fmap list_fmap]. rewrite mjoin_cons.
  destruct (multipart m.1 m.2) as [|f fs] eqn:E; [by apply multipart_nonempty in E|].
  by exists f, (fs ++ mjoin ((fun m => multipart m.1 m.2) <$> ms)).
Qed.

(** One side of the loop, on whole messages. *)
Lemma side_turn ms ds :
  match frames ms with [] => ([], frames ds) | fs => forward fs (frames ds) end
  = (frames (tail ms), frames (ds ++ take 1 ms)).
Proof.
  destruct ms as [|m ms]; [cbn; by rewrite app_nil_r|].
  destruct (frames_nonempty m ms) as (f&fs&E). rewrite E, <- E, forward_frames.
  rewrite frames_app. cbn [tail take]. unfold frames at 3. cbn. by rewrite app_nil_r.
Qed.

(** A broker whose sockets hold whole messages. *)
Definition carrying (ws cs ps ds : list (list raw_buffer * raw_buffer)) : event_broker :=
  EventBroker true Looping (frames ws) (frames cs) (frames ps) (frames ds).

Lemma turn_carrying ws cs ps ds :
  turn (carrying ws cs ps ds) =
  carrying (tail ws) (tail cs) (ps ++ take 1 ws) (ds ++ take 1 cs).
Proof.
  unfold turn, carrying. cbn [running_ thread_ xsub xpub to_xpub to_xsub].
  by rewrite (side_turn ws ps), (side_turn cs ds).
Qed.

Lemma multipart_frames m : multipart m.1 m.2 = frames [m].
Proof. unfold frames. cbn. by rewrite app_nil_r. Qed.

(** Whatever the order of arrivals and turns, what was forwarded and what waits
    is what arrived. *)
Lemma execs_carrying es ws cs ps ds :
  Forall (fun e => match e with Stop | Start _ | Failure => False | _ => True end) es ->
  exists ws' cs' ps' ds',
    execs es (carrying ws cs ps ds) = carrying ws' cs' ps' ds' /\
    ps' ++ ws' = ps ++ ws ++ omap published es /\
    ds' ++ cs' = ds ++ cs ++ omap controlled es.
Proof.
  intros He. revert ws cs ps ds. induction He as [|e es He _ IH]; intros ws cs ps ds.
  { exists ws, cs, ps, ds. cbn. by rewrite !app_nil_r. }
  unfold execs in *. cbn [foldl]. destruct e as [bound| | | |parts last|parts last]; try done; cbn [exec].
  - rewrite turn_carrying. destruct (IH (tail ws) (tail cs) (ps ++ take 1 ws) (ds ++ take 1 cs))
      as (ws'&cs'&ps'&ds'&E&E1&E2). exists ws', cs', ps', ds'. split; [done|].
    rewrite E1, E2. cbn. rewrite <- !app_assoc. split; do 1 f_equal;
      [by destruct ws|by destruct cs].
  - destruct (IH (ws ++ [(parts, last)]) cs ps ds) as (ws'&cs'&ps'&ds'&E&E1&E2).
    exists ws', cs', ps', ds'. rewrite <- E. split_and!; [|by rewrite E1, <- !app_assoc|done].
    unfold carrying. cbn. by rewrite frames_app, <- multipart_frames.
  - destruct (IH ws (cs ++ [(parts, last)]) ps ds) as (ws'&cs'&ps'&ds'&E&E1&E2).
    exists ws', cs', ps', ds'. rewrite <- E. split_and!; [|done|by rewrite E2, <- !app_assoc].
    unfold carrying. cbn. by rewrite frames_app, <- multipart_frames.
Qed.

(** A broker that failed cannot be started again before [stop]. *)
Lemma restart_after_failure bound ws cs ps ds :
  thread_ (execs [Failure; Start bound] (carrying ws cs ps ds)) = Terminated /\
  thread_ (execs [Failure; Stop; Start true] (carrying ws cs ps ds)) = Looping.
Proof. done. Qed.

Lemma turns_carrying n ws cs ps ds :
  execs (replicate n Turn) (carrying ws cs ps ds) =
  carrying (drop n ws) (drop n cs) (ps ++ take n ws) (ds ++ take n cs).
Proof.
  revert ws cs ps ds. induction n as [|n IH]; intros ws cs ps ds.
  { cbn. by rewrite !drop_0, !app_nil_r. }
  unfold execs in *. cbn [replicate foldl exec]. rewrite turn_carrying, IH.
  destruct ws, cs; cbn [tail take drop]; by rewrite ?drop_nil, ?take_nil, <- !app_assoc.
Qed.
End broker.

(** ** Properties *)

Module BrokerProperties.
Import channel.

(** C35. First-in first-out accounting of the channels, for every
    interleaving of [send] by any thread with the steps of [run], [start],
    [stop] and failing sockets: the messages whose fate is decided, those
    swapped out by [send_pending] and those still queued are, in this order,
    exactly the messages sent, so none is duplicated, reordered or forgotten;
    and a router drops a message only by its own routing error. *)
Theorem channel_fifo {M} (k : kind) (es : list (@event M)) :
  let '(rs, c) := run (exec k) es create in
  omap settled (mjoin rs) ++ in_flight c ++ outgoing_ c = omap submitted es /\
  (k = router -> Forall (fun e => is_lost e = false) (mjoin rs)).
Proof.
  pose proof (run_backlog k es create) as Hb.
  pose proof (router_never_loses k es create) as Hr.
  destruct (run (exec k) es create) as [rs c]. done.
Qed.

(** Progress of a channel: from the top of its loop, with a working
    socket, a running thread transmits everything queued, in order, in
    [length outgoing_ + 3] steps and then polls with an empty queue. *)
Theorem channel_drains {M} (k : kind) (c : @channel M) :
  thread_ c = Test -> running_ c = true ->
  let '(rs, c') := run (exec k)
      (replicate (3 + length (outgoing_ c)) (Step SocketOk)) c in
  mjoin rs = Sent <$> outgoing_ c /\ outgoing_ c' = [] /\ thread_ c' = Polling.
Proof.
  intros Ht Hr. destruct c as [h q th r]; cbn [thread_ running_ outgoing_] in *; subst.
  replace (3 + length q)%nat with (2 + (length q + 1))%nat by lia.
  rewrite !replicate_add, run_app. cbn. rewrite run_app.
  rewrite drain_sending. cbn. split_and!; try done.
  rewrite mjoin_app, mjoin_sent. cbn. by rewrite app_nil_r.
Qed.

Lemma channel_drains_witness :
  let c := Channel true [1; 2] Test true in
  mjoin (run (exec dealer) (replicate 5 (Step SocketOk)) c).1 = [Sent 1; Sent 2].
Proof.
  intros c. pose proof (channel_drains dealer c eq_refl eq_refl) as T.
  cbn [length outgoing_ c Nat.add] in T.
  destruct (run (exec dealer) (replicate 5 (Step SocketOk)) c) as [rs c'].
  exact (proj1 T).
Defined.

(** C36. The subscriber implements its set of subscriptions: with one [start]
    in the history, however [subscribe] and [unsubscribe] interleave with the
    thread, the filters of the socket, once the changes taken and the changes
    queued are applied in order, are exactly the subscribed prefixes, one
    instance each. *)
Theorem subscriber_filters_exact (before after : list subscriber.event) (handler : bool) :
  Forall (fun e => subscriber.is_start e = false) before ->
  Forall (fun e => subscriber.is_start e = false) after ->
  let s := (run subscriber.exec (before ++ subscriber.Start handler :: after)
              subscriber.create).2 in
  forall fs, subscriber.target s = Some fs ->
    subscriber.apply_changes (subscriber.subscription_changes_ s) fs
      ≡ₚ elements (subscriber.subscriptions_ s).
Proof.
  intros Hb Ha s. subst s. rewrite run_app, run_cons. cbn [snd].
  apply (subscriber.run_preserves subscriber.tracking); [|done|].
  - intros e s. apply subscriber.exec_tracking.
  - apply subscriber.start_tracking.
    apply (subscriber.run_preserves subscriber.idle); [|done|].
    + intros e s. apply subscriber.exec_idle.
    + apply subscriber.create_idle.
Qed.

Lemma subscriber_filters_exact_witness :
  let s := (run subscriber.exec
    ([subscriber.Subscribe "a"; subscriber.Subscribe "b"] ++ subscriber.Start true ::
     [subscriber.Step SocketOk; subscriber.Step SocketOk; subscriber.Unsubscribe "a";
      subscriber.Step SocketOk]) subscriber.create).2 in
  subscriber.apply_changes (subscriber.subscription_changes_ s) ["b"; "a"]
    ≡ₚ elements (subscriber.subscriptions_ s).
Proof.
  intros s. apply (subscriber_filters_exact
    [subscriber.Subscribe "a"; subscriber.Subscribe "b"]
    [subscriber.Step SocketOk; subscriber.Step SocketOk; subscriber.Unsubscribe "a";
     subscriber.Step SocketOk] true).
  - repeat constructor.
  - repeat constructor.
  - vm_compute. reflexivity.
Defined.

(** The event broker is a transparent relay.  From [start] on, in every
    interleaving of arriving messages with turns of its loop, what it sent to
    the subscribers followed by what it still holds is exactly the sequence of
    published messages, frame by frame and with their boundaries, and the same
    holds for the subscriptions in the other direction; and [n] further turns
    forward the next [n] messages of each side. *)
Theorem broker_transparent es n :
  Forall (fun e => match e with broker.Stop | broker.Start _ | broker.Failure => False | _ => True end) es ->
  let b := broker.execs es (broker.start true broker.create) in
  let b' := broker.execs (replicate n broker.Turn) b in
  let ps := broker.frames (omap broker.published es) in
  let cs := broker.frames (omap broker.controlled es) in
  broker.to_xpub b ++ broker.xsub b = ps /\
  broker.to_xsub b ++ broker.xpub b = cs /\
  broker.to_xpub b' ++ broker.xsub b' = ps /\ broker.to_xsub b' ++ broker.xpub b' = cs /\
  (Z.of_nat (length es) <= Z.of_nat n -> broker.xsub b' = [] /\ broker.xpub b' = []).
Proof.
  intros He. cbn zeta.
  destruct (broker.execs_carrying es [] [] [] [] He) as (ws&cs&ps&ds&E&E1&E2).
  change (broker.start true broker.create) with (broker.carrying [] [] [] []).
  rewrite E, broker.turns_carrying. unfold broker.carrying. cbn [broker.to_xpub broker.xsub
    broker.to_xsub broker.xpub]. rewrite <- !broker.frames_app, <- !app_assoc, !take_drop.
  rewrite E1, E2. cbn [app]. split_and!; try done. intros Hn.
  pose proof (length_omap_le broker.published es) as H1.
  pose proof (length_omap_le broker.controlled es) as H2.
  cbn [app] in E1, E2. rewrite <- E1, length_app in H1. rewrite <- E2, length_app in H2.
  rewrite !drop_ge by lia. done.
Qed.

Lemma broker_transparent_witness :
  let es := [broker.Publish [[Init.Byte.x61]] [Init.Byte.x62]; broker.Turn;
             broker.Control [] [Init.Byte.x01]] in
  let b := broker.execs (replicate 3 broker.Turn)
             (broker.execs es (broker.start true broker.create)) in
  broker.to_xpub b = [([Init.Byte.x61], true); ([Init.Byte.x62], false)] /\
  broker.to_xsub b ++ broker.xpub b = [([Init.Byte.x01], false)] /\ broker.xsub b = [].
Proof.
  split; [vm_compute; reflexivity|].
  destruct (broker_transparent [broker.Publish [[Init.Byte.x61]] [Init.Byte.x62]; broker.Turn;
    broker.Control [] [Init.Byte.x01]] 3 ltac:(repeat constructor)) as (_&_&_&H1&H2).
  split; [exact H1|]. apply H2. cbn. lia.
Defined.
End BrokerProperties.
