(* ===== verification/Dispatcher.v ===== *)
(** * Dispatcher: handlers registered by message type

    Models [rsp-libs/include/rsplib/message/message_dispatcher.hpp] and the three
    dispatchers built on its single instance: [user/intranet/message_dispatcher.hpp]
    (messages of the room server), [user/message/message_dispatcher.hpp] (messages
    of the clients) and [room/intranet/message_dispatcher.hpp], with the buffers the
    two intranet channels hand to them.  Whether a payload parses as a protobuf
    class is a parameter. *)

From S2P Require Import Prelude Wire.
From coqutil Require Import Datatypes.RecordSetters.
Import TriangleBracketNotations.
Import MessageTypes serializer.
#[local] Arguments constant {_} _ _ /.

Notation link_ptr := (option nat) (only parsing).

(** ** The library's dispatcher *)

Section dispatcher.
Context {H F : Type}.

Record message_dispatcher := MessageDispatcher {
  handlers_ : gmap MessageType H;
  fail_handler_ : option F;
}.

Definition create : message_dispatcher := MessageDispatcher ∅ None.

Definition register_handler (type : MessageType) (f : H) (d : message_dispatcher) :=
  d <| handlers_ := <[type := f]> (handlers_ d) |>.

Definition register_unknown_message_handler (f : F) (d : message_dispatcher) :=
  d <| fail_handler_ := Some f |>.

Definition unregister_handler (type : MessageType) (d : message_dispatcher) :=
  match handlers_ d !! type with
  | Some _ => d <| handlers_ := delete type (handlers_ d) |>
  | None => d
  end.

(** The function [dispatch] calls; an empty [std::function] throws. *)
Definition dispatch (type : MessageType) (d : message_dispatcher) : outcome (H + F) :=
  match handlers_ d !! type with
  | None =>
      match fail_handler_ d with
      | Some f => Ret (inr f)
      | None => Throw bad_function_call
      end
  | Some handler => Ret (inl handler)
  end.

Inductive registration :=
  | Register (type : MessageType) (f : H)
  | RegisterUnknown (f : F)
  | Unregister (type : MessageType).

Definition exec (r : registration) (d : message_dispatcher) : message_dispatcher :=
  match r with
  | Register type f => register_handler type f d
  | RegisterUnknown f => register_unknown_message_handler f d
  | Unregister type => unregister_handler type d
  end.

Definition execs (rs : list registration) (d : message_dispatcher) : message_dispatcher :=
  foldl (fun d r => exec r d) d rs.

(** Does a registration concern the handler of [t]? *)
Definition concerns (t : MessageType) (r : registration) : bool :=
  match r with
  | Register type _ | Unregister type => bool_decide (type = t)
  | RegisterUnknown _ => false
  end.

Lemma exec_concerns t r d :
  concerns t r = false -> handlers_ (exec r d) !! t = handlers_ d !! t.
Proof.
  destruct r as [type f|f|type], d as [hs fh]; cbn; intros E; [|done|].
  - apply bool_decide_eq_false in E. by rewrite lookup_insert_ne.
  - apply bool_decide_eq_false in E. unfold unregister_handler. cbn.
    case_match; [|done]. cbn. by rewrite lookup_delete_ne.
Qed.

Lemma exec_register_eq t f d : handlers_ (exec (Register t f) d) !! t = Some f.
Proof. destruct d. apply lookup_insert_eq. Qed.

Lemma exec_unregister_eq t d : handlers_ (exec (Unregister t) d) !! t = None.
Proof.
  destruct d as [hs fh]. cbn. unfold unregister_handler; cbn.
  case_match; [cbn; apply lookup_delete_eq|done].
Qed.

Lemma execs_app rs rs' d : execs (rs ++ rs') d = execs rs' (execs rs d).
Proof. apply foldl_app. Qed.

Lemma execs_snoc rs r d : execs (rs ++ [r]) d = exec r (execs rs d).
Proof. apply execs_app. Qed.

Lemma execs_unknown f d : handlers_ (execs [RegisterUnknown f] d) = handlers_ d.
Proof. by destruct d. Qed.

(** The last registration for [t] in [rs] registers [f]; the last handler of
    unknown messages is [f]. *)
Definition last_handler (rs : list registration) (t : MessageType) (f : H) : Prop :=
  exists before after, rs = before ++ Register t f :: after /\
    Forall (fun r => concerns t r = false) after.

Definition is_unknown (r : registration) : bool :=
  match r with RegisterUnknown _ => true | _ => false end.

Definition last_unknown (rs : list registration) (f : F) : Prop :=
  exists before after, rs = before ++ RegisterUnknown f :: after /\
    Forall (fun r => is_unknown r = false) after.

Lemma exec_not_unknown r d :
  is_unknown r = false -> fail_handler_ (exec r d) = fail_handler_ d.
Proof.
  destruct r as [t f|f|t], d as [hs fh]; cbn; try done.
  intros _. unfold unregister_handler. by case_match.
Qed.

Lemma execs_fail_handler f rs :
  fail_handler_ (execs rs create) = Some f <-> last_unknown rs f.
Proof.
  unfold last_unknown. induction rs as [|r rs IH] using rev_ind.
  { split; [done|]. by intros ([]&?&?&_). }
  rewrite execs_snoc. destruct (is_unknown r) eqn:Ec.
  - destruct r as [|f'|]; try done. split.
    + destruct (execs rs create). intros [= <-]. exists rs, []. by split.
    + intros (before&after&E&Ha). destruct after as [|a after _] using rev_ind.
      * apply app_inj_tail in E as [-> [= ->]]. by destruct (execs before create).
      * rewrite app_comm_cons, app_assoc in E. apply app_inj_tail in E as [_ <-].
        apply Forall_app in Ha as [_ Ha]. by inversion Ha.
  - rewrite exec_not_unknown by done. rewrite IH. split.
    + intros (before&after&->&Ha). exists before, (after ++ [r]).
      rewrite <- app_assoc. split; [done|]. apply Forall_app. by repeat constructor.
    + intros (before&after&E&Ha). destruct after as [|a after _] using rev_ind.
      * by apply app_inj_tail in E as [_ ->].
      * rewrite app_comm_cons, app_assoc in E. apply app_inj_tail in E as [-> ->].
        apply Forall_app in Ha as [Ha _]. by exists before, after.
Qed.

Lemma execs_handler t f rs :
  handlers_ (execs rs create) !! t = Some f <-> last_handler rs t f.
Proof.
  unfold last_handler.
  induction rs as [|r rs IH] using rev_ind.
  { split; [done|]. by intros ([]&?&?&_). }
  rewrite execs_snoc. destruct (concerns t r) eqn:Ec.
  - split.
    + intros E. exists rs, []. split; [|constructor]. do 2 f_equal.
      destruct r as [t' f'|f'|t']; cbn in Ec; [|done|];
        apply bool_decide_eq_true in Ec; subst t'.
      * rewrite exec_register_eq in E. by simplify_eq.
      * by rewrite exec_unregister_eq in E.
    + intros (before&after&E&Ha). destruct after as [|a after _] using rev_ind.
      * apply app_inj_tail in E as [-> ->]. apply exec_register_eq.
      * rewrite app_comm_cons, app_assoc in E. apply app_inj_tail in E as [_ ->].
        apply Forall_app in Ha as [_ Ha]. inversion Ha; congruence.
  - rewrite exec_concerns by done. rewrite IH. split.
    + intros (before&after&->&Ha). exists before, (after ++ [r]).
      rewrite <- app_assoc. split; [done|]. apply Forall_app. by repeat constructor.
    + intros (before&after&E&Ha). destruct after as [|a after _] using rev_ind.
      * apply app_inj_tail in E as [_ ->]. cbn in Ec.
        by apply bool_decide_eq_false in Ec.
      * rewrite app_comm_cons, app_assoc in E. apply app_inj_tail in E as [-> ->].
        apply Forall_app in Ha as [Ha _]. by exists before, after.
Qed.
End dispatcher.
Arguments registration : clear implicits.

(** ** The dispatchers of the two servers *)

(** Which object a handler is bound to. *)
Inductive owner := session_dispatcher | room_channel_dispatcher | user_channel_dispatcher.

(** [handle_buffer<T>] of a dispatcher; a class [T] is named by its type. *)
Record handler := HandleBuffer { handler_owner : owner; message_class : MessageType }.

Notation registrations := (list (registration handler owner)) (only parsing).

Definition REG_HANDLER (o : owner) (t : MessageType) : registration handler owner :=
  Register t (HandleBuffer o t).

(** [rsp::user::message_dispatcher<room_channel>] *)
Definition user_intranet_message_dispatcher : registrations :=
  (REG_HANDLER room_channel_dispatcher <$>
    [kPing; kPong; kUser2RoomResCreateRoom; kUser2RoomResJoinRoom;
     kUser2RoomResLeaveRoom; kUser2RoomFwdClient; kUser2RoomNtfLeaveRoom])
  ++ [RegisterUnknown room_channel_dispatcher].

(** [rsp::user::message::message_dispatcher] *)
Definition user_message_dispatcher : registrations :=
  (REG_HANDLER session_dispatcher <$>
    [kPing; kPong; kReqLogin; kReqLogout; kReqCreateRoom; kReqJoinRoom;
     kFwdRoom; kReqLeaveRoom])
  ++ [RegisterUnknown session_dispatcher].

(** [rsp::room::message_dispatcher<user_channel>] *)
Definition room_message_dispatcher : registrations :=
  (REG_HANDLER user_channel_dispatcher <$>
    [kPing; kUser2RoomReqCreateRoom; kUser2RoomReqJoinRoom; kUser2RoomFwdRoom;
     kUser2RoomReqLeaveRoom; kUser2RoomCancelRequest])
  ++ [RegisterUnknown user_channel_dispatcher].

(** What a dispatched message leads to. *)
Inductive reception :=
  | SessionRecv (l : nat) (T : MessageType) (payload : raw_buffer)
  | SessionUnknown (l : nat)
  | ChannelRecv (T : MessageType) (payload : raw_buffer)
  | Ignored                    (** a warning or an error in the log *)
  | NullDereference            (** [session->on_recv] on a null [session*] *)
  | Uncaught (e : exn).

Section servers.
Context (parses : MessageType -> raw_buffer -> bool).

(** [handle_buffer<T>] of the clients' dispatcher, with [pass_to_session]. *)
Definition session_handle_buffer (T : MessageType) (payload : raw_buffer) (l : link_ptr) : reception :=
  if parses T payload then
    match l with
    | Some l => SessionRecv l T payload
    | None => NullDereference
    end
  else Ignored.

Definition session_handle_unknown (l : link_ptr) : reception :=
  match l with Some l => SessionUnknown l | None => NullDereference end.

(** The channels' dispatchers ignore whether the payload parses, and the link. *)
Definition room_channel_handle_buffer (T : MessageType) (payload : raw_buffer) : reception :=
  ChannelRecv T payload.

Definition room_channel_handle_unknown : reception := Ignored.

Definition user_channel_handle_buffer (T : MessageType) (payload : raw_buffer) : reception :=
  ChannelRecv T payload.

Definition user_channel_handle_unknown : reception := Ignored.

(** A call of a bound handler. *)
Definition handle_buffer (h : handler) (payload : raw_buffer) (l : link_ptr) : reception :=
  match handler_owner h with
  | session_dispatcher => session_handle_buffer (message_class h) payload l
  | room_channel_dispatcher => room_channel_handle_buffer (message_class h) payload
  | user_channel_dispatcher => user_channel_handle_buffer (message_class h) payload
  end.

Definition handle_unknown (o : owner) (l : link_ptr) : reception :=
  match o with
  | session_dispatcher => session_handle_unknown l
  | room_channel_dispatcher => room_channel_handle_unknown
  | user_channel_dispatcher => user_channel_handle_unknown
  end.

Definition receive (d : @message_dispatcher handler owner) (type : MessageType)
    (payload : raw_buffer) (l : link_ptr) : reception :=
  match dispatch type d with
  | Ret (inl h) => handle_buffer h payload l
  | Ret (inr o) => handle_unknown o l
  | Throw e => Uncaught e
  end.

(** [main] of the user server builds the intranet's dispatcher first. *)
Definition user_main : @message_dispatcher handler owner :=
  execs (user_intranet_message_dispatcher ++ user_message_dispatcher) create.

Definition room_main : @message_dispatcher handler owner :=
  execs room_message_dispatcher create.

(** The lambdas of [room_channel::start] and [user_channel::start_async]. *)
Definition channel_receive (d : @message_dispatcher handler owner) (buffer : raw_buffer)
    : reception :=
  let destructed := destruct_buffer buffer in
  receive d (type destructed) (payload destructed) None.
End servers.

Definition room_types : list MessageType :=
  [kUser2RoomResCreateRoom; kUser2RoomResJoinRoom; kUser2RoomResLeaveRoom;
   kUser2RoomFwdClient; kUser2RoomNtfLeaveRoom].

Definition client_types : list MessageType :=
  [kPing; kPong; kReqLogin; kReqLogout; kReqCreateRoom; kReqJoinRoom; kFwdRoom;
   kReqLeaveRoom].

(** A list of registrations of one owner, as a lookup. *)
Lemma execs_register o ts (t : MessageType) d :
  handlers_ (execs (REG_HANDLER o <$> ts) d) !! t =
    if decide (t ∈ ts) then Some (HandleBuffer o t) else handlers_ d !! t.
Proof.
  induction ts as [|t' ts IH] using rev_ind.
  { rewrite decide_False by set_solver. done. }
  rewrite fmap_app. cbn [fmap list_fmap]. rewrite execs_snoc.
  destruct (decide (t' = t)) as [->|Hne].
  - rewrite decide_True by set_solver. apply exec_register_eq.
  - rewrite exec_concerns by by apply bool_decide_eq_false.
    rewrite IH. destruct (decide (t ∈ ts)).
    + by rewrite decide_True by set_solver.
    + rewrite decide_False; [done|]. set_solver.
Qed.

Lemma types_disjoint t : t ∈ room_types -> t ∉ client_types.
Proof.
  apply (proj1 (Forall_forall (fun t => t ∉ client_types) room_types)).
  apply (bool_decide_unpack _). vm_compute. done.
Qed.

(** The room channel registers [kPing] and [kPong] too, and loses them. *)
Lemma intranet_types t :
  t ∈ [kPing; kPong; kUser2RoomResCreateRoom; kUser2RoomResJoinRoom;
       kUser2RoomResLeaveRoom; kUser2RoomFwdClient; kUser2RoomNtfLeaveRoom] ->
  t ∉ client_types -> t ∈ room_types.
Proof. unfold client_types, room_types. rewrite !elem_of_cons. naive_solver. Qed.

Lemma user_main_handlers t :
  handlers_ user_main !! t =
    if decide (t ∈ client_types) then Some (HandleBuffer session_dispatcher t)
    else if decide (t ∈ room_types) then Some (HandleBuffer room_channel_dispatcher t)
    else None.
Proof.
  unfold user_main, user_intranet_message_dispatcher, user_message_dispatcher.
  rewrite !execs_app, execs_unknown, execs_register, execs_unknown, execs_register.
  fold client_types. repeat case_decide; try done.
  - by exfalso; eauto using intranet_types.
  - by unfold room_types in *; set_solver.
Qed.

Lemma user_main_fail_handler : fail_handler_ user_main = Some session_dispatcher.
Proof. vm_compute. done. Qed.

Lemma receive_linked parses type payload l :
  receive parses user_main type payload (Some l) =
    if decide (type ∈ client_types) then
      (if parses type payload then SessionRecv l type payload else Ignored)
    else if decide (type ∈ room_types) then ChannelRecv type payload
    else SessionUnknown l.
Proof.
  unfold receive, dispatch. rewrite user_main_handlers, user_main_fail_handler.
  by repeat case_decide.
Qed.

Lemma destruct_not_complete b :
  status (destruct_buffer b) <> kComplete ->
  type (destruct_buffer b) = kPing /\ payload (destruct_buffer b) = [].
Proof. unfold destruct_buffer. repeat case_match; done. Qed.

(** ** Properties *)

Module DispatcherProperties.

(** The dispatcher refines its registration history: a message goes to
    the handler of the last registration for its type, unless that was undone
    or never made, in which case it goes to the last handler of unknown
    messages, and only when there is none does [dispatch] throw. *)
Theorem dispatch_last_registration {H F} (rs : list (registration H F)) (t : MessageType) :
  (forall h, dispatch t (execs rs create) = Ret (inl h) <-> last_handler rs t h) /\
  (forall f, dispatch t (execs rs create) = Ret (inr f) <->
     (forall h, ~ last_handler rs t h) /\ last_unknown rs f) /\
  (forall e, dispatch t (execs rs create) = Throw e <->
     e = bad_function_call /\ (forall h, ~ last_handler rs t h) /\
     (forall f, ~ last_unknown rs f)).
Proof.
  setoid_rewrite <- execs_handler. setoid_rewrite <- execs_fail_handler.
  unfold dispatch. destruct (handlers_ _ !! t) as [h|].
  - split_and!; naive_solver.
  - destruct (fail_handler_ _) as [f|]; split_and!; naive_solver.
Qed.

(** C37. Which component of the user server receives a message, for every
    type, payload and source, given that both dispatchers register with one
    instance.  A message of a client's connection reaches only that client's
    session, or the room channel for the five types of the room server.  A
    message of the room server reaches the room channel for these types; any
    other type is meant for a session and there is none, and so is a buffer
    that is not a frame, since it is dispatched as an empty [Ping]. *)
Theorem user_server_routing (parses : MessageType -> raw_buffer -> bool) :
  (forall type payload l, receive parses user_main type payload (Some l) =
     if decide (type ∈ client_types) then
       (if parses type payload then SessionRecv l type payload else Ignored)
     else if decide (type ∈ room_types) then ChannelRecv type payload
     else SessionUnknown l) /\
  (forall buffer, let m := destruct_buffer buffer in
     type m ∈ room_types ->
     channel_receive parses user_main buffer = ChannelRecv (type m) (payload m)) /\
  (forall buffer, let m := destruct_buffer buffer in
     type m ∉ room_types -> (type m ∈ client_types -> parses (type m) (payload m) = true) ->
     channel_receive parses user_main buffer = NullDereference) /\
  (forall buffer, status (destruct_buffer buffer) <> kComplete ->
     parses kPing [] = true ->
     channel_receive parses user_main buffer = NullDereference).
Proof.
  assert (Hn : forall b, type (destruct_buffer b) ∉ room_types ->
    (type (destruct_buffer b) ∈ client_types ->
       parses (type (destruct_buffer b)) (payload (destruct_buffer b)) = true) ->
    channel_receive parses user_main b = NullDereference).
  { intros b Hr Hp. unfold channel_receive, receive, dispatch.
    rewrite user_main_handlers, user_main_fail_handler. case_decide.
    - unfold handle_buffer, session_handle_buffer. cbn. by rewrite Hp.
    - by rewrite decide_False. }
  split_and!; [| |exact Hn|].
  - intros t p l. apply receive_linked.
  - intros b m Hr. unfold channel_receive, receive, dispatch. fold m.
    pose proof (types_disjoint _ Hr). by rewrite user_main_handlers, decide_False, decide_True.
  - intros b Hs Hp. destruct (destruct_not_complete b Hs) as [Et Ep].
    apply Hn; rewrite Et, ?Ep; [|done].
    intros Hr. apply types_disjoint in Hr. apply Hr. constructor.
Qed.
End DispatcherProperties.
