(* ===== verification/Node.v ===== *)
(** * Node: the User server process

    Composes the TCP server, the connections, the message dispatcher, the
    acceptor and the sessions of one User server process.  Bytes read on a
    connection go through its interpreter to the dispatcher and from there to a
    session; what sessions send goes to the connection they belong to.
    Protobuf's parsers and printers are parameters. *)

From S2P Require Import Prelude Wire Interpreter Scheduler Pending Connection Server Sessions.
From S2P Require Import Dispatcher Logins.
From coqutil Require Import Datatypes.RecordSetters.
Import TriangleBracketNotations.
Import interpreter recorder room_channel.
#[local] Arguments constant {_} _ _ /.

(** ** The acceptor *)

(** [session_manager::add_session] makes a session that attaches itself. *)
#[export] Instance acceptor : server_event user_server := {
  on_conn_created c s :=
    (match sessions_ s !! c with Some _ => None | None => Some (length (heap_ s)) end,
     session_manager.add_connection c s);
  on_conn_closed := Sessions.on_conn_closed;
}.

(** ** The process *)

Notation node := (tcp_server log user_server) (only parsing).

(** What happens, as it happens. *)
Inductive happening :=
  | Dispatched (c : nat) (r : reception)
  | OnUser (e : Sessions.effect)
  | OnSocket (c : nat) (e : Connection.effect).

Section node.
(** Whether a payload parses as a class; the overload of [session::on_recv] and
    of [room_channel::on_recv] a parsed message selects; [serialize]. *)
Context (parses : MessageType -> raw_buffer -> bool)
        (decode : MessageType -> raw_buffer -> client_request)
        (decode_room : MessageType -> raw_buffer -> option (Z * room_response + string * room_notification))
        (encode : client_message -> raw_buffer).

(** [main]: the acceptor is the one subscriber. *)
Definition node_start : node := Server.server_start {[0%nat := Sessions.server_start]} [0%nat].

(** [link::send] and [link::stop], from a thread of the workers. *)
Definition output (s : node) (e : Sessions.effect) : node :=
  match e with
  | ToClient _ c m => (on_connection c (CallSend (encode m)) s).2
  | StopConnection c force => (on_connection c (CallStop force false false) s).2
  | _ => s
  end.

Definition user_step (e : Sessions.event) (s : node) : list happening * node :=
  match observers s !! 0%nat with
  | None => ([], s)
  | Some u =>
      let '(es, u) := Sessions.exec e u in
      (OnUser <$> es, foldl output (s <| observers := <[0%nat := u]> (observers s) |>) es)
  end.

(** The event a dispatched message is for the sessions. *)
Definition session_event (r : reception) (now : Z) : option Sessions.event :=
  match r with
  | SessionRecv l T payload => Some (Received l (decode T payload))
  | SessionUnknown l => Some (Received l RUnknown)
  | ChannelRecv T payload =>
      match decode_room T payload with
      | Some (inl (id, response)) => Some (RoomResponse id response now)
      | Some (inr (u, n)) => Some (RoomNotification u n)
      | None => None
      end
  | _ => None
  end.

Definition deliver_one (c : nat) (now : Z) (m : MessageType * raw_buffer * option nat)
    (s : node) : list happening * node :=
  let r := Dispatcher.receive parses user_main m.1.1 m.1.2 m.2 in
  match session_event r now with
  | Some e => let '(hs, s) := user_step e s in (Dispatched c r :: hs, s)
  | None => ([Dispatched c r], s)
  end.

Fixpoint deliver (c : nat) (now : Z) (ms : log) (s : node) : list happening * node :=
  match ms with
  | [] => ([], s)
  | m :: ms =>
      let '(hs, s) := deliver_one c now m s in
      let '(hs', s) := deliver c now ms s in (hs ++ hs', s)
  end.

(** The messages of a handler are taken from the recorder. *)
Definition drained (conn : tcp_connection log) : tcp_connection log :=
  conn <| dispatcher_ := ([] : log) |>.

(** A handler of a connection: the messages it dispatched reach the sessions
    before its close handler runs. *)
Definition conn_step (c : nat) (e : Connection.event) (now : Z) (s : node)
    : list happening * node :=
  match connections s !! c with
  | Some (Some conn) =>
      let '(es, conn) := Connection.exec (D := log) e conn in
      let s := s <| connections := <[c := Some (drained conn)]> (connections s) |> in
      let '(hs, s) := deliver c now (dispatcher_ conn) s in
      ((OnSocket c <$> es) ++ hs,
       if existsb is_on_closed es then notify_on_closed c s else s)
  | _ => ([], s)
  end.

Inductive event :=
  | Accept (error : bool)
  | OnConn (c : nat) (e : Connection.event) (now : Z)
  | OnSessions (e : Sessions.event).

(** Sends and stops of a connection come from its session; created and closed
    connections from the server; client messages from the connections. *)
Definition conn_local (e : Connection.event) : bool :=
  match e with CallSend _ | CallStart | CallStop _ _ _ => false | _ => true end.
Definition user_local (e : Sessions.event) : bool :=
  internal e && match e with Received _ _ => false | _ => true end.

Definition exec (e : event) (s : node) : list happening * node :=
  match e with
  | Accept error => ([], (Server.exec ([] : log) (AcceptDone error) s).2)
  | OnConn c e now => if conn_local e then conn_step c e now s else ([], s)
  | OnSessions e => if user_local e then user_step e s else ([], s)
  end.

(** ** Invariant *)

Record ninv (u : user_server) (s : node) : Prop := {
  ni_user : observers s !! 0%nat = Some u;
  ni_subscribers : event_subscribers_ s = {[0%nat]};
  ni_conn c (conn : tcp_connection log) : connections s !! c = Some (Some conn) ->
    (exists es, good es [] 0 conn) /\ dispatcher_ conn = [] /\
    exists i, link_ (interpreter_ conn) = Some i /\ session_conn u i = Some c /\
      (closed_ conn = false -> sessions_ u !! c = Some i);
  ni_session i c : session_conn u i = Some c ->
    exists conn, connections s !! c = Some (Some conn) /\ link_ (interpreter_ conn) = Some i;
  ni_sessions c i : sessions_ u !! c = Some i -> session_conn u i = Some c;
  ni_pending : last (connections s) = Some None;
}.

(** The connections keep their links and do not close. *)
Definition nframe (s s' : node) : Prop :=
  forall c (conn : tcp_connection log), connections s !! c = Some (Some conn) ->
    exists conn' : tcp_connection log, connections s' !! c = Some (Some conn') /\
      link_ (interpreter_ conn') = link_ (interpreter_ conn) /\ closed_ conn' = closed_ conn.

#[local] Instance nframe_preorder : PreOrder nframe.
Proof.
  split; [intros s c conn; eauto|]. intros s1 s2 s3 H1 H2 c conn Hc.
  destruct (H1 _ _ Hc) as (k&Hk&E1&E2). destruct (H2 _ _ Hk) as (k'&?&?&?).
  exists k'. split_and!; congruence.
Qed.

Lemma last_insert {A} (l : list (option A)) c x y :
  l !! c = Some (Some x) -> last l = Some None -> last (<[c := Some y]> l) = Some None.
Proof.
  intros Hc Hl. rewrite !last_lookup, length_insert in *. rewrite list_lookup_insert_ne; [done|].
  intros ->. congruence.
Qed.

(** Replacing a connection by one with the same link, the same or a later
    [closed_], and no message left in its dispatcher. *)
Lemma ninv_set_conn u s c (conn conn' : tcp_connection log) es :
  connections s !! c = Some (Some conn) -> ninv u s -> good es [] 0 conn' ->
  dispatcher_ conn' = [] -> link_ (interpreter_ conn') = link_ (interpreter_ conn) ->
  (closed_ conn = true -> closed_ conn' = true) ->
  ninv u (s <| connections := <[c := Some conn']> (connections s) |>).
Proof.
  intros Hc [U B K S M P] G Ed El Ecl. destruct s as [cs subs ob]. cbn in *.
  assert (Hlt := lookup_lt_Some _ _ _ Hc). destruct (K _ _ Hc) as (_&_&i0&L0&S0&C0).
  split; cbn; [done|done| | |done|by eapply last_insert].
  - intros c' k [(<-&E&_)|[_ Hk]]%list_lookup_insert_Some; [|by apply K]. simplify_eq.
    split_and!; [by exists es|done|]. exists i0. split_and!; [by rewrite El|done|].
    intros Hcl. apply C0. destruct (closed_ conn) eqn:Eo; [|done]. by rewrite Ecl in Hcl.
  - intros i c' Hi. destruct (S _ _ Hi) as (k&Hk&Lk). destruct (decide (c' = c)) as [->|Hne].
    + exists conn'. rewrite list_lookup_insert_eq by done. simplify_eq. by rewrite El.
    + exists k. by rewrite list_lookup_insert_ne.
Qed.

(** A call of [send] or [stop] on a connection. *)
Lemma call_ninv u s c e :
  (exists m, e = CallSend m) \/ (exists f, e = CallStop f false false) ->
  ninv u s -> ninv u (on_connection c e s).2 /\ nframe s (on_connection c e s).2.
Proof.
  intros He Hi. unfold on_connection.
  destruct (connections s !! c) as [[conn|]|] eqn:Hc; [|by split..].
  destruct (ni_conn _ _ Hi _ _ Hc) as ([es G]&Ed&_).
  assert (Hok : event_ok e) by (destruct He as [[? ->]|[? ->]]; done).
  pose proof (good_exec _ _ _ G Hok) as G'.
  assert (Hx : (Connection.exec e conn).1 = [] /\
    dispatcher_ (Connection.exec e conn).2 = dispatcher_ conn /\
    interpreter_ (Connection.exec e conn).2 = interpreter_ conn /\
    closed_ (Connection.exec e conn).2 = closed_ conn).
  { destruct He as [[m ->]|[[] ->]]; by destruct conn. }
  destruct (Connection.exec e conn) as [es1 conn']. cbn in Hx, G'.
  destruct Hx as (->&E1&E2&E3). cbn [existsb snd].
  split.
  { eapply (ninv_set_conn u s c conn); try done; [congruence|by rewrite E2|by rewrite E3]. }
  intros c' k Hk. destruct s as [cs subs ob]. cbn in *. destruct (decide (c' = c)) as [->|Hne].
  - rewrite list_lookup_insert_eq by (by eapply lookup_lt_Some). simplify_eq.
    exists conn'. by rewrite E2, E3.
  - rewrite list_lookup_insert_ne by done. eauto.
Qed.

Lemma output_ninv u s e : ninv u s -> ninv u (output s e) /\ nframe s (output s e).
Proof. intros Hi. destruct e; cbn [output]; try (by split); apply call_ninv; eauto. Qed.

Lemma outputs_ninv u es s : ninv u s -> ninv u (foldl output s es) /\ nframe s (foldl output s es).
Proof.
  revert s. induction es as [|e es IH]; intros s Hi; [by split|]. cbn [foldl].
  destruct (output_ninv u s e Hi) as [H1 F1]. destruct (IH _ H1) as [H2 F2].
  split; [done|by etrans].
Qed.

(** A step of the sessions. *)
Lemma ninv_user u u' s :
  cframe u u' -> ninv u s -> ninv u' (s <| observers := <[0%nat := u']> (observers s) |>).
Proof.
  intros [A B C] [U Sb K S M P]. destruct s as [cs subs ob]. cbn in *.
  assert (Hinj : forall c i i', session_conn u i = Some c -> session_conn u i' = Some c -> i = i').
  { intros c i i' Hi Hi'. destruct (S _ _ Hi) as (k&Hk&Lk), (S _ _ Hi') as (k'&Hk'&Lk').
    congruence. }
  assert (Hm : forall c i, sessions_ u' !! c = Some i -> session_conn u i = Some c)
    by (intros c i [Hc|Hc]%B; auto).
  split; cbn; [apply lookup_insert_eq|done| | |by intros; rewrite A; auto|done].
  - intros c conn Hc. destruct (K _ _ Hc) as (G&E&i&L&Si&Cl). split_and!; [done|done|].
    exists i. rewrite A. split_and!; [done|done|]. intros Ecl.
    destruct (C c) as [i' Hi']; [rewrite Cl by done; eauto|].
    rewrite Hi'. f_equal. eauto.
  - intros i c. rewrite A. auto.
Qed.

Lemma user_step_ninv u s e :
  internal e = true -> ninv u s ->
  exists u', cframe u u' /\ ninv u' (user_step e s).2 /\ nframe s (user_step e s).2.
Proof.
  intros He Hi. unfold user_step. rewrite (ni_user _ _ Hi).
  pose proof (cframe_exec e u He) as Hf. destruct (Sessions.exec e u) as [es u'].
  cbn [snd] in *. exists u'. split; [done|].
  destruct (outputs_ninv u' es _ (ninv_user _ _ _ Hf Hi)) as [H1 F1]. split; [done|].
  etrans; [|exact F1]. intros c conn Hc. destruct s. cbn in *. eauto.
Qed.

(** ** What is dispatched *)

(** A message is dispatched to the session of its connection, or to the room
    channel, or dropped. *)
Definition routed (u : user_server) (h : happening) : Prop :=
  match h with
  | Dispatched c (SessionRecv i _ _) | Dispatched c (SessionUnknown i) =>
      session_conn u i = Some c
  | Dispatched c NullDereference | Dispatched c (Uncaught _) => False
  | _ => True
  end.

Definition grows (u u' : user_server) : Prop :=
  forall i c, session_conn u i = Some c -> session_conn u' i = Some c.

#[local] Instance grows_preorder : PreOrder grows.
Proof. split; [by intros u i c|]. intros u1 u2 u3 H1 H2 i c Hi. auto. Qed.

Lemma routed_grows u u' h : grows u u' -> routed u h -> routed u' h.
Proof. intros Hg. destruct h as [c []| |]; cbn; auto. Qed.

Lemma cframe_grows u u' : cframe u u' -> grows u u'.
Proof. intros [A _ _] i c. by rewrite A. Qed.

Lemma user_step_routed e s u : Forall (routed u) (user_step e s).1.
Proof.
  unfold user_step. destruct (observers s !! 0%nat) as [u0|]; [|constructor].
  destruct (Sessions.exec e u0) as [es u']. cbn [fst]. by apply Forall_fmap, Forall_true.
Qed.

Lemma deliver_one_ninv u c now m s i :
  ninv u s -> session_conn u i = Some c -> m.2 = Some i ->
  exists u', cframe u u' /\ ninv u' (deliver_one c now m s).2 /\
    nframe s (deliver_one c now m s).2 /\ Forall (routed u') (deliver_one c now m s).1.
Proof.
  intros Hi Hc Hm. unfold deliver_one. rewrite Hm, receive_linked. cbn zeta.
  set (r := if decide _ then _ else _).
  assert (Hr : forall u', cframe u u' -> routed u' (Dispatched c r)).
  { intros u' [A _ _]. subst r. repeat case_match; cbn; rewrite ?A; done. }
  destruct (session_event r now) as [e|] eqn:Er.
  - assert (He : internal e = true).
    { revert Er. clear. destruct r; cbn; repeat case_match; intros; by simplify_eq. }
    destruct (user_step_ninv u s e He Hi) as (u'&F&I'&N).
    pose proof (user_step_routed e s u') as R. destruct (user_step e s) as [hs s'].
    exists u'. cbn in *. split_and!; try done. constructor; [by apply Hr|done].
  - exists u. cbn. split_and!; try done. constructor; [by apply Hr|constructor].
Qed.

Lemma deliver_ninv u c now ms s i :
  ninv u s -> session_conn u i = Some c -> Forall (fun m => m.2 = Some i) ms ->
  exists u', cframe u u' /\ ninv u' (deliver c now ms s).2 /\
    nframe s (deliver c now ms s).2 /\ Forall (routed u') (deliver c now ms s).1.
Proof.
  intros Hi Hc Hm. revert u s Hi Hc. induction Hm as [|m ms Hm _ IH]; intros u s Hi Hc.
  { exists u. by split_and!. }
  cbn [deliver]. destruct (deliver_one_ninv u c now m s i Hi Hc Hm) as (u1&F1&I1&N1&R1).
  destruct (deliver_one c now m s) as [hs1 s1]. cbn [fst snd] in *.
  destruct (IH u1 s1 I1) as (u2&F2&I2&N2&R2). { by apply cframe_grows in F1; auto. }
  destruct (deliver c now ms s1) as [hs2 s2]. cbn [fst snd] in *.
  exists u2. split_and!; [by etrans|done|by etrans|]. apply Forall_app. split; [|done].
  eapply Forall_impl; [exact R1|]. intros h. apply routed_grows. by apply cframe_grows.
Qed.

(** ** Closing and accepting *)

Lemma on_conn_closed_sessions c u :
  (forall i, session_conn (Sessions.on_conn_closed c u) i = session_conn u i) /\
  sessions_ (Sessions.on_conn_closed c u) = delete c (sessions_ u).
Proof.
  unfold Sessions.on_conn_closed, session_manager.remove_session.
  destruct (sessions_ u !! c) as [i|] eqn:Ec; [|split; [done|by rewrite delete_id]].
  unfold post, session_conn. destruct u as [h js ss us n rq]. cbn.
  destruct (h !! i) as [x|] eqn:Ex; cbn; [|done]. split; [|done]. intros i'.
  destruct (decide (i' = i)) as [->|Hne].
  - rewrite list_lookup_insert_eq by (by eapply lookup_lt_Some). rewrite Ex. by destruct x.
  - by rewrite list_lookup_insert_ne.
Qed.

Lemma close_ninv u s c conn :
  ninv u s -> connections s !! c = Some (Some conn) -> closed_ conn = true ->
  ninv (Sessions.on_conn_closed c u) (notify_on_closed c s).
Proof.
  intros [U B K S M P] Hc Hcl. destruct (on_conn_closed_sessions c u) as [A D0].
  pose proof (notify_closed_observer c s 0) as Ho. rewrite decide_True in Ho by (rewrite B; set_solver).
  rewrite U in Ho. destruct (notify_closed_rest c s) as [E1 E2].
  split; [exact Ho|by rewrite E2|..]; rewrite ?E1; try done.
  - intros c' k Hk. destruct (K _ _ Hk) as (G&Ed&i&L&Si&Cl). split_and!; [done|done|].
    exists i. rewrite A, D0. split_and!; [done|done|]. intros Eo.
    rewrite lookup_delete_ne; [auto|]. intros ->. simplify_eq. congruence.
  - intros i c'. rewrite A. auto.
  - intros c' i. rewrite A, D0. intros [_ Hi]%lookup_delete_Some. auto.
Qed.

Lemma notify_created_single c u (s : node) :
  observers s !! 0%nat = Some u -> event_subscribers_ s = {[0%nat]} -> sessions_ u !! c = None ->
  notify_on_created c s = (Some (length (heap_ u)),
    s <| observers := <[0%nat := session_manager.add_connection c u]> (observers s) |>).
Proof.
  intros Hu Hs Hc. unfold notify_on_created. rewrite Hs, elements_singleton. cbn [foldl].
  unfold created_one. cbn [fst snd]. rewrite Hu. cbn. by rewrite Hc.
Qed.

Lemma accept_ninv u (s : node) error :
  ninv u s -> exists u', grows u u' /\ ninv u' (Server.exec ([] : log) (AcceptDone error) s).2.
Proof.
  intros Hi. pose proof (ni_pending _ _ Hi) as Hp.
  assert (Ex : (Server.exec ([] : log) (AcceptDone error) s).2
    = handle_accept ([] : log) (pred (length (connections s))) error s)
    by (unfold Server.exec; by destruct (connections s)).
  rewrite Ex. clear Ex. set (c := pred (length (connections s))).
  assert (Hc : connections s !! c = Some None) by (by unfold c; rewrite <- last_lookup).
  clearbody c. clear Hp. destruct Hi as [U B K S M P].
  unfold handle_accept. destruct error.
  { exists u. split; [done|]. destruct s as [cs subs ob]. cbn in *.
    split; cbn; try done; [| |by rewrite last_snoc].
    - intros c' k Hk%good_pending. by apply K.
    - intros i c' Hi. destruct (S _ _ Hi) as (k&Hk&Lk). exists k.
      by rewrite lookup_app_l_Some with (x := Some k). }
  assert (Hn : sessions_ u !! c = None).
  { destruct (sessions_ u !! c) as [i|] eqn:Ei; [|done].
    destruct (S _ _ (M _ _ Ei)) as (k&Hk&_). congruence. }
  rewrite (notify_created_single c u s U B Hn). cbn zeta.
  set (i := length (heap_ u)). set (u' := session_manager.add_connection c u).
  assert (Hs : sessions_ u' = <[c := i]> (sessions_ u)).
  { unfold u', session_manager.add_connection. rewrite Hn. by destruct u. }
  assert (Hh : forall i', session_conn u' i' = if decide (i' = i) then Some c else session_conn u i')
    by (intros i'; by apply add_connection_conn).
  assert (Hg : grows u u').
  { intros i' c' Hi'. rewrite Hh, decide_False; [done|]. intros ->.
    unfold session_conn, i in Hi'. by rewrite lookup_ge_None_2 in Hi'. }
  assert (Hnew : session_conn u' i = Some c) by (by rewrite Hh, decide_True).
  exists u'. split; [done|]. clearbody u'. destruct s as [cs subs ob]. cbn in *.
  assert (Hlt := lookup_lt_Some _ _ _ Hc).
  set (conn := Connection.post TStart (Connection.create ([] : log) (Some i) kMaxPendingSendBytes)).
  split; cbn; [apply lookup_insert_eq|done|..].
  - intros c' k Hk%good_pending.
    apply list_lookup_insert_Some in Hk as [(<-&E&_)|[Hne Hk]].
    + simplify_eq. split_and!; [exists []; apply good_accepted|done|].
      exists i. split_and!; [done|done|]. intros _. by rewrite Hs, lookup_insert_eq.
    + destruct (K _ _ Hk) as (G&Ed&i'&L&Si&Cl). split_and!; [done|done|]. exists i'.
      split_and!; [done|by apply Hg|]. intros Eo. rewrite Hs, lookup_insert_ne by done. auto.
  - intros i' c' Hi'. destruct (decide (i' = i)) as [->|Hne].
    + rewrite Hnew in Hi'. injection Hi' as <-. exists conn.
      rewrite lookup_app_l_Some with (x := Some conn); [done|]. by apply list_lookup_insert_eq.
    + assert (Hold : session_conn u i' = Some c') by (by rewrite Hh, decide_False in Hi').
      destruct (S _ _ Hold) as (k&Hk&Lk). exists k. split; [|done].
      rewrite lookup_app_l_Some with (x := Some k); [done|].
      rewrite list_lookup_insert_ne; [done|]. intros ->. congruence.
  - intros c' i'. rewrite Hs, lookup_insert_Some. intros [[<- <-]|[_ Hi']]; [done|]. auto.
  - by rewrite last_snoc.
Qed.

(** ** Steps of a connection *)

Lemma dispatch_all_log l ms (d : log) :
  dispatch_all l ms d = d ++ ((fun m => (m.1, m.2, l)) <$> ms).
Proof.
  unfold dispatch_all. revert d. induction ms as [|m ms IH]; intros d; [by rewrite app_nil_r|].
  cbn [foldl]. rewrite IH. unfold Interpreter.dispatch, recorder_dispatch. by rewrite <- app_assoc.
Qed.

Lemma conn_step_ninv u s c e now :
  event_ok e -> ninv u s ->
  exists u', grows u u' /\ ninv u' (conn_step c e now s).2 /\
    Forall (routed u') (conn_step c e now s).1.
Proof.
  intros He Hi. unfold conn_step.
  destruct (connections s !! c) as [[conn|]|] eqn:Hc; [|by exists u; split_and!..].
  destruct (ni_conn _ _ Hi _ _ Hc) as ([es0 G]&Ed&i&Hl&Hs&_).
  pose proof (good_exec _ _ _ G He) as G'. destruct (closing_step _ e _ G He) as [Hcl Hst].
  destruct (exec_dispatches _ e _ G He) as [El [ms Em]].
  destruct (Connection.exec e conn) as [es conn']. cbn [fst snd] in *.
  rewrite Ed, Hl, dispatch_all_log in Em. cbn [app] in Em.
  set (conn1 := drained conn').
  assert (G1 : good (es0 ++ es) [] 0 conn1).
  { replace conn1 with (conn' <| reads := reads conn' |> <| interpreter_ := interpreter_ conn' |>
      <| dispatcher_ := ([] : log) |>) by (by destruct conn').
    apply good_frame; [done|apply (good_interpreter _ _ _ _ G')]. }
  assert (H1 : ninv u (s <| connections := <[c := Some conn1]> (connections s) |>)).
  { eapply (ninv_set_conn u s c conn); [done..|by destruct conn'| |]; unfold conn1;
      destruct conn'; [exact El|exact Hst]. }
  set (s1 := s <| connections := <[c := Some conn1]> (connections s) |>) in *.
  destruct (deliver_ninv u c now (dispatcher_ conn') s1 i H1 Hs) as (u2&F2&I2&N2&R2).
  { rewrite Em. by apply Forall_fmap, Forall_true. }
  destruct (deliver c now (dispatcher_ conn') s1) as [hs s2]. cbn [fst snd] in *.
  assert (R : forall u', grows u2 u' -> Forall (routed u') ((OnSocket c <$> es) ++ hs)).
  { intros u' Hg. apply Forall_app. split; [by apply Forall_fmap, Forall_true|].
    eapply Forall_impl; [exact R2|]. intros h. by apply routed_grows. }
  apply cframe_grows in F2.
  destruct (existsb is_on_closed es) eqn:Eb; [|exists u2; split_and!; [done|done|by apply R]].
  destruct (N2 c conn1) as (k&Hk&_&Ek).
  { unfold s1. destruct s. cbn in *. apply list_lookup_insert_eq. by eapply lookup_lt_Some. }
  assert (Hg : grows u2 (Sessions.on_conn_closed c u2)).
  { intros i' c'. by rewrite (proj1 (on_conn_closed_sessions c u2)). }
  exists (Sessions.on_conn_closed c u2). split_and!; [by etrans| |by apply R].
  apply (close_ninv u2 s2 c k); [done|done|]. rewrite Ek. unfold conn1.
  symmetry in Hcl. apply andb_true_iff in Hcl as [Hcl _]. by destruct conn'.
Qed.

Definition event_fine (e : event) : Prop :=
  match e with OnConn _ e _ => event_ok e | _ => True end.

Lemma exec_ninv u s e :
  event_fine e -> ninv u s ->
  exists u', grows u u' /\ ninv u' (exec e s).2 /\ Forall (routed u') (exec e s).1.
Proof.
  intros He Hi. assert (Hstay : exists u', grows u u' /\ ninv u' s /\ Forall (routed u') []).
  { by exists u. }
  destruct e as [error|c e now|e]; cbn [exec].
  - destruct (accept_ninv u s error Hi) as (u'&?&?). by exists u'.
  - destruct (conn_local e); [by apply conn_step_ninv|done].
  - destruct (user_local e) eqn:El; [|done]. apply andb_true_iff in El as [El _].
    destruct (user_step_ninv u s e El Hi) as (u'&F&I'&_). exists u'.
    split_and!; [by apply cframe_grows|done|apply user_step_routed].
Qed.

Lemma run_ninv u s evs :
  Forall event_fine evs -> ninv u s ->
  exists u', grows u u' /\ ninv u' (run exec evs s).2 /\
    Forall (routed u') (mjoin (run exec evs s).1).
Proof.
  intros He. revert u s. induction He as [|e evs He _ IH]; intros u s Hi; [by exists u|].
  rewrite run_cons. cbn [fst snd]. rewrite mjoin_cons.
  destruct (exec_ninv u s e He Hi) as (u1&G1&I1&R1).
  destruct (IH _ _ I1) as (u2&G2&I2&R2). exists u2. split_and!; [by etrans|done|].
  apply Forall_app. split; [|done]. eapply Forall_impl; [exact R1|].
  intros h. by apply routed_grows.
Qed.

Lemma ninv_start : ninv Sessions.server_start node_start.
Proof.
  split; cbn; [apply lookup_singleton_eq|set_solver|by intros [|[|c]]|done|done|done].
Qed.

(** ** What is written *)

(** [b] is a message a session sent to connection [c]. *)
Definition sent_to (hs : list happening) (c : nat) (b : raw_buffer) : Prop :=
  exists j m, OnUser (ToClient j c m) ∈ hs /\ b = encode m.

Definition einv (hs : list happening) (s : node) : Prop :=
  forall c (conn : tcp_connection log) b,
    connections s !! c = Some (Some conn) -> b ∈ held conn -> sent_to hs c b.

Definition wrote (hs hs' : list happening) : Prop :=
  forall c b, OnSocket c (AsyncWrite b) ∈ hs' -> sent_to hs c b.

Lemma sent_to_mono hs hs' c b : hs ⊆ hs' -> sent_to hs c b -> sent_to hs' c b.
Proof. intros Hs (j&m&Hm&E). exists j, m. auto. Qed.

Lemma einv_mono hs hs' s : hs ⊆ hs' -> einv hs s -> einv hs' s.
Proof. intros Hs He c conn b Hc Hb. eapply sent_to_mono; [done|by eapply He]. Qed.

Lemma einv_conns hs (s s' : node) : connections s' = connections s -> einv hs s -> einv hs s'.
Proof. unfold einv. by intros ->. Qed.

(** A step of connection [c] that takes in only messages sent to it. *)
Lemma einv_step hs s c (conn conn' : tcp_connection log) e :
  connections s !! c = Some (Some conn) -> einv hs s ->
  (forall b, b ∈ event_msgs e -> sent_to hs c b) ->
  held conn' = held (Connection.exec e conn).2 ->
  einv hs (s <| connections := <[c := Some conn']> (connections s) |>).
Proof.
  intros Hc He Hm Eh c' k b Hk Hb. destruct s as [cs subs ob]. cbn in *.
  apply list_lookup_insert_Some in Hk as [(<-&E&_)|[_ Hk]]; [|by eapply He].
  simplify_eq. rewrite Eh in Hb. apply (proj1 (held_exec e conn)), elem_of_app in Hb as [Hb|Hb].
  - by apply Hm.
  - by eapply He.
Qed.

Lemma on_connection_einv hs s c e :
  einv hs s -> (forall b, b ∈ event_msgs e -> sent_to hs c b) ->
  einv hs (on_connection c e s).2.
Proof.
  intros He Hm. unfold on_connection.
  destruct (connections s !! c) as [[conn|]|] eqn:Hc; [|done..].
  pose proof (fun k => einv_step hs s c conn k e Hc He Hm) as H1.
  destruct (Connection.exec e conn) as [es conn']. cbn [snd] in *. specialize (H1 _ eq_refl).
  destruct (existsb is_on_closed es); [|done]. eapply einv_conns; [|exact H1]. by destruct s.
Qed.

Lemma outputs_einv hs es s :
  einv hs s -> (OnUser <$> es) ⊆ hs -> einv hs (foldl output s es).
Proof.
  revert s. induction es as [|e es IH]; intros s He Hs; [done|]. cbn [foldl].
  apply IH; [|set_solver]. destruct e as [j c m|m|c f| |]; cbn [output]; try done;
    apply on_connection_einv; try done; cbn [event_msgs]; intros b Hb; [|set_solver].
  apply list_elem_of_singleton in Hb as ->. exists j, m. split; [set_solver|done].
Qed.

Lemma user_step_einv hs s e :
  einv hs s -> einv (hs ++ (user_step e s).1) (user_step e s).2 /\ wrote hs (user_step e s).1.
Proof.
  intros He. unfold user_step. destruct (observers s !! 0%nat) as [u|].
  2: { cbn. rewrite app_nil_r. split; [done|]. intros c b. set_solver. }
  destruct (Sessions.exec e u) as [es u']. cbn [fst snd]. split.
  - apply outputs_einv; [|set_solver]. apply (einv_conns _ s); [by destruct s|].
    eapply einv_mono; [|done]. set_solver.
  - intros c b (e'&?&_)%list_elem_of_fmap. done.
Qed.

Lemma deliver_one_einv hs c now m s :
  einv hs s -> einv (hs ++ (deliver_one c now m s).1) (deliver_one c now m s).2 /\
    wrote hs (deliver_one c now m s).1.
Proof.
  intros He. unfold deliver_one. cbn zeta. destruct (session_event _ now) as [e|].
  - destruct (user_step_einv hs s e He) as [H1 H2]. destruct (user_step e s) as [hs1 s1].
    cbn [fst snd] in *. split; [eapply einv_mono; [|done]; set_solver|].
    intros c' b [?|Hb]%elem_of_cons; [done|]. by apply H2.
  - cbn [fst snd]. split; [eapply einv_mono; [|done]; set_solver|].
    intros c' b ?%list_elem_of_singleton. done.
Qed.

Lemma deliver_einv hs c now ms s :
  einv hs s -> einv (hs ++ (deliver c now ms s).1) (deliver c now ms s).2 /\
    wrote (hs ++ (deliver c now ms s).1) (deliver c now ms s).1.
Proof.
  revert hs s. induction ms as [|m ms IH]; intros hs s He; cbn [deliver].
  { cbn. rewrite app_nil_r. split; [done|]. intros c' b. set_solver. }
  destruct (deliver_one_einv hs c now m s He) as [H1 W1].
  destruct (deliver_one c now m s) as [hs1 s1]. cbn [fst snd] in *.
  destruct (IH _ _ H1) as [H2 W2]. destruct (deliver c now ms s1) as [hs2 s2].
  cbn [fst snd] in *. rewrite <- (app_assoc hs) in *. split; [done|].
  intros c' b [Hb|Hb]%elem_of_app; [|by apply W2].
  eapply sent_to_mono; [|by apply W1]. set_solver.
Qed.

Lemma conn_step_einv hs s c e now :
  conn_local e = true -> einv hs s ->
  einv (hs ++ (conn_step c e now s).1) (conn_step c e now s).2 /\
  wrote (hs ++ (conn_step c e now s).1) (conn_step c e now s).1.
Proof.
  intros Hl He. unfold conn_step.
  destruct (connections s !! c) as [[conn|]|] eqn:Hc;
    [|by cbn; rewrite app_nil_r; split; [done|intros c' b; set_solver]..].
  assert (Hm : forall b, b ∈ event_msgs e -> sent_to hs c b)
    by (destruct e; cbn; try done; set_solver).
  pose proof (fun k => einv_step hs s c conn k e Hc He Hm) as H1.
  destruct (held_exec e conn) as [_ Hw].
  destruct (Connection.exec (D := log) e conn) as [es conn']. cbn [fst snd] in *.
  specialize (H1 (drained conn') ltac:(by destruct conn')).
  set (s1 := s <| connections := _ |>) in *.
  destruct (deliver_einv hs c now (dispatcher_ conn') s1 H1) as [H2 W2].
  destruct (deliver c now (dispatcher_ conn') s1) as [hs2 s2]. cbn [fst snd] in *. split.
  - eapply einv_mono; [|apply (einv_conns _ s2); [|exact H2]]; [set_solver|].
    destruct (existsb is_on_closed es); [|done]. by destruct s2.
  - intros c' b [Hb|Hb]%elem_of_app.
    + apply list_elem_of_fmap in Hb as (e'&[= -> <-]&Hb). eapply sent_to_mono.
      2: { eapply (He c conn); [done|]. apply Hw, list_elem_of_omap. by exists (AsyncWrite b). }
      set_solver.
    + eapply sent_to_mono; [|by apply W2]. set_solver.
Qed.

Lemma accept_einv hs (s : node) error :
  einv hs s -> einv hs (Server.exec ([] : log) (AcceptDone error) s).2.
Proof.
  intros He.
  assert (Hp : forall s : node, einv hs s -> einv hs (start_accept s)).
  { intros s0 H0 c k b Hk. destruct s0 as [cs subs ob]. cbn in *.
    apply good_pending in Hk. by apply (H0 c k b). }
  unfold Server.exec. destruct (connections s) as [|k ks]; [done|]. cbn [snd].
  generalize (pred (length (k :: ks))). intros c. unfold handle_accept. destruct error; [by apply Hp|].
  pose proof (notify_created_rest c s) as [E1 _].
  destruct (notify_on_created c s) as [l s1]. cbn [snd] in E1. apply Hp.
  intros c' k' b Hk Hb. destruct s1 as [cs subs ob]. cbn in *. subst cs.
  apply list_lookup_insert_Some in Hk as [(_&E&_)|[_ Hk]]; [|by eapply He].
  simplify_eq. by apply elem_of_nil in Hb.
Qed.

Lemma run_einv hs s evs :
  einv hs s -> einv (hs ++ mjoin (run exec evs s).1) (run exec evs s).2 /\
  wrote (hs ++ mjoin (run exec evs s).1) (mjoin (run exec evs s).1).
Proof.
  revert hs s. induction evs as [|e evs IH]; intros hs s He.
  { cbn. rewrite app_nil_r. split; [done|]. intros c' b. set_solver. }
  rewrite run_cons. cbn [fst snd]. rewrite mjoin_cons.
  assert (H1 : einv (hs ++ (exec e s).1) (exec e s).2 /\
               wrote (hs ++ (exec e s).1) (exec e s).1).
  { assert (Hn : forall s', einv hs s' -> einv (hs ++ []) s' /\ wrote (hs ++ []) []).
    { intros s' H'. rewrite app_nil_r. split; [done|]. intros c' b. set_solver. }
    destruct e as [error|c e now|e]; cbn [exec fst snd].
    - apply Hn. by apply accept_einv.
    - destruct (conn_local e) eqn:El; [by apply conn_step_einv|by apply Hn].
    - destruct (user_local e); [|by apply Hn]. destruct (user_step_einv hs s e He) as [H1 W1].
      split; [done|]. intros c b Hb. eapply sent_to_mono; [|by apply W1]. set_solver. }
  destruct H1 as [H1 W1]. destruct (IH _ _ H1) as [H2 W2].
  rewrite <- (app_assoc hs) in *. split; [done|].
  intros c b [Hb|Hb]%elem_of_app; [|by apply W2].
  eapply sent_to_mono; [|by apply W1]. set_solver.
Qed.
End node.

Module NodeProperties.
Import MessageTypes.

(** A concrete instance of the parameters: pings and logins. *)
Definition parses_all (t : MessageType) (p : raw_buffer) : bool := true.
Definition decode_demo (t : MessageType) (p : raw_buffer) : client_request :=
  if t =? kPing then RPing else RJob (ReqLogin "al").
Definition decode_room_none (t : MessageType) (p : raw_buffer)
    : option (Z * room_response + string * room_notification) := None.
Definition encode_demo (m : client_message) : raw_buffer :=
  match m with Pong => [Init.Byte.x01] | _ => [Init.Byte.x02] end.
Notation exec_demo := (exec parses_all decode_demo decode_room_none encode_demo).

Definition read_frame (t : MessageType) : Connection.event :=
  ReadDone no_error (frame t [] ++ repeat Init.Byte.x00 116) 12 false.

(** A client connects and pings; the pong is sent and written. *)
Definition ping_events : list event :=
  [Accept false; OnConn 0 (RunTask false) 0; OnConn 0 (read_frame kPing) 0]
  ++ repeat (OnConn 0 (SenderStep 0 false false false) 0) 5
  ++ [OnConn 0 (RunTask false) 0; OnConn 0 (RunTask false) 0].

Lemma ping_events_fine : Forall event_fine ping_events.
Proof. repeat constructor; cbn; lia. Qed.



(** Clients receive only what was sent to them.  Every buffer given to
    [async_write] on a connection is the serialisation of a message a job or
    the ping handler sent to that connection, whatever the interleaving of the
    senders of all connections. *)
Theorem egress_isolated parses decode decode_room encode evs c b :
  let hs := mjoin (run (exec parses decode decode_room encode) evs node_start).1 in
  OnSocket c (AsyncWrite b) ∈ hs ->
  exists j m, OnUser (ToClient j c m) ∈ hs /\ b = encode m.
Proof.
  cbn zeta. intros Hb.
  assert (H0 : einv encode [] node_start) by (intros [|[|c']] conn b'; done).
  destruct (run_einv parses decode decode_room encode [] _ evs H0) as [_ W].
  by apply (W c b).
Qed.

Lemma egress_isolated_witness :
  exists j m, OnUser (ToClient j 0 m) ∈ mjoin (run exec_demo ping_events node_start).1 /\
    [Init.Byte.x01] = encode_demo m.
Proof.
  apply (egress_isolated parses_all decode_demo decode_room_none encode_demo ping_events).
  vm_compute. repeat constructor.
Defined.

(** A session that nobody holds: it is in no map, its strand is empty and no
    job belongs to it. *)
Definition unreferenced (u : user_server) (i : nat) : bool :=
  bool_decide (map_Forall (fun _ i' => i' <> i) (sessions_ u)) &&
  bool_decide (map_Forall (fun _ i' => i' <> i) (uid_sessions_ u)) &&
  match heap_ u !! i with Some x => bool_decide (length (Sessions.strand_ x) = 0%nat) | None => true end &&
  forallb (fun x => negb (bool_decide (session_ x = i))) (jobs_ u).

(** [handle_read] does not look at [closed_]: a read that has completed when the
    connection is closed is still dispatched, to the [session*] attached at
    the beginning, although the session is no longer referenced by anything
    that would keep it alive. *)
Lemma late_read_dispatches :
  let r := run exec_demo (ping_events ++
    [OnConn 0 (WriteDone broken_pipe false) 0; OnSessions (RunStrand 0 0)]) node_start in
  let r' := exec_demo (OnConn 0 (read_frame kReqLogin) 0) r.2 in
  from_option (fun u => unreferenced u 0) false (observers r.2 !! 0%nat) = true /\
  r'.1 = [Dispatched 0 (SessionRecv 0 kReqLogin [])].
Proof. split; vm_compute; reflexivity. Qed.
End NodeProperties.
