(* ===== verification/Delivery.v ===== *)
(** * Delivery: from a session to its client

    The way of a message of the User server to the client, over the models of
    its stations: a session sends it ([Sessions]), the connection writes its
    frame ([Connection], [Node]), TCP carries bytes in pieces of any size, and
    the interpreter of the client, the same class as the server's, cuts them
    into messages again ([Interpreter]).  TCP is not modelled: what the client
    has read is a prefix of what was written. *)

From S2P Require Import Prelude Wire Interpreter Connection Server Sessions Node.
Import interpreter recorder serializer.

(** ** A prefix of a sequence of frames *)

(** It holds a prefix of the messages, and the beginning of one more. *)
Lemma stream_prefix b ms :
  Forall wf_message ms -> b `prefix_of` frames ms ->
  exists ms' rest, stream b ms' (Rest rest) /\ ms' `prefix_of` ms.
Proof.
  intros Hw [c E]. destruct (stream_total b) as (ms1&[rest|]&Hs).
  - destruct (stream_total (rest ++ c)) as (ms2&r2&Hs2).
    pose proof (stream_extend _ _ _ _ _ _ Hs Hs2) as Hx. rewrite <- E in Hx.
    destruct (stream_det _ _ _ _ _ (stream_frames ms Hw) Hx) as [-> _].
    exists ms1, rest. split; [done|by apply prefix_app_r].
  - pose proof (stream_bad_extend b ms1 c Hs) as Hx. rewrite <- E in Hx.
    by destruct (stream_det _ _ _ _ _ (stream_frames ms Hw) Hx).
Qed.

Lemma dispatch_all_recorder l ms (d : log) :
  dispatch_all l ms d = d ++ ((fun m => (m.1, m.2, l)) <$> ms).
Proof.
  revert d. induction ms as [|m ms IH]; intros d; cbn; [by rewrite app_nil_r|].
  unfold dispatch_all in IH. rewrite IH. unfold dispatch, recorder_dispatch. by rewrite <- app_assoc.
Qed.

(** ** What a connection has written *)

Definition written (c : nat) (hs : list happening) : list raw_buffer :=
  omap (fun h => match h with
                 | OnSocket c' (AsyncWrite b) => if decide (c' = c) then Some b else None
                 | _ => None
                 end) hs.

Lemma elem_of_written c hs b : b ∈ written c hs <-> OnSocket c (AsyncWrite b) ∈ hs.
Proof.
  unfold written. rewrite list_elem_of_omap. split.
  - intros ([| |c' []]&Hh&E); simplify_eq/=. case_decide; by simplify_eq.
  - intros Hh. exists (OnSocket c (AsyncWrite b)). split; [done|]. cbn. by rewrite decide_True.
Qed.

(** Buffers that are frames of messages with a property. *)
Lemma frames_of (P : message -> Prop) (bs : list raw_buffer) :
  (forall b, b ∈ bs -> exists m, P m /\ b = frame m.1 m.2) ->
  exists ms, Forall P ms /\ bs = (fun m => frame m.1 m.2) <$> ms.
Proof.
  induction bs as [|b bs IH]; intros Hb; [by exists []|].
  destruct (Hb b) as (m&Hm&->); [left|]. destruct IH as (ms&Hms&->); [intros b' ?; apply Hb; by right|].
  exists (m :: ms). split; [by constructor|done].
Qed.

(** What the client's interpreter makes of the bytes of a connection. *)
Lemma client_hears parses decode decode_room
    (mtype : client_message -> MessageType) (body : client_message -> raw_buffer)
    evs c l reads :
  (forall m, wf_message (mtype m, body m)) -> Forall read_ok reads ->
  let hs := mjoin (run (exec parses decode decode_room
                          (fun m => frame (mtype m) (body m))) evs node_start).1 in
  mjoin (read_bytes <$> reads) `prefix_of` mjoin (written c hs) ->
  exists ms rest,
    feed (attach_link l create) reads ([] : log)
      = Handled true (ConnInterpreter l rest) ((fun m => (m.1, m.2, l)) <$> ms) /\
    ((fun m => frame m.1 m.2) <$> ms) `prefix_of` written c hs /\
    Forall (fun x => exists j m, OnUser (ToClient j c m) ∈ hs /\ x = (mtype m, body m)) ms /\
    Z.of_nat (length rest) < kHeaderSize + kMaxPayloadSize.
Proof.
  intros Hwf Hr hs Hp.
  destruct (frames_of (fun x => exists j m, OnUser (ToClient j c m) ∈ hs /\ x = (mtype m, body m))
    (written c hs)) as (ms0&Hsent&Ew).
  { intros b Hb%elem_of_written.
    assert (H0 : einv (fun m => frame (mtype m) (body m)) [] node_start) by (intros [|[|c']] conn b'; done).
    destruct (run_einv parses decode decode_room _ [] _ evs H0) as [_ W].
    destruct (W c b Hb) as (j&m&Hm&->). exists (mtype m, body m). eauto. }
  rewrite Ew in Hp. fold (frames ms0) in Hp.
  destruct (stream_prefix _ ms0 ltac:(by eapply Forall_impl; [exact Hsent|]; intros x (j&m&_&->)) Hp)
    as (ms&rest&Hs&[ms' ->]).
  exists ms, rest. split_and!.
  - rewrite (feed_stream (attach_link l create) reads ([] : log) ms (Rest rest) (wf_interpreter_create l) Hr Hs).
    unfold result_of. by rewrite dispatch_all_recorder.
  - rewrite Ew, fmap_app. by apply prefix_app_r.
  - by apply Forall_app in Hsent as [? _].
  - apply (wf_interpreter_length (ConnInterpreter l rest)). by eapply stream_rest_short.
Qed.

Module DeliveryProperties.
Import NodeProperties.


(** A client sends a ping, and reads the answer in two pieces. *)
Definition pong_frame (m : client_message) : MessageType * raw_buffer :=
  match m with Pong => (MessageTypes.kPong, [Init.Byte.x41]) | _ => (0, []) end.

End DeliveryProperties.
