(* ===== verification/Sequence.v ===== *)
(** * Sequence: a client reads messages in the order they were sent

    [Pipeline] for all the connections of the User server, [Order] for its
    sessions, and [Delivery] for the client's side.  A session's jobs send from its strand, one after the
    other; the answer to a ping is sent from the thread that reads, so it may
    overtake: [p] tells which messages are followed. *)

From S2P Require Import Prelude Wire Interpreter Connection Pipeline Server Sessions Order Logins Handles.
From S2P Require Import Addresses Node Delivery.
From coqutil Require Import Datatypes.RecordSetters.
Import TriangleBracketNotations.
Import interpreter recorder serializer.
#[local] Arguments constant {_} _ _ /.

Section sequence.
Context (parses : MessageType -> raw_buffer -> bool)
        (decode : MessageType -> raw_buffer -> client_request)
        (decode_room : MessageType -> raw_buffer -> option (Z * room_response + string * room_notification))
        (encode : client_message -> raw_buffer).
Context (p : raw_buffer -> bool).

Notation sel := (filter (fun b : raw_buffer => p b = true)).
Notation exec := (Node.exec parses decode decode_room encode).
Notation pipe := (pipe (D := log)).

(** The frames the sessions sent to connection [c], in the order of the calls. *)
Definition sent_frames (c : nat) (hs : list happening) : list raw_buffer :=
  omap (fun h => match h with
                 | OnUser (ToClient _ c' m) => if decide (c' = c) then Some (encode m) else None
                 | _ => None
                 end) hs.

Definition pipe_at (s : node) (c : nat) : list raw_buffer :=
  match connections s !! c with Some (Some conn) => pipe conn | _ => [] end.

(** What is written was on its way or is sent meanwhile, in this order. *)
Definition flows (s : node) (hs : list happening) (s' : node) : Prop :=
  forall c, sel (written c hs) ++ sel (pipe_at s' c) `sublist_of` sel (pipe_at s c) ++ sel (sent_frames c hs).

Lemma written_app c hs hs' : written c (hs ++ hs') = written c hs ++ written c hs'.
Proof. apply omap_app. Qed.

Lemma sent_frames_app c hs hs' : sent_frames c (hs ++ hs') = sent_frames c hs ++ sent_frames c hs'.
Proof. apply omap_app. Qed.

Lemma flows_trans s hs s' hs' s'' : flows s hs s' -> flows s' hs' s'' -> flows s (hs ++ hs') s''.
Proof.
  intros H1 H2 c. rewrite written_app, sent_frames_app, !filter_app, <- (assoc_L (++)).
  etrans; [apply sublist_app; [done|apply H2]|]. rewrite !(assoc_L (++)). apply sublist_app; [apply H1|done].
Qed.

Lemma flows_pipe s s' : (forall c, pipe_at s' c = pipe_at s c) -> flows s [] s'.
Proof.
  intros E c. change (written c []) with (@nil raw_buffer). change (sent_frames c []) with (@nil raw_buffer).
  by rewrite E, filter_nil, app_nil_r.
Qed.

Lemma flows_conns (s s' : node) : connections s' = connections s -> flows s [] s'.
Proof. intros E. apply flows_pipe. intros c. unfold pipe_at. by rewrite E. Qed.

(** ** The sends of the sessions *)

(** One call on a connection; its effects are no writes. *)
Lemma flows_on_connection c e s hs :
  (forall conn : tcp_connection log, in_turn p e conn) -> (forall c', written c' hs = []) -> sent_frames c hs = event_msgs e ->
  flows s hs (on_connection c e s).2.
Proof.
  intros Ht Hw Hs c'. unfold on_connection.
  destruct (connections s !! c) as [[conn|]|] eqn:Hc; cbn [snd].
  2,3: rewrite Hw, filter_nil; by apply sublist_inserts_r.
  pose proof (drains_exec p e conn (Ht conn)) as Hd.
  destruct (Connection.exec e conn) as [es conn']. cbn [fst snd] in *.
  assert (E : forall s' : node, connections s' = <[c := Some conn']> (connections s) ->
    sel (written c' hs) ++ sel (pipe_at s' c') `sublist_of` sel (pipe_at s c') ++ sel (sent_frames c' hs)).
  { intros s' E. unfold pipe_at. rewrite E. destruct (decide (c' = c)) as [->|Hne].
    - rewrite Hw, Hs, list_lookup_insert_eq, Hc by (by eapply lookup_lt_Some). rewrite filter_nil. cbn [app].
      etrans; [|exact Hd]. by apply sublist_inserts_l.
    - rewrite list_lookup_insert_ne by done. rewrite Hw, filter_nil. by apply sublist_inserts_r. }
  destruct (existsb is_on_closed es); apply E; by destruct s.
Qed.

Lemma flows_silent hs s s' :
  (forall c, written c hs = []) -> flows s [] s' -> flows s hs s'.
Proof.
  intros Hw Hf c. specialize (Hf c). rewrite Hw, filter_nil. cbn [app].
  change (written c []) with (@nil raw_buffer) in Hf. change (sent_frames c []) with (@nil raw_buffer) in Hf.
  rewrite filter_nil, app_nil_r in Hf. cbn [app] in Hf. by apply sublist_inserts_r.
Qed.

Lemma flows_output e s : flows s [OnUser e] (output encode s e).
Proof.
  assert (Hw : forall c, written c [OnUser e] = []) by done.
  destruct e as [j c m|m|c f| |]; cbn [output]; try (by apply flows_silent, flows_conns).
  - apply flows_on_connection; [done|done|]. cbn. by rewrite decide_True.
  - by apply flows_on_connection.
Qed.

Lemma flows_outputs es s : flows s (OnUser <$> es) (foldl (output encode) s es).
Proof.
  revert s. induction es as [|e es IH]; intros s; [by apply flows_conns|].
  cbn [foldl]. exact (flows_trans _ [OnUser e] _ _ _ (flows_output e s) (IH _)).
Qed.

Lemma flows_user_step e s : flows s (user_step encode e s).1 (user_step encode e s).2.
Proof.
  unfold user_step. destruct (observers s !! 0%nat) as [u|]; [|by apply flows_conns].
  destruct (Sessions.exec e u) as [es u']. cbn [fst snd].
  apply (flows_trans _ [] (s <| observers := <[0%nat := u']> (observers s) |>)); [|apply flows_outputs].
  apply flows_conns. by destruct s.
Qed.

Lemma flows_deliver c now ms s :
  flows s (deliver parses decode decode_room encode c now ms s).1
    (deliver parses decode decode_room encode c now ms s).2.
Proof.
  revert s. induction ms as [|m ms IH]; intros s; cbn [deliver]; [by apply flows_conns|].
  assert (H1 : flows s (deliver_one parses decode decode_room encode c now m s).1
    (deliver_one parses decode decode_room encode c now m s).2).
  { unfold deliver_one. cbn zeta. destruct (session_event _ _ _ _) as [e|]; [|by apply flows_silent, flows_conns].
    pose proof (flows_user_step e s) as H1. destruct (user_step encode e s) as [hs1 s1].
    apply (flows_trans _ [Dispatched c _] s); [by apply flows_silent, flows_conns|done]. }
  destruct (deliver_one _ _ _ _ _ _ _ s) as [hs1 s1]. specialize (IH s1).
  destruct (deliver _ _ _ _ _ _ _ s1) as [hs2 s2]. by eapply flows_trans.
Qed.

(** ** The connections *)

(** The followed sends of a connection post one after the other. *)
Definition turn (e : Node.event) (s : node) : Prop :=
  match e with
  | OnConn c e _ =>
      match connections s !! c with Some (Some conn) => in_turn p e conn | _ => True end
  | _ => True
  end.

Lemma written_socket c c' es :
  written c' (OnSocket c <$> es) = if decide (c = c') then writes es else [].
Proof.
  unfold written, writes. induction es as [|e es IH]; [by case_decide|].
  cbn. rewrite IH. by destruct e; repeat case_decide.
Qed.

Lemma sent_socket c c' es : sent_frames c' (OnSocket c <$> es) = [].
Proof. by induction es. Qed.

Lemma flows_conn_step c e now s :
  conn_local e = true -> turn (OnConn c e now) s ->
  flows s (conn_step parses decode decode_room encode c e now s).1
    (conn_step parses decode decode_room encode c e now s).2.
Proof.
  intros Hl Ht. unfold conn_step. cbn [turn] in Ht.
  destruct (connections s !! c) as [[conn|]|] eqn:Hc; try (by apply flows_conns).
  pose proof (drains_exec p e conn Ht) as Hd. assert (Em : event_msgs e = []) by (by destruct e).
  rewrite Em, filter_nil, app_nil_r in Hd.
  destruct (Connection.exec (D := log) e conn) as [es conn']. cbn [fst snd] in *.
  set (s1 := s <| connections := _ |>).
  assert (H1 : flows s (OnSocket c <$> es) s1).
  { intros c'. rewrite written_socket, sent_socket, filter_nil, app_nil_r.
    assert (E : connections s1 = <[c := Some (drained conn')]> (connections s)) by (by destruct s).
    unfold pipe_at. rewrite E. case_decide as Ec.
    - subst c'. rewrite list_lookup_insert_eq, Hc by (by eapply lookup_lt_Some).
      replace (pipe (drained conn')) with (pipe conn') by (by destruct conn'). done.
    - by rewrite list_lookup_insert_ne, filter_nil. }
  pose proof (flows_deliver c now (dispatcher_ conn') s1) as H2.
  destruct (deliver _ _ _ _ _ _ _ s1) as [hs2 s2]. cbn [fst snd] in *.
  pose proof (flows_trans _ _ _ _ _ H1 H2) as H3. destruct (existsb is_on_closed es); [|done].
  rewrite <- (app_nil_r (_ ++ hs2)). apply (flows_trans _ _ _ _ _ H3). apply flows_conns. by destruct s2.
Qed.

Lemma flows_accept error s : flows s [] (Server.exec ([] : log) (AcceptDone error) s).2.
Proof.
  assert (Hp : forall s0 : node, flows s [] s0 -> flows s [] (start_accept s0)).
  { intros s0 H0. apply (flows_trans _ [] s0 []); [done|]. apply flows_pipe. intros c.
    unfold pipe_at. destruct s0 as [cs subs ob]. cbn. rewrite lookup_app.
    destruct (cs !! c); [done|]. by destruct (c - length cs)%nat. }
  unfold Server.exec. destruct (connections s) as [|k ks] eqn:Ec; [by apply flows_conns|]. cbn [snd].
  set (c := pred (length (k :: ks))). unfold handle_accept. destruct error; [by apply Hp, flows_conns|].
  pose proof (notify_created_rest c s) as [E1 _].
  destruct (notify_on_created c s) as [l s1]. cbn [snd] in E1. apply Hp.
  intros c'. change (written c' []) with (@nil raw_buffer). rewrite filter_nil. cbn [app].
  assert (E : sel (pipe_at (s1 <| connections := <[c := Some (Connection.post TStart
    (Connection.create ([] : log) l kMaxPendingSendBytes))]> (connections s1) |>) c')
    `sublist_of` sel (pipe_at s c')); [|by apply sublist_inserts_r].
  unfold pipe_at. destruct s1 as [cs subs ob]. cbn [connections] in E1. cbn. subst cs.
  destruct (decide (c' = c)) as [->|Hne]; [|by rewrite list_lookup_insert_ne].
  rewrite list_lookup_insert_eq; [apply sublist_nil_l|]. rewrite Ec. unfold c. cbn. lia.
Qed.

(** ** Runs *)

Fixpoint orderly (evs : list Node.event) (s : node) : Prop :=
  match evs with
  | [] => True
  | e :: evs => turn e s /\ orderly evs (exec e s).2
  end.

#[export] Instance turn_dec e s : Decision (turn e s).
Proof.
  destruct e as [|c e ?|]; [by left| |by left]. cbn. destruct (connections s !! c) as [[conn|]|]; [|by left..].
  apply in_turn_dec.
Defined.

#[export] Instance orderly_dec evs s : Decision (orderly evs s).
Proof.
  revert s. induction evs as [|e evs IH]; intros s; [by left|]. cbn. apply and_dec; [apply turn_dec|apply IH].
Defined.

Lemma flows_run evs s : orderly evs s -> flows s (mjoin (run exec evs s).1) (run exec evs s).2.
Proof.
  revert s. induction evs as [|e evs IH]; intros s; [by intros _; apply flows_conns|].
  intros [Ht Ho]. rewrite run_cons. cbn [fst snd]. rewrite mjoin_cons.
  apply (flows_trans _ _ (exec e s).2); [|by apply IH].
  destruct e as [error|c e now|e]; cbn [Node.exec].
  - apply flows_accept.
  - destruct (conn_local e) eqn:El; [by apply flows_conn_step|by apply flows_conns].
  - destruct (user_local e); [apply flows_user_step|by apply flows_conns].
Qed.

(** What is written on a connection was sent to it in this order. *)
Lemma written_in_order evs c :
  orderly evs node_start ->
  let hs := mjoin (run exec evs node_start).1 in
  sel (written c hs) `sublist_of` sel (sent_frames c hs).
Proof.
  intros Ho. cbn zeta. pose proof (flows_run evs node_start Ho c) as Hf.
  assert (E : pipe_at node_start c = []) by (unfold pipe_at; by destruct c as [|[]]).
  rewrite E, filter_nil in Hf. cbn [app] in Hf. etrans; [|exact Hf]. by apply sublist_inserts_r.
Qed.
End sequence.

(** ** The sessions inside the process *)

Section inside.
Context (parses : MessageType -> raw_buffer -> bool)
        (decode : MessageType -> raw_buffer -> client_request)
        (decode_room : MessageType -> raw_buffer -> option (Z * room_response + string * room_notification))
        (encode : client_message -> raw_buffer).
Notation exec := (Node.exec parses decode decode_room encode).

Definition user_effects (hs : list happening) : list Sessions.effect :=
  omap (fun h => match h with OnUser e => Some e | _ => None end) hs.

Lemma user_effects_app hs hs' : user_effects (hs ++ hs') = user_effects hs ++ user_effects hs'.
Proof. apply omap_app. Qed.

(** What happens is a run of the sessions. *)
Definition follows (s : node) (hs : list happening) (s' : node) : Prop :=
  forall u, observers s !! 0%nat = Some u -> event_subscribers_ s = {[0%nat]} ->
    exists evs, user_effects hs = mjoin (run Sessions.exec evs u).1 /\
      observers s' !! 0%nat = Some (run Sessions.exec evs u).2 /\ event_subscribers_ s' = {[0%nat]}.

Lemma follows_trans s hs s' hs' s'' : follows s hs s' -> follows s' hs' s'' -> follows s (hs ++ hs') s''.
Proof.
  intros H1 H2 u Hu Hs. destruct (H1 u Hu Hs) as (e1&E1&O1&S1). destruct (H2 _ O1 S1) as (e2&E2&O2&S2).
  exists (e1 ++ e2). rewrite run_app. cbn [fst snd]. rewrite user_effects_app, mjoin_app. split_and!; congruence.
Qed.

Lemma follows_same hs s s' :
  user_effects hs = [] -> observers s' = observers s -> event_subscribers_ s' = event_subscribers_ s ->
  follows s hs s'.
Proof. intros E Eo Es u Hu Hs. exists []. rewrite Eo, Es. done. Qed.

(** One event of the sessions. *)
Lemma follows_event e hs s s' u :
  observers s !! 0%nat = Some u -> user_effects hs = (Sessions.exec e u).1 ->
  observers s' !! 0%nat = Some (Sessions.exec e u).2 -> event_subscribers_ s' = event_subscribers_ s ->
  follows s hs s'.
Proof.
  intros Hu E Eo Es u' Hu' Hs. simplify_eq. exists [e]. rewrite run_cons. cbn [fst snd run].
  rewrite mjoin_cons. cbn. rewrite app_nil_r. split_and!; congruence.
Qed.

Lemma follows_notify_closed c s : follows s [] (notify_on_closed c s).
Proof.
  intros u Hu Hs. apply (follows_event (Closed c) [] s _ u Hu); [done| |by destruct s|done|done].
  rewrite (notify_closed_observer c s 0), decide_True by (rewrite Hs; set_solver). by rewrite Hu.
Qed.

Lemma follows_on_connection c e s : follows s [] (on_connection c e s).2.
Proof.
  unfold on_connection. destruct (connections s !! c) as [[conn|]|]; [|by apply follows_same..].
  destruct (Connection.exec e conn) as [es conn']. cbn [snd].
  set (s1 := s <| connections := _ |>). assert (H1 : follows s [] s1) by (by apply follows_same; destruct s).
  destruct (existsb is_on_closed es); [|done]. exact (follows_trans _ [] _ [] _ H1 (follows_notify_closed c s1)).
Qed.

Lemma follows_outputs es s : follows s [] (foldl (output encode) s es).
Proof.
  revert s. induction es as [|e es IH]; intros s; [by apply follows_same|]. cbn [foldl].
  apply (follows_trans _ [] (output encode s e) []); [|apply IH].
  destruct e as [j c m|m|c f| |]; cbn [output]; try (by apply follows_same); apply follows_on_connection.
Qed.

Lemma user_effects_fmap es : user_effects (OnUser <$> es) = es.
Proof. unfold user_effects. induction es as [|e es IH]; [done|]. cbn. by rewrite IH. Qed.

Lemma follows_user_step e s : follows s (user_step encode e s).1 (user_step encode e s).2.
Proof.
  unfold user_step. destruct (observers s !! 0%nat) as [u|] eqn:Hu; [|by apply follows_same].
  destruct (Sessions.exec e u) as [es u'] eqn:Ee. cbn [fst snd].
  rewrite <- (app_nil_r (OnUser <$> es)). eapply follows_trans; [|apply follows_outputs].
  apply (follows_event e _ _ _ u Hu); rewrite ?Ee; [apply user_effects_fmap| |by destruct s].
  destruct s. cbn. apply lookup_insert_eq.
Qed.

Lemma follows_deliver c now ms s :
  follows s (deliver parses decode decode_room encode c now ms s).1
    (deliver parses decode decode_room encode c now ms s).2.
Proof.
  revert s. induction ms as [|m ms IH]; intros s; cbn [deliver]; [by apply follows_same|].
  assert (H1 : follows s (deliver_one parses decode decode_room encode c now m s).1
    (deliver_one parses decode decode_room encode c now m s).2).
  { unfold deliver_one. cbn zeta. destruct (session_event _ _ _ _) as [e|]; [|by apply follows_same].
    pose proof (follows_user_step e s) as H1. destruct (user_step encode e s) as [hs1 s1].
    apply (follows_trans _ [Dispatched c _] s); [by apply follows_same|done]. }
  destruct (deliver_one _ _ _ _ _ _ _ s) as [hs1 s1]. specialize (IH s1).
  destruct (deliver _ _ _ _ _ _ _ s1) as [hs2 s2]. by eapply follows_trans.
Qed.

Lemma follows_accept error s : follows s [] (Server.exec ([] : log) (AcceptDone error) s).2.
Proof.
  unfold Server.exec. destruct (connections s) as [|k ks]; [by apply follows_same|]. cbn [snd].
  generalize (pred (length (k :: ks))). intros c. unfold handle_accept.
  destruct error; [by apply follows_same; destruct s|]. intros u Hu Hs.
  pose proof (notify_created_observer c s 0) as Ho. rewrite decide_True, Hu in Ho by (rewrite Hs; set_solver).
  destruct (notify_created_rest c s) as [_ Es]. destruct (notify_on_created c s) as [l s1]. cbn [snd] in *.
  apply (follows_event (Accepted c) [] s _ u Hu); [done|by destruct s1| |done|done]. rewrite <- Es. by destruct s1.
Qed.

Lemma follows_exec e s : follows s (exec e s).1 (exec e s).2.
Proof.
  destruct e as [error|c e now|e]; cbn [Node.exec].
  - apply follows_accept.
  - destruct (conn_local e); [|by apply follows_same]. unfold conn_step.
    destruct (connections s !! c) as [[conn|]|]; [|by apply follows_same..].
    destruct (Connection.exec (D := log) e conn) as [es conn'].
    set (s1 := s <| connections := _ |>).
    assert (H1 : follows s (OnSocket c <$> es) s1).
    { apply follows_same; [|by destruct s..]. clear. by induction es. }
    pose proof (follows_deliver c now (dispatcher_ conn') s1) as H2.
    destruct (deliver _ _ _ _ _ _ _ s1) as [hs2 s2]. cbn [fst snd] in *.
    pose proof (follows_trans _ _ _ _ _ H1 H2) as H3. destruct (existsb is_on_closed es); [|done].
    rewrite <- (app_nil_r (_ ++ hs2)). eapply follows_trans; [exact H3|apply follows_notify_closed].
  - destruct (user_local e); [apply follows_user_step|by apply follows_same].
Qed.

Lemma follows_run evs s : follows s (mjoin (run exec evs s).1) (run exec evs s).2.
Proof.
  revert s. induction evs as [|e evs IH]; intros s; [by apply follows_same|].
  rewrite run_cons. cbn [fst snd]. rewrite mjoin_cons. eapply follows_trans; [apply follows_exec|apply IH].
Qed.
End inside.

(** ** The answers of the jobs *)

Lemma sublist_fmap_inv {A B} (f : A -> B) l k :
  l `sublist_of` f <$> k -> exists k', k' `sublist_of` k /\ l = f <$> k'.
Proof.
  remember (f <$> k) as fk eqn:E. intros Hs. revert k E.
  induction Hs as [|x l fk Hs IH|x l fk Hs IH]; intros [|y k] E; simplify_eq/=.
  - by exists [].
  - destruct (IH k eq_refl) as (k'&Hk&->). exists (y :: k'). split; [by constructor|done].
  - destruct (IH k eq_refl) as (k'&Hk&->). exists k'. split; [by constructor|done].
Qed.

(** The messages of jobs to connection [c], with the jobs. *)
Definition jobs_to (c : nat) (es : list Sessions.effect) : list (nat * client_message) :=
  omap (fun e => match e with
                 | ToClient (Some j) c' m => if decide (c' = c) then Some (j, m) else None
                 | _ => None
                 end) es.

Lemma elem_of_jobs_to c es j m : (j, m) ∈ jobs_to c es <-> ToClient (Some j) c m ∈ es.
Proof.
  unfold jobs_to. rewrite list_elem_of_omap. split.
  - intros ([[j'|] c' m'| | | |]&He&E); simplify_eq/=. case_decide; by simplify_eq.
  - intros He. exists (ToClient (Some j) c m). split; [done|]. cbn. by rewrite decide_True.
Qed.

Lemma jobs_to_owned js i c es :
  (forall j m, ToClient (Some j) c m ∈ es -> owns js i j) ->
  (jobs_to c es).*1 `sublist_of` filter (owns js i) (omap sender es).
Proof.
  induction es as [|e es IH]; intros He; [done|].
  specialize (IH ltac:(intros j m Hm; eapply He; by right)).
  unfold jobs_to in *. destruct e as [[j|] c' m| | | |]; cbn [omap list_omap sender]; try exact IH.
  rewrite filter_cons. destruct (decide (c' = c)) as [->|Hne].
  - rewrite decide_True by (eapply (He j m); left). rewrite fmap_cons. by constructor.
  - destruct (decide (owns js i j)); [by constructor|exact IH].
Qed.

Section answers.
Context (parses : MessageType -> raw_buffer -> bool)
        (decode : MessageType -> raw_buffer -> client_request)
        (decode_room : MessageType -> raw_buffer -> option (Z * room_response + string * room_notification))
        (encode : client_message -> raw_buffer) (p : raw_buffer -> bool).
Notation exec := (Node.exec parses decode decode_room encode).
Notation sel := (filter (fun b : raw_buffer => p b = true)).

(** If answers to pings are not followed, what is followed is of jobs. *)
Lemma followed_jobs c hs :
  pongs (user_effects hs) -> p (encode Pong) = false ->
  sel (sent_frames encode c hs) = sel ((fun x => encode x.2) <$> jobs_to c (user_effects hs)).
Proof.
  intros Hp Hf. induction hs as [|h hs IH]; [done|].
  assert (IH' : sel (sent_frames encode c hs) = sel ((fun x => encode x.2) <$> jobs_to c (user_effects hs))).
  { apply IH. intros c' m Hm. apply (Hp c'). destruct h; [done|by right|done]. }
  unfold sent_frames, jobs_to, user_effects in *.
  destruct h as [|[[j|] c' m| | | |]|]; cbn [omap list_omap] in *; try exact IH';
    (destruct (decide (c' = c)); [|exact IH']).
  - rewrite fmap_cons, !filter_cons. cbn [snd]. destruct (decide _); [f_equal|]; exact IH'.
  - rewrite filter_cons, decide_False; [exact IH'|]. rewrite (Hp c' m) by left. by rewrite Hf.
Qed.

(** The jobs that answered on a connection, in the order of their answers. *)
Lemma jobs_to_sorted evs c :
  Forall event_fine evs ->
  StronglySorted lt (jobs_to c (user_effects (mjoin (run exec evs node_start).1))).*1.
Proof.
  intros Hfine. destruct (run_ninv parses decode decode_room encode _ _ evs Hfine ninv_start) as (u&_&I&_).
  destruct (follows_run parses decode decode_room encode evs node_start Sessions.server_start)
    as (uevs&E&Eo&_); [apply lookup_singleton_eq|set_solver|].
  assert (Eu : u = (run Sessions.exec uevs Sessions.server_start).2)
    by (pose proof (ni_user _ _ I) as Hu; congruence).
  destruct handles_start as [R0 H0]. pose proof (addressed_run uevs _ R0 H0) as Ha.
  pose proof (ordered_run_all uevs) as O. rewrite <- Eu, <- E in Ha, O.
  set (es := user_effects _) in *. clearbody es.
  destruct (jobs_to c es) as [|[j0 m0] rest] eqn:Ej; [constructor|]. rewrite <- Ej.
  assert (Hj0 : ToClient (Some j0) c m0 ∈ es) by (apply elem_of_jobs_to; rewrite Ej; left).
  assert (Hown : forall j m, ToClient (Some j) c m ∈ es -> exists i, owns (jobs_ u) i j /\ session_conn u i = Some c).
  { intros j m Hm. specialize (Ha j c m Hm). unfold job_conn in Ha. apply bind_Some in Ha as (x&Hx&Hc).
    exists (session_ x). split; [|done]. unfold owns. by rewrite Hx. }
  destruct (Hown _ _ Hj0) as (i&_&Hi). eapply sorted_sublist.
  { apply (jobs_to_owned (jobs_ u) i). intros j m Hm. destruct (Hown j m Hm) as (i'&Ho&Hi').
    destruct (ni_session _ _ I i c Hi) as (k&Hk&L). destruct (ni_session _ _ I i' c Hi') as (k'&Hk'&L').
    by simplify_eq. }
  destruct (view u i) as [v|] eqn:Hv.
  - by apply (or_sorted _ _ _ _ _ O), StronglySorted_app_1_l in Hv.
  - rewrite (logged_unseen _ _ _ i Hv (or_log _ _ _ _ _ O)). constructor.
Qed.
End answers.

Module SequenceProperties.
Import NodeProperties.


(** A client logs in, pings and logs out; the pong is overtaken. *)
Definition decode_jobs (t : MessageType) (b : raw_buffer) : client_request :=
  if t =? MessageTypes.kReqLogin then RJob (ReqLogin "al")
  else if t =? MessageTypes.kReqLogout then RJob ReqLogout else RPing.
Definition message_of (m : client_message) : MessageType * raw_buffer :=
  match m with
  | Pong => (MessageTypes.kPong, [])
  | ResLogin _ _ _ _ => (MessageTypes.kResLogin, [Init.Byte.x41])
  | ResLogout _ => (MessageTypes.kResLogout, [Init.Byte.x42])
  | _ => (MessageTypes.kPing, [])
  end.
Definition follow (b : raw_buffer) : bool := bool_decide (b <> frame MessageTypes.kPong []).
Definition send_steps (n i : nat) : list Node.event :=
  repeat (OnConn 0 (SenderStep i false false false) 0) n.
Definition run_conn (n : nat) : list Node.event := repeat (OnConn 0 (RunTask false) 0) n.
Definition job_events : list Node.event :=
  Accept false :: run_conn 1 ++ [OnConn 0 (read_frame MessageTypes.kReqLogin) 0] ++ run_conn 1 ++
  [OnConn 0 (read_frame MessageTypes.kPing) 0] ++ run_conn 1 ++
  [OnConn 0 (read_frame MessageTypes.kReqLogout) 0; OnSessions (RunStrand 0 0); OnSessions (RunStrand 0 0)] ++
  send_steps 3 0 ++ send_steps 5 1 ++ send_steps 5 2 ++ send_steps 2 0 ++ run_conn 5 ++
  repeat (OnConn 0 (WriteDone no_error false) 0) 2.

Lemma job_events_orderly :
  orderly parses_all decode_jobs decode_room_none
    (fun m => frame (message_of m).1 (message_of m).2) follow job_events node_start.
Proof. apply (bool_decide_unpack _). vm_compute. done. Qed.

End SequenceProperties.
